(* ===== verification/_CoqProject ===== *)
-Q . S2P
Prelude.v
RustStr.v
Codec.v
Canonicalize.v
Datetime.v
External.v
Reference.v
Models.v
Policy.v
SigV4.v
Service.v
Normalize.v
Control.v
Gateway.v
Providers.v
Tls.v
Upgrade.v
Server.v
System.v
Agent.v
AuditFile.v
Cli.v
Commands.v
Tasks.v
Lifetime.v
Rotation.v
Conformance.v
ConformanceControl.v
ConformanceGateway.v
Concurrency.v
Interleaving.v
Liveness.v
Isolation.v
Provenance.v
Harness.v
EndToEnd.v
