(* ===== verification/Prelude.v ===== *)
(** * hackamore: a verification development

    hackamore is a reverse proxy that gives untrusted agents policy-scoped
    access to upstream APIs. An operator mints a launch token bound to a
    policy; the agent presents it (or signs with a dummy AWS credential
    provisioned for it); the gateway authenticates, routes by [Host],
    canonicalises the path, normalises the request into an action, decides by
    the policy, injects the real credential and forwards. This library
    translates the Rust sources under [src/] into executable definitions, in
    the shape of the code, and proves what each part promises.

    ** The parts, their files and their sources

    - [Prelude] (this file): results, panics, the state-and-panic monad [eff],
      u64 arithmetic, sorting of string pairs, tactics, generic lemmas.
      [RustStr]: Rust's [str] methods the program uses, on byte strings, with
      UTF-8 and Unicode white space; integer printing and parsing.
    - [External]: interfaces (classes of operations and of laws) to the crates
      the program calls: serde_json, http, ring, uuid, base64, rustls, axum,
      the RSA and HTTP calls. [Reference]: one concrete instance of each, with
      a real SHA-256, HMAC and base64, used by witnesses only.
    - [Codec], [Datetime], [SigV4]: [gateway/src/sigv4.rs]: percent and hex
      codecs, constant-time comparison, AWS timestamps and Hinnant's calendar,
      signing, parsing and verifying Signature Version 4.
    - [Canonicalize]: [gateway/src/canonicalize.rs].
    - [Models]: [models/], the schema types; generated serde code is not
      modelled.
    - [Policy]: [policy/src/lib.rs], the pure decision function.
    - [Service]: [gateway/src/service.rs], flavors, catalogs, routing.
    - [Normalize]: [gateway/src/normalize.rs], requests into actions.
    - [Control]: [control/src/], tokens, tenants, credentials, audit sinks;
      [AuditFile] is the durable sink of [control/src/audit.rs].
    - [Gateway]: [gateway/src/core.rs], the whole request path, minting,
      revocation, sweeping and provisioning.
    - [Providers]: [control/src/providers.rs], minted and rotated credentials.
    - [Tls]: [gateway/src/tls.rs]. [Upgrade]: [gateway/src/upgrade.rs].
    - [Server]: [gateway/src/server.rs], the handlers of the two listeners.
    - [System]: no source of its own: the running server as a transition
      system over the handlers of [Server].
    - [Agent]: [agent/src/], the consumer-side setup tool over a file system.
    - [Cli]: [cli/src/], from the parsed configuration to the gateway.
      [Commands]: the commands of the two binaries, [cli/src/main.rs] and
      [agent/src/main.rs], and [serve] of [server.rs] up to its loop. [Tasks]:
      what [serve] leaves running, the sweeper and the TLS accept loop.
    - [Lifetime], [Rotation]: no source of their own: how long a capability
      lives, over the operations of [Gateway], and the refresher of
      [Providers] behind the request path of [Gateway].
    - [Concurrency], [Interleaving]: the handlers of [core.rs] once more, as
      programs whose instructions are the critical sections of the control
      plane, and a pool of them whose instructions interleave. [Liveness]:
      what the scheduler owes a live token, by a weakest precondition over the
      answers a program may get. [Isolation]: histories of requests, and what
      one key's holder sees of them. [Provenance]: where the entries of the
      token table come from, and what interleaved mints, fetches and
      revocations answer, by the moments of a run they were decided at.
    - [Conformance], [ConformanceControl], [ConformanceGateway]: the unit
      tests of the crates, one boolean each, with the tests' own inputs and
      assertions, run on the model. [Harness]: [tests/src/lib.rs], a mock
      upstream behind the server of [Server], with what a client and the
      upstream see of any request; [EndToEnd]: the scenarios of [tests/tests/],
      run on it.

    ** State and effects

    The process's shared state is [Gateway.World]: the control plane (token
    table, tenants, credential store, audit sink) and the number of UUIDs
    drawn. A method is a computation [eff World A]: it returns a value or
    panics, and the state survives a panic, as it does when one request's
    task unwinds. The clock is read once per method, so its reading is an
    argument. In [System] a handler is one step of the running server. In
    [Concurrency] an instruction is one critical section (a lock taken and
    released, a UUID drawn, an audit record), a handler is a program of them
    and they interleave freely, with refreshes of the vault between any two;
    [Concurrency.run_code] shows that a program run alone is the handler, and
    [concurrent_handle_linearises] that the request path is one handler step
    also when it is not alone. The refresher of [Providers] is a task of timed
    steps, one for each tick and each mint it awaits ([task_step]);
    [task_refresher] shows that [refresh_due], the call as one step, is what
    it does when a call takes no time. The network is adversarial:
    [Upgrade.Net] answers each request arbitrarily, and what the server did to
    it is a list of events; the redirects the HTTP client chooses to follow
    inside one call are events too ([FollowRedirect]).

    ** What the theorems show

    - Mediation: [Gateway.forward_only_if_allowed], [handle_refines] (a staged
      specification of every answer and audit event), [authenticate_exact],
      [forward_headers], [one_audit_event], [handle_total]; over whole runs,
      [System.traffic_authorised] (what a request makes the server do on the
      network is that request's traffic, and its own action is one the policy
      it proved allows), and from the configuration file,
      [Cli.configured_confinement]. From the client's request to what the
      upstream received: [Harness.request_end_to_end].
    - Concurrency: [Concurrency.concurrent_handle_linearises];
      [Interleaving.concurrent_traffic_authorised] (mediation of the traffic
      itself under any interleaving), [concurrent_revocation_final],
      [token_table_well_typed], [concurrent_audit_complete] (the log holds the
      events each request owes, allow or deny of its own action) and
      [requests_terminate]; [Liveness.live_token_served], that a live token's
      allowed request is forwarded whatever is interleaved;
      [Provenance.capability_provenance], that every key in the table was
      minted or provisioned from one that was, and the answers of interleaved
      control requests ([concurrent_mint_spec], [concurrent_provision_spec],
      [concurrent_revoke_spec]).
    - Non-interference: [Isolation.keys_isolated], that other holders' and
      operators' actions cannot be observed through a token, on the proxy, the
      provision endpoint or by its revocation.
    - Tokens and tenants: [Control.tokens_refine_history] against a history
      specification, [System.revocation_final], [Gateway.tenant_isolation],
      [mint_checked_spec], [validate_catalog_spec]; [Tasks.sweeper_reclaims].
    - Provisioning: [Gateway.provision_spec], [provision_no_secrets] (non
      interference with the vault), [dummy_expiry_bound],
      [System.provisioned_credential_signs], [Lifetime.capability_renewal].
    - Policies: [Policy.decide_first_match], [glob_matches_correct];
      [Normalize.unparsed_denied], [capture_wins], [merge_fields_precedence];
      [Canonicalize.path_idempotent], [path_escape_iff].
    - Signatures: [SigV4.verify_spec], [sign_verify],
      [signature_binds_request], and [Providers.eks_signature_is_sigv4], that
      the control plane's copy of the signer agrees with the gateway's.
    - Codecs and calendar: [Datetime.civil_calendar],
      [amz_datetime_roundtrip], [Codec.percent_decode_uri_encode],
      [Tls.pem_roundtrip].
    - Credentials and audit: [Providers.refresher_serves_live] (at its ticks,
      and in every state of the task between awaits), [refresh_due_spec],
      [Rotation.rotated_credential_fresh] (what the upstream of a rotated
      credential receives, with the pace of [main.rs]), [Cli.build_credentials_resolve],
      [AuditFile.file_audit_durable].
    - The edge: [Server.serve_proxy_spec], [Upgrade.upstream_pinned],
      [Agent.setup_confined], [teardown_undoes_setup], [merge_lines_union],
      [Commands.serve_command_starts], [fetch_from_server].

    Other lemmas record behaviour that differs from the comments of the code:
    [Codec.percent_decode_panics], [Control.access_key_id_is_bearer],
    [Normalize.unparsed_allowed_without_verbs], [Gateway.dummy_outlives_token],
    [unauthenticated_not_audited], [Server.reserved_prefix_proxied],
    [redirect_leaves_upstream], [Cli.provider_does_not_shadow],
    [Agent.teardown_deletes_merged_lines], [second_setup_forgets],
    [Lifetime.capability_renewal], [revoke_leaves_dummies],
    [revoke_reports_expired], [Commands.mint_command_needs_open_server] and a
    few more.

    ** Fuel and bounds

    [RustStr.show_dec] prints with 20 digits, enough below 2^64. The PEM loop
    ([Tls.pem_loop]) runs on one more step than the text has bytes;
    [Tls.pem_blocks_total] shows it never runs out, since every block shortens
    the rest. [RustStr.trim_start_str] strips at most as many matches as
    there are bytes. Millisecond arithmetic saturates at 2^64 - 1 where the
    code's does; timestamps in round trips are bounded by the year 9999.

    A request of the pool needs no fuel: [Interleaving.requests_terminate]
    bounds the instructions it takes.

    ** Not modelled

    Sockets, TLS handshakes, timers, the byte tunnel of an upgrade, argument
    parsing and logging are I/O. The JSON codecs that serde derives for the
    configuration and that the build generates for the schemas are generated
    code, so the unit tests that only exercise them and those that read the
    clock are not in the conformance files; the tests that need an RSA key run
    on a stand-in for it.
    The end-to-end scenarios run on the handlers behind the listeners' routers,
    without sockets; the HTTP client's normalisation of URLs is left out, and
    which redirects it follows is the library's choice: they are part of what
    [Upgrade.net_http] answers, and no theorem bounds where they lead. The
    timer of the refresher fires on time, and a call of it takes at most a
    given time.
    Inside the pool a credential store is one lookup; the two locks of the
    caching store are taken in it. *)

From stdpp Require Export base tactics list gmap strings sorting.
From Stdlib Require Export ZArith Lia.
From Stdlib Require Import Ascii.

(** ** Notations

    The development's own notations live in [hk_scope]. *)

Declare Scope hk_scope.
Delimit Scope hk_scope with hk.
Open Scope hk_scope.

(** String equality as the boolean test the code performs. *)
Infix "=s" := String.eqb (at level 70, no associativity) : hk_scope.
(** Byte equality. *)
Infix "=b" := Ascii.eqb (at level 70, no associativity) : hk_scope.

(** ** Results and panics *)

(** Rust's [Result<T, E>]. *)
Inductive result (T E : Type) : Type :=
| Ok (t : T)
| Err (e : E).
Arguments Ok {T E} t.
Arguments Err {T E} e.

(** Rust's [?]. *)
Notation "'try' x := r 'in' k" := (match r with Ok x => k | Err e => Err e end)
  (at level 200, x binder, r at level 100, k at level 200) : hk_scope.

(** A computation that either finishes or panics (a slice off a character
    boundary, an out-of-range index). *)
Inductive comp (A : Type) : Type :=
| Done (a : A)
| Panic.
Arguments Done {A} a.
Arguments Panic {A}.

#[export] Instance comp_ret : MRet comp := fun A a => Done a.
#[export] Instance comp_bind : MBind comp := fun A B f c =>
  match c with Done a => f a | Panic => Panic end.
#[export] Instance comp_fmap : FMap comp := fun A B f c =>
  match c with Done a => Done (f a) | Panic => Panic end.

(** Run a fallible-by-panic computation over a list, left to right. *)
Fixpoint comp_map {A B} (f : A -> comp B) (l : list A) : comp (list B) :=
  match l with
  | [] => Done []
  | x :: l' => y ← f x; ys ← comp_map f l'; Done (y :: ys)
  end.

(** ** The state-and-panic monad

    A computation over a store [S]: the store survives a panic, as the
    process's shared state does when one request's task unwinds. *)
Definition eff (S A : Type) : Type := S -> comp A * S.

#[export] Instance eff_ret {S} : MRet (eff S) := fun A a s => (Done a, s).
#[export] Instance eff_bind {S} : MBind (eff S) := fun A B f m s =>
  match m s with
  | (Done a, s') => f a s'
  | (Panic, s') => (Panic, s')
  end.

Definition eff_get {S} : eff S S := fun s => (Done s, s).
Definition eff_modify {S} (f : S -> S) : eff S unit := fun s => (Done tt, f s).
(** Run a store-free computation that may panic. *)
Definition eff_lift {S A} (c : comp A) : eff S A := fun s => (c, s).

(** ** Unsigned 64-bit arithmetic *)

Definition U64_MAX : Z := 18446744073709551615.
Definition is_u64 (z : Z) : Prop := (0 <= z <= U64_MAX)%Z.
Definition u64_saturating_add (a b : Z) : Z := Z.min (a + b) U64_MAX.
Definition u64_saturating_mul (a b : Z) : Z := Z.min (a * b) U64_MAX.
Definition u64_saturating_sub (a b : Z) : Z := Z.max (a - b) 0.
Definition u64_abs_diff (a b : Z) : Z := Z.abs (a - b).

(** ** Sorting pairs of strings

    The order [Vec<(String, String)>::sort] uses: bytewise lexicographic on
    the first components, then on the second. *)

Definition spair_le (p q : string * string) : Prop :=
  if decide (p.1 = q.1) then String.le p.2 q.2 else String.le p.1 q.1.

#[export] Instance spair_le_dec : RelDecision spair_le.
Proof. intros p q. unfold spair_le. destruct (decide (p.1 = q.1)); apply _. Defined.

#[export] Instance spair_le_total : Total spair_le.
Proof.
  intros [a b] [c d]. unfold spair_le. simpl.
  repeat case_decide; subst; try done; apply String.le_total.
Qed.

#[export] Instance spair_le_trans : Transitive spair_le.
Proof.
  intros [a b] [c d] [e f]. unfold spair_le. simpl.
  repeat case_decide; subst; intros; try done.
  - by transitivity d.
  - exfalso. apply H0. by apply (anti_symm String.le).
  - by transitivity c.
Qed.

#[export] Instance spair_le_antisymm : AntiSymm (=) spair_le.
Proof.
  intros [a b] [c d]. unfold spair_le. simpl.
  repeat case_decide; subst; try done; intros.
  - f_equal. by apply (anti_symm String.le).
  - exfalso. apply H. by apply (anti_symm String.le).
Qed.

Definition sort_pairs (l : list (string * string)) : list (string * string) :=
  merge_sort spair_le l.

Lemma sort_pairs_perm l : sort_pairs l ≡ₚ l.
Proof. apply merge_sort_Permutation. Qed.

(** Sorting depends only on the multiset. *)
Lemma sort_pairs_proper l1 l2 : l1 ≡ₚ l2 -> sort_pairs l1 = sort_pairs l2.
Proof.
  intros Hp. apply (Sorted_unique spair_le); [apply (Sorted_merge_sort _)..|].
  by rewrite !sort_pairs_perm.
Qed.

(** ** Automation *)

Create HintDb hk.

(** Break the monadic binds and matches of a hypothesis one scrutinee at a
    time, and close the impossible branches. *)
Ltac hk_inv :=
  repeat match goal with
  | H : Done _ = Done _ |- _ => injection H as H; try subst
  | H : Ok _ = Ok _ |- _ => injection H as H; try subst
  | H : Err _ = Err _ |- _ => injection H as H; try subst
  | H : Some _ = Some _ |- _ => injection H as H; try subst
  | H : (_, _) = (_, _) |- _ => injection H as H; try subst
  | H : Panic = Done _ |- _ => discriminate H
  | H : Done _ = Panic |- _ => discriminate H
  | H : Ok _ = Err _ |- _ => discriminate H
  | H : Err _ = Ok _ |- _ => discriminate H
  | H : None = Some _ |- _ => discriminate H
  | H : Some _ = None |- _ => discriminate H
  end.

(** Join two equations with one left-hand side. *)
Ltac hk_same :=
  simplify_eq;
  repeat match goal with
  | H1 : ?x = ?a, H2 : ?x = ?b |- _ => rewrite H1 in H2; first [discriminate H2 | injection H2; clear H2; intros; subst]
  end; simplify_eq.

(** Run the head steps of an effectful computation applied to a store. *)
Ltac eff_run := cbv beta iota zeta delta [mbind mret eff_bind eff_ret eff_lift].
Tactic Notation "eff_run" "in" hyp(H) :=
  cbv beta iota zeta delta [mbind mret eff_bind eff_ret eff_lift] in H.

(** Close an equation by evaluating both sides, without reading the result
    back. *)
Ltac hk_vm :=
  lazymatch goal with |- ?a = ?b => vm_cast_no_check (@eq_refl _ b) end.

(** ** Facts about the monads *)

Lemma comp_bind_done {A B} (f : A -> comp B) (c : comp A) (b : B) :
  c ≫= f = Done b <-> exists a, c = Done a /\ f a = Done b.
Proof.
  split.
  - destruct c as [a|]; [|discriminate]. intros H. by exists a.
  - by intros (a & -> & H).
Qed.

Lemma comp_fmap_done {A B} (f : A -> B) (c : comp A) (b : B) :
  f <$> c = Done b <-> exists a, c = Done a /\ b = f a.
Proof.
  split.
  - destruct c as [a|]; [|discriminate]. intros [= <-]. by exists a.
  - by intros (a & -> & ->).
Qed.

Lemma comp_map_app {A B} (f : A -> comp B) (l1 l2 : list A) :
  comp_map f (l1 ++ l2) =
  (y1 ← comp_map f l1; y2 ← comp_map f l2; Done (y1 ++ y2)).
Proof.
  induction l1 as [|x l1 IH]; simpl.
  - by destruct (comp_map f l2).
  - destruct (f x) as [y|]; simpl; [|done].
    rewrite IH. destruct (comp_map f l1) as [ys|]; simpl; [|done].
    by destruct (comp_map f l2).
Qed.

Lemma comp_map_done_map {A B} (f : A -> comp B) (g : A -> B) (l : list A) :
  (forall x, x ∈ l -> f x = Done (g x)) -> comp_map f l = Done (map g l).
Proof.
  induction l as [|x l IH]; simpl; intros Hf; [done|].
  rewrite Hf by set_solver. simpl. rewrite IH by set_solver. done.
Qed.

Lemma eff_bind_unfold {S A B} (m : eff S A) (f : A -> eff S B) (s : S) :
  (m ≫= f) s =
  match m s with (Done a, s') => f a s' | (Panic, s') => (Panic, s') end.
Proof. done. Qed.

(** ** Generic list facts *)

Lemma existsb_exists_elem {A} (f : A -> bool) (l : list A) :
  existsb f l = true <-> exists x, x ∈ l /\ f x = true.
Proof.
  rewrite existsb_exists. split; intros (x & Hx & Hf); exists x;
    (split; [|done]); by apply list_elem_of_In.
Qed.

Lemma existsb_eqb (x : string) (l : list string) : existsb (String.eqb x) l = bool_decide (x ∈ l).
Proof.
  induction l as [|y l IH]; [done|]. cbn [existsb]. rewrite IH.
  destruct (String.eqb_spec x y) as [->|Hne]; cbn [orb].
  - symmetry. apply bool_decide_eq_true_2, elem_of_cons. auto.
  - apply bool_decide_ext. rewrite elem_of_cons. tauto.
Qed.

Lemma forallb_forall_elem {A} (f : A -> bool) (l : list A) :
  forallb f l = true <-> forall x, x ∈ l -> f x = true.
Proof.
  rewrite forallb_forall. split; intros H x Hx; apply H; by apply list_elem_of_In.
Qed.

Lemma find_some_elem {A} (f : A -> bool) (l : list A) (x : A) :
  List.find f l = Some x ->
  exists l1 l2, l = l1 ++ x :: l2 /\ f x = true /\ forall y, y ∈ l1 -> f y = false.
Proof.
  induction l as [|a l IH]; simpl; [done|].
  destruct (f a) eqn:Ha.
  - intros [= ->]. exists [], l. repeat split; [done|]. set_solver.
  - intros (l1 & l2 & -> & Hx & Hy)%IH. exists (a :: l1), l2.
    repeat split; [done|]. intros y [->|Hin]%elem_of_cons; auto.
Qed.

Lemma find_none_elem {A} (f : A -> bool) (l : list A) :
  List.find f l = None <-> forall x, x ∈ l -> f x = false.
Proof.
  induction l as [|a l IH]; simpl; [set_solver|].
  destruct (f a) eqn:Ha.
  - split; [done|]. intros H. specialize (H a). rewrite Ha in H. set_solver.
  - rewrite IH. split; [|set_solver].
    intros H x [->|Hin]%elem_of_cons; auto.
Qed.

Lemma comp_map_perm {A B} (f : A -> comp B) (l1 l2 : list A) :
  l1 ≡ₚ l2 ->
  match comp_map f l1, comp_map f l2 with
  | Done y1, Done y2 => y1 ≡ₚ y2
  | Panic, Panic => True
  | _, _ => False
  end.
Proof.
  induction 1 as [|x l1 l2 _ IH|x y l|l1 l2 l3 _ IH1 _ IH2]; simpl.
  - done.
  - destruct (f x); simpl; [|done].
    destruct (comp_map f l1), (comp_map f l2); simpl; try done. by constructor.
  - destruct (f x), (f y); simpl; try done;
      destruct (comp_map f l); simpl; try done. by constructor.
  - destruct (comp_map f l1), (comp_map f l2), (comp_map f l3); try done. by etrans.
Qed.

Lemma filter_all_true {A} (f : A -> bool) l : Forall (fun x => f x = true) l -> List.filter f l = l.
Proof. induction 1 as [|x l Hx _ IH]; simpl; [done|]. by rewrite Hx, IH. Qed.

Lemma bool_decide_ext_if {A} (P Q : Prop) `{!Decision P, !Decision Q} (x y : A) :
  (P <-> Q) -> (if bool_decide P then x else y) = (if bool_decide Q then x else y).
Proof. intros HPQ. by rewrite (bool_decide_ext P Q HPQ). Qed.
