(* ===== verification/RustStr.v ===== *)
(** Rust's [str], [String], [char] and integer parsing, as far as the program
    uses them. A [str] is its UTF-8 byte sequence, a Stdlib [string] whose
    [ascii] elements are the bytes. Every function below is total and
    executable; the only partial operation the program performs on strings,
    slicing off a character boundary, is modelled where it occurs. *)

From S2P Require Import Prelude.
From Stdlib Require Import Ascii String.
From Stdlib Require Export Ascii.
Open Scope stdpp_scope.

(** ** Bytes *)

Definition byte_val (a : ascii) : Z := Z.of_N (N_of_ascii a).
Definition byte_of (z : Z) : ascii := ascii_of_N (Z.to_N z).

(** The newline byte and the one-byte string. *)
Definition newline : ascii := "010".
Definition NL : string := String newline "".

Definition in_range (lo hi z : Z) : bool := (lo <=? z)%Z && (z <=? hi)%Z.

Definition is_ascii_digit (a : ascii) : bool := in_range 48 57 (byte_val a).
Definition is_ascii_upper (a : ascii) : bool := in_range 65 90 (byte_val a).
Definition is_ascii_lower (a : ascii) : bool := in_range 97 122 (byte_val a).

(** A UTF-8 continuation byte, 0x80..0xBF: not a character boundary. *)
Definition is_cont (a : ascii) : bool := in_range 128 191 (byte_val a).

Definition byte_to_lower (a : ascii) : ascii :=
  if is_ascii_upper a then byte_of (byte_val a + 32) else a.
Definition byte_to_upper (a : ascii) : ascii :=
  if is_ascii_lower a then byte_of (byte_val a - 32) else a.

(** ** Structural helpers on byte strings *)

Fixpoint smap (f : ascii -> ascii) (s : string) : string :=
  match s with
  | "" => ""
  | String a s' => String (f a) (smap f s')
  end.

Fixpoint sforall (p : ascii -> bool) (s : string) : bool :=
  match s with
  | "" => true
  | String a s' => p a && sforall p s'
  end.

Definition sempty (s : string) : bool :=
  match s with "" => true | _ => false end.

(** The byte occurs in the string. *)
Definition has_byte (c : ascii) (s : string) : bool := negb (sforall (fun a => negb (a =b c)) s).

Definition to_ascii_lowercase : string -> string := smap byte_to_lower.
Definition to_ascii_uppercase : string -> string := smap byte_to_upper.
Definition eq_ignore_ascii_case (s t : string) : bool :=
  to_ascii_lowercase s =s to_ascii_lowercase t.

(** ** Splitting and joining on a one-byte separator *)

(** [s.split(c)]: always at least one piece. *)
Fixpoint split (c : ascii) (s : string) : list string :=
  match s with
  | "" => [""]
  | String a s' =>
      if a =b c then "" :: split c s'
      else match split c s' with
           | p :: ps => String a p :: ps
           | [] => [String a ""]
           end
  end.

(** [s.split_once(c)]: at the first occurrence. *)
Fixpoint split_once (c : ascii) (s : string) : option (string * string) :=
  match s with
  | "" => None
  | String a s' =>
      if a =b c then Some ("", s')
      else match split_once c s' with
           | Some (h, t) => Some (String a h, t)
           | None => None
           end
  end.

(** [s.rsplit_once(c)]: at the last occurrence. *)
Fixpoint rsplit_once (c : ascii) (s : string) : option (string * string) :=
  match s with
  | "" => None
  | String a s' =>
      match rsplit_once c s' with
      | Some (h, t) => Some (String a h, t)
      | None => if a =b c then Some ("", s') else None
      end
  end.

(** [s.splitn(n, c)]: at most [n] pieces, the last one unsplit. *)
Fixpoint splitn (n : nat) (c : ascii) (s : string) : list string :=
  match n with
  | O => []
  | 1%nat => [s]
  | S n' => match split_once c s with
            | Some (h, t) => h :: splitn n' c t
            | None => [s]
            end
  end.

(** [pieces.join(sep)]. *)
Fixpoint join (sep : string) (l : list string) : string :=
  match l with
  | [] => ""
  | [x] => x
  | x :: l' => x +:+ sep +:+ join sep l'
  end.

(** [iter.collect::<String>()]. *)
Fixpoint concat (l : list string) : string :=
  match l with
  | [] => ""
  | x :: l' => x +:+ concat l'
  end.

(** ** Prefixes, suffixes and trimming *)

Fixpoint strip_prefix (p s : string) : option string :=
  match p, s with
  | "", _ => Some s
  | String a p', String b s' => if a =b b then strip_prefix p' s' else None
  | String _ _, "" => None
  end.

Definition starts_with (p s : string) : bool :=
  match strip_prefix p s with Some _ => true | None => false end.

(** [s.split_once(pat)] for a pattern of several bytes: what precedes and what
    follows its first occurrence; [s.find(pat)] is the length of the first. *)
Fixpoint split_once_str (pat s : string) : option (string * string) :=
  match strip_prefix pat s with
  | Some rest => Some ("", rest)
  | None =>
      match s with
      | "" => None
      | String a s' => match split_once_str pat s' with
                       | Some (h, t) => Some (String a h, t)
                       | None => None
                       end
      end
  end.

(** [s.strip_suffix(p)]: [s = r ++ p]. *)
Fixpoint strip_suffix (p s : string) : option string :=
  if s =s p then Some ""
  else match s with
       | "" => None
       | String a s' => match strip_suffix p s' with
                        | Some r => Some (String a r)
                        | None => None
                        end
       end.

Definition ends_with (p s : string) : bool :=
  match strip_suffix p s with Some _ => true | None => false end.

(** [s.trim_start_matches(c)] for a one-byte pattern. *)
Fixpoint trim_start_matches (c : ascii) (s : string) : string :=
  match s with
  | "" => ""
  | String a s' => if a =b c then trim_start_matches c s' else s
  end.

(** [s.trim_end_matches(c)] for a one-byte pattern. *)
Fixpoint trim_end_matches (c : ascii) (s : string) : string :=
  match s with
  | "" => ""
  | String a s' =>
      match trim_end_matches c s' with
      | "" => if a =b c then "" else String a ""
      | t => String a t
      end
  end.

(** The length in bytes of the [White_Space] character the string starts
    with, 0 if it starts with none. The list is Unicode's [White_Space]
    property in UTF-8: U+0009-000D, U+0020, U+0085, U+00A0, U+1680,
    U+2000-200A, U+2028, U+2029, U+202F, U+205F, U+3000. *)
Definition ws_len (s : string) : nat :=
  match s with
  | "" => 0
  | String a s1 =>
      let x := byte_val a in
      if in_range 9 13 x || (x =? 32)%Z then 1
      else match s1 with
      | "" => 0
      | String b s2 =>
          let y := byte_val b in
          if (x =? 194)%Z && ((y =? 133)%Z || (y =? 160)%Z) then 2
          else match s2 with
          | "" => 0
          | String c _ =>
              let z := byte_val c in
              if ((x =? 225) && (y =? 154) && (z =? 128))%Z then 3
              else if ((x =? 226) && (y =? 128))%Z
                      && (in_range 128 138 z || (z =? 168)%Z || (z =? 169)%Z || (z =? 175)%Z)
              then 3
              else if ((x =? 226) && (y =? 129) && (z =? 159))%Z then 3
              else if ((x =? 227) && (y =? 128) && (z =? 128))%Z then 3
              else 0
          end
      end
  end%nat.

Fixpoint sdrop (n : nat) (s : string) : string :=
  match n, s with
  | O, _ => s
  | S n', String _ s' => sdrop n' s'
  | S _, "" => ""
  end.

(** Drop leading whitespace; [skip] counts the bytes of a whitespace
    character still to be dropped. *)
Fixpoint trim_start_go (s : string) (skip : nat) : string :=
  match s with
  | "" => ""
  | String _ s' =>
      match skip with
      | S k => trim_start_go s' k
      | O => match ws_len s with
             | O => s
             | S k => trim_start_go s' k
             end
      end
  end.

(** [s.trim_start()]. *)
Definition trim_start (s : string) : string := trim_start_go s 0.

(** [s.trim_end()]: cut at the first boundary from which everything is
    whitespace. *)
Fixpoint trim_end (s : string) : string :=
  match s with
  | "" => ""
  | String a s' => if sempty (trim_start s) then "" else String a (trim_end s')
  end.

(** [s.trim()]. *)
Definition trim (s : string) : string := trim_end (trim_start s).

(** Drop every whitespace character; [skip] as in [trim_start_go]. *)
Fixpoint strip_ws_go (s : string) (skip : nat) : string :=
  match s with
  | "" => ""
  | String a s' =>
      match skip with
      | S k => strip_ws_go s' k
      | O => match ws_len s with
             | O => String a (strip_ws_go s' 0)
             | S k => strip_ws_go s' k
             end
      end
  end.

(** [s.split_whitespace().collect::<String>()]. *)
Definition strip_ws (s : string) : string := strip_ws_go s 0.

(** [s.trim_start_matches(p)] for a pattern of several bytes; every match
    shortens the string, so its length bounds the matches. *)
Fixpoint trim_start_str_go (fuel : nat) (p s : string) : string :=
  match fuel with
  | O => s
  | S f => match strip_prefix p s with Some r => trim_start_str_go f p r | None => s end
  end.

Definition trim_start_str (p s : string) : string := trim_start_str_go (String.length s) p s.

(** [s.lines()] without their terminators: a final newline ends the last
    line, and a carriage return before a newline belongs to the terminator. *)
Definition strip_cr (l : string) : string :=
  match strip_suffix (String "013" "") l with Some r => r | None => l end.

Fixpoint lines_go (pieces : list string) : list string :=
  match pieces with
  | [] => []
  | [l] => if sempty l then [] else [l]
  | l :: rest => strip_cr l :: lines_go rest
  end.

Definition lines (s : string) : list string := lines_go (split newline s).

(** ** UTF-8 *)

(** What [core::str] finds at the head of a byte sequence: [(true, n)], a
    well-formed character of [n] bytes, or [(false, n)], a maximal ill-formed
    sequence of [n] bytes (Unicode's table 3-7). *)
Definition utf8_head (s : string) : bool * nat :=
  match s with
  | "" => (false, 0%nat)
  | String a s1 =>
      let x := byte_val a in
      if (x <? 128)%Z then (true, 1%nat)
      else match s1 with
      | "" => (false, 1%nat)
      | String b s2 =>
          let y := byte_val b in
          if in_range 194 223 x then if in_range 128 191 y then (true, 2%nat) else (false, 1%nat)
          else
            let three := ((x =? 224)%Z && in_range 160 191 y)
                      || (in_range 225 236 x && in_range 128 191 y)
                      || ((x =? 237)%Z && in_range 128 159 y)
                      || (in_range 238 239 x && in_range 128 191 y) in
            let four := ((x =? 240)%Z && in_range 144 191 y)
                     || (in_range 241 243 x && in_range 128 191 y)
                     || ((x =? 244)%Z && in_range 128 143 y) in
            if three then
              match s2 with
              | String c _ => if is_cont c then (true, 3%nat) else (false, 2%nat)
              | "" => (false, 2%nat)
              end
            else if four then
              match s2 with
              | String c s3 =>
                  if is_cont c then
                    match s3 with
                    | String d _ => if is_cont d then (true, 4%nat) else (false, 3%nat)
                    | "" => (false, 3%nat)
                    end
                  else (false, 2%nat)
              | "" => (false, 2%nat)
              end
            else (false, 1%nat)
      end
  end.

(** U+FFFD in UTF-8. *)
Definition REPLACEMENT : string :=
  String (byte_of 239) (String (byte_of 191) (String (byte_of 189) "")).

(** [copy] bytes of a well-formed character, or [drop] bytes of an ill-formed
    sequence, are still to be consumed. *)
Fixpoint lossy_go (s : string) (copy drop : nat) : string :=
  match s with
  | "" => ""
  | String a s' =>
      match copy, drop with
      | S k, _ => String a (lossy_go s' k 0)
      | O, S k => lossy_go s' 0 k
      | O, O => match utf8_head s with
                | (true, n) => String a (lossy_go s' (n - 1) 0)
                | (false, n) => REPLACEMENT +:+ lossy_go s' 0 (n - 1)
                end
      end
  end.

(** [String::from_utf8_lossy(bytes)]. *)
Definition from_utf8_lossy (s : string) : string := lossy_go s 0 0.

Fixpoint utf8_go (s : string) (copy : nat) : bool :=
  match s with
  | "" => match copy with O => true | _ => false end
  | String _ s' =>
      match copy with
      | S k => utf8_go s' k
      | O => match utf8_head s with
             | (true, n) => utf8_go s' (n - 1)
             | (false, _) => false
             end
      end
  end.

(** The bytes are well-formed UTF-8, so they are a [str]. *)
Definition is_utf8 (s : string) : bool := utf8_go s 0.

(** [std::str::from_utf8(bytes).ok()]. *)
Definition from_utf8 (s : string) : option string :=
  if is_utf8 s then Some s else None.

(** ** Formatting integers *)

Definition digit_char (d : Z) : ascii := byte_of (48 + d).

Fixpoint dec_go (fuel : nat) (n : Z) (acc : string) : string :=
  match fuel with
  | O => acc
  | S f => let acc' := String (digit_char (n mod 10)) acc in
           if (n <? 10)%Z then acc' else dec_go f (n / 10) acc'
  end.

(** [format!("{n}")] of a non-negative 64-bit integer: 20 digits are enough
    for every value below 2^64. *)
Definition show_dec (n : Z) : string := dec_go 20 n "".

Fixpoint srepeat (a : ascii) (n : nat) : string :=
  match n with O => "" | S n' => String a (srepeat a n') end.

(** [format!("{n:0w}")] of a non-negative integer. *)
Definition show_pad (w : nat) (n : Z) : string :=
  let d := show_dec n in srepeat "0" (w - length d) +:+ d.

(** The hexadecimal digit of a nibble, [upper]case or lowercase. *)
Definition hex_char (upper : bool) (d : Z) : ascii :=
  if (d <? 10)%Z then byte_of (48 + d)
  else byte_of ((if upper then 55 else 87) + d).

(** [format!("{b:02X}")] / [format!("{b:02x}")]. *)
Definition show_hex (upper : bool) (a : ascii) : string :=
  String (hex_char upper (byte_val a / 16)) (String (hex_char upper (byte_val a mod 16)) "").

(** ** Parsing integers *)

(** [char::to_digit(radix)] on a byte, for radix 10 and 16. *)
Definition to_digit (radix : Z) (a : ascii) : option Z :=
  let x := byte_val a in
  let d := if in_range 48 57 x then (x - 48)%Z
           else if in_range 97 102 x then (x - 87)%Z
           else if in_range 65 70 x then (x - 55)%Z
           else 99%Z in
  if (d <? radix)%Z then Some d else None.

(** The digits after the sign, with checked arithmetic: [None] when a byte is
    not a digit or a partial result leaves [lo, hi]. *)
Fixpoint parse_digits (radix sign lo hi : Z) (s : string) (acc : Z) : option Z :=
  match s with
  | "" => Some acc
  | String a s' =>
      match to_digit radix a with
      | None => None
      | Some d => let acc' := (acc * radix + sign * d)%Z in
                  if in_range lo hi acc' then parse_digits radix sign lo hi s' acc' else None
      end
  end.

(** [uN::from_str_radix]: one leading [+] is accepted, [-] is not a digit. *)
Definition parse_unsigned (radix hi : Z) (s : string) : option Z :=
  match s with
  | "" | "+" | "-" => None
  | String a s' => if a =b "+" then parse_digits radix 1 0 hi s' 0
                   else parse_digits radix 1 0 hi s 0
  end.

(** [iN::from_str_radix]: one leading [+] or [-] is accepted. *)
Definition parse_signed (radix lo hi : Z) (s : string) : option Z :=
  match s with
  | "" | "+" | "-" => None
  | String a s' => if a =b "+" then parse_digits radix 1 lo hi s' 0
                   else if a =b "-" then parse_digits radix (-1) lo hi s' 0
                   else parse_digits radix 1 lo hi s 0
  end.

Definition u8_from_hex (s : string) : option Z := parse_unsigned 16 255 s.
Definition parse_u16 (s : string) : option Z := parse_unsigned 10 65535 s.
Definition parse_i64 (s : string) : option Z :=
  parse_signed 10 (-9223372036854775808) 9223372036854775807 s.

(** [s.get(a..z)] on a string whose bytes in [a, z) and at [z] are known to be
    boundaries is the substring; off a boundary or out of range it is [None]. *)
Definition is_char_boundary (s : string) (i : nat) : bool :=
  if (i =? 0)%nat || (i =? length s)%nat then true
  else match String.get i s with Some a => negb (is_cont a) | None => false end.

Definition str_get (a z : nat) (s : string) : option string :=
  if (a <=? z)%nat && (z <=? length s)%nat && is_char_boundary s a && is_char_boundary s z
  then Some (substring a (z - a) s) else None.

(** ** Lemmas: concatenation *)

Lemma sapp_nil_l (s : string) : "" +:+ s = s.
Proof. done. Qed.
Lemma sapp_cons (a : ascii) (s t : string) : String a s +:+ t = String a (s +:+ t).
Proof. done. Qed.
Lemma sapp_nil_r (s : string) : s +:+ "" = s.
Proof. induction s as [|a s IH]; [done|]. by rewrite sapp_cons, IH. Qed.
Lemma sapp_assoc (s t u : string) : (s +:+ t) +:+ u = s +:+ t +:+ u.
Proof. induction s as [|a s IH]; [done|]. by rewrite !sapp_cons, IH. Qed.
Lemma slength_app (s t : string) : String.length (s +:+ t) = (String.length s + String.length t)%nat.
Proof. induction s as [|a s IH]; [done|]. rewrite sapp_cons. simpl. by rewrite IH. Qed.

Create Rewrite HintDb hk_str.
#[export] Hint Rewrite sapp_nil_l sapp_cons sapp_nil_r sapp_assoc : hk_str.
Ltac hk_str := autorewrite with hk_str.
Tactic Notation "hk_str" "in" hyp(H) := autorewrite with hk_str in H.

Lemma sapp_inv_head (s t u : string) : s +:+ t = s +:+ u -> t = u.
Proof. induction s as [|a s IH]; [done|]. hk_str. intros [= ?]. auto. Qed.

(** ** Lemmas: byte predicates over strings *)

Lemma sforall_app (p : ascii -> bool) (s t : string) :
  sforall p (s +:+ t) = sforall p s && sforall p t.
Proof. induction s as [|a s IH]; [done|]. hk_str. simpl. by rewrite IH, andb_assoc. Qed.

Lemma sforall_impl (p q : ascii -> bool) (s : string) :
  (forall a, p a = true -> q a = true) -> sforall p s = true -> sforall q s = true.
Proof.
  intros Hpq. induction s as [|a s IH]; [done|]. simpl.
  rewrite !andb_true_iff. naive_solver.
Qed.

(** The byte [c] does not occur in [s]. *)
Definition lacks (c : ascii) (s : string) : Prop := sforall (fun a => negb (a =b c)) s = true.

#[export] Instance lacks_dec c s : Decision (lacks c s).
Proof. unfold lacks. apply _. Defined.

Lemma lacks_nil c : lacks c "".
Proof. done. Qed.

Lemma lacks_cons c a s : lacks c (String a s) <-> a <> c /\ lacks c s.
Proof.
  unfold lacks. simpl. rewrite andb_true_iff, negb_true_iff.
  destruct (Ascii.eqb_spec a c); naive_solver.
Qed.

Lemma lacks_app c s t : lacks c (s +:+ t) <-> lacks c s /\ lacks c t.
Proof. unfold lacks. by rewrite sforall_app, andb_true_iff. Qed.

(** Every byte satisfies [p], and [c] does not. *)
Lemma lacks_sforall (p : ascii -> bool) c s : p c = false -> sforall p s = true -> lacks c s.
Proof.
  intros Hc. apply sforall_impl. intros a Ha.
  destruct (Ascii.eqb_spec a c); [congruence|done].
Qed.

#[export] Hint Resolve lacks_nil : hk.

(** ** Lemmas: splitting and joining *)

Lemma split_nonempty c s : split c s <> [].
Proof.
  destruct s as [|a s]; simpl; [done|]. destruct (a =b c); [done|].
  by destruct (split c s).
Qed.

Lemma split_lacks c s : lacks c s -> split c s = [s].
Proof.
  induction s as [|a s IH]; [done|]. rewrite lacks_cons. intros [Ha Hs].
  simpl. destruct (Ascii.eqb_spec a c); [done|]. by rewrite IH.
Qed.

Lemma split_app c s t : lacks c s -> split c (s +:+ String c t) = s :: split c t.
Proof.
  induction s as [|a s IH]; rewrite ?lacks_cons; hk_str; simpl.
  - by rewrite Ascii.eqb_refl.
  - intros [Ha Hs]. destruct (Ascii.eqb_spec a c); [done|]. by rewrite IH.
Qed.

Lemma split_app_sep c s t : split c (s +:+ String c t) = split c s ++ split c t.
Proof.
  induction s as [|a s IH]; hk_str; simpl; [by rewrite Ascii.eqb_refl|].
  destruct (Ascii.eqb_spec a c); rewrite IH; [done|].
  pose proof (split_nonempty c s). by destruct (split c s).
Qed.

Lemma split_pieces_lack c s : Forall (lacks c) (split c s).
Proof.
  induction s as [|a s IH]; simpl; [by repeat constructor|].
  destruct (Ascii.eqb_spec a c); [by constructor|].
  destruct (split c s) as [|p ps]; [by repeat constructor; rewrite lacks_cons|].
  inversion_clear IH. constructor; [by rewrite lacks_cons|done].
Qed.

Lemma join_cons2 sep x y l : join sep (x :: y :: l) = x +:+ sep +:+ join sep (y :: l).
Proof. done. Qed.

Lemma join_split c s : join (String c "") (split c s) = s.
Proof.
  induction s as [|a s IH]; [done|]. simpl.
  pose proof (split_nonempty c s) as Hne.
  destruct (Ascii.eqb_spec a c) as [->|].
  - destruct (split c s) as [|p ps] eqn:E; [done|]. rewrite join_cons2. hk_str. by rewrite IH.
  - destruct (split c s) as [|p [|q ps]]; [done|..].
    + simpl in *. by rewrite IH.
    + rewrite join_cons2 in *. hk_str. by rewrite <- IH.
Qed.

Lemma split_join c l : l <> [] -> Forall (lacks c) l -> split c (join (String c "") l) = l.
Proof.
  induction l as [|x l IH]; [done|]. intros _ HF. inversion_clear HF as [|? ? Hx Hl].
  destruct l as [|y l].
  - simpl. by apply split_lacks.
  - rewrite join_cons2. hk_str. rewrite split_app by done. f_equal. by apply IH.
Qed.

Lemma split_once_app c s t : lacks c s -> split_once c (s +:+ String c t) = Some (s, t).
Proof.
  induction s as [|a s IH]; rewrite ?lacks_cons; hk_str; simpl.
  - by rewrite Ascii.eqb_refl.
  - intros [Ha Hs]. destruct (Ascii.eqb_spec a c); [done|]. by rewrite IH.
Qed.

Lemma split_once_lacks c s : lacks c s -> split_once c s = None.
Proof.
  induction s as [|a s IH]; [done|]. rewrite lacks_cons. intros [Ha Hs]. simpl.
  destruct (Ascii.eqb_spec a c); [done|]. by rewrite IH.
Qed.

Lemma split_once_some c s h t :
  split_once c s = Some (h, t) <-> s = h +:+ String c t /\ lacks c h.
Proof.
  split; [|intros [-> ?]; by apply split_once_app].
  revert h. induction s as [|a s IH]; simpl; intros h; [done|].
  destruct (Ascii.eqb_spec a c) as [->|Hne].
  - by intros [= <- <-].
  - destruct (split_once c s) as [[h' t']|]; [|done].
    intros [= <- <-]. destruct (IH h') as [-> Hl]; [done|].
    hk_str. by rewrite lacks_cons.
Qed.

Lemma rsplit_once_lacks c s : lacks c s -> rsplit_once c s = None.
Proof.
  induction s as [|a s IH]; [done|]. rewrite lacks_cons. intros [Ha Hs]. simpl.
  rewrite IH by done. by destruct (Ascii.eqb_spec a c).
Qed.

Lemma rsplit_once_app c s t : lacks c t -> rsplit_once c (s +:+ String c t) = Some (s, t).
Proof.
  intros Ht. induction s as [|a s IH]; hk_str; simpl.
  - rewrite rsplit_once_lacks by done. by rewrite Ascii.eqb_refl.
  - by rewrite IH.
Qed.

(** ** Lemmas: prefixes and suffixes *)

Lemma strip_prefix_some p s r : strip_prefix p s = Some r <-> s = p +:+ r.
Proof.
  revert s. induction p as [|a p IH]; intros s; simpl.
  - split; [by intros [= ->]|by intros ->].
  - hk_str. destruct s as [|b s]; [done|].
    destruct (Ascii.eqb_spec a b) as [->|Hne].
    + rewrite IH. split; [by intros ->|by intros [= ->]].
    + split; [done|by intros [= ->]].
Qed.

Lemma strip_prefix_app p r : strip_prefix p (p +:+ r) = Some r.
Proof. by apply strip_prefix_some. Qed.

Lemma starts_with_true p s : starts_with p s = true <-> exists r, s = p +:+ r.
Proof.
  unfold starts_with. destruct (strip_prefix p s) as [r|] eqn:E.
  - apply strip_prefix_some in E. split; [by exists r|done].
  - split; [done|]. intros [r ->]. by rewrite strip_prefix_app in E.
Qed.

Lemma strip_suffix_app_inv p s r : strip_suffix p s = Some r -> s = r +:+ p.
Proof.
  revert r. induction s as [|a s IH]; intros r; cbn [strip_suffix].
  - destruct p; [by intros [= <-]|done].
  - destruct (String.eqb_spec (String a s) p) as [<-|]; [by intros [= <-]|].
    destruct (strip_suffix p s) as [r'|]; [|done].
    intros [= <-]. hk_str. by rewrite (IH r').
Qed.

Lemma strip_suffix_app p r : strip_suffix p (r +:+ p) = Some r.
Proof.
  induction r as [|a r IH].
  - hk_str. destruct p; simpl; by rewrite ?Ascii.eqb_refl, ?String.eqb_refl.
  - hk_str. cbn [strip_suffix]. destruct (String.eqb_spec (String a (r +:+ p)) p) as [E|].
    + apply (f_equal String.length) in E. simpl in E. rewrite slength_app in E. lia.
    + by rewrite IH.
Qed.

Lemma ends_with_true p s : ends_with p s = true <-> exists r, s = r +:+ p.
Proof.
  unfold ends_with. destruct (strip_suffix p s) as [r|] eqn:E.
  - apply strip_suffix_app_inv in E. split; [by exists r|done].
  - split; [done|]. intros [r ->]. by rewrite strip_suffix_app in E.
Qed.

Lemma trim_start_matches_lacks c s t :
  trim_start_matches c s = t -> forall u, t <> String c u.
Proof.
  induction s as [|a s IH]; simpl; [by intros <-|].
  destruct (Ascii.eqb_spec a c) as [->|Hne]; [done|]. intros <- u [= ?]. done.
Qed.

Lemma trim_start_matches_id c s :
  (forall u, s <> String c u) -> trim_start_matches c s = s.
Proof.
  destruct s as [|a s]; [done|]. simpl.
  destruct (Ascii.eqb_spec a c) as [->|]; [|done]. intros H. exfalso. exact (H s eq_refl).
Qed.

(** ** Lemmas: UTF-8 *)

Definition is_ascii (s : string) : bool := sforall (fun a => (byte_val a <? 128)%Z) s.

(** A well-formed head is determined by its own bytes. *)
Lemma utf8_head_true s n :
  utf8_head s = (true, n) ->
  exists p t, s = p +:+ t /\ String.length p = n /\ (1 <= n)%nat /\
    forall t', utf8_head (p +:+ t') = (true, n).
Proof.
  destruct s as [|a [|b [|c [|d s]]]]; cbn -[byte_val in_range andb orb]; intros H;
    try discriminate H; repeat (case_match; try discriminate H); injection H as <-;
    match goal with
    | |- context [(true, 1%nat)] => exists (String a "")
    | |- context [(true, 2%nat)] => exists (String a (String b ""))
    | |- context [(true, 3%nat)] => exists (String a (String b (String c "")))
    | |- context [(true, 4%nat)] => exists (String a (String b (String c (String d ""))))
    end;
    eexists; (split; [reflexivity|]); (split; [reflexivity|]); (split; [lia|]);
    intros t'; hk_str; cbn -[byte_val in_range andb orb];
    repeat match goal with H : ?x = _ |- context [?x] => rewrite H end; done.
Qed.

Lemma utf8_head_false s n : utf8_head s = (false, n) -> s <> "" -> (1 <= n)%nat.
Proof.
  destruct s as [|a [|b [|c [|d s]]]]; cbn -[byte_val in_range andb orb]; intros H;
    try discriminate H; repeat (case_match; try discriminate H); injection H as <-; intros; (lia || congruence).
Qed.

Lemma lossy_go_copy p t : lossy_go (p +:+ t) (String.length p) 0 = p +:+ lossy_go t 0 0.
Proof. induction p as [|a p IH]; [done|]. hk_str. simpl. by rewrite IH. Qed.

Lemma utf8_go_copy p t : utf8_go (p +:+ t) (String.length p) = utf8_go t 0.
Proof. induction p as [|a p IH]; [done|]. hk_str. simpl. by rewrite IH. Qed.

Lemma lossy_go_drop s n : lossy_go s 0 n = lossy_go (sdrop n s) 0 0.
Proof. revert n. induction s as [|a s IH]; intros [|n]; simpl; auto. Qed.

Lemma sdrop_length n s : String.length (sdrop n s) = (String.length s - n)%nat.
Proof. revert s. induction n as [|n IH]; intros [|a s]; simpl; auto. Qed.

Lemma lossy_go_id s k : utf8_go s k = true -> lossy_go s k 0 = s.
Proof.
  revert k. induction s as [|a s IH]; intros k; cbn [lossy_go utf8_go]; [done|].
  destruct k as [|k]; [|intros; by rewrite IH].
  destruct (utf8_head (String a s)) as [[] n]; [|done]. intros. by rewrite IH.
Qed.

(** Well-formed input passes through unchanged. *)
Lemma from_utf8_lossy_id s : is_utf8 s = true -> from_utf8_lossy s = s.
Proof. apply lossy_go_id. Qed.

Lemma utf8_go_replacement t : utf8_go (REPLACEMENT +:+ t) 0 = utf8_go t 0.
Proof. unfold REPLACEMENT. hk_str. done. Qed.

(** Whatever the input, the output is well-formed. *)
Lemma from_utf8_lossy_utf8 s : is_utf8 (from_utf8_lossy s) = true.
Proof.
  unfold is_utf8, from_utf8_lossy.
  remember (String.length s) as len eqn:Hlen. revert s Hlen.
  induction len as [len IH] using lt_wf_ind. intros s ->.
  destruct s as [|a s]; [done|].
  destruct (utf8_head (String a s)) as [[] n] eqn:Hh.
  - pose proof Hh as (p & t & Hs & Hp & Hn & Hhead)%utf8_head_true.
    assert (Hl : lossy_go (String a s) 0 0 = p +:+ lossy_go t 0 0).
    { rewrite <- lossy_go_copy, Hp, <- Hs. destruct n; [lia|].
      cbn [lossy_go]. rewrite Hh. simpl. by rewrite Nat.sub_0_r. }
    rewrite Hl. destruct p as [|b p]; [simpl in Hp; lia|].
    rewrite sapp_cons. cbn [utf8_go]. rewrite <- sapp_cons, Hhead.
    replace (n - 1)%nat with (String.length p) by (simpl in Hp; lia).
    rewrite utf8_go_copy. eapply IH; [|reflexivity].
    apply (f_equal String.length) in Hs. rewrite slength_app in Hs. simpl in *. lia.
  - cbn [lossy_go]. rewrite Hh, utf8_go_replacement, lossy_go_drop.
    eapply IH; [|reflexivity]. rewrite sdrop_length. simpl. lia.
Qed.

Lemma is_ascii_utf8 s : is_ascii s = true -> is_utf8 s = true.
Proof.
  unfold is_utf8, is_ascii. induction s as [|a s IH]; [done|]. cbn [sforall].
  rewrite andb_true_iff. intros [Ha Hs]. cbn [utf8_go utf8_head]. rewrite Ha. by apply IH.
Qed.

(** ** Lemmas: trimming *)

(** A printable byte that is not a space. *)
Definition is_solid (a : ascii) : bool := in_range 33 126 (byte_val a).

Ltac range_false :=
  repeat match goal with
  | H : _ && _ = true |- _ => apply andb_true_iff in H as [? ?]
  | H : _ || _ = true |- _ => apply orb_true_iff in H as [?|?]
  | H : in_range _ _ _ = true |- _ => unfold in_range in H
  | H : (_ =? _)%Z = true |- _ => apply Z.eqb_eq in H
  | H : (_ <=? _)%Z = true |- _ => apply Z.leb_le in H
  end; lia.

Lemma ws_len_solid a s : is_solid a = true -> ws_len (String a s) = 0%nat.
Proof.
  unfold is_solid. intros Ha. cbn -[byte_val in_range andb orb].
  repeat (case_match; try done); exfalso; range_false.
Qed.

(** A whitespace character does not reach over a solid byte. *)
Lemma ws_len_before_solid s a t :
  is_solid a = true -> (ws_len (s +:+ String a t) <= String.length s)%nat.
Proof.
  unfold is_solid. intros Ha. destruct s as [|b [|c [|d s]]]; hk_str; cbn -[byte_val in_range andb orb].
  all: repeat (case_match; try lia); exfalso; range_false.
Qed.

Lemma trim_start_solid a s : is_solid a = true -> trim_start (String a s) = String a s.
Proof. intros Ha. unfold trim_start. cbn [trim_start_go]. by rewrite ws_len_solid. Qed.

Lemma trim_start_go_keeps_solid s a t k :
  is_solid a = true -> (k <= String.length s)%nat -> trim_start_go (s +:+ String a t) k <> "".
Proof.
  intros Ha. revert k. induction s as [|b s IH]; intros k Hk; hk_str; cbn [trim_start_go].
  - destruct k; [|simpl in Hk; lia]. by rewrite ws_len_solid.
  - destruct k as [|k]; [|apply IH; simpl in Hk; lia].
    destruct (ws_len (String b (s +:+ String a t))) as [|k] eqn:E; [done|].
    apply IH. pose proof (ws_len_before_solid (String b s) a t Ha) as Hle.
    rewrite sapp_cons, E in Hle. simpl in Hle. lia.
Qed.

Lemma trim_end_solid s a : is_solid a = true -> trim_end (s +:+ String a "") = s +:+ String a "".
Proof.
  intros Ha. induction s as [|b s IH]; hk_str; cbn [trim_end].
  - by rewrite trim_start_solid.
  - pose proof (trim_start_go_keeps_solid (String b s) a "" 0 Ha ltac:(lia)) as Hne.
    rewrite sapp_cons in Hne. unfold trim_start.
    destruct (trim_start_go (String b (s +:+ String a "")) 0); [done|]. simpl. by rewrite IH.
Qed.

(** A string that starts and ends with a solid byte is its own trim. *)
Lemma trim_solid a s b : is_solid a = true -> is_solid b = true ->
  trim (String a (s +:+ String b "")) = String a (s +:+ String b "").
Proof.
  intros Ha Hb. unfold trim. rewrite trim_start_solid by done.
  rewrite <- sapp_cons. by apply trim_end_solid.
Qed.

Lemma trim_all_solid s : sforall is_solid s = true -> trim s = s.
Proof.
  destruct s as [|a s]; [done|]. intros Hs.
  assert (exists t b, String a s = t +:+ String b "" /\ is_solid b = true) as (t & b & E & Hb).
  { clear -Hs. revert a Hs. induction s as [|c s IH]; intros a.
    - simpl. rewrite andb_true_r. intros. by exists "", a.
    - cbn [sforall]. rewrite andb_true_iff. intros [_ H].
      destruct (IH c H) as (t & b & E & ?). exists (String a t), b. hk_str. by rewrite E. }
  unfold trim. rewrite trim_start_solid by (cbn in Hs; by apply andb_true_iff in Hs as [? _]).
  rewrite E. by apply trim_end_solid.
Qed.

(** ** Lemmas: decimal numerals *)

Lemma digit_char_digit d : (0 <= d < 10)%Z -> is_ascii_digit (digit_char d) = true.
Proof.
  intros Hd. assert (d = 0 \/ d = 1 \/ d = 2 \/ d = 3 \/ d = 4 \/ d = 5 \/ d = 6 \/ d = 7 \/ d = 8 \/ d = 9)%Z
    by lia. by repeat match goal with H : _ \/ _ |- _ => destruct H as [->|H] | H : _ = _ |- _ => subst end.
Qed.

Lemma dec_go_digits fuel n acc :
  sforall is_ascii_digit acc = true -> sforall is_ascii_digit (dec_go fuel n acc) = true.
Proof.
  revert n acc. induction fuel as [|f IH]; intros n acc Ha; [done|]. cbn [dec_go].
  assert (Hd : sforall is_ascii_digit (String (digit_char (n mod 10)) acc) = true).
  { cbn [sforall]. rewrite Ha, digit_char_digit; [done|]. by apply Z.mod_pos_bound. }
  destruct (n <? 10)%Z; [done|]. by apply IH.
Qed.

Lemma show_pad_digits w n : sforall is_ascii_digit (show_pad w n) = true.
Proof.
  unfold show_pad, show_dec. rewrite sforall_app, dec_go_digits by done. rewrite andb_true_r.
  by induction (w - String.length _)%nat as [|k IH].
Qed.

Lemma show_pad_lacks c w n : is_ascii_digit c = false -> lacks c (show_pad w n).
Proof. intros Hc. apply (lacks_sforall _ c _ Hc), show_pad_digits. Qed.

(** ** Lemmas: searching for a pattern *)

Lemma split_once_str_some pat s h t :
  split_once_str pat s = Some (h, t) -> s = h +:+ pat +:+ t.
Proof.
  revert h. induction s as [|a s IH]; intros h; cbn [split_once_str].
  - destruct (strip_prefix pat "") as [r|] eqn:E; [|done].
    apply strip_prefix_some in E. intros [= <- <-]. exact E.
  - destruct (strip_prefix pat (String a s)) as [r|] eqn:E.
    + apply strip_prefix_some in E. intros [= <- <-]. exact E.
    + destruct (split_once_str pat s) as [[h' t']|]; [|done].
      intros [= <- <-]. hk_str. by rewrite (IH h').
Qed.

(** A pattern that starts with a byte the text lacks is found right after it. *)
Lemma split_once_str_app a p s t :
  lacks a s -> split_once_str (String a p) (s +:+ String a p +:+ t) = Some (s, t).
Proof.
  induction s as [|b s IH]; rewrite ?lacks_cons.
  - intros _. hk_str. cbn [split_once_str strip_prefix]. by rewrite Ascii.eqb_refl, strip_prefix_app.
  - intros [Hb Hs]. hk_str. cbn [split_once_str strip_prefix].
    destruct (Ascii.eqb_spec a b); [congruence|]. pose proof (IH Hs) as E. hk_str in E. by rewrite E.
Qed.

Lemma split_once_str_lacks a p s : lacks a s -> split_once_str (String a p) s = None.
Proof.
  induction s as [|b s IH]; [done|]. rewrite lacks_cons. intros [Hb Hs].
  cbn [split_once_str strip_prefix]. destruct (Ascii.eqb_spec a b); [congruence|]. by rewrite IH.
Qed.

Lemma strip_ws_solid s : sforall is_solid s = true -> strip_ws s = s.
Proof.
  unfold strip_ws. induction s as [|a s IH]; [done|]. intros Hs. cbn [sforall] in Hs.
  apply andb_true_iff in Hs as [Ha Hs]. cbn [strip_ws_go]. rewrite ws_len_solid by done. by rewrite IH.
Qed.

Lemma strip_ws_newline s : strip_ws (String newline s) = strip_ws s.
Proof. done. Qed.

(** Whitespace characters do not straddle a solid byte, so a solid prefix
    stays and the rest is stripped on its own. *)
Lemma strip_ws_solid_app s t :
  sforall is_solid s = true -> strip_ws (s +:+ t) = s +:+ strip_ws t.
Proof.
  unfold strip_ws. induction s as [|a s IH]; [done|]. intros Hs. cbn [sforall] in Hs.
  apply andb_true_iff in Hs as [Ha Hs]. hk_str. cbn [strip_ws_go]. rewrite ws_len_solid by done. by rewrite IH.
Qed.

(** ** Lemmas: trimming twice, and lines *)

(** A whitespace character is recognised whatever follows it. *)
Lemma ws_len_app x w k : ws_len x = S k -> ws_len (x +:+ w) = S k /\ (S k <= String.length x)%nat.
Proof.
  destruct x as [|a [|b [|c x]]]; hk_str; cbn -[byte_val in_range andb orb];
    intros E; try discriminate E; repeat (case_match; try discriminate E); injection E as <-; split; (done || lia).
Qed.

Lemma trim_start_go_app x w k :
  (k <= String.length x)%nat -> trim_start_go x k = "" -> trim_start w = "" -> trim_start_go (x +:+ w) k = "".
Proof.
  intros Hk Hx Hw. revert k Hk Hx. induction x as [|a x IH]; intros k Hk Hx.
  - cbn in Hk. replace k with 0%nat by lia. exact Hw.
  - hk_str. cbn [trim_start_go] in *. destruct k as [|k]; [|apply IH; [cbn in Hk; lia|done]].
    destruct (ws_len (String a x)) as [|k] eqn:E; [done|].
    destruct (ws_len_app (String a x) w k E) as [E' Hl]. hk_str in E'. rewrite E'. apply IH; [cbn in Hl; lia|done].
Qed.

Lemma trim_end_split s : exists w, s = trim_end s +:+ w /\ trim_start w = "".
Proof.
  induction s as [|a s (w & E & Hw)]; [by exists ""|]. cbn [trim_end].
  destruct (trim_start (String a s)) as [|b t] eqn:Et; cbn [sempty].
  - by exists (String a s).
  - exists w. hk_str. by rewrite <- E.
Qed.

Lemma trim_end_idem s : trim_end (trim_end s) = trim_end s.
Proof.
  induction s as [|a s IH]; [done|]. cbn [trim_end].
  destruct (trim_start (String a s)) as [|b t] eqn:Et; cbn [sempty]; [done|]. cbn [trim_end].
  destruct (trim_start (String a (trim_end s))) as [|b' t'] eqn:Et'; cbn [sempty]; [|by rewrite IH].
  destruct (trim_end_split s) as (w & E & Hw). exfalso.
  pose proof (trim_start_go_app (String a (trim_end s)) w 0 ltac:(lia) Et' Hw) as Hc.
  hk_str in Hc. rewrite <- E in Hc. unfold trim_start in Et. congruence.
Qed.

Lemma trim_start_go_head s k : trim_start_go s k = "" \/ ws_len (trim_start_go s k) = 0%nat.
Proof.
  revert k. induction s as [|a s IH]; intros k; cbn [trim_start_go]; [by left|].
  destruct k; [|apply IH]. destruct (ws_len (String a s)) as [|k] eqn:E; [by right|apply IH].
Qed.

Lemma trim_start_trim s : trim_start (trim s) = trim s.
Proof.
  unfold trim. destruct (trim_end_split (trim_start s)) as (w & E & _).
  destruct (trim_end (trim_start s)) as [|a p] eqn:Ep; [done|]. unfold trim_start at 1. cbn [trim_start_go].
  destruct (ws_len (String a p)) as [|k] eqn:Ew; [done|]. exfalso.
  destruct (ws_len_app _ w _ Ew) as [Hw _]. rewrite <- E in Hw.
  destruct (trim_start_go_head s 0) as [Hs|Hs]; unfold trim_start in *; rewrite Hs in *; [by rewrite sapp_cons in E|done].
Qed.

Lemma trim_idem s : trim (trim s) = trim s.
Proof. unfold trim at 1. rewrite trim_start_trim. apply trim_end_idem. Qed.

Lemma trim_start_go_suffix s k : exists pre, s = pre +:+ trim_start_go s k.
Proof.
  revert k. induction s as [|a s IH]; intros k; cbn [trim_start_go]; [by exists ""|].
  destruct k as [|k]; [destruct (ws_len (String a s)) as [|k]; [by exists ""|]|];
    destruct (IH k) as [pre E]; exists (String a pre); hk_str; by rewrite <- E.
Qed.

(** Trimming keeps a substring. *)
Lemma trim_lacks c s : lacks c s -> lacks c (trim s).
Proof.
  unfold trim. destruct (trim_start_go_suffix s 0) as [pre E]. fold (trim_start s) in E.
  destruct (trim_end_split (trim_start s)) as (w & E' & _). intros Hs. rewrite E, E', !lacks_app in Hs. tauto.
Qed.

Lemma trim_end_app_ws r w : trim_start w = "" -> (String.length (trim_end (r +:+ w)) <= String.length r)%nat.
Proof.
  intros Hw. induction r as [|a r IH]; hk_str.
  - destruct w as [|b w]; [done|]. cbn [trim_end]. by rewrite Hw.
  - cbn [trim_end]. destruct (sempty _); cbn [String.length]; lia.
Qed.

(** A trimmed string has no carriage return for a line to lose. *)
Lemma strip_cr_trim s : strip_cr (trim s) = trim s.
Proof.
  unfold strip_cr. destruct (strip_suffix _ (trim s)) as [r|] eqn:E; [|done]. exfalso.
  apply strip_suffix_app_inv in E. pose proof (trim_end_app_ws r (String "013" "") eq_refl) as Hl.
  assert (Ht : trim_end (trim s) = trim s) by apply trim_end_idem.
  rewrite <- E, Ht, E, slength_app in Hl. cbn in Hl. lia.
Qed.

(** Lines that lose nothing are read back from their joined text. *)
Lemma lines_join l :
  Forall (fun x => lacks newline x /\ strip_cr x = x) l -> l <> [] -> lines (join NL l +:+ NL) = l.
Proof.
  intros Hl Hne. unfold lines.
  assert (E : split newline (join NL l +:+ NL) = l ++ [""]).
  { unfold NL at 2. rewrite split_app_sep. unfold NL. rewrite split_join; [done|done|].
    eapply Forall_impl; [exact Hl|]. cbv beta; tauto. }
  rewrite E. clear E Hne. induction Hl as [|x l [_ Hx] _ IH]; [done|].
  cbn [app lines_go]. destruct (l ++ [""]) eqn:El; [by destruct l|]. by rewrite Hx, IH.
Qed.

(** Well-formed texts concatenate. *)
Lemma is_utf8_app s t : is_utf8 s = true -> is_utf8 t = true -> is_utf8 (s +:+ t) = true.
Proof.
  unfold is_utf8. remember (String.length s) as n eqn:Hn. revert s Hn.
  induction n as [n IH] using lt_wf_ind. intros s -> Hs Ht. destruct s as [|a s]; [done|].
  pose proof Hs as Hs'. cbn [utf8_go] in Hs'. destruct (utf8_head (String a s)) as [[] n] eqn:Eh; [|done]. clear Hs'.
  destruct (utf8_head_true _ _ Eh) as (p & u & E & Hl & Hn & Hext). rewrite E in *.
  destruct p as [|b p]; [cbn in Hl; lia|]. rewrite sapp_assoc, sapp_cons in *. cbn [utf8_go] in *.
  rewrite <- sapp_cons, Hext in *. cbn [String.length] in Hl.
  replace (n - 1)%nat with (String.length p) in * by lia. rewrite utf8_go_copy in *.
  apply (IH (String.length u)); [|done|done|done]. rewrite slength_app. cbn. lia.
Qed.

(** The string ends in a printable byte. *)
Fixpoint last_solid (s : string) : bool :=
  match s with "" => false | String a "" => is_solid a | String _ s' => last_solid s' end.

Lemma last_solid_app s t : last_solid t = true -> last_solid (s +:+ t) = true.
Proof.
  intros Ht. induction s as [|a s IH]; [done|]. hk_str. cbn [last_solid].
  destruct (s +:+ t) as [|b u] eqn:E; [|done]. by destruct s, t.
Qed.

Lemma last_solid_split s : last_solid s = true -> exists x c, s = x +:+ String c "" /\ is_solid c = true.
Proof.
  induction s as [|a s IH]; [done|]. cbn [last_solid]. destruct s as [|b s]; [by exists "", a|].
  intros (x & c & E & Hc)%IH. exists (String a x), c. split; [|done]. hk_str. by rewrite <- E.
Qed.

Lemma strip_cr_solid s : last_solid s = true -> strip_cr s = s.
Proof.
  unfold strip_cr. destruct (strip_suffix _ s) as [r|] eqn:E; [|done]. apply strip_suffix_app_inv in E as ->.
  intros (x & c & E & Hc)%last_solid_split. exfalso.
  assert (String "013" "" = String c "") as [= <-]; [|done].
  revert x E. induction r as [|a r IH]; intros [|b x]; hk_str; intros E; try (by simplify_eq); simplify_eq.
  - by destruct x.
  - by destruct r.
  - by eapply IH.
Qed.
