(* ===== verification/Codec.v ===== *)
(** The byte codecs of [gateway/src/sigv4.rs]: percent-encoding and decoding,
    hexadecimal, and the constant-time comparison. [percent_decode] returns a
    [comp] because the slice it takes after a [%] panics when it would cut a
    multi-byte character in two. *)

From S2P Require Import Prelude RustStr.

(** ** Definitions *)

(** The unreserved set [A-Za-z0-9_-~.] that URI encoding leaves alone. *)
Definition is_unreserved (a : ascii) : bool :=
  is_ascii_upper a || is_ascii_lower a || is_ascii_digit a
  || (a =b "_") || (a =b "-") || (a =b "~") || (a =b ".").

Fixpoint uri_encode (input : string) (encode_slash : bool) : string :=
  match input with
  | "" => ""
  | String b rest =>
      (if is_unreserved b then String b ""
       else if (b =b "/") && negb encode_slash then "/"
       else String "%" (show_hex true b))
      +:+ uri_encode rest encode_slash
  end.

(** The string starts in the middle of a character. *)
Definition starts_cont (s : string) : bool :=
  match s with String a _ => is_cont a | "" => false end.

(** The loop of [percent_decode] on the bytes not yet read: [i + 3 <= len]
    is "two more bytes follow the [%]", and [&s[i + 1..i + 3]] panics unless
    both ends are character boundaries. *)
Fixpoint percent_decode (s : string) : comp string :=
  match s with
  | "" => Done ""
  | String b s1 =>
      if b =b "%" then
        match s1 with
        | String x (String y s3) =>
            if is_cont x || starts_cont s3 then Panic
            else match u8_from_hex (String x (String y "")) with
                 | Some v => String (byte_of v) <$> percent_decode s3
                 | None => String "%" <$> percent_decode s1
                 end
        | _ => String b <$> percent_decode s1
        end
      else if b =b "+" then String " " <$> percent_decode s1
      else String b <$> percent_decode s1
  end.

Fixpoint to_hex (bytes : string) : string :=
  match bytes with
  | "" => ""
  | String b rest => show_hex false b +:+ to_hex rest
  end.

(** The accumulating loop of [constant_time_eq]: [diff |= x ^ y]. *)
Fixpoint ct_diff (a b : string) (diff : Z) : Z :=
  match a, b with
  | String x a', String y b' => ct_diff a' b' (Z.lor diff (Z.lxor (byte_val x) (byte_val y)))
  | _, _ => diff
  end.

Definition constant_time_eq (a b : string) : bool :=
  if negb (String.length a =? String.length b)%nat then false
  else (ct_diff a b 0 =? 0)%Z.

(** ** Bytes and their hexadecimal form *)

Ltac each_byte b := destruct b as [[] [] [] [] [] [] [] []]; vm_compute; try reflexivity.

Lemma byte_of_val b : byte_of (byte_val b) = b.
Proof. each_byte b. Qed.

Lemma byte_val_inj a b : byte_val a = byte_val b -> a = b.
Proof. intros H. by rewrite <- (byte_of_val a), <- (byte_of_val b), H. Qed.

Lemma byte_val_range b : (0 <= byte_val b < 256)%Z.
Proof. each_byte b; split; congruence. Qed.

Lemma u8_from_hex_show b up : u8_from_hex (show_hex up b) = Some (byte_val b).
Proof. destruct up; each_byte b. Qed.

Lemma show_hex_ascii up b : is_ascii (show_hex up b) = true.
Proof. destruct up; each_byte b. Qed.

Lemma show_hex_solid up b : sforall is_solid (show_hex up b) = true.
Proof. destruct up; each_byte b. Qed.

Lemma show_hex_alnum up b :
  sforall (fun a => is_ascii_digit a || is_ascii_upper a || is_ascii_lower a) (show_hex up b) = true.
Proof. destruct up; each_byte b. Qed.

Lemma is_unreserved_ascii b : is_unreserved b = true -> (byte_val b <? 128)%Z = true.
Proof. each_byte b; done. Qed.

Lemma ascii_not_cont b : (byte_val b <? 128)%Z = true -> is_cont b = false.
Proof. each_byte b; done. Qed.

Lemma ascii_not_starts_cont s : is_ascii s = true -> starts_cont s = false.
Proof.
  destruct s as [|a s]; [done|]. cbn. rewrite andb_true_iff. intros [? _]. by apply ascii_not_cont.
Qed.

(** ** URI encoding *)

Definition is_uri_byte (a : ascii) : bool := is_unreserved a || (a =b "%").

(** With [encode_slash] only unreserved bytes and [%] are produced. *)
Lemma uri_encode_bytes s : sforall is_uri_byte (uri_encode s true) = true.
Proof.
  induction s as [|b s IH]; [done|]. cbn [uri_encode].
  rewrite sforall_app, IH, andb_true_r.
  destruct (is_unreserved b) eqn:E.
  - cbn. unfold is_uri_byte. by rewrite E.
  - rewrite andb_false_r. clear. each_byte b.
Qed.

Lemma uri_encode_ascii s e : is_ascii (uri_encode s e) = true.
Proof.
  induction s as [|b s IH]; [done|]. cbn [uri_encode]. unfold is_ascii in *.
  rewrite sforall_app, IH, andb_true_r.
  destruct (is_unreserved b) eqn:E.
  - cbn. by rewrite is_unreserved_ascii.
  - destruct ((b =b "/") && negb e); [done|]. apply show_hex_ascii.
Qed.

Lemma uri_encode_lacks_slash s : lacks "/" (uri_encode s true).
Proof. apply (lacks_sforall is_uri_byte); [done|]. apply uri_encode_bytes. Qed.

Lemma uri_encode_app s t e : uri_encode (s +:+ t) e = uri_encode s e +:+ uri_encode t e.
Proof.
  induction s as [|b s IH]; [done|]. hk_str. cbn [uri_encode]. rewrite IH. by rewrite sapp_assoc.
Qed.

(** ** Percent decoding *)

Lemma percent_decode_hex b s :
  starts_cont s = false ->
  percent_decode (String "%" (show_hex true b +:+ s)) = String b <$> percent_decode s.
Proof.
  intros Hs. pose proof (show_hex_ascii true b) as Ha. pose proof (u8_from_hex_show b true) as Hh.
  unfold show_hex in *. hk_str. cbn [percent_decode].
  rewrite Hs, Hh, byte_of_val. cbn in Ha. rewrite !andb_true_iff in Ha.
  rewrite ascii_not_cont by tauto. done.
Qed.

Lemma percent_decode_unreserved b s :
  is_unreserved b = true \/ b = "/"%char ->
  percent_decode (String b s) = String b <$> percent_decode s.
Proof.
  intros Hb. cbn [percent_decode].
  destruct (Ascii.eqb_spec b "%") as [->|]; [by destruct Hb|].
  by destruct (Ascii.eqb_spec b "+") as [->|]; [destruct Hb|].
Qed.

Lemma percent_decode_uri_encode_aux s e : percent_decode (uri_encode s e) = Done s.
Proof.
  induction s as [|b s IH]; [done|]. cbn [uri_encode].
  destruct (is_unreserved b) eqn:E.
  - hk_str. rewrite percent_decode_unreserved by auto. by rewrite IH.
  - destruct ((b =b "/") && negb e) eqn:E2.
    + apply andb_true_iff in E2 as [->%Ascii.eqb_eq _].
      hk_str. rewrite percent_decode_unreserved by auto. by rewrite IH.
    + rewrite sapp_cons, percent_decode_hex, IH; [done|].
      apply ascii_not_starts_cont, uri_encode_ascii.
Qed.

(** The panic, exactly: an escape whose two bytes begin or end inside a
    character, anywhere in the text. *)
Fixpoint cuts (s : string) : bool :=
  match s with
  | "" => false
  | String b s1 =>
      (b =b "%") && (match s1 with String x (String y s3) => is_cont x || starts_cont s3 | _ => false end) || cuts s1
  end.

Lemma hex_no_percent x y : (x =b "%") || (y =b "%") = true -> u8_from_hex (String x (String y "")) = None.
Proof.
  intros [->%Ascii.eqb_eq| ->%Ascii.eqb_eq]%orb_true_iff; [by destruct (y =b "%")|]. each_byte x.
Qed.

(** Every [%] is reached: no escape that is consumed holds one. *)
Lemma percent_decode_cuts s : percent_decode s = Panic <-> cuts s = true.
Proof.
  remember (String.length s) as len eqn:Hlen. revert s Hlen.
  induction len as [len IH] using lt_wf_ind. intros s ->. destruct s as [|b s]; [done|].
  pose proof (IH (String.length s) ltac:(simpl; lia) s eq_refl) as Hs.
  assert (Hf : forall c, String c <$> percent_decode s = Panic <-> cuts s = true).
  { intros c. rewrite <- Hs. by destruct (percent_decode s). }
  cbn [percent_decode cuts]. destruct (b =b "%"); [|by destruct (b =b "+"); apply Hf].
  destruct s as [|x [|y s3]]; [apply Hf..|]. cbn [andb].
  destruct (is_cont x || starts_cont s3); [done|]. cbn [orb].
  destruct (u8_from_hex (String x (String y ""))) as [v|] eqn:Ex; [|apply Hf].
  assert (Hxy : (x =b "%") = false /\ (y =b "%") = false).
  { apply orb_false_iff. destruct (_ || _) eqn:E; [|done]. by rewrite hex_no_percent in Ex. }
  cbn [cuts]. destruct Hxy as [-> ->]. cbn [andb orb].
  rewrite <- (IH (String.length s3) ltac:(simpl; lia) s3 eq_refl). by destruct (percent_decode s3).
Qed.

Lemma percent_decode_total s : cuts s = false -> exists r, percent_decode s = Done r.
Proof.
  intros Hs. destruct (percent_decode s) as [r|] eqn:E; [by eexists|].
  apply percent_decode_cuts in E. congruence.
Qed.

Lemma starts_cont_app s t : starts_cont s = true -> starts_cont (s +:+ t) = true.
Proof. by destruct s. Qed.

(** A part of a text that does not cut does not either. *)
Lemma cuts_infix u s v : cuts (u +:+ s +:+ v) = false -> cuts s = false.
Proof.
  induction u as [|b u IH]; [rewrite sapp_nil_l|rewrite sapp_cons; cbn [cuts]; intros [_ ?]%orb_false_iff; auto].
  induction s as [|b s IH]; [done|]. rewrite sapp_cons. cbn [cuts].
  intros [H1 H2]%orb_false_iff. rewrite (IH H2), orb_false_r. destruct (b =b "%"); [|done].
  destruct s as [|x [|y s3]]; [done..|]. rewrite !sapp_cons in H1. cbn [andb] in *.
  apply orb_false_iff in H1 as [-> H3]. cbn [orb]. destruct (starts_cont s3) eqn:E; [|done].
  by rewrite (starts_cont_app s3 v E) in H3.
Qed.

Lemma cuts_ascii s : is_ascii s = true -> cuts s = false.
Proof.
  induction s as [|b s IH]; [done|]. unfold is_ascii in *. cbn [sforall cuts]. rewrite andb_true_iff.
  intros [_ Hs]. rewrite IH by done. destruct s as [|x [|y s3]]; [by rewrite andb_false_r..|].
  cbn [sforall] in Hs. rewrite !andb_true_iff in Hs. destruct Hs as (Hx & _ & Hs).
  by rewrite (ascii_not_cont x), (ascii_not_starts_cont s3), andb_false_r.
Qed.

(** A string with neither [%] nor [+] decodes to itself. *)
Lemma percent_decode_plain s : lacks "%" s -> lacks "+" s -> percent_decode s = Done s.
Proof.
  induction s as [|b s IH]; [done|]. rewrite !lacks_cons. intros [H1 H2] [H3 H4].
  cbn [percent_decode]. destruct (Ascii.eqb_spec b "%"); [done|].
  destruct (Ascii.eqb_spec b "+"); [done|]. by rewrite IH.
Qed.

(** ** Hexadecimal strings *)

Lemma to_hex_alnum s :
  sforall (fun a => is_ascii_digit a || is_ascii_upper a || is_ascii_lower a) (to_hex s) = true.
Proof. induction s; [done|]. cbn [to_hex]. by rewrite sforall_app, show_hex_alnum. Qed.

Lemma to_hex_solid s : sforall is_solid (to_hex s) = true.
Proof. induction s; [done|]. cbn [to_hex]. by rewrite sforall_app, show_hex_solid. Qed.

Lemma to_hex_length s : String.length (to_hex s) = (2 * String.length s)%nat.
Proof. induction s as [|a s IH]; [done|]. cbn [to_hex]. rewrite slength_app, IH. simpl. lia. Qed.

Lemma to_hex_inj s t : to_hex s = to_hex t -> s = t.
Proof.
  revert t. induction s as [|a s IH]; intros [|b t]; [done|done|done|].
  cbn [to_hex]. pose proof (u8_from_hex_show a false) as Ha. pose proof (u8_from_hex_show b false) as Hb.
  unfold show_hex in *. hk_str. intros [= E1 E2 E3]. rewrite E1, E2, Hb in Ha.
  injection Ha as Ha%byte_val_inj. rewrite Ha. f_equal. auto.
Qed.

(** ** Constant-time comparison *)

Lemma ct_diff_zero a b d :
  String.length a = String.length b -> (0 <= d)%Z ->
  ct_diff a b d = 0%Z <-> d = 0%Z /\ a = b.
Proof.
  revert b d. induction a as [|x a IH]; intros [|y b] d Hl Hd; simpl in *; try done.
  - naive_solver.
  - rewrite IH; [|lia|].
    + rewrite Z.lor_eq_0_iff, Z.lxor_eq_0_iff. split.
      * intros [[-> ->%byte_val_inj] ->]. done.
      * by intros [-> [= -> ->]].
    + apply Z.lor_nonneg. split; [done|]. apply Z.lxor_nonneg.
      pose proof (byte_val_range x). pose proof (byte_val_range y). lia.
Qed.

Lemma constant_time_eq_refl a : constant_time_eq a a = true.
Proof.
  unfold constant_time_eq. rewrite Nat.eqb_refl. simpl. apply Z.eqb_eq.
  by apply ct_diff_zero.
Qed.

Lemma constant_time_eq_true_eq a b : constant_time_eq a b = true -> a = b.
Proof.
  unfold constant_time_eq. destruct (Nat.eqb_spec (String.length a) (String.length b)); [|done].
  simpl. rewrite Z.eqb_eq. intros ?%ct_diff_zero; [naive_solver|done|lia].
Qed.

(** ** Properties *)

(** Percent-decoding inverts URI encoding, with slashes encoded or
    kept, on every byte string; in particular it never panics there. *)
Lemma percent_decode_uri_encode s encode_slash :
  percent_decode (uri_encode s encode_slash) = Done s.
Proof. apply percent_decode_uri_encode_aux. Qed.

(** The branch-free comparison of signatures is equality of the strings,
    whatever their lengths. *)
Lemma constant_time_eq_correct a b : constant_time_eq a b = true <-> a = b.
Proof. split; [apply constant_time_eq_true_eq|intros ->; apply constant_time_eq_refl]. Qed.

(** Decoding a request's text panics where an escape is followed by a
    multi-byte character that starts inside its two digits: the slice taken
    there is not on a character boundary. [percent_decode_cuts] says when. *)
Lemma percent_decode_panics x y c rest :
  is_cont c = true -> percent_decode (String "%" (String x (String y (String c rest)))) = Panic.
Proof.
  intros Hc. cbn [percent_decode starts_cont]. rewrite Hc, orb_true_r. done.
Qed.

Lemma percent_decode_panics_example :
  let e_acute := String (byte_of 195) (String (byte_of 169) "") in
  is_utf8 ("%a" +:+ e_acute) = true /\ percent_decode ("%a" +:+ e_acute) = Panic.
Proof. split; reflexivity. Qed.

(** An escape whose first digit is a plus sign is decoded, not passed
    through: [u8::from_str_radix] accepts a sign. *)
Lemma percent_decode_signed_escape : percent_decode "%+a" = Done (String (byte_of 10) "").
Proof. reflexivity. Qed.
