(* ===== verification/Canonicalize.v ===== *)
(** [gateway/src/canonicalize.rs]: folding a request path into one canonical
    form before any policy decision. The result is a panic (from
    [percent_decode]'s slice), [Err Escape], or the pair of views. *)

From S2P Require Import Prelude RustStr Codec.

(** ** Definitions *)

Record CanonicalPath := mkCanonicalPath {
  decoded : string;
  encoded : string;
}.

Inductive CanonError := Escape.

(** One step of the loop of [path] on an already decoded segment: skip,
    pop (failing above the root) or push. *)
Definition path_step (stack : list string) (seg : string) : result (list string) CanonError :=
  if (seg =s "") || (seg =s ".") then Ok stack
  else if seg =s ".." then
    match stack with
    | [] => Err Escape
    | _ => Ok (removelast stack)
    end
  else Ok (stack ++ [seg]).

Fixpoint path_go (segs stack : list string) : comp (result (list string) CanonError) :=
  match segs with
  | [] => Done (Ok stack)
  | raw_seg :: segs' =>
      bytes ← percent_decode raw_seg;
      match path_step stack (from_utf8_lossy bytes) with
      | Err e => Done (Err e)
      | Ok stack' => path_go segs' stack'
      end
  end.

(** The two views of a segment stack. *)
Definition view (stack : list string) : CanonicalPath := {|
  decoded := String "/" (join "/" stack);
  encoded := String "/" (join "/" (map (fun s => uri_encode s true) stack));
|}.

Definition path (raw : string) : comp (result CanonicalPath CanonError) :=
  r ← path_go (split "/" (trim_start_matches "/" raw)) [];
  match r with
  | Err e => Done (Err e)
  | Ok stack => Done (Ok (view stack))
  end.

(** ** What canonical means *)

(** A canonical segment: well-formed, and none of the spellings the loop
    folds away. *)
Definition clean (s : string) : Prop :=
  is_utf8 s = true /\ s <> "" /\ s <> "." /\ s <> "..".

#[export] Instance clean_dec s : Decision (clean s).
Proof. unfold clean. apply _. Defined.

(** The height of the stack after a decoded segment, or [None] above the root. *)
Definition depth_step (d : nat) (seg : string) : option nat :=
  if (seg =s "") || (seg =s ".") then Some d
  else if seg =s ".." then match d with O => None | S d' => Some d' end
  else Some (S d).

Fixpoint depth (segs : list string) (d : nat) : option nat :=
  match segs with
  | [] => Some d
  | s :: segs' => match depth_step d s with Some d' => depth segs' d' | None => None end
  end.

(** ** The stack stays clean *)

Lemma path_step_clean stack seg stack' :
  is_utf8 seg = true -> Forall clean stack ->
  path_step stack seg = Ok stack' -> Forall clean stack'.
Proof.
  unfold path_step. intros Hu Hst.
  destruct (String.eqb_spec seg ""), (String.eqb_spec seg "."), (String.eqb_spec seg "..");
    cbn [orb]; intros H; try (by hk_inv).
  - destruct stack as [|x st _] using rev_ind; [done|]. apply Forall_app in Hst as [? _].
    rewrite removelast_last in H. destruct (st ++ [x]) eqn:E; [by destruct st|]. by hk_inv.
  - hk_inv. apply Forall_app. split; [done|]. by repeat constructor.
Qed.

Lemma path_go_clean segs stack stack' :
  Forall clean stack -> path_go segs stack = Done (Ok stack') -> Forall clean stack'.
Proof.
  revert stack. induction segs as [|s segs IH]; simpl; intros stack Hst H.
  - by hk_inv.
  - destruct (percent_decode s) as [bytes|]; [|done]. simpl in H.
    destruct (path_step stack (from_utf8_lossy bytes)) as [st|] eqn:E; [|done].
    apply (IH st); [|done]. eapply path_step_clean; [|done..]. apply from_utf8_lossy_utf8.
Qed.

Lemma path_ok_inv raw c :
  path raw = Done (Ok c) -> exists stack, Forall clean stack /\ c = view stack.
Proof.
  unfold path. intros (r & Hr & H)%comp_bind_done. destruct r as [stack|]; hk_inv.
  exists stack. split; [|done]. by apply path_go_clean in Hr; [|constructor].
Qed.

(** ** Canonical segments survive a second pass *)

Lemma path_step_push stack s : clean s -> path_step stack s = Ok (stack ++ [s]).
Proof.
  intros (_ & H1 & H2 & H3). unfold path_step.
  apply String.eqb_neq in H1, H2, H3. by rewrite H1, H2, H3.
Qed.

Lemma path_go_encoded segs stack :
  Forall clean segs ->
  path_go (map (fun s => uri_encode s true) segs) stack = Done (Ok (stack ++ segs)).
Proof.
  intros H. revert stack. induction H as [|s segs Hs _ IH]; intros stack; simpl.
  - by rewrite app_nil_r.
  - rewrite percent_decode_uri_encode_aux. simpl.
    rewrite from_utf8_lossy_id by apply Hs. rewrite path_step_push by done.
    by rewrite IH, <- app_assoc.
Qed.

Lemma uri_encode_nonempty s : s <> "" -> uri_encode s true <> "".
Proof.
  destruct s as [|b s]; [done|]. intros _. cbn [uri_encode].
  destruct (is_unreserved b); [done|]. by rewrite andb_false_r.
Qed.

Lemma view_encoded_split stack :
  Forall clean stack -> stack <> [] ->
  split "/" (join "/" (map (fun s => uri_encode s true) stack)) =
  map (fun s => uri_encode s true) stack.
Proof.
  intros Hc Hne. apply split_join.
  - by destruct stack.
  - apply Forall_map. eapply Forall_impl; [done|]. intros. apply uri_encode_lacks_slash.
Qed.

Lemma join_encoded_no_slash_head stack :
  Forall clean stack ->
  forall u, join "/" (map (fun s => uri_encode s true) stack) <> String "/" u.
Proof.
  intros Hc u. destruct Hc as [|s stack Hs Hst]; [done|].
  pose proof (uri_encode_nonempty s ltac:(apply Hs)) as Hne.
  pose proof (uri_encode_lacks_slash s) as Hl. cbn [map].
  destruct (uri_encode s true) as [|b t]; [done|]. apply lacks_cons in Hl as [Hb _].
  destruct stack; simpl; hk_str; intros [= ?]; congruence.
Qed.

Lemma path_view stack : Forall clean stack -> path (encoded (view stack)) = Done (Ok (view stack)).
Proof.
  intros Hc. unfold path. cbn [encoded view trim_start_matches].
  rewrite Ascii.eqb_refl, trim_start_matches_id by by apply join_encoded_no_slash_head.
  destruct stack as [|s stack]; [done|].
  rewrite view_encoded_split, path_go_encoded by done. done.
Qed.

(** ** Escape, declaratively *)

Lemma path_step_depth stack seg :
  match path_step stack seg with
  | Ok stack' => depth_step (length stack) seg = Some (length stack')
  | Err _ => depth_step (length stack) seg = None
  end.
Proof.
  unfold path_step, depth_step. destruct ((seg =s "") || (seg =s ".")); [done|].
  destruct (seg =s "..").
  - destruct stack as [|x st] using rev_ind; [done|].
    rewrite removelast_last, length_app. simpl. rewrite Nat.add_1_r.
    by destruct (st ++ [x]) eqn:E; [destruct st|].
  - rewrite length_app. simpl. by rewrite Nat.add_1_r.
Qed.

(** On segments that decode, the loop fails exactly when the depth does. *)
Lemma path_go_depth segs decs stack :
  comp_map (fun s => from_utf8_lossy <$> percent_decode s) segs = Done decs ->
  exists r, path_go segs stack = Done r /\
    match r with
    | Ok st => depth decs (length stack) = Some (length st)
    | Err _ => depth decs (length stack) = None
    end.
Proof.
  revert decs stack. induction segs as [|s segs IH]; cbn [comp_map path_go]; intros decs stack H.
  - hk_inv. by eexists.
  - destruct (percent_decode s) as [bytes|]; [|done]. cbn in H.
    destruct (comp_map _ segs) as [ds|]; [|done]. cbn in H. hk_inv. cbn.
    pose proof (path_step_depth stack (from_utf8_lossy bytes)) as Hd.
    destruct (path_step stack (from_utf8_lossy bytes)) as [st|]; rewrite Hd.
    + by apply IH.
    + by eexists.
Qed.

(** ** Properties *)

(** C27: canonicalisation is idempotent: the path sent upstream is itself
    canonical, so a second pass, by a proxy or the upstream, finds the same
    two views. *)
Theorem path_idempotent raw c : path raw = Done (Ok c) -> path (encoded c) = Done (Ok c).
Proof. intros (stack & Hc & ->)%path_ok_inv. by apply path_view. Qed.

Lemma path_idempotent_witness :
  path "//a/./b/../%63+d" = Done (Ok (mkCanonicalPath "/a/c d" "/a/c%20d")) /\
  path "/a/c%20d" = Done (Ok (mkCanonicalPath "/a/c d" "/a/c%20d")).
Proof.
  split; [reflexivity|].
  apply (path_idempotent "//a/./b/../%63+d" (mkCanonicalPath "/a/c d" "/a/c%20d")). reflexivity.
Defined.

(** An accepted path is a list of canonical segments, none empty, [.] or
    [..]: the decoded view joins them, the encoded view joins their
    encodings, and splitting the encoded view gives back exactly those
    segments, so an escaped slash is no separator upstream. *)
Lemma path_segments raw c :
  path raw = Done (Ok c) ->
  exists segs, Forall clean segs /\ c = view segs /\
    (segs <> [] -> split "/" (encoded c) = "" :: map (fun s => uri_encode s true) segs).
Proof.
  intros (stack & Hc & ->)%path_ok_inv. exists stack. split; [done|]. split; [done|].
  intros Hne. cbn [encoded view split]. by rewrite Ascii.eqb_refl, view_encoded_split.
Qed.

Lemma path_segments_witness :
  exists segs, Forall clean segs /\ mkCanonicalPath "/a/b/c" "/a%2Fb/c" = view segs /\
    (segs <> [] -> split "/" "/a%2Fb/c" = "" :: map (fun s => uri_encode s true) segs).
Proof. apply (path_segments "/a%2Fb/c" (mkCanonicalPath "/a/b/c" "/a%2Fb/c")). reflexivity. Defined.

(** C28: a path whose segments decode is refused exactly when its dot segments
    climb above the root: reading left to right, some [..] has no segment
    left to remove. *)
Theorem path_escape_iff raw decs :
  comp_map (fun s => from_utf8_lossy <$> percent_decode s)
    (split "/" (trim_start_matches "/" raw)) = Done decs ->
  path raw = Done (Err Escape) <-> depth decs 0 = None.
Proof.
  intros H. destruct (path_go_depth _ decs [] H) as (r & Hr & Hd). unfold path.
  rewrite Hr. simpl in *. destruct r as [st|[]]; rewrite Hd; naive_solver.
Qed.

Lemma path_escape_iff_witness :
  path "/a/%2e%2e/../b" = Done (Err Escape) <-> depth ["a"; ".."; ".."; "b"] 0 = None.
Proof. apply path_escape_iff. reflexivity. Defined.

(** The decoded view, which policies match, does not keep a decoded [%2F] or
    a dot segment hidden behind one apart from real separators. *)
Lemma path_decoded_view_splits :
  path "/repos/a%2F..%2Fsecret" =
    Done (Ok (mkCanonicalPath "/repos/a/../secret" "/repos/a%2F..%2Fsecret")) /\
  split "/" "/repos/a/../secret" = ["" ; "repos"; "a"; ".."; "secret"].
Proof. split; reflexivity. Qed.
