(* ===== verification/Datetime.v ===== *)
(** The calendar and timestamp routines of [gateway/src/sigv4.rs] (repeated
    verbatim in [control/src/providers.rs]): Hinnant's civil-date algorithms
    over [i64], and the SigV4 [YYYYMMDDTHHMMSSZ] format. Rust's [/] truncates
    ([Z.quot]); [div_euclid] and [rem_euclid] are [Z.div] and [Z.modulo] for
    the positive divisors used here. *)

From S2P Require Import Prelude RustStr.
Open Scope Z_scope.

(** ** Definitions *)

(** Days since the Unix epoch to (year, month, day). *)
Definition civil_from_days (z : Z) : Z * Z * Z :=
  let z := z + 719468 in
  let era := Z.quot (if 0 <=? z then z else z - 146096) 146097 in
  let doe := z - era * 146097 in
  let yoe := Z.quot (doe - Z.quot doe 1460 + Z.quot doe 36524 - Z.quot doe 146096) 365 in
  let y := yoe + era * 400 in
  let doy := doe - (365 * yoe + Z.quot yoe 4 - Z.quot yoe 100) in
  let mp := Z.quot (5 * doy + 2) 153 in
  let d := doy - Z.quot (153 * mp + 2) 5 + 1 in
  let m := if mp <? 10 then mp + 3 else mp - 9 in
  (if m <=? 2 then y + 1 else y, m, d).

(** (year, month, day) to days since the Unix epoch. *)
Definition days_from_civil (y m d : Z) : Z :=
  let y := if m <=? 2 then y - 1 else y in
  let era := Z.quot (if 0 <=? y then y else y - 399) 400 in
  let yoe := y - era * 400 in
  let mp := if 2 <? m then m - 3 else m + 9 in
  let doy := Z.quot (153 * mp + 2) 5 + d - 1 in
  let doe := yoe * 365 + Z.quot yoe 4 - Z.quot yoe 100 + doy in
  era * 146097 + doe - 719468.

(** The date and time-of-day fields of an instant. *)
Definition datetime_fields (epoch_ms : Z) : Z * Z * Z * (Z * Z * Z) :=
  let secs := epoch_ms / 1000 in
  let days := secs / 86400 in
  let tod := secs mod 86400 in
  (civil_from_days days, (Z.quot tod 3600, Z.quot (Z.rem tod 3600) 60, Z.rem tod 60)).

(** Epoch milliseconds to [YYYYMMDDTHHMMSSZ] and [YYYYMMDD]. *)
Definition format_amz_datetime (epoch_ms : Z) : string * string :=
  let '((y, m, d), (h, mi, s)) := datetime_fields epoch_ms in
  let date := show_pad 4 y +:+ show_pad 2 m +:+ show_pad 2 d in
  (date +:+ "T" +:+ show_pad 2 h +:+ show_pad 2 mi +:+ show_pad 2 s +:+ "Z", date).

(** [s.get(a..z).and_then(|v| v.parse::<i64>().ok())]. *)
Definition num (s : string) (a z : nat) : option Z :=
  match str_get a z s with Some v => parse_i64 v | None => None end.

(** The time of day and date of six parsed fields, as [u64] milliseconds. *)
Definition assemble (y mo d h mi se : Z) : option Z :=
  if negb (in_range 1 12 mo) || negb (in_range 1 31 d) || (23 <? h) || (59 <? mi) || (60 <? se)
  then None
  else
    let secs := days_from_civil y mo d * 86400 + h * 3600 + mi * 60 + se in
    if in_range 0 U64_MAX (secs * 1000) then Some (secs * 1000) else None.

Definition parse_amz_datetime (s : string) : option Z :=
  if negb (String.length s =? 16)%nat
     || negb (match String.get 8 s with Some a => a =b "T" | None => false end)
     || negb (match String.get 15 s with Some a => a =b "Z" | None => false end)
  then None
  else
    y ← num s 0 4; mo ← num s 4 6; d ← num s 6 8;
    h ← num s 9 11; mi ← num s 11 13; se ← num s 13 15;
    assemble y mo d h mi se.

(** ** Checking a property of every integer of an interval *)

Fixpoint zall_go (n : nat) (lo : Z) (p : Z -> bool) : bool :=
  match n with
  | O => true
  | S n' => p lo && zall_go n' (lo + 1) p
  end.

Definition zall (lo hi : Z) (p : Z -> bool) : bool := zall_go (Z.to_nat (hi - lo)) lo p.

Lemma zall_go_spec n lo p : zall_go n lo p = true -> forall z, lo <= z < lo + Z.of_nat n -> p z = true.
Proof.
  revert lo. induction n as [|n IH]; cbn [zall_go]; intros lo; [lia|].
  rewrite andb_true_iff. intros [H1 H2] z Hz.
  destruct (Z.eq_dec z lo) as [->|]; [done|]. apply (IH (lo + 1)); [done|lia].
Qed.

Lemma zall_spec lo hi p : zall lo hi p = true -> forall z, lo <= z < hi -> p z = true.
Proof. intros H z Hz. eapply zall_go_spec; [exact H|]. lia. Qed.

(** ** The calendar, one 400-year era at a time *)

(** The part of [civil_from_days] inside an era. *)
Definition civil_in_era (doe : Z) : Z * Z * Z :=
  let yoe := Z.quot (doe - Z.quot doe 1460 + Z.quot doe 36524 - Z.quot doe 146096) 365 in
  let doy := doe - (365 * yoe + Z.quot yoe 4 - Z.quot yoe 100) in
  let mp := Z.quot (5 * doy + 2) 153 in
  let d := doy - Z.quot (153 * mp + 2) 5 + 1 in
  let m := if mp <? 10 then mp + 3 else mp - 9 in
  (yoe, m, d).

Definition days_in_era (yoe m d : Z) : Z :=
  let mp := if 2 <? m then m - 3 else m + 9 in
  yoe * 365 + Z.quot yoe 4 - Z.quot yoe 100 + (Z.quot (153 * mp + 2) 5 + d - 1).

(** The Gregorian calendar. *)
Definition is_leap (y : Z) : bool :=
  (y mod 4 =? 0) && (negb (y mod 100 =? 0) || (y mod 400 =? 0)).

Definition days_in_month (y m : Z) : Z :=
  if m =? 2 then (if is_leap y then 29 else 28)
  else if (m =? 4) || (m =? 6) || (m =? 9) || (m =? 11) then 30 else 31.

(** The day of the era on which a year of the era (March to February) starts,
    and the day on which it ends. *)
Definition year_start (yoe : Z) : Z := 365 * yoe + Z.quot yoe 4 - Z.quot yoe 100.
Definition year_end (yoe : Z) : Z := if yoe =? 399 then 146096 else year_start (yoe + 1) - 1.

(** The year [civil_from_days] assigns to a day of the era. *)
Definition year_of_day (doe : Z) : Z :=
  Z.quot (doe - Z.quot doe 1460 + Z.quot doe 36524 - Z.quot doe 146096) 365.

(** The two ends of a year are assigned to it, and it has a 366th day exactly
    when the February it ends with is in a leap year. *)
Definition year_ok (yoe : Z) : bool :=
  (year_of_day (year_start yoe) =? yoe) && (year_of_day (year_end yoe) =? yoe)
  && (year_start yoe <=? year_end yoe)
  && (year_end yoe - year_start yoe =? (if is_leap (yoe + 1) then 365 else 364)).

(** The month and day of a day of the year invert, and are in range but for
    29 February, which is the 366th day. *)
Definition doy_ok (doy : Z) : bool :=
  let mp := Z.quot (5 * doy + 2) 153 in
  let d := doy - Z.quot (153 * mp + 2) 5 + 1 in
  let m := if mp <? 10 then mp + 3 else mp - 9 in
  in_range 1 12 m && (1 <=? d)
  && ((d <=? days_in_month 1 m) || ((m =? 2) && (d =? 29) && (doy =? 365)))
  && (Z.quot (153 * (if 2 <? m then m - 3 else m + 9) + 2) 5 + d - 1 =? doy).

Lemma years_ok : zall 0 400 year_ok = true.
Proof. vm_compute. reflexivity. Qed.

Lemma doys_ok : zall 0 366 doy_ok = true.
Proof. vm_compute. reflexivity. Qed.

Lemma in_range_true lo hi z : in_range lo hi z = true <-> lo <= z <= hi.
Proof. unfold in_range. rewrite andb_true_iff, !Z.leb_le. done. Qed.

Lemma in_range_false lo hi z : in_range lo hi z = false <-> z < lo \/ hi < z.
Proof. unfold in_range. rewrite andb_false_iff, !Z.leb_gt. done. Qed.

(** [quot] after the sign adjustment is floor division. *)
Lemma era_quot z n : 0 < n -> Z.quot (if 0 <=? z then z else z - (n - 1)) n = z / n.
Proof.
  intros Hn. destruct (Z.leb_spec 0 z).
  - apply Z.quot_div_nonneg; lia.
  - rewrite <- (Z.opp_involutive (z - (n - 1))), Z.quot_opp_l by lia.
    rewrite Z.quot_div_nonneg by lia.
    apply Z.div_unique with (r := z - n * - (- (z - (n - 1)) / n)).
    + left. pose proof (Z.div_mod (- (z - (n - 1))) n ltac:(lia)).
      pose proof (Z.mod_pos_bound (- (z - (n - 1))) n Hn). lia.
    + lia.
Qed.

Lemma era_quot_days z : Z.quot (if 0 <=? z then z else z - 146096) 146097 = z / 146097.
Proof. exact (era_quot z 146097 eq_refl). Qed.

Lemma era_quot_years y : Z.quot (if 0 <=? y then y else y - 399) 400 = y / 400.
Proof. exact (era_quot y 400 eq_refl). Qed.

Lemma civil_from_days_era z :
  civil_from_days z =
  let era := (z + 719468) / 146097 in
  let '(yoe, m, d) := civil_in_era ((z + 719468) mod 146097) in
  (if m <=? 2 then yoe + era * 400 + 1 else yoe + era * 400, m, d).
Proof.
  unfold civil_from_days, civil_in_era.
  rewrite era_quot_days.
  replace (z + 719468 - (z + 719468) / 146097 * 146097) with ((z + 719468) mod 146097)
    by (rewrite Z.mod_eq by lia; lia).
  reflexivity.
Qed.

Lemma days_from_civil_era era yoe m d :
  0 <= yoe <= 399 -> 1 <= m <= 12 ->
  days_from_civil (if m <=? 2 then yoe + era * 400 + 1 else yoe + era * 400) m d =
  era * 146097 + days_in_era yoe m d - 719468.
Proof.
  intros Hy Hm. unfold days_from_civil, days_in_era.
  assert (E : (if m <=? 2 then (if m <=? 2 then yoe + era * 400 + 1 else yoe + era * 400) - 1
               else (if m <=? 2 then yoe + era * 400 + 1 else yoe + era * 400)) = yoe + era * 400)
    by (destruct (m <=? 2); lia).
  rewrite E, era_quot_years.
  rewrite Z.div_add, Z.div_small by lia.
  replace (yoe + era * 400 - (0 + era) * 400) with yoe by lia. lia.
Qed.

Lemma year_of_day_mono a b :
  0 <= a -> a <= b -> b < 146096 -> year_of_day a <= year_of_day b.
Proof.
  intros Ha Hab Hb. unfold year_of_day.
  rewrite !(Z.quot_div_nonneg a), !(Z.quot_div_nonneg b) by lia.
  rewrite (Z.div_small a 146096), (Z.div_small b 146096) by lia.
  apply Z.quot_le_mono; [lia|].
  pose proof (Z.div_mod a 1460 ltac:(lia)). pose proof (Z.mod_pos_bound a 1460 ltac:(lia)).
  pose proof (Z.div_mod b 1460 ltac:(lia)). pose proof (Z.mod_pos_bound b 1460 ltac:(lia)).
  pose proof (Z.div_le_mono a b 36524 ltac:(lia) Hab). lia.
Qed.

Lemma year_facts yoe :
  0 <= yoe <= 399 ->
  year_of_day (year_start yoe) = yoe /\ year_of_day (year_end yoe) = yoe /\
  year_start yoe <= year_end yoe /\
  year_end yoe - year_start yoe = (if is_leap (yoe + 1) then 365 else 364).
Proof.
  intros H. pose proof (zall_spec _ _ _ years_ok yoe ltac:(lia)) as E.
  unfold year_ok in E. rewrite !andb_true_iff, !Z.eqb_eq, Z.leb_le in E. tauto.
Qed.

(** The 400 years cover the era. *)
Lemma year_cover doe n :
  (n <= 400)%nat -> 0 <= doe ->
  (if (n =? 400)%nat then doe <= 146096 else doe < year_start (Z.of_nat n)) ->
  exists yoe, 0 <= yoe < Z.of_nat n /\ year_start yoe <= doe <= year_end yoe.
Proof.
  induction n as [|n IH]; intros Hn Hd H; [change (doe < 0) in H; lia|].
  destruct (Z.le_gt_cases (year_start (Z.of_nat n)) doe) as [Hle|Hgt].
  - exists (Z.of_nat n). split; [lia|]. split; [done|]. unfold year_end.
    destruct (Nat.eqb_spec (S n) 400) as [E|E].
    + by replace (Z.of_nat n =? 399) with true by (symmetry; apply Z.eqb_eq; lia).
    + replace (Z.of_nat n =? 399) with false by (symmetry; apply Z.eqb_neq; lia).
      replace (Z.of_nat n + 1) with (Z.of_nat (S n)) by lia. lia.
  - destruct IH as (yoe & ? & ?); [lia|done| |exists yoe; split; [lia|done]].
    destruct (Nat.eqb_spec n 400); [lia|done].
Qed.

(** Where a day of the era falls. *)
Lemma year_of_day_spec doe :
  0 <= doe < 146097 ->
  0 <= year_of_day doe <= 399 /\
  year_start (year_of_day doe) <= doe <= year_end (year_of_day doe).
Proof.
  intros Hd. destruct (year_cover doe 400) as (yoe & Hy & Hs & He); [lia..|simpl; lia|].
  change (Z.of_nat 400) with 400 in Hy.
  destruct (year_facts yoe ltac:(lia)) as (H1 & H2 & H3 & _).
  assert (year_of_day doe = yoe) as ->; [|split; [lia|done]].
  destruct (Z.eq_dec doe 146096) as [->|Hne].
  - rewrite <- H2. f_equal. unfold year_end in *. destruct (Z.eqb_spec yoe 399); [done|].
    assert (year_start (yoe + 1) <= 146096 - 365); [|lia].
    clear -n Hy. unfold year_start. rewrite !Z.quot_div_nonneg by lia.
    pose proof (Z.div_mod (yoe + 1) 4 ltac:(lia)). pose proof (Z.mod_pos_bound (yoe + 1) 4 ltac:(lia)).
    pose proof (Z.div_mod (yoe + 1) 100 ltac:(lia)). pose proof (Z.mod_pos_bound (yoe + 1) 100 ltac:(lia)).
    lia.
  - assert (Hlo : year_of_day (year_start yoe) <= year_of_day doe).
    { apply year_of_day_mono; [|lia..]. unfold year_start. rewrite !Z.quot_div_nonneg by lia.
      pose proof (Z.div_pos yoe 4 ltac:(lia) ltac:(lia)).
      pose proof (Z.div_mod yoe 100 ltac:(lia)). pose proof (Z.mod_pos_bound yoe 100 ltac:(lia)). lia. }
    destruct (Z.eq_dec yoe 399) as [->|Hn399].
    + assert (year_of_day doe <= year_of_day 146095) by (apply year_of_day_mono; lia).
      change (year_of_day 146095) with 399 in *. lia.
    + assert (year_of_day doe <= year_of_day (year_end yoe)); [|lia].
      apply year_of_day_mono; [lia..|]. unfold year_end. destruct (Z.eqb_spec yoe 399); [done|].
      unfold year_start. rewrite !Z.quot_div_nonneg by lia.
      pose proof (Z.div_mod (yoe + 1) 4 ltac:(lia)). pose proof (Z.mod_pos_bound (yoe + 1) 4 ltac:(lia)).
      pose proof (Z.div_mod (yoe + 1) 100 ltac:(lia)). pose proof (Z.mod_pos_bound (yoe + 1) 100 ltac:(lia)).
      lia.
Qed.

Lemma era_facts doe yoe m d :
  0 <= doe < 146097 -> civil_in_era doe = (yoe, m, d) ->
  0 <= yoe <= 399 /\ 1 <= m <= 12 /\
  1 <= d <= days_in_month (if m <=? 2 then yoe + 1 else yoe) m /\ days_in_era yoe m d = doe.
Proof.
  intros Hd. destruct (year_of_day_spec doe Hd) as [Hy [Hs He]].
  unfold civil_in_era. fold (year_of_day doe).
  remember (year_of_day doe) as y eqn:Ey. clear Ey.
  remember (doe - (365 * y + Z.quot y 4 - Z.quot y 100)) as doy eqn:Edoy.
  destruct (year_facts y Hy) as (_ & _ & _ & Hlen).
  change (365 * y + Z.quot y 4 - Z.quot y 100) with (year_start y) in Edoy.
  assert (Hr : 0 <= doy < 366) by (destruct (is_leap (y + 1)); lia).
  pose proof (zall_spec _ _ _ doys_ok doy Hr) as E. unfold doy_ok in E. cbn zeta in E.
  remember (Z.quot (5 * doy + 2) 153) as mp eqn:Emp. clear Emp.
  remember (doy - Z.quot (153 * mp + 2) 5 + 1) as d' eqn:Ed. clear Ed.
  remember (if mp <? 10 then mp + 3 else mp - 9) as m' eqn:Em. clear Em.
  intros [= <- <- <-].
  rewrite !andb_true_iff, orb_true_iff, !andb_true_iff, in_range_true, !Z.eqb_eq, !Z.leb_le in E.
  destruct E as [[[Hm Hd1] Hd2] Hinv]. split; [done|]. split; [done|]. split; [split; [done|]|].
  - destruct Hd2 as [Hd2|[[-> ->] ->]].
    + unfold days_in_month in *. change (is_leap 1) with false in Hd2.
      repeat case_match; lia.
    + simpl. unfold days_in_month. simpl. destruct (is_leap (y + 1)); lia.
  - unfold days_in_era, year_start in *. lia.
Qed.

Lemma days_in_month_le y m : days_in_month y m <= 31.
Proof. unfold days_in_month. repeat case_match; lia. Qed.

(** The date is well-formed, for every day. *)
Lemma civil_from_days_range z y m d :
  civil_from_days z = (y, m, d) -> 1 <= m <= 12 /\ 1 <= d <= 31.
Proof.
  rewrite civil_from_days_era. cbn zeta.
  destruct (civil_in_era ((z + 719468) mod 146097)) as [[yoe m'] d'] eqn:E.
  intros [= <- <- <-].
  destruct (era_facts _ _ _ _ (Z.mod_pos_bound (z + 719468) 146097 eq_refl) E) as (_ & ? & ? & _).
  pose proof (days_in_month_le (if m' <=? 2 then yoe + 1 else yoe) m'). lia.
Qed.

(** [days_from_civil] inverts [civil_from_days] on every day. *)
Lemma days_civil_inverse z y m d :
  civil_from_days z = (y, m, d) -> days_from_civil y m d = z.
Proof.
  rewrite civil_from_days_era. cbn zeta.
  destruct (civil_in_era ((z + 719468) mod 146097)) as [[yoe m'] d'] eqn:E.
  intros [= <- <- <-].
  destruct (era_facts _ _ _ _ (Z.mod_pos_bound (z + 719468) 146097 eq_refl) E)
    as (Hy & Hm & _ & Hdoe).
  rewrite days_from_civil_era by done. rewrite Hdoe.
  pose proof (Z.div_mod (z + 719468) 146097 ltac:(lia)). lia.
Qed.

(** [lia] with division and modulo by constants. *)
Ltac dlia := Z.div_mod_to_equations; lia.

(** ** Zero-padded decimal fields *)

Definition pad2_ok (n : Z) : bool :=
  let s := show_pad 2 n in
  (String.length s =? 2)%nat && sforall is_ascii_digit s
  && match parse_digits 10 1 (-9223372036854775808) 9223372036854775807 s 0 with
     | Some v => v =? n | None => false end
  && (s =s String (digit_char (n / 10)) (String (digit_char (n mod 10)) "")).

Lemma pads_ok : zall 0 100 pad2_ok = true.
Proof. vm_compute. reflexivity. Qed.

Lemma show_pad2 n : 0 <= n < 100 ->
  show_pad 2 n = String (digit_char (n / 10)) (String (digit_char (n mod 10)) "").
Proof.
  intros H. pose proof (zall_spec _ _ _ pads_ok n H) as E. unfold pad2_ok in E. cbn zeta in E.
  rewrite !andb_true_iff, String.eqb_eq in E. tauto.
Qed.

Lemma show_pad2_facts n : 0 <= n < 100 ->
  String.length (show_pad 2 n) = 2%nat /\ sforall is_ascii_digit (show_pad 2 n) = true.
Proof.
  intros H. pose proof (zall_spec _ _ _ pads_ok n H) as E. unfold pad2_ok in E. cbn zeta in E.
  rewrite !andb_true_iff, Nat.eqb_eq in E. tauto.
Qed.

Lemma digit_char_to d : 0 <= d < 10 ->
  to_digit 10 (digit_char d) = Some d /\ digit_char d <> "+"%char /\ digit_char d <> "-"%char.
Proof.
  intros H. assert (d = 0 \/ d = 1 \/ d = 2 \/ d = 3 \/ d = 4 \/ d = 5 \/ d = 6 \/ d = 7 \/ d = 8 \/ d = 9)
    as Hd by lia.
  by destruct Hd as [->|[->|[->|[->|[->|[->|[->|[->|[->| ->]]]]]]]]].
Qed.

(** Reading two padded digits after a prefix already read. *)
Lemma parse_digits_pad2 n acc rest : 0 <= n < 100 -> 0 <= acc < 1000000 ->
  parse_digits 10 1 (-9223372036854775808) 9223372036854775807 (show_pad 2 n +:+ rest) acc =
  parse_digits 10 1 (-9223372036854775808) 9223372036854775807 rest (acc * 100 + n).
Proof.
  intros Hn Hacc. rewrite show_pad2 by done. hk_str. cbn [parse_digits].
  pose proof (Z.div_mod n 10 ltac:(lia)). pose proof (Z.mod_pos_bound n 10 ltac:(lia)).
  assert (0 <= n / 10 < 10) by lia.
  rewrite (proj1 (digit_char_to (n / 10) ltac:(lia))), (proj1 (digit_char_to (n mod 10) ltac:(lia))).
  replace (in_range _ _ (acc * 10 + 1 * (n / 10))) with true by (symmetry; apply in_range_true; lia).
  replace (in_range _ _ ((acc * 10 + 1 * (n / 10)) * 10 + 1 * (n mod 10))) with true
    by (symmetry; apply in_range_true; lia).
  f_equal. lia.
Qed.

(** Four padded digits are two pairs. *)
Lemma show_pad4 n : 0 <= n < 10000 -> show_pad 4 n = show_pad 2 (n / 100) +:+ show_pad 2 (n mod 100).
Proof.
  intros Hn.
  pose proof (Z.div_mod n 100 ltac:(lia)). pose proof (Z.mod_pos_bound n 100 ltac:(lia)).
  rewrite !show_pad2 by lia. hk_str.
  rewrite Z.div_div, (Z.mul_comm 100 10) by lia. change (10 * 100) with 1000.
  replace (n mod 100 mod 10) with (n mod 10)
    by (symmetry; apply Z.mod_mod_divide; by exists 10).
  assert (E1 : n mod 100 / 10 = n / 10 mod 10) by (change 100 with (10 * 10); pose proof (Z.mod_pos_bound n 10 eq_refl); rewrite (Z.rem_mul_r n 10 10), (Z.mul_comm 10), Z.div_add, (Z.div_small (n mod 10)) by lia; lia).
  rewrite E1. unfold show_pad, show_dec. cbn [dec_go].
  destruct (Z.ltb_spec n 10).
  { rewrite !(Z.div_small n) by lia. by rewrite (Z.mod_small n 10) by lia. }
  rewrite (Z.div_div n 10 10) by lia. change (10 * 10) with 100.
  destruct (Z.ltb_spec (n / 10) 10).
  { assert (n < 100) by dlia. rewrite (Z.div_small n 100), (Z.div_small n 1000) by lia. done. }
  rewrite (Z.div_div n 100 10) by lia. change (100 * 10) with 1000.
  destruct (Z.ltb_spec (n / 100) 10).
  { rewrite (Z.div_small n 1000) by dlia. done. }
  assert (E : (n / 1000 <? 10) = true) by (apply Z.ltb_lt; dlia). rewrite E.
  by rewrite (Z.mod_small (n / 1000) 10) by dlia.
Qed.

Lemma parse_i64_digit d s : 0 <= d < 10 ->
  parse_i64 (String (digit_char d) s) =
  parse_digits 10 1 (-9223372036854775808) 9223372036854775807 (String (digit_char d) s) 0.
Proof.
  intros Hd. destruct (digit_char_to d Hd) as (_ & Hp & Hm). unfold parse_i64, parse_signed.
  destruct (Ascii.eqb_spec (digit_char d) "+"); [done|].
  destruct (Ascii.eqb_spec (digit_char d) "-"); [done|].
  repeat case_match; naive_solver.
Qed.

Lemma parse_i64_pad2 n : 0 <= n < 100 -> parse_i64 (show_pad 2 n) = Some n.
Proof.
  intros Hn. pose proof (parse_digits_pad2 n 0 "" Hn ltac:(lia)) as H.
  rewrite sapp_nil_r in H. rewrite show_pad2 in * by done.
  rewrite parse_i64_digit by dlia. by rewrite H.
Qed.

Lemma parse_i64_pad4 n : 0 <= n < 10000 -> parse_i64 (show_pad 4 n) = Some n.
Proof.
  intros Hn. rewrite show_pad4 by done.
  assert (0 <= n / 100 < 100 /\ 0 <= n mod 100 < 100) as [H1 H2] by dlia.
  pose proof (parse_digits_pad2 (n / 100) 0 (show_pad 2 (n mod 100)) H1 ltac:(lia)) as H.
  rewrite (show_pad2 (n / 100)) in * by done. rewrite sapp_cons in *.
  rewrite parse_i64_digit by dlia. rewrite H.
  rewrite <- (sapp_nil_r (show_pad 2 (n mod 100))), parse_digits_pad2 by dlia. simpl. f_equal. dlia.
Qed.

(** ** Fields of the formatted timestamp *)

Lemma get_ascii s i a : is_ascii s = true -> String.get i s = Some a -> is_cont a = false.
Proof.
  unfold is_ascii. revert i. induction s as [|b s IH]; intros i; [by destruct i|].
  cbn [sforall]. rewrite andb_true_iff. intros [Hb Hs].
  destruct i as [|i]; cbn [String.get]; [|by apply IH].
  intros [= <-]. unfold is_cont. apply in_range_false. apply Z.ltb_lt in Hb. lia.
Qed.

Lemma get_lt s i : (i < String.length s)%nat -> exists a, String.get i s = Some a.
Proof.
  revert i. induction s as [|b s IH]; simpl; [lia|]. intros [|i] Hi; [by eexists|]. apply IH. lia.
Qed.

Lemma ascii_boundary s i : is_ascii s = true -> (i <= String.length s)%nat -> is_char_boundary s i = true.
Proof.
  intros Ha Hi. unfold is_char_boundary.
  destruct (Nat.eqb_spec i 0), (Nat.eqb_spec i (String.length s)); try done.
  destruct (get_lt s i ltac:(lia)) as [a Hg]. simpl. rewrite Hg. by rewrite (get_ascii _ _ _ Ha Hg).
Qed.

Lemma substring_app p q r :
  String.substring (String.length p) (String.length q) (p +:+ q +:+ r) = q.
Proof.
  induction p as [|a p IH].
  - change (String.substring 0 (String.length q) (q +:+ r) = q).
    induction q as [|b q IHq]; [by destruct r|]. hk_str. simpl. by rewrite IHq.
  - hk_str. exact IH.
Qed.

(** The digits of one chunk of an ASCII timestamp. *)
Lemma concat_app l1 l2 : concat (l1 ++ l2) = concat l1 +:+ concat l2.
Proof. induction l1 as [|x l1 IH]; [done|]. cbn. by rewrite IH, sapp_assoc. Qed.

Lemma concat_middle l i q :
  l !! i = Some q -> concat l = concat (take i l) +:+ q +:+ concat (drop (S i) l).
Proof.
  intros H. rewrite <- (take_drop_middle l i q H) at 1. by rewrite concat_app.
Qed.

Lemma num_chunk l i q a z :
  l !! i = Some q -> is_ascii (concat l) = true ->
  a = String.length (concat (take i l)) -> z = (a + String.length q)%nat ->
  num (concat l) a z = parse_i64 q.
Proof.
  intros Hl Ha -> ->. pose proof (concat_middle l i q Hl) as E. unfold num, str_get.
  assert (Hle : (String.length (concat (take i l)) + String.length q <= String.length (concat l))%nat)
    by (rewrite E, !slength_app; lia).
  rewrite !ascii_boundary by (done || lia).
  replace (_ <=? _)%nat with true by (symmetry; apply Nat.leb_le; lia).
  replace (_ <=? _)%nat with true by (symmetry; apply Nat.leb_le; lia). cbn [andb].
  rewrite Nat.add_comm, Nat.add_sub, E. by rewrite substring_app.
Qed.

Lemma get_chunk l i b k :
  l !! i = Some (String b "") -> k = String.length (concat (take i l)) ->
  String.get k (concat l) = Some b.
Proof.
  intros Hl ->. rewrite (concat_middle l i _ Hl). generalize (concat (take i l)). intros p.
  induction p as [|c p IH]; [done|]. hk_str. exact IH.
Qed.

Lemma digits_ascii s : sforall is_ascii_digit s = true -> is_ascii s = true.
Proof.
  apply sforall_impl. intros a. unfold is_ascii_digit. rewrite in_range_true, Z.ltb_lt. lia.
Qed.

Lemma show_pad4_facts n : 0 <= n < 10000 ->
  String.length (show_pad 4 n) = 4%nat /\ sforall is_ascii_digit (show_pad 4 n) = true.
Proof.
  intros Hn. rewrite show_pad4 by done.
  destruct (show_pad2_facts (n / 100) ltac:(dlia)) as [L1 D1].
  destruct (show_pad2_facts (n mod 100) ltac:(dlia)) as [L2 D2].
  by rewrite slength_app, sforall_app, L1, L2, D1, D2.
Qed.

(** The chunks of the string [format_amz_datetime] builds. *)
Definition stamp (y m d h mi s : Z) : list string :=
  [show_pad 4 y; show_pad 2 m; show_pad 2 d; "T"; show_pad 2 h; show_pad 2 mi; show_pad 2 s; "Z"].

(** Lengths of the chunks before a position. *)
Ltac chunk_length :=
  cbn [stamp take concat firstn]; rewrite ?slength_app;
  repeat match goal with H : String.length (show_pad _ _) = _ |- _ => rewrite H end; reflexivity.

(** Reading the six fields back. *)
Lemma parse_stamp y m d h mi s :
  0 <= y < 10000 -> 0 <= m < 100 -> 0 <= d < 100 -> 0 <= h < 100 -> 0 <= mi < 100 -> 0 <= s < 100 ->
  parse_amz_datetime (concat (stamp y m d h mi s)) = assemble y m d h mi s.
Proof.
  intros Hy Hm Hd Hh Hmi Hs.
  destruct (show_pad4_facts y Hy) as [? ?%digits_ascii].
  destruct (show_pad2_facts m Hm) as [? ?%digits_ascii], (show_pad2_facts d Hd) as [? ?%digits_ascii],
    (show_pad2_facts h Hh) as [? ?%digits_ascii], (show_pad2_facts mi Hmi) as [? ?%digits_ascii],
    (show_pad2_facts s Hs) as [? ?%digits_ascii].
  assert (Ha : is_ascii (concat (stamp y m d h mi s)) = true).
  { unfold is_ascii, stamp in *. cbn [concat]. rewrite !sforall_app.
    repeat match goal with H : sforall _ _ = true |- _ => rewrite H; clear H end. done. }
  assert (Hl : String.length (concat (stamp y m d h mi s)) = 16%nat) by chunk_length.
  unfold parse_amz_datetime. rewrite Hl. cbn [Nat.eqb negb].
  rewrite (get_chunk (stamp y m d h mi s) 3 "T"%char 8 eq_refl) by chunk_length.
  rewrite (get_chunk (stamp y m d h mi s) 7 "Z"%char 15 eq_refl) by chunk_length. cbn [negb orb Ascii.eqb Bool.eqb].
  pose proof (fun i q a z H => num_chunk (stamp y m d h mi s) i q a z H Ha) as Hnum.
  rewrite (Hnum 0%nat _ 0%nat 4%nat eq_refl), (Hnum 1%nat _ 4%nat 6%nat eq_refl),
    (Hnum 2%nat _ 6%nat 8%nat eq_refl), (Hnum 4%nat _ 9%nat 11%nat eq_refl),
    (Hnum 5%nat _ 11%nat 13%nat eq_refl), (Hnum 6%nat _ 13%nat 15%nat eq_refl) by chunk_length.
  by rewrite parse_i64_pad4, !parse_i64_pad2.
Qed.

(** ** The calendar is Gregorian *)

Lemma is_leap_period y k : is_leap (y + k * 400) = is_leap y.
Proof.
  unfold is_leap. replace (k * 400) with (k * 100 * 4) at 1 by lia.
  replace (k * 400) with (k * 4 * 100) at 1 by lia. by rewrite !Z.mod_add by lia.
Qed.

Lemma days_in_month_period y k m : days_in_month (y + k * 400) m = days_in_month y m.
Proof. unfold days_in_month. by rewrite is_leap_period. Qed.

Lemma civil_from_days_valid z y m d :
  civil_from_days z = (y, m, d) -> 1 <= m <= 12 /\ 1 <= d <= days_in_month y m.
Proof.
  rewrite civil_from_days_era. cbn zeta.
  destruct (civil_in_era ((z + 719468) mod 146097)) as [[yoe m'] d'] eqn:E.
  intros [= <- <- <-].
  destruct (era_facts _ _ _ _ (Z.mod_pos_bound (z + 719468) 146097 eq_refl) E) as (_ & ? & H & _).
  split; [done|]. destruct (m' <=? 2).
  - replace (yoe + (z + 719468) / 146097 * 400 + 1)
      with (yoe + 1 + (z + 719468) / 146097 * 400) by lia. by rewrite days_in_month_period.
  - by rewrite days_in_month_period.
Qed.

(** From the epoch to the end of year 9999 the year has at most four digits. *)
Lemma civil_from_days_four_digits z y m d :
  0 <= z < 2932897 -> civil_from_days z = (y, m, d) -> 0 <= y < 10000.
Proof.
  intros Hz. rewrite civil_from_days_era. cbn zeta.
  destruct (civil_in_era ((z + 719468) mod 146097)) as [[yoe m'] d'] eqn:E.
  intros [= <- <- <-].
  destruct (era_facts _ _ _ _ (Z.mod_pos_bound (z + 719468) 146097 eq_refl) E)
    as (Hy & Hm & Hd & Hdoe).
  pose proof (Z.div_mod (z + 719468) 146097 ltac:(lia)).
  pose proof (Z.mod_pos_bound (z + 719468) 146097 ltac:(lia)).
  assert (4 <= (z + 719468) / 146097 <= 24) by lia.
  destruct (Z.leb_spec m' 2); [|lia].
  destruct (Z.eq_dec yoe 399) as [->|]; [|lia].
  assert (Hmp : (if 2 <? m' then m' - 3 else m' + 9) = m' + 9)
    by (destruct (Z.ltb_spec 2 m'); lia).
  unfold days_in_era in Hdoe. rewrite Hmp in Hdoe. clear E Hmp.
  assert (m' = 1 \/ m' = 2) as [-> | ->] by lia;
    repeat match type of Hdoe with context [Z.quot ?a ?b] =>
      let v := eval vm_compute in (Z.quot a b) in change (Z.quot a b) with v in Hdoe end; lia.
Qed.

Lemma time_of_day tod h mi s :
  0 <= tod < 86400 -> (h, mi, s) = (Z.quot tod 3600, Z.quot (Z.rem tod 3600) 60, Z.rem tod 60) ->
  0 <= h <= 23 /\ 0 <= mi <= 59 /\ 0 <= s <= 59 /\ h * 3600 + mi * 60 + s = tod.
Proof.
  intros Ht [= -> -> ->].
  rewrite !Z.rem_mod_nonneg, !Z.quot_div_nonneg by (lia || dlia). dlia.
Qed.

Lemma format_stamp ms y m d h mi s :
  datetime_fields ms = ((y, m, d), (h, mi, s)) ->
  fst (format_amz_datetime ms) = concat (stamp y m d h mi s).
Proof.
  intros E. unfold format_amz_datetime. rewrite E. cbn [fst stamp concat]. by rewrite !sapp_assoc.
Qed.

Lemma datetime_roundtrip_aux ms :
  0 <= ms < 253402300800000 ->
  parse_amz_datetime (fst (format_amz_datetime ms)) = Some (ms / 1000 * 1000).
Proof.
  intros Hms. destruct (datetime_fields ms) as [[[y m] d] [[h mi] s]] eqn:E.
  rewrite (format_stamp _ _ _ _ _ _ _ E). unfold datetime_fields in E. cbn zeta in E.
  destruct (civil_from_days (ms / 1000 / 86400)) as [[y' m'] d'] eqn:Ec.
  injection E as -> -> -> Eh Emi Es.
  destruct (time_of_day (ms / 1000 mod 86400) h mi s) as (Hh & Hmi & Hs & Htod);
    [dlia|congruence|].
  assert (Hday : 0 <= ms / 1000 / 86400 < 2932897) by dlia.
  pose proof (civil_from_days_four_digits _ _ _ _ Hday Ec) as Hy.
  destruct (civil_from_days_range _ _ _ _ Ec) as [Hm Hd].
  rewrite parse_stamp by lia. unfold assemble.
  rewrite (proj2 (in_range_true 1 12 m)), (proj2 (in_range_true 1 31 d)) by lia.
  replace (23 <? h) with false by (symmetry; apply Z.ltb_ge; lia).
  replace (59 <? mi) with false by (symmetry; apply Z.ltb_ge; lia).
  replace (60 <? s) with false by (symmetry; apply Z.ltb_ge; lia). cbn [negb orb].
  rewrite (days_civil_inverse _ _ _ _ Ec).
  replace (ms / 1000 / 86400 * 86400 + h * 3600 + mi * 60 + s) with (ms / 1000) by dlia.
  rewrite (proj2 (in_range_true 0 U64_MAX _)); [done|]. unfold U64_MAX. dlia.
Qed.

(** ** Properties *)

(** Hinnant's day arithmetic is a calendar: every day number gives a month,
    and a day that month has in that year (leap years included), and the
    inverse recovers the day number, for every integer. *)
Lemma civil_calendar z :
  let '(y, m, d) := civil_from_days z in
  1 <= m <= 12 /\ 1 <= d <= days_in_month y m /\ days_from_civil y m d = z.
Proof.
  destruct (civil_from_days z) as [[y m] d] eqn:E.
  destruct (civil_from_days_valid _ _ _ _ E) as [? ?]. by apply days_civil_inverse in E.
Qed.

(** The timestamp a request is signed with parses back to the same
    second, from the epoch to the end of year 9999; so a signer's own clock
    reading is never rejected for its shape. *)
Lemma amz_datetime_roundtrip ms :
  0 <= ms < 253402300800000 ->
  parse_amz_datetime (fst (format_amz_datetime ms)) = Some (ms / 1000 * 1000).
Proof. apply datetime_roundtrip_aux. Qed.

Lemma amz_datetime_roundtrip_witness :
  fst (format_amz_datetime 1440938160123) = "20150830T123600Z" /\
  parse_amz_datetime (fst (format_amz_datetime 1440938160123)) = Some 1440938160000.
Proof. split; [reflexivity|]. apply (amz_datetime_roundtrip 1440938160123). lia. Defined.

(** Fields with a sign, and days their month does not have, are accepted. *)
Lemma parse_amz_datetime_loose :
  parse_amz_datetime "20120215T-1-1-1Z" = Some 1329260339000 /\
  parse_amz_datetime "20150231T000000Z" = parse_amz_datetime "20150303T000000Z".
Proof. split; vm_compute; reflexivity. Qed.
