(* ===== verification/External.v ===== *)
(** Interfaces to the third-party crates the program calls. Each is a class of
    operations and a class of laws; the laws state behaviour the crate
    documents. Definitions of the development use only the operations, theorems
    only the laws; [Reference.v] has concrete instances for the witnesses. *)

From S2P Require Import Prelude RustStr.

(** ** serde_json

    [serde_json::Value]: [as_object], [as_str] and [is_null] are its accessors,
    [VObject], [VString] and [VBool] its constructors of those names, [value_eqb] its
    [PartialEq], and [from_slice] is [serde_json::from_slice::<Value>(_).ok()].
    A [serde_json::Map] is a finite map. *)
Class JsonLib := {
  value : Type;
  value_eqb : value -> value -> bool;
  VObject : gmap string value -> value;
  VString : string -> value;
  VBool : bool -> value;
  as_object : value -> option (gmap string value);
  as_str : value -> option string;
  is_null : value -> bool;
  from_slice : string -> option value;
}.

Class JsonLaws (J : JsonLib) : Prop := {
  as_object_VObject m : as_object (VObject m) = Some m;
  as_object_VString s : as_object (VString s) = None;
  as_str_VString s : as_str (VString s) = Some s;
  is_null_VString s : is_null (VString s) = false;
  value_eqb_VString s t : value_eqb (VString s) (VString t) = (s =s t);
}.

(** ** http

    A [HeaderName] is the lowercase [string] [as_str] gives; every operation
    takes names in that form. A [HeaderMap] is
    a multimap; [hm_iter] is the sequence of name/value pairs of its iterator,
    [hm_get_all] the values of one name in order. [hv_to_str] and [hv_from_str]
    are [to_str().ok()] and [from_str().ok()]; [hn_from_bytes] is
    [HeaderName::from_bytes(_).ok()]. *)
Class HttpLib := {
  HeaderMap : Type;
  HeaderValue : Type;
  hm_empty : HeaderMap;
  hm_get_all : HeaderMap -> string -> list HeaderValue;
  hm_insert : HeaderMap -> string -> HeaderValue -> HeaderMap;
  hm_append : HeaderMap -> string -> HeaderValue -> HeaderMap;
  hm_iter : HeaderMap -> list (string * HeaderValue);
  hv_to_str : HeaderValue -> option string;
  hv_from_str : string -> option HeaderValue;
  hn_from_bytes : string -> option string;
}.

(** [map.get(name)]: the first value. *)
Definition hm_get `{HttpLib} (m : HeaderMap) (name : string) : option HeaderValue :=
  head (hm_get_all m name).

(** [map.contains_key(name)]. *)
Definition hm_contains_key `{HttpLib} (m : HeaderMap) (name : string) : bool :=
  match hm_get m name with Some _ => true | None => false end.

Class HttpLaws (H : HttpLib) : Prop := {
  hm_get_all_empty n : hm_get_all hm_empty n = [];
  hm_get_all_insert m n v n' :
    hm_get_all (hm_insert m n v) n' = if n =s n' then [v] else hm_get_all m n';
  hm_get_all_append m n v n' :
    hm_get_all (hm_append m n v) n' =
    if n =s n' then hm_get_all m n' ++ [v] else hm_get_all m n';
  hm_get_all_iter m n :
    hm_get_all m n = map snd (List.filter (fun p => fst p =s n) (hm_iter m));
  hv_to_from_str s v : hv_from_str s = Some v -> hv_to_str v = Some s;
  (** [from_str] accepts every string of visible ASCII characters. *)
  hv_from_str_visible s :
    sforall (fun a => in_range 32 126 (byte_val a)) s = true -> hv_from_str s <> None;
  hn_from_bytes_lower s n : hn_from_bytes s = Some n -> n = to_ascii_lowercase s;
  (** A short name of letters, digits and hyphens is valid. *)
  hn_from_bytes_token s :
    s <> "" -> (String.length s <= 255)%nat ->
    sforall (fun a => is_ascii_upper a || is_ascii_lower a || is_ascii_digit a || (a =b "-")) s = true ->
    hn_from_bytes s = Some (to_ascii_lowercase s);
}.

(** What the request builder makes of strings: [uri_try_from] is
    [Uri::try_from], failing with the error's text, and [hv_try_from] the
    conversion of a [String] to a header value. *)
Class RequestLib {H : HttpLib} := {
  uri_try_from : string -> result string string;
  hv_try_from : string -> result HeaderValue string;
}.

(** ** ring

    SHA-256 and HMAC-SHA-256 over byte strings. *)
Class RingLib := {
  sha256 : string -> string;
  hmac_sha256 : string -> string -> string;
}.

Class RingLaws (R : RingLib) : Prop := {
  sha256_length s : String.length (sha256 s) = 32%nat;
  hmac_sha256_length k s : String.length (hmac_sha256 k s) = 32%nat;
}.

(** ** uuid

    [uuid_simple n] is [Uuid::new_v4().simple().to_string()] at the process's
    [n]-th call: 32 lowercase hexadecimal digits. *)
Class UuidLib := uuid_simple : nat -> string.

Class UuidLaws (U : UuidLib) : Prop := {
  uuid_simple_length n : String.length (uuid_simple n) = 32%nat;
  uuid_simple_hex n :
    sforall (fun a => is_ascii_digit a || in_range 97 102 (byte_val a)) (uuid_simple n) = true;
}.

(** ** base64

    The standard and the URL-safe unpadded engines; decoding fails with the
    error's text. *)
Class Base64Lib := {
  b64_encode : string -> string;
  b64_decode : string -> result string string;
  b64url_encode : string -> string;
}.

Class Base64Laws (B : Base64Lib) : Prop := {
  b64_decode_encode s : b64_decode (b64_encode s) = Ok s;
  b64_encode_alphabet s :
    sforall (fun a => is_ascii_upper a || is_ascii_lower a || is_ascii_digit a
      || (a =b "+") || (a =b "/") || (a =b "=")) (b64_encode s) = true;
  b64url_encode_alphabet s :
    sforall (fun a => is_ascii_upper a || is_ascii_lower a || is_ascii_digit a
      || (a =b "-") || (a =b "_")) (b64url_encode s) = true;
}.

(** ** RSA signatures and HTTP calls

    [rsa_from_pkcs8] and [rsa_sign] are ring's key parsing and PKCS#1 v1.5
    SHA-256 signing, failing with the error's text. [http_post url bearer] is
    the outcome of the one outgoing call the control plane makes: the text of
    a transport error, or the status and the token field of its JSON body (or
    the text of the decoding error). *)
Class RsaLib := {
  RsaKey : Type;
  rsa_from_pkcs8 : string -> result RsaKey string;
  rsa_sign : RsaKey -> string -> result string string;
}.

Class ExchangeLib := {
  http_post : string -> string -> result (Z * result string string) string;
  show_status : Z -> string;
}.

(** ** rustls

    A [CertificateDer] is its bytes. [private_key_try_from] is
    [PrivateKeyDer::try_from], [safe_default_versions] the builder's check of
    its crypto provider and [single_cert] its [with_single_cert] without client
    authentication; each fails with the error's text. *)
Class TlsLib := {
  PrivateKeyDer : Type;
  ServerConfig : Type;
  private_key_try_from : string -> result PrivateKeyDer string;
  safe_default_versions : result unit string;
  single_cert : list string -> PrivateKeyDer -> result ServerConfig string;
}.

(** ** axum

    [to_bytes body limit] reads a request body whole, [None] on a stream error
    or past the limit. A router sends a request to a registered handler; it is
    given here as the routes (path, method, handler) and the fallback it was
    built from, and [axum_dispatch] is the handler a request reaches, [None]
    where axum itself answers. *)
Class BodyLib := {
  ReqBody : Type;
  to_bytes : ReqBody -> Z -> option string;
}.

Class BodyLaws (B : BodyLib) : Prop := {
  to_bytes_limit b n s : to_bytes b n = Some s -> (Z.of_nat (String.length s) <= n)%Z;
}.

Record Router (Handler : Type) := mkAxumRouter {
  rt_routes : list (string * string * Handler);
  rt_fallback : option Handler;
}.
Arguments mkAxumRouter {Handler}.
Arguments rt_routes {Handler}.
Arguments rt_fallback {Handler}.

Class AxumLib := {
  axum_dispatch {Handler} : Router Handler -> string -> string -> option Handler;
}.

Class AxumLaws (X : AxumLib) : Prop := {
  (** A registered path and method reach their handler. *)
  axum_route {Handler} (r : Router Handler) path method h :
    rt_routes r = [(path, method, h)] -> axum_dispatch r method path = Some h;
  (** A registered path never reaches the fallback. *)
  axum_path {Handler} (r : Router Handler) path method method' h :
    rt_routes r = [(path, method, h)] ->
    axum_dispatch r method' path = Some h \/ axum_dispatch r method' path = None;
  (** Any other path does. *)
  axum_fallback {Handler} (r : Router Handler) path method :
    Forall (fun e => e.1.1 <> path) (rt_routes r) -> axum_dispatch r method path = rt_fallback r;
}.

(** [serde_json]'s [Value::to_string]. *)
Class JsonText {J : JsonLib} := json_to_string : value -> string.

(** ** Consequences of the laws *)

Section HttpFacts.
Context {H : HttpLib} {HL : HttpLaws H}.

Lemma hm_get_empty n : hm_get hm_empty n = None.
Proof. unfold hm_get. by rewrite hm_get_all_empty. Qed.

Lemma hm_get_insert m n v n' :
  hm_get (hm_insert m n v) n' = if n =s n' then Some v else hm_get m n'.
Proof. unfold hm_get. rewrite hm_get_all_insert. by destruct (n =s n'). Qed.

(** Filtering the pairs of a map into a fresh one by [append] filters every
    name's values. *)
Lemma hm_append_all (keep : string -> bool) l m n :
  hm_get_all (fold_left (fun out p => if keep (fst p) then hm_append out (fst p) (snd p) else out) l m) n =
  hm_get_all m n ++
  (if keep n then map snd (List.filter (fun p => fst p =s n) l) else []).
Proof.
  revert m. induction l as [|[k v] l IH]; intros m; simpl.
  - by destruct (keep n); rewrite app_nil_r.
  - rewrite IH. destruct (keep k) eqn:Ek; [rewrite hm_get_all_append|].
    + destruct (String.eqb_spec k n) as [->|Hne]; [|done].
      rewrite Ek. simpl. by rewrite <- app_assoc.
    + destruct (String.eqb_spec k n) as [->|Hne]; [|done]. by rewrite Ek.
Qed.
End HttpFacts.
