(* ===== verification/Reference.v ===== *)
(** Concrete instances of the interfaces of [External.v], with their laws:
    a JSON value type with a small parser, a header map as an association
    list, and SHA-256 with HMAC as FIPS 180-4 and RFC 2104 define them. The
    witnesses evaluate the program's definitions on these. No theorem
    depends on them. *)

From S2P Require Import Prelude RustStr Codec External.

(** ** JSON *)

Inductive jval :=
| JNull
| JBool (b : bool)
| JNum (n : Z)
| JStr (s : string)
| JArr (l : list jval)
| JObj (l : list (string * jval)).

(** Structural equality; an object's entries are kept in [map_to_list]'s
    order, so this is equality of the maps. *)
Fixpoint jval_eqb (v w : jval) {struct v} : bool :=
  match v, w with
  | JNull, JNull => true
  | JBool a, JBool b => Bool.eqb a b
  | JNum m, JNum n => (m =? n)%Z
  | JStr s, JStr t => s =s t
  | JArr l, JArr k =>
      (fix go (l k : list jval) : bool :=
         match l, k with
         | [], [] => true
         | x :: l', y :: k' => jval_eqb x y && go l' k'
         | _, _ => false
         end) l k
  | JObj l, JObj k =>
      (fix go (l k : list (string * jval)) : bool :=
         match l, k with
         | [], [] => true
         | (a, x) :: l', (b, y) :: k' => (a =s b) && jval_eqb x y && go l' k'
         | _, _ => false
         end) l k
  | _, _ => false
  end.

Definition jobject (m : gmap string jval) : jval := JObj (map_to_list m).

Definition jas_object (v : jval) : option (gmap string jval) :=
  match v with JObj l => Some (list_to_map l) | _ => None end.

(** A parser for compact JSON without string escapes or fractions. *)
Definition quote : string := String "034" "".

Fixpoint jnum (s : string) (n : Z) : jval * string :=
  match s with
  | String d s' => if is_ascii_digit d then jnum s' (n * 10 + (byte_val d - 48))%Z else (JNum n, s)
  | "" => (JNum n, "")
  end.

(** Comma-separated items up to a closing byte. *)
Fixpoint jitems {A} (item : string -> option (A * string)) (close : ascii) (fuel : nat) (s : string)
    : option (list A * string) :=
  match fuel with
  | O => None
  | S f =>
      '(v, t) ← item s;
      match t with
      | String c t' =>
          if c =b "," then '(l, u) ← jitems item close f t'; Some (v :: l, u)
          else if c =b close then Some ([v], t') else None
      | "" => None
      end
  end.

Fixpoint jparse (fuel : nat) (s : string) : option (jval * string) :=
  match fuel with
  | O => None
  | S f =>
      match s with
      | String a s1 =>
          if a =b "n" then t ← strip_prefix "ull" s1; Some (JNull, t)
          else if a =b "t" then t ← strip_prefix "rue" s1; Some (JBool true, t)
          else if a =b "f" then t ← strip_prefix "alse" s1; Some (JBool false, t)
          else if is_ascii_digit a then Some (jnum s 0%Z)
          else if a =b "034" then '(k, t) ← split_once "034" s1; Some (JStr k, t)
          else if a =b "[" then
            match strip_prefix "]" s1 with
            | Some t => Some (JArr [], t)
            | None => '(l, t) ← jitems (jparse f) "]" f s1; Some (JArr l, t)
            end
          else if a =b "{" then
            match strip_prefix "}" s1 with
            | Some t => Some (JObj [], t)
            | None =>
                '(l, t) ← jitems (fun s =>
                    s' ← strip_prefix quote s;
                    '(k, s2) ← split_once "034" s';
                    s3 ← strip_prefix ":" s2;
                    '(v, t) ← jparse f s3;
                    Some ((k, v), t)) "}" f s1;
                Some (jobject (list_to_map (rev l)), t)
            end
          else None
      | "" => None
      end
  end.

Definition jfrom_slice (s : string) : option jval :=
  match jparse (S (String.length s)) s with
  | Some (v, "") => Some v
  | _ => None
  end.

Definition ref_json : JsonLib := {|
  value := jval;
  value_eqb := jval_eqb;
  VObject := jobject;
  VString := JStr;
  VBool := JBool;
  as_object := jas_object;
  as_str v := match v with JStr s => Some s | _ => None end;
  is_null v := match v with JNull => true | _ => false end;
  from_slice := jfrom_slice;
|}.

Lemma ref_json_laws : JsonLaws ref_json.
Proof.
  split; try done. intros m. cbn. unfold jobject. by rewrite list_to_map_to_list.
Qed.

(** ** Headers *)

Definition assoc_get_all (m : list (string * string)) (n : string) : list string :=
  map snd (List.filter (fun p => p.1 =s n) m).

Definition ref_http : HttpLib := {|
  HeaderMap := list (string * string);
  HeaderValue := string;
  hm_empty := [];
  hm_get_all := assoc_get_all;
  hm_insert m n v := List.filter (fun p => negb (p.1 =s n)) m ++ [(n, v)];
  hm_append m n v := m ++ [(n, v)];
  hm_iter m := m;
  hv_to_str v := if sforall (fun a => in_range 32 126 (byte_val a)) v then Some v else None;
  hv_from_str s := if sforall (fun a => in_range 32 126 (byte_val a)) s then Some s else None;
  hn_from_bytes s := if sempty s then None else Some (to_ascii_lowercase s);
|}.

Lemma assoc_get_all_app m1 m2 n : assoc_get_all (m1 ++ m2) n = assoc_get_all m1 n ++ assoc_get_all m2 n.
Proof. unfold assoc_get_all. by rewrite List.filter_app, map_app. Qed.

Lemma assoc_get_all_remove m n n' :
  assoc_get_all (List.filter (fun p => negb (p.1 =s n)) m) n' = if n =s n' then [] else assoc_get_all m n'.
Proof.
  unfold assoc_get_all. induction m as [|[k v] m IH]; simpl; [by destruct (n =s n')|].
  destruct (String.eqb_spec k n) as [->|Hne]; simpl.
  - rewrite IH. by destruct (n =s n').
  - destruct (String.eqb_spec k n') as [->|]; simpl; rewrite IH; [|done].
    by destruct (String.eqb_spec n n') as [->|].
Qed.

Lemma ref_http_laws : HttpLaws ref_http.
Proof.
  split; cbn -[assoc_get_all in_range byte_val].
  - done.
  - intros m n v n'. rewrite assoc_get_all_app, assoc_get_all_remove.
    unfold assoc_get_all. simpl. by destruct (n =s n'); rewrite ?app_nil_r.
  - intros m n v n'. rewrite assoc_get_all_app. unfold assoc_get_all at 2. simpl.
    destruct (n =s n'); [done|]. by rewrite app_nil_r.
  - done.
  - intros s v. case_match eqn:E; [|done]. intros [= <-]. by rewrite E.
  - intros s ->. done.
  - intros s n. by destruct (sempty s); intros [= <-].
  - intros [|a s]; done.
Qed.

Definition ref_request : @RequestLib ref_http := {|
  uri_try_from s := if sforall is_solid s then Ok s else Err "invalid uri character";
  hv_try_from s := match @hv_from_str ref_http s with Some v => Ok v | None => Err "failed to parse header value" end;
|}.

(** ** SHA-256 *)

Definition w32 (z : Z) : Z := Z.land z 4294967295.
Definition rotr (n z : Z) : Z := Z.lor (Z.shiftr z n) (w32 (Z.shiftl z (32 - n))).

Definition sha_k : list Z :=
  [
   1116352408; 1899447441; 3049323471; 3921009573; 961987163; 1508970993;
   2453635748; 2870763221; 3624381080; 310598401; 607225278; 1426881987;
   1925078388; 2162078206; 2614888103; 3248222580; 3835390401; 4022224774;
   264347078; 604807628; 770255983; 1249150122; 1555081692; 1996064986;
   2554220882; 2821834349; 2952996808; 3210313671; 3336571891; 3584528711;
   113926993; 338241895; 666307205; 773529912; 1294757372; 1396182291;
   1695183700; 1986661051; 2177026350; 2456956037; 2730485921; 2820302411;
   3259730800; 3345764771; 3516065817; 3600352804; 4094571909; 275423344;
   430227734; 506948616; 659060556; 883997877; 958139571; 1322822218;
   1537002063; 1747873779; 1955562222; 2024104815; 2227730452; 2361852424;
   2428436474; 2756734187; 3204031479; 3329325298]%Z.

Definition sha_h0 : list Z :=
  [
   1779033703; 3144134277; 1013904242; 2773480762; 1359893119; 2600822924;
   528734635; 1541459225]%Z.

Fixpoint bytes_of (s : string) : list Z :=
  match s with "" => [] | String a s' => byte_val a :: bytes_of s' end.

Fixpoint string_of (l : list Z) : string :=
  match l with [] => "" | z :: l' => String (byte_of z) (string_of l') end.

(** The [n] big-endian bytes of an integer. *)
Fixpoint be (n : nat) (z : Z) : list Z :=
  match n with O => [] | S n' => be n' (z / 256) ++ [z mod 256]%Z end.

Definition pad (l : list Z) : list Z :=
  let k := Z.to_nat ((55 - Z.of_nat (length l)) mod 64) in
  l ++ [128%Z] ++ repeat 0%Z k ++ be 8 (8 * Z.of_nat (length l)).

Fixpoint words (l : list Z) : list Z :=
  match l with
  | a :: b :: c :: d :: l' => (a * 16777216 + b * 65536 + c * 256 + d)%Z :: words l'
  | _ => []
  end.

(** The rounds, with the window [w] of the 16 current schedule words. *)
Fixpoint rounds (ks w st : list Z) : list Z :=
  match ks, w, st with
  | k :: ks', w0 :: (w1 :: _) as w', [a; b; c; d; e; f; g; h] =>
      let s0 := Z.lxor (rotr 7 w1) (Z.lxor (rotr 18 w1) (Z.shiftr w1 3)) in
      let w14 := nth 13 w' 0%Z in
      let s1 := Z.lxor (rotr 17 w14) (Z.lxor (rotr 19 w14) (Z.shiftr w14 10)) in
      let w16 := w32 (w0 + s0 + nth 8 w' 0 + s1)%Z in
      let S1 := Z.lxor (rotr 6 e) (Z.lxor (rotr 11 e) (rotr 25 e)) in
      let ch := Z.lxor (Z.land e f) (Z.land (Z.lxor e 4294967295) g) in
      let t1 := (h + S1 + ch + k + w0)%Z in
      let S0 := Z.lxor (rotr 2 a) (Z.lxor (rotr 13 a) (rotr 22 a)) in
      let maj := Z.lxor (Z.land a b) (Z.lxor (Z.land a c) (Z.land b c)) in
      rounds ks' (w' ++ [w16]) [w32 (t1 + S0 + maj); a; b; c; w32 (d + t1); e; f; g]%Z
  | _, _, _ => st
  end.

Definition compress (st block : list Z) : list Z :=
  zip_with (fun x y => w32 (x + y)) st (rounds sha_k block st).

Fixpoint blocks (fuel : nat) (st ws : list Z) : list Z :=
  match fuel, ws with
  | S f, _ :: _ => blocks f (compress st (take 16 ws)) (drop 16 ws)
  | _, _ => st
  end.

Definition ref_sha256 (s : string) : string :=
  let ws := words (pad (bytes_of s)) in
  string_of (take 32 (flat_map (be 4) (blocks (length ws) sha_h0 ws) ++ repeat 0%Z 32)).

Definition ref_hmac (key msg : string) : string :=
  let k := if (64 <? String.length key)%nat then ref_sha256 key else key in
  let kb := bytes_of k ++ repeat 0%Z (64 - String.length k) in
  ref_sha256 (string_of (map (Z.lxor 92) kb)
    +:+ ref_sha256 (string_of (map (Z.lxor 54) kb) +:+ msg)).

Definition ref_ring : RingLib := {| sha256 := ref_sha256; hmac_sha256 := ref_hmac |}.

Lemma string_of_length l : String.length (string_of l) = length l.
Proof. induction l; simpl; auto. Qed.

Lemma ref_sha256_length s : String.length (ref_sha256 s) = 32%nat.
Proof.
  unfold ref_sha256. rewrite string_of_length, length_take, length_app, repeat_length. lia.
Qed.

Lemma ref_ring_laws : RingLaws ref_ring.
Proof. split; intros; apply ref_sha256_length. Qed.

(** FIPS 180-4's [abc] example, and RFC 4231's second HMAC test. *)
Example ref_sha256_abc :
  to_hex (ref_sha256 "abc") = "ba7816bf8f01cfea414140de5dae2223b00361a396177a9cb410ff61f20015ad".
Proof. vm_compute. reflexivity. Qed.

Example ref_hmac_rfc4231 :
  to_hex (ref_hmac "Jefe" "what do ya want for nothing?") =
  "5bdcc146bf60754e6a042426089575c75a003f089d2739839dec58b964ec3843".
Proof. vm_compute. reflexivity. Qed.

(** ** UUIDs *)

Definition ref_uuid : UuidLib := fun n => show_pad 32 (Z.of_nat n mod 10 ^ 18).

Lemma dec_go_length fuel n acc : (String.length (dec_go fuel n acc) <= String.length acc + fuel)%nat.
Proof.
  revert n acc. induction fuel as [|f IH]; intros n acc; cbn [dec_go]; [lia|].
  destruct (n <? 10)%Z; [|etrans; [apply IH|]]; cbn [String.length]; lia.
Qed.

Lemma srepeat_length a n : String.length (srepeat a n) = n.
Proof. induction n; simpl; auto. Qed.

Lemma ref_uuid_laws : UuidLaws ref_uuid.
Proof.
  split; intros n.
  - unfold uuid_simple, ref_uuid, show_pad. rewrite slength_app, srepeat_length.
    unfold show_dec. pose proof (dec_go_length 20 (Z.of_nat n mod 10 ^ 18) "") as Hl.
    cbn [String.length] in Hl. lia.
  - eapply sforall_impl; [|apply show_pad_digits]. intros a ->. done.
Qed.

(** ** Base64

    RFC 4648's standard alphabet with padding, and its URL-safe variant
    without. *)

Definition b64_char (url : bool) (d : Z) : ascii :=
  if (d <? 26)%Z then byte_of (65 + d)
  else if (d <? 52)%Z then byte_of (71 + d)
  else if (d <? 62)%Z then byte_of (d - 4)
  else if (d =? 62)%Z then (if url then "-" else "+")
  else (if url then "_" else "/").

Fixpoint ref_b64_encode (url : bool) (s : string) : string :=
  match s with
  | "" => ""
  | String a "" =>
      let a := byte_val a in
      String (b64_char url (a / 4)) (String (b64_char url (a mod 4 * 16)) (if url then "" else "=="))
  | String a (String b "") =>
      let '(a, b) := (byte_val a, byte_val b) in
      String (b64_char url (a / 4)) (String (b64_char url (a mod 4 * 16 + b / 16))
        (String (b64_char url (b mod 16 * 4)) (if url then "" else "=")))
  | String a (String b (String c s')) =>
      let '(a, b, c) := (byte_val a, byte_val b, byte_val c) in
      String (b64_char url (a / 4)) (String (b64_char url (a mod 4 * 16 + b / 16))
        (String (b64_char url (b mod 16 * 4 + c / 64)) (String (b64_char url (c mod 64)) (ref_b64_encode url s'))))
  end.

Definition b64_val (a : ascii) : option Z :=
  let x := byte_val a in
  if in_range 65 90 x then Some (x - 65)%Z
  else if in_range 97 122 x then Some (x - 71)%Z
  else if in_range 48 57 x then Some (x + 4)%Z
  else if a =b "+" then Some 62%Z
  else if a =b "/" then Some 63%Z
  else None.

Fixpoint ref_b64_decode (s : string) : result string string :=
  match s with
  | "" => Ok ""
  | String a (String b (String c (String d s'))) =>
      match b64_val a, b64_val b with
      | Some x, Some y =>
          let o1 := byte_of (x * 4 + y / 16) in
          match b64_val c, b64_val d with
          | Some z, Some w =>
              match ref_b64_decode s' with
              | Ok r => Ok (String o1 (String (byte_of (y mod 16 * 16 + z / 4))
                          (String (byte_of (z mod 4 * 64 + w)) r)))
              | Err e => Err e
              end
          | Some z, None =>
              if (d =b "=") && sempty s' && (z mod 4 =? 0)%Z
              then Ok (String o1 (String (byte_of (y mod 16 * 16 + z / 4)) ""))
              else Err "Invalid symbol"
          | None, _ =>
              if (c =b "=") && (d =b "=") && sempty s' && (y mod 16 =? 0)%Z
              then Ok (String o1 "") else Err "Invalid symbol"
          end
      | _, _ => Err "Invalid symbol"
      end
  | _ => Err "Invalid input length"
  end.

Definition ref_base64 : Base64Lib := {|
  b64_encode := ref_b64_encode false;
  b64_decode := ref_b64_decode;
  b64url_encode := ref_b64_encode true;
|}.

(** Every digit is a character of the alphabet and is read back. *)
Lemma b64_digit d : (0 <= d < 64)%Z ->
  b64_val (b64_char false d) = Some d /\
  (is_ascii_upper (b64_char false d) || is_ascii_lower (b64_char false d)
   || is_ascii_digit (b64_char false d) || (b64_char false d =b "+")
   || (b64_char false d =b "/") || (b64_char false d =b "=")) = true.
Proof.
  intros Hd. assert (Hall : forallb (fun n => let d := Z.of_nat n in
    bool_decide (b64_val (b64_char false d) = Some d) &&
    (is_ascii_upper (b64_char false d) || is_ascii_lower (b64_char false d)
     || is_ascii_digit (b64_char false d) || (b64_char false d =b "+")
     || (b64_char false d =b "/") || (b64_char false d =b "="))) (seq 0 64) = true) by (vm_compute; reflexivity).
  rewrite forallb_forall in Hall. specialize (Hall (Z.to_nat d)).
  cbv zeta in Hall. rewrite Z2Nat.id in Hall by lia.
  rewrite andb_true_iff, bool_decide_eq_true in Hall. apply Hall, in_seq. lia.
Qed.

Lemma byte_of_eq a z : z = byte_val a -> byte_of z = a.
Proof. intros ->. apply byte_of_val. Qed.

Ltac b64_digits :=
  repeat match goal with
  | |- context [b64_val (b64_char false ?d)] =>
      rewrite (proj1 (b64_digit d ltac:(Z.div_mod_to_equations; lia)))
  end.

(** The standard engine inverts itself, three bytes at a time. *)
Lemma ref_b64_decode_encode s : ref_b64_decode (ref_b64_encode false s) = Ok s.
Proof.
  remember (String.length s) as n eqn:Hn. revert s Hn.
  induction (lt_wf n) as [n _ IH]. intros s ->.
  destruct s as [|a [|b [|c s]]]; [done| | |];
    pose proof (byte_val_range a) as Ha; try pose proof (byte_val_range b) as Hb;
    try pose proof (byte_val_range c) as Hc; cbn [ref_b64_encode ref_b64_decode].
  - b64_digits. change (b64_val "=") with (@None Z). cbn [Ascii.eqb Bool.eqb andb sempty].
    destruct (Z.eqb_spec ((byte_val a mod 4 * 16) mod 16) 0); [|Z.div_mod_to_equations; lia].
    do 2 f_equal. apply byte_of_eq. Z.div_mod_to_equations; lia.
  - b64_digits. change (b64_val "=") with (@None Z). cbn [Ascii.eqb Bool.eqb andb sempty].
    destruct (Z.eqb_spec ((byte_val b mod 16 * 4) mod 4) 0); [|Z.div_mod_to_equations; lia].
    do 2 f_equal; [|f_equal]; apply byte_of_eq; Z.div_mod_to_equations; lia.
  - b64_digits. rewrite (IH (String.length s)) by (cbn; lia).
    do 2 f_equal; [|f_equal; [|f_equal]]; apply byte_of_eq; Z.div_mod_to_equations; lia.
Qed.

Lemma b64url_digit d : (0 <= d < 64)%Z ->
  (is_ascii_upper (b64_char true d) || is_ascii_lower (b64_char true d)
   || is_ascii_digit (b64_char true d) || (b64_char true d =b "-") || (b64_char true d =b "_")) = true.
Proof.
  intros Hd. assert (Hall : forallb (fun n => let a := b64_char true (Z.of_nat n) in
    is_ascii_upper a || is_ascii_lower a || is_ascii_digit a || (a =b "-") || (a =b "_")) (seq 0 64) = true)
    by (vm_compute; reflexivity).
  rewrite forallb_forall in Hall. specialize (Hall (Z.to_nat d)).
  cbv zeta in Hall. rewrite Z2Nat.id in Hall by lia. apply Hall, in_seq. lia.
Qed.

(** A set of characters that holds the digits and, for the standard engine,
    the padding, holds the encoding. *)
Lemma ref_b64_alphabet (p : ascii -> bool) url (s : string) :
  (forall d, (0 <= d < 64)%Z -> p (b64_char url d) = true) -> (url = false -> p "="%char = true) ->
  sforall p (ref_b64_encode url s) = true.
Proof.
  intros Hp Hpad. remember (String.length s) as n eqn:Hn. revert s Hn.
  induction (lt_wf n) as [n _ IH]. intros s ->.
  destruct s as [|a [|b [|c s]]]; [done| | |];
    pose proof (byte_val_range a) as Ha; try pose proof (byte_val_range b) as Hb;
    try pose proof (byte_val_range c) as Hc; cbn [ref_b64_encode sforall];
    rewrite !Hp by (Z.div_mod_to_equations; lia); cbn [andb].
  1-2: destruct url; [done|]; cbn [sforall]; by rewrite Hpad.
  apply (IH (String.length s)); [cbn; lia|done].
Qed.

Lemma ref_base64_laws : Base64Laws ref_base64.
Proof.
  split; [exact ref_b64_decode_encode| |]; intros s; apply ref_b64_alphabet; [|done| |done]; intros d Hd.
  - by apply b64_digit.
  - by apply b64url_digit.
Qed.

(** RFC 4648's test vectors. *)
Example ref_b64_foobar :
  map (ref_b64_encode false) ["f"; "fo"; "foo"; "foob"; "fooba"; "foobar"] =
  ["Zg=="; "Zm8="; "Zm9v"; "Zm9vYg=="; "Zm9vYmE="; "Zm9vYmFy"].
Proof. vm_compute. reflexivity. Qed.

(** ** Bodies and routers *)

Definition ref_body : BodyLib := {|
  ReqBody := string;
  to_bytes b n := if (Z.of_nat (String.length b) <=? n)%Z then Some b else None;
|}.

Lemma ref_body_laws : BodyLaws ref_body.
Proof. split. cbn. intros b n s. destruct (Z.leb_spec (Z.of_nat (String.length b)) n); [|done]. by intros [= <-]. Qed.

Definition ref_axum : AxumLib := {|
  axum_dispatch Handler r method path :=
    match List.find (fun e => e.1.1 =s path) (rt_routes r) with
    | None => rt_fallback r
    | Some _ => snd <$> List.find (fun e => (e.1.1 =s path) && (e.1.2 =s method)) (rt_routes r)
    end;
|}.

Lemma ref_axum_laws : AxumLaws ref_axum.
Proof.
  split; cbn; intros Handler [routes fb]; cbn.
  - intros p m h ->. cbn. by rewrite !String.eqb_refl.
  - intros p m m' h ->. cbn. rewrite String.eqb_refl. cbn. destruct (m =s m'); cbn; auto.
  - intros p m Hall. enough (List.find (fun e => e.1.1 =s p) routes = None) as -> by done.
    apply find_none_elem. intros e He. rewrite Forall_forall in Hall. by apply String.eqb_neq, Hall.
Qed.

(** A compact printer of natural numbers, strings without escapes, and their
    arrays and objects. *)
Definition jquote (s : string) : string := quote +:+ s +:+ quote.

Fixpoint jprint (v : jval) : string :=
  match v with
  | JNull => "null"
  | JBool b => if b then "true" else "false"
  | JNum n => show_dec n
  | JStr s => jquote s
  | JArr l => "[" +:+ join "," (map jprint l) +:+ "]"
  | JObj l => "{" +:+ join "," (map (fun kw => jquote kw.1 +:+ ":" +:+ jprint kw.2) l) +:+ "}"
  end.

Definition ref_json_text : @JsonText ref_json := jprint.

(** ** Keys, token exchanges and TLS

    Any non-empty string is a key; a signature is the text signed under the
    key's name; an exchange answers with a token naming its URL. *)

Definition ref_rsa : RsaLib := {|
  RsaKey := string;
  rsa_from_pkcs8 der := if sempty der then Err "InvalidEncoding" else Ok der;
  rsa_sign key text := Ok (key +:+ ":" +:+ text);
|}.

Definition ref_exchange : ExchangeLib := {|
  http_post url bearer := if sempty bearer then Err "refused" else Ok (201%Z, Ok ("ghs_" +:+ url));
  show_status := show_dec;
|}.

Definition ref_tls : TlsLib := {|
  PrivateKeyDer := string;
  ServerConfig := list string * string;
  private_key_try_from der := if sempty der then Err "unknown private key encoding" else Ok der;
  safe_default_versions := Ok tt;
  single_cert certs key := Ok (certs, key);
|}.
