(* ===== verification/Models.v ===== *)
(** The contract types of [models/]: the fluorite schemas
    ([models/fluorite/*.fl]) and the hand-written constructors of
    [models/src/lib.rs]. *)

From S2P Require Import Prelude RustStr External.

(** ** action.fl *)

Inductive CrudKind := Read | Create | Update | Delete.

Inductive Verb :=
| Crud (kind : CrudKind)
| NamedAction (id : string).

Record Resource := mkResource {
  res_path : string;
  res_kind : string;
}.

#[export] Instance CrudKind_eq_dec : EqDecision CrudKind.
Proof. solve_decision. Defined.
#[export] Instance Verb_eq_dec : EqDecision Verb.
Proof. solve_decision. Defined.
#[export] Instance Resource_eq_dec : EqDecision Resource.
Proof. solve_decision. Defined.

(** ** verdict.fl *)

Inductive DenyReason := NotAllowed | ExplicitDeny | Unauthenticated | NoPolicy | UnknownTarget.

Inductive Obligation :=
| InjectCredential (credential : string)
| PassthroughObligation.

Inductive Verdict :=
| VAllow (obligations : list Obligation)
| VDeny (reason : DenyReason).

#[export] Instance DenyReason_eq_dec : EqDecision DenyReason.
Proof. solve_decision. Defined.
#[export] Instance Obligation_eq_dec : EqDecision Obligation.
Proof. solve_decision. Defined.
#[export] Instance Verdict_eq_dec : EqDecision Verdict.
Proof. solve_decision. Defined.

(** [format!("{:?}", reason)]. *)
Definition show_DenyReason (r : DenyReason) : string :=
  match r with
  | NotAllowed => "NotAllowed"
  | ExplicitDeny => "ExplicitDeny"
  | Unauthenticated => "Unauthenticated"
  | NoPolicy => "NoPolicy"
  | UnknownTarget => "UnknownTarget"
  end.

(** ** policy.fl *)

Inductive Effect := Allow | Deny.

#[export] Instance Effect_eq_dec : EqDecision Effect.
Proof. solve_decision. Defined.

(** ** audit.fl *)

Inductive Decision := DecisionAllow | DecisionDeny.

#[export] Instance Decision_eq_dec : EqDecision Decision.
Proof. solve_decision. Defined.

(** ** provision.fl *)

Inductive ProvisionMode := Inject | Passthrough.

Inductive ProvisionAuth :=
| BearerAuth (token : string)
| SigV4Auth (access_key_id secret_access_key region : string).

Record ProvisionService := mkProvisionService {
  ps_target : string;
  ps_flavor : string;
  ps_address : string;
  ps_mode : ProvisionMode;
  ps_auth : ProvisionAuth;
}.

Record ProvisionDoc := mkProvisionDoc {
  hackamore_token : string;
  hackamore_ca : string;
  pd_expires_at_ms : Z;
  pd_services : list ProvisionService;
}.

(** ** control.fl *)

Record MintResponse := mkMintResponse {
  mr_token : string;
  mr_expires_at_ms : Z;
}.

(** ** Types that carry JSON values *)

Section Json.
Context {J : JsonLib}.

Record Action := mkAction {
  target : string;
  verb : Verb;
  resource : Resource;
  fields : value;
}.

Inductive Condition :=
| Equals (field : string) (v : value)
| OneOf (field : string) (vs : list value)
| Exists_ (field : string).

Record Match := mkMatch {
  targets : list string;
  verbs : list Verb;
  resources : list string;
  conditions : list Condition;
}.

Record Rule := mkRule {
  effect : Effect;
  matches : Match;
}.

Record Policy := mkPolicy { rules : list Rule }.

(** audit.fl *)
Record AuditEvent := mkAuditEvent {
  at_ms : Z;
  ev_action : Action;
  ev_decision : Decision;
  ev_detail : string;
}.

(** ** models/src/lib.rs *)

Definition empty_fields : value := VObject ∅.

Definition Action_of (tgt : string) (v : Verb) (r : Resource) : Action :=
  mkAction tgt v r empty_fields.

Definition with_fields (a : Action) (f : value) : Action :=
  mkAction (target a) (verb a) (resource a) f.
End Json.

Definition Verb_crud (kind : CrudKind) : Verb := Crud kind.
Definition Verb_action (id : string) : Verb := NamedAction id.

(** The compact verb shorthand of [Verb::parse]. *)
Definition Verb_parse (s : string) : Verb :=
  let l := to_ascii_lowercase s in
  if l =s "read" then Verb_crud Read
  else if l =s "create" then Verb_crud Create
  else if l =s "update" then Verb_crud Update
  else if l =s "delete" then Verb_crud Delete
  else Verb_action s.

Definition Resource_of (path kind : string) : Resource := mkResource path kind.

Definition is_allow (v : Verdict) : bool := match v with VAllow _ => true | VDeny _ => false end.
Definition Verdict_allow (obligations : list Obligation) : Verdict := VAllow obligations.
Definition Verdict_inject (id : string) : Obligation := InjectCredential id.
Definition Verdict_passthrough : Obligation := PassthroughObligation.
Definition Verdict_deny (reason : DenyReason) : Verdict := VDeny reason.
