(* ===== verification/Policy.v ===== *)
(** [policy/src/lib.rs]: the decision engine, and its declarative
    specification. *)

From S2P Require Import Prelude RustStr External Models.

Section Engine.
Context {J : JsonLib}.

(** ** Definitions *)

Definition target_matches (targets : list string) (target : string) : bool :=
  bool_decide (targets = []) || existsb (fun t => t =s target) targets.

Definition verb_matches (verbs : list Verb) (v : Verb) : bool :=
  bool_decide (verbs = []) || existsb (fun w => bool_decide (w = v)) verbs.

Fixpoint segments_match (pat seg : list string) : bool :=
  match pat with
  | [] => match seg with [] => true | _ => false end
  | head :: rest =>
      if head =s "**" then
        existsb (fun i => segments_match rest (drop i seg)) (seq 0 (S (length seg)))
      else
        match seg with
        | [] => false
        | shead :: srest =>
            ((head =s "*") || (head =s shead)) && segments_match rest srest
        end
  end.

Definition glob_matches (pattern path : string) : bool :=
  segments_match (split "/" pattern) (split "/" path).

Definition resource_matches (patterns : list string) (path : string) : bool :=
  bool_decide (patterns = []) || existsb (fun p => glob_matches p path) patterns.

(** The loop of [lookup] over the dotted segments. *)
Fixpoint lookup_go (cur : value) (segs : list string) : option value :=
  match segs with
  | [] => Some cur
  | seg :: segs' => m ← as_object cur; v ← m !! seg; lookup_go v segs'
  end.

Definition lookup (fields : value) (path : string) : option value :=
  lookup_go fields (split "." path).

Definition condition_holds (c : Condition) (fields : value) : bool :=
  match c with
  | Equals f v => match lookup fields f with Some w => value_eqb w v | None => false end
  | OneOf f vs => match lookup fields f with
                  | Some w => existsb (fun v => value_eqb v w) vs
                  | None => false end
  | Exists_ f => match lookup fields f with Some w => negb (is_null w) | None => false end
  end.

Definition rule_matches (rule : Rule) (action : Action) : bool :=
  let m := matches rule in
  target_matches (targets m) (target action)
  && verb_matches (verbs m) (verb action)
  && resource_matches (resources m) (res_path (resource action))
  && forallb (fun c => condition_holds c (fields action)) (conditions m).

Definition verdict_for (rule : Rule) : Verdict :=
  match effect rule with
  | Allow => Verdict_allow []
  | Deny => Verdict_deny ExplicitDeny
  end.

Fixpoint decide_go (rules : list Rule) (action : Action) : Verdict :=
  match rules with
  | [] => Verdict_deny NotAllowed
  | rule :: rules' => if rule_matches rule action then verdict_for rule else decide_go rules' action
  end.

Definition decide (action : Action) (policy : Policy) : Verdict := decide_go (rules policy) action.

(** ** Specification *)

(** The glob language: [*] is one segment, [**] any number of them. *)
Inductive glob : list string -> list string -> Prop :=
| glob_nil : glob [] []
| glob_any rest pre seg : glob rest seg -> glob ("**" :: rest) (pre ++ seg)
| glob_one x rest seg : glob rest seg -> glob ("*" :: rest) (x :: seg)
| glob_lit x rest seg : x <> "**" -> glob rest seg -> glob (x :: rest) (x :: seg).

Definition facet {A} (l : list A) (P : A -> Prop) : Prop := l = [] \/ exists x, x ∈ l /\ P x.

Definition holds (fields : value) (c : Condition) : Prop :=
  match c with
  | Equals f v => exists w, lookup fields f = Some w /\ value_eqb w v = true
  | OneOf f vs => exists w v, lookup fields f = Some w /\ v ∈ vs /\ value_eqb v w = true
  | Exists_ f => exists w, lookup fields f = Some w /\ is_null w = false
  end.

(** A rule applies: every facet that is not empty is satisfied. *)
Definition applies (rule : Rule) (action : Action) : Prop :=
  let m := matches rule in
  facet (targets m) (fun t => t = target action)
  /\ facet (verbs m) (fun v => v = verb action)
  /\ facet (resources m) (fun p => glob (split "/" p) (split "/" (res_path (resource action))))
  /\ Forall (holds (fields action)) (conditions m).

(** The first rule that applies decides; none, and the action is denied. *)
Inductive decides (action : Action) : list Rule -> Verdict -> Prop :=
| decides_default : decides action [] (VDeny NotAllowed)
| decides_allow r rs : applies r action -> effect r = Allow -> decides action (r :: rs) (VAllow [])
| decides_deny r rs : applies r action -> effect r = Deny -> decides action (r :: rs) (VDeny ExplicitDeny)
| decides_next r rs v : ~ applies r action -> decides action rs v -> decides action (r :: rs) v.

(** ** The matcher recognises the glob language *)

Lemma segments_match_glob pat seg : segments_match pat seg = true <-> glob pat seg.
Proof.
  revert seg. induction pat as [|h rest IH]; intros seg.
  - destruct seg; simpl; split; intros Hg; by (constructor || inversion Hg).
  - cbn [segments_match]. destruct (String.eqb_spec h "**") as [->|Hne].
    + rewrite existsb_exists_elem. split.
      * intros (i & _ & H%IH). rewrite <- (take_drop i seg). by constructor.
      * inversion 1 as [|? pre seg' Hg| |]; subst; [|done].
        exists (length pre). split; [|by apply IH; rewrite drop_app_length].
        apply elem_of_seq. rewrite length_app. lia.
    + destruct seg as [|x seg].
      * split; [done|]. inversion 1; subst. done.
      * rewrite andb_true_iff, orb_true_iff, !String.eqb_eq, IH. split.
        -- intros [[->| ->] Hg]; by constructor.
        -- inversion 1; subst; naive_solver.
Qed.

Lemma facet_existsb {A} (l : list A) (f : A -> bool) (P : A -> Prop) `{!EqDecision A} :
  (forall x, f x = true <-> P x) ->
  bool_decide (l = []) || existsb f l = true <-> facet l P.
Proof.
  intros Hf. unfold facet. rewrite orb_true_iff, bool_decide_eq_true, existsb_exists_elem.
  by setoid_rewrite Hf.
Qed.

Lemma condition_holds_spec c fs : condition_holds c fs = true <-> holds fs c.
Proof.
  destruct c as [f v|f vs|f]; simpl; destruct (lookup fs f) as [w|];
    rewrite ?existsb_exists_elem, ?negb_true_iff; naive_solver.
Qed.

Lemma rule_matches_applies r a : rule_matches r a = true <-> applies r a.
Proof.
  unfold rule_matches, applies. rewrite !andb_true_iff. cbn zeta.
  unfold target_matches, verb_matches, resource_matches.
  rewrite (facet_existsb (targets (matches r)) _ (fun t => t = target a)) by (intros; apply String.eqb_eq).
  rewrite (facet_existsb (verbs (matches r)) _ (fun v => v = verb a)) by (intros; apply bool_decide_eq_true).
  rewrite (facet_existsb (resources (matches r)) _
    (fun p => glob (split "/" p) (split "/" (res_path (resource a)))))
    by (intros; apply segments_match_glob).
  rewrite forallb_forall_elem, Forall_forall. setoid_rewrite condition_holds_spec. tauto.
Qed.

Lemma decide_go_decides rs a v : decide_go rs a = v <-> decides a rs v.
Proof.
  revert v. induction rs as [|r rs IH]; intros v; simpl.
  - split; [intros <-; constructor|by inversion 1].
  - destruct (rule_matches r a) eqn:E.
    + apply rule_matches_applies in E. unfold verdict_for.
      destruct (effect r) eqn:Ee; (split; [intros <-|inversion 1; subst; first [done|congruence]]).
      * by apply decides_allow.
      * by apply decides_deny.
    + assert (~ applies r a) by (rewrite <- rule_matches_applies; congruence).
      rewrite IH. split; [by apply decides_next|by inversion 1].
Qed.

(** ** Consequences the rest of the development uses *)

Lemma decide_bare a p obs : decide a p = VAllow obs -> obs = [].
Proof.
  unfold decide. rewrite decide_go_decides.
  remember (VAllow obs) as v eqn:Ev. induction 1; [done| |done|by apply IHdecides].
  by injection Ev.
Qed.

(** An allow comes from a specific applicable allow rule. *)
Lemma decide_allow_rule a p obs :
  decide a p = VAllow obs -> exists r, r ∈ rules p /\ effect r = Allow /\ applies r a.
Proof.
  unfold decide. rewrite decide_go_decides. destruct p as [rs]. simpl.
  remember (VAllow obs) as v eqn:Ev. induction 1; try done.
  - exists r. set_solver.
  - destruct (IHdecides Ev) as (r' & ? & ?). exists r'. set_solver.
Qed.

Lemma decide_go_app rs1 rs2 a :
  decide_go (rs1 ++ rs2) a =
  if existsb (fun r => rule_matches r a) rs1 then decide_go rs1 a else decide_go rs2 a.
Proof.
  induction rs1 as [|r rs1 IH]; simpl; [done|].
  destruct (rule_matches r a); [done|]. apply IH.
Qed.
(** [lookup] over a dotted path is [lookup] twice. *)
Lemma lookup_go_app v l1 l2 :
  lookup_go v (l1 ++ l2) = (w ← lookup_go v l1; lookup_go w l2).
Proof.
  revert v. induction l1 as [|s l1 IH]; intros v; simpl; [done|].
  destruct (as_object v) as [m|]; simpl; [|done]. by destruct (m !! s); simpl.
Qed.

(** ** Properties *)

(** C23: the engine is the first-match, default-deny semantics: [decide]
    returns exactly the verdict the declarative rules derive, for every
    action and policy. *)
Theorem decide_first_match a p v : decide a p = v <-> decides a (rules p) v.
Proof. apply decide_go_decides. Qed.

(** C24: the recursive matcher accepts exactly the glob language over path
    segments, [*] one segment and [**] any number of them. *)
Theorem glob_matches_correct pattern pth :
  glob_matches pattern pth = true <-> glob (split "/" pattern) (split "/" pth).
Proof. apply segments_match_glob. Qed.

(** A dotted path steps through nested objects: looking up [p.q] is
    looking up [p] and then [q] in the result. *)
Lemma lookup_dotted fs p q :
  lookup fs (p +:+ "." +:+ q) = (v ← lookup fs p; lookup v q).
Proof.
  unfold lookup. replace (p +:+ "." +:+ q) with (p +:+ String "." q) by by hk_str.
  by rewrite split_app_sep, lookup_go_app.
Qed.

(** Composing rule lists: the rules of a later list can change the
    verdict only for actions no earlier rule applies to, so a guard of deny
    rules placed first denies exactly the actions it applies to and leaves
    every other verdict alone. *)
Lemma deny_guard guard rs a :
  Forall (fun r => effect r = Deny) guard ->
  decide a (mkPolicy (guard ++ rs)) =
  if existsb (fun r => rule_matches r a) guard then VDeny ExplicitDeny
  else decide a (mkPolicy rs).
Proof.
  intros Hg. unfold decide. cbn [rules]. rewrite decide_go_app.
  induction Hg as [|r guard Hr _ IH]; [done|]. cbn [existsb decide_go].
  destruct (rule_matches r a); [|apply IH]. unfold verdict_for. by rewrite Hr.
Qed.
End Engine.
