(* ===== verification/SigV4.v ===== *)
(** [gateway/src/sigv4.rs]: AWS Signature Version 4, signing an outbound
    request and verifying an inbound one. The codecs and the calendar are in
    [Codec.v] and [Datetime.v]; the hash functions are [ring]'s and the header
    map is [http]'s, both through [External.v]. A computation that decodes the
    query can panic, hence [comp]. *)

From S2P Require Import Prelude RustStr Codec Datetime External Reference.

(** ** Definitions *)

Definition MAX_SKEW_MS : Z := 5 * 60 * 1000.

Record Creds := mkCreds {
  access_key_id : string;
  secret_access_key : string;
}.

Record Signed := mkSigned {
  authorization : string;
  amz_date : string;
  content_sha256 : string;
}.

Definition OUTBOUND_SIGNED_HEADERS : string := "host;x-amz-content-sha256;x-amz-date".

Record Parsed := mkParsed {
  p_access_key_id : string;
  datestamp : string;
  region : string;
  service : string;
  signed_headers : list string;
  signature : string;
}.

Inductive VerifyError :=
| Mismatch
| Stale
| MissingSignedHeader (name : string).

#[export] Instance VerifyError_eq_dec : EqDecision VerifyError.
Proof. solve_decision. Defined.

(** *** Parsing the [Authorization] header *)

(** The four mutable locals of the loop of [parse_authorization]. *)
Record parse_state := mkParseState {
  s_akid : option string;
  s_scope : option (string * string * string);
  s_headers : option (list string);
  s_signature : option string;
}.

Definition parse_state0 : parse_state := mkParseState None None None None.

Definition parse_part (st : parse_state) (raw : string) : parse_state :=
  let part := trim raw in
  match strip_prefix "Credential=" part with
  | Some cred =>
      match splitn 5 "/" cred with
      | [akid; date; reg; svc; _] =>
          mkParseState (Some akid) (Some (date, reg, svc)) (s_headers st) (s_signature st)
      | _ => st
      end
  | None =>
  match strip_prefix "SignedHeaders=" part with
  | Some sh =>
      mkParseState (s_akid st) (s_scope st)
        (Some (map to_ascii_lowercase (List.filter (fun h => negb (sempty h)) (split ";" sh))))
        (s_signature st)
  | None =>
  match strip_prefix "Signature=" part with
  | Some sig => mkParseState (s_akid st) (s_scope st) (s_headers st) (Some sig)
  | None => st
  end end end.

Definition parse_authorization (header : string) : option Parsed :=
  after ← strip_prefix "AWS4-HMAC-SHA256" header;
  let st := fold_left parse_part (split "," (trim_start after)) parse_state0 in
  '(date, reg, svc) ← s_scope st;
  hs ← s_headers st;
  if bool_decide (hs = []) then None
  else
    akid ← s_akid st;
    sig ← s_signature st;
    Some (mkParsed akid date reg svc hs sig).

(** *** The canonical request *)

(** [double_encode_for]: every service but S3. *)
Definition double_encode_for (svc : string) : bool := negb (eq_ignore_ascii_case svc "s3").

Definition canonical_uri (path : string) (double_encode : bool) : string :=
  let path := if sempty path then "/" else path in
  if double_encode then uri_encode path false else path.

Definition query_pair (pair : string) : comp (string * string) :=
  let '(k, v) := match split_once "=" pair with Some kv => kv | None => (pair, "") end in
  k' ← percent_decode k;
  v' ← percent_decode v;
  Done (uri_encode k' true, uri_encode v' true).

Definition canonical_query (query : string) : comp string :=
  if sempty query then Done ""
  else
    pairs ← comp_map query_pair (List.filter (fun p => negb (sempty p)) (split "&" query));
    Done (join "&" (map (fun kv => kv.1 +:+ "=" +:+ kv.2) (sort_pairs pairs))).

(** The loop of [trim_header_value], on the bytes: only the space is special. *)
Fixpoint collapse_spaces (s : string) (prev_space : bool) : string :=
  match s with
  | "" => ""
  | String c s' =>
      if c =b " " then
        if prev_space then collapse_spaces s' true else String " " (collapse_spaces s' true)
      else String c (collapse_spaces s' false)
  end.

Definition trim_header_value (v : string) : string := collapse_spaces (trim v) false.

Definition header_line (h : string * string) : string := h.1 +:+ ":" +:+ h.2 +:+ NL.

Definition canonical_request (method path query : string) (headers : list (string * string))
    (signed_headers payload_hash : string) (double_encode : bool) : comp string :=
  let sorted := sort_pairs (map (fun h => (h.1, trim_header_value h.2)) headers) in
  let canonical_headers := concat (map header_line sorted) in
  q ← canonical_query query;
  Done (method +:+ NL +:+ canonical_uri path double_encode +:+ NL +:+ q +:+ NL
        +:+ canonical_headers +:+ NL +:+ signed_headers +:+ NL +:+ payload_hash).

Section SigV4.
Context {H : HttpLib} {R : RingLib}.

(** *** Keys and signatures *)

Definition sha256_hex (data : string) : string := to_hex (sha256 data).

Definition derive_signing_key (secret date reg svc : string) : string :=
  let k_date := hmac_sha256 ("AWS4" +:+ secret) date in
  let k_region := hmac_sha256 k_date reg in
  let k_service := hmac_sha256 k_region svc in
  hmac_sha256 k_service "aws4_request".

Definition credential_scope (date reg svc : string) : string :=
  date +:+ "/" +:+ reg +:+ "/" +:+ svc +:+ "/aws4_request".

Definition string_to_sign (amz date reg svc canonical : string) : string :=
  "AWS4-HMAC-SHA256" +:+ NL +:+ amz +:+ NL +:+ credential_scope date reg svc +:+ NL
  +:+ sha256_hex canonical.

Definition signature_for (secret reg svc amz date canonical : string) : string :=
  to_hex (hmac_sha256 (derive_signing_key secret date reg svc)
                      (string_to_sign amz date reg svc canonical)).

(** *** Signing *)

Definition sign (creds : Creds) (reg svc method host path query body : string) (epoch_ms : Z)
    : comp Signed :=
  let '(amz, date) := format_amz_datetime epoch_ms in
  let sha := sha256_hex body in
  let headers := [("host", host); ("x-amz-content-sha256", sha); ("x-amz-date", amz)] in
  canonical ← canonical_request method path query headers OUTBOUND_SIGNED_HEADERS sha
                (double_encode_for svc);
  let sig := signature_for (secret_access_key creds) reg svc amz date canonical in
  Done (mkSigned
    ("AWS4-HMAC-SHA256 Credential=" +:+ access_key_id creds +:+ "/" +:+ credential_scope date reg svc
     +:+ ", SignedHeaders=" +:+ OUTBOUND_SIGNED_HEADERS +:+ ", Signature=" +:+ sig)
    amz sha).

(** *** Verifying *)

Definition header_value (hs : HeaderMap) (name : string) : option string :=
  v ← hm_get hs name; hv_to_str v.

(** The loop that collects the live values of the signed headers, failing
    at the first one that is absent. *)
Fixpoint collect_signed (hs : HeaderMap) (names : list string)
    : result (list (string * string)) VerifyError :=
  match names with
  | [] => Ok []
  | name :: names' =>
      match header_value hs name with
      | None => Err (MissingSignedHeader name)
      | Some v =>
          match collect_signed hs names' with
          | Ok rest => Ok ((name, v) :: rest)
          | Err e => Err e
          end
      end
  end.

Definition payload_hash (hs : HeaderMap) (body : string) : string :=
  match header_value hs "x-amz-content-sha256" with
  | Some v => v
  | None => sha256_hex body
  end.

Definition verify (secret : string) (parsed : Parsed) (method path query : string)
    (hs : HeaderMap) (body : string) (now_ms : Z) : comp (result unit VerifyError) :=
  match header_value hs "x-amz-date" with
  | None => Done (Err Stale)
  | Some amz =>
  match parse_amz_datetime amz with
  | None => Done (Err Stale)
  | Some signed_ms =>
  if (MAX_SKEW_MS <? u64_abs_diff now_ms signed_ms)%Z then Done (Err Stale)
  else
  match collect_signed hs (signed_headers parsed) with
  | Err e => Done (Err e)
  | Ok signed =>
      canonical ← canonical_request method path query signed (join ";" (signed_headers parsed))
                    (payload_hash hs body) (double_encode_for (service parsed));
      let expected := signature_for secret (region parsed) (service parsed) amz
                        (datestamp parsed) canonical in
      if constant_time_eq expected (signature parsed) then Done (Ok tt)
      else Done (Err Mismatch)
  end end end.
End SigV4.

(** ** The canonical query is a normal form *)

Definition query_line (kv : string * string) : string := kv.1 +:+ "=" +:+ kv.2.

Lemma query_pair_encoded k v :
  query_pair (query_line (uri_encode k true, uri_encode v true)) =
  Done (uri_encode k true, uri_encode v true).
Proof.
  unfold query_pair, query_line. cbn [fst snd]. hk_str.
  rewrite (split_once_app "=" (uri_encode k true) (uri_encode v true)).
  - by rewrite !percent_decode_uri_encode_aux.
  - apply (lacks_sforall is_uri_byte); [done|]. apply uri_encode_bytes.
Qed.

(** Both components are encodings. *)
Definition encoded_pair (kv : string * string) : Prop :=
  exists k v, kv = (uri_encode k true, uri_encode v true).

Lemma query_pair_is_encoded p kv : query_pair p = Done kv -> encoded_pair kv.
Proof.
  unfold query_pair. destruct (match split_once "=" p with Some kv => kv | None => (p, "") end) as [k v].
  intros H. apply comp_bind_done in H as (k' & _ & H).
  apply comp_bind_done in H as (v' & _ & H). hk_inv. by exists k', v'.
Qed.

Lemma comp_map_forall {A B} (f : A -> comp B) (P : B -> Prop) l ys :
  (forall x y, f x = Done y -> P y) -> comp_map f l = Done ys -> Forall P ys.
Proof.
  intros Hf. revert ys. induction l as [|x l IH]; simpl; intros ys H.
  - hk_inv. constructor.
  - apply comp_bind_done in H as (y & Hy & (ys' & Hys & E)%comp_bind_done). hk_inv.
    constructor; eauto.
Qed.

Lemma encoded_line_lacks_amp kv : encoded_pair kv -> lacks "&" (query_line kv).
Proof.
  intros (k & v & ->). unfold query_line. simpl. rewrite !lacks_app.
  split_and!; try done; (apply (lacks_sforall is_uri_byte); [done|]; apply uri_encode_bytes).
Qed.

Lemma query_line_nonempty kv : sempty (query_line kv) = false.
Proof. unfold query_line. destruct kv as [[|a k] v]; done. Qed.


Lemma comp_map_lines pairs :
  Forall encoded_pair pairs -> comp_map query_pair (map query_line pairs) = Done pairs.
Proof.
  induction 1 as [|kv pairs (k & v & ->) _ IH]; [done|]. cbn [map comp_map].
  rewrite query_pair_encoded. cbn. by rewrite IH.
Qed.

Lemma sort_pairs_sorted l : sort_pairs (sort_pairs l) = sort_pairs l.
Proof. apply sort_pairs_proper, sort_pairs_perm. Qed.

Lemma canonical_query_lines pairs :
  Forall encoded_pair pairs ->
  canonical_query (join "&" (map query_line pairs)) =
  Done (join "&" (map query_line (sort_pairs pairs))).
Proof.
  intros He. destruct pairs as [|kv pairs]; [done|]. unfold canonical_query.
  destruct (sempty (join "&" (map query_line (kv :: pairs)))) eqn:Hs.
  { pose proof (query_line_nonempty kv) as Hk. cbn [map] in Hs.
    destruct (query_line kv) as [|a s]; [done|]. by destruct (map query_line pairs). }
  rewrite split_join; [|done|].
  2:{ apply Forall_map. eapply Forall_impl; [exact He|]. apply encoded_line_lacks_amp. }
  rewrite filter_all_true.
  2:{ apply Forall_map, Forall_true. intros x. simpl. by rewrite query_line_nonempty. }
  by rewrite comp_map_lines.
Qed.

(** ** The signer's own header parses *)

Lemma trim_space s : trim (String " " s) = trim s.
Proof. done. Qed.

Lemma strip_prefix_refl_app p r s : s = p +:+ r -> strip_prefix p s = Some r.
Proof. intros ->. apply strip_prefix_app. Qed.

Lemma splitn_scope a b c d e :
  lacks "/" a -> lacks "/" b -> lacks "/" c -> lacks "/" d ->
  splitn 5 "/" (a +:+ "/" +:+ b +:+ "/" +:+ c +:+ "/" +:+ d +:+ "/" +:+ e) = [a; b; c; d; e].
Proof.
  intros Ha Hb Hc Hd. cbn [splitn]. hk_str.
  by rewrite !split_once_app.
Qed.

Section SigV4Lemmas.
Context {H : HttpLib} {R : RingLib}.

(** The [Authorization] value [sign] builds. *)
Definition authorization_of (akid date reg svc hs sig : string) : string :=
  "AWS4-HMAC-SHA256 Credential=" +:+ akid +:+ "/" +:+ credential_scope date reg svc
  +:+ ", SignedHeaders=" +:+ hs +:+ ", Signature=" +:+ sig.

(** Nothing the header's syntax reserves. *)
Definition scope_token (s : string) : Prop := lacks "/" s /\ lacks "," s.

Lemma parse_credential_part st akid date reg svc :
  scope_token akid -> scope_token date -> scope_token reg -> scope_token svc ->
  parse_part st ("Credential=" +:+ akid +:+ "/" +:+ credential_scope date reg svc) =
  mkParseState (Some akid) (Some (date, reg, svc)) (s_headers st) (s_signature st).
Proof.
  intros [] [] [] []. unfold parse_part, credential_scope.
  assert (E : trim ("Credential=" +:+ akid +:+ "/" +:+ date +:+ "/" +:+ reg +:+ "/" +:+ svc +:+ "/aws4_request")
    = "Credential=" +:+ akid +:+ "/" +:+ date +:+ "/" +:+ reg +:+ "/" +:+ svc +:+ "/" +:+ "aws4_request").
  { pose proof (trim_solid "C" ("redential=" +:+ akid +:+ "/" +:+ date +:+ "/" +:+ reg +:+ "/" +:+ svc
                  +:+ "/aws4_reques") "t" eq_refl eq_refl) as E.
    hk_str. hk_str in E. exact E. }
  rewrite E, strip_prefix_app, splitn_scope by done. done.
Qed.

Lemma parse_headers_part st :
  parse_part st (" SignedHeaders=" +:+ OUTBOUND_SIGNED_HEADERS) =
  mkParseState (s_akid st) (s_scope st)
    (Some ["host"; "x-amz-content-sha256"; "x-amz-date"]) (s_signature st).
Proof. reflexivity. Qed.

Lemma parse_signature_part st sig :
  sforall is_solid sig = true ->
  parse_part st (" Signature=" +:+ sig) =
  mkParseState (s_akid st) (s_scope st) (s_headers st) (Some sig).
Proof.
  intros Hs. unfold parse_part. change (" Signature=" +:+ sig) with (String " " ("Signature=" +:+ sig)).
  rewrite trim_space, trim_all_solid by by rewrite sforall_app, Hs.
  rewrite strip_prefix_app. done.
Qed.

Lemma parse_authorization_of akid date reg svc sig :
  scope_token akid -> scope_token date -> scope_token reg -> scope_token svc ->
  sforall is_solid sig = true -> lacks "," sig ->
  parse_authorization (authorization_of akid date reg svc OUTBOUND_SIGNED_HEADERS sig) =
  Some (mkParsed akid date reg svc ["host"; "x-amz-content-sha256"; "x-amz-date"] sig).
Proof.
  intros Ha Hd Hr Hv Hs Hl. unfold parse_authorization, authorization_of.
  set (cred := "Credential=" +:+ akid +:+ "/" +:+ credential_scope date reg svc).
  assert (Hcred : lacks "," cred).
  { unfold cred, credential_scope. rewrite !lacks_app. destruct Ha, Hd, Hr, Hv. by split_and!. }
  rewrite (strip_prefix_refl_app _ (" " +:+ cred +:+ "," +:+ (" SignedHeaders=" +:+ OUTBOUND_SIGNED_HEADERS)
    +:+ "," +:+ (" Signature=" +:+ sig))) by (unfold cred; by hk_str).
  cbn [mbind option_bind].
  assert (Ht : trim_start (" " +:+ cred +:+ "," +:+ (" SignedHeaders=" +:+ OUTBOUND_SIGNED_HEADERS)
    +:+ "," +:+ (" Signature=" +:+ sig)) =
    cred +:+ String "," ((" SignedHeaders=" +:+ OUTBOUND_SIGNED_HEADERS) +:+ String "," (" Signature=" +:+ sig)))
    by (unfold cred; hk_str; done).
  rewrite Ht, split_app by done. rewrite split_app by done. rewrite split_lacks by (by rewrite lacks_app).
  cbn [fold_left]. unfold cred.
  rewrite parse_credential_part, parse_headers_part, parse_signature_part by done. done.
Qed.

Lemma to_hex_lacks c s : is_ascii_digit c || is_ascii_upper c || is_ascii_lower c = false -> lacks c (to_hex s).
Proof.
  intros. eapply (lacks_sforall (fun a => is_ascii_digit a || is_ascii_upper a || is_ascii_lower a));
    [done|]. apply to_hex_alnum.
Qed.

(** *** The verdicts of [verify] *)

Definition fresh (hs : HeaderMap) (now_ms : Z) : Prop :=
  exists amz ms, header_value hs "x-amz-date" = Some amz /\ parse_amz_datetime amz = Some ms
    /\ (u64_abs_diff now_ms ms <= MAX_SKEW_MS)%Z.

(** [signed] lists the names with their live values. *)
Definition live_values (hs : HeaderMap) (names : list string) (signed : list (string * string)) : Prop :=
  signed.*1 = names /\ Forall (fun h => header_value hs h.1 = Some h.2) signed.

(** The signature the secret's holder would put on this request. *)
Definition expected_signature (secret : string) (p : Parsed) (method path query : string)
    (hs : HeaderMap) (body : string) : comp (option string) :=
  match header_value hs "x-amz-date", collect_signed hs (signed_headers p) with
  | Some amz, Ok signed =>
      c ← canonical_request method path query signed (join ";" (signed_headers p))
            (payload_hash hs body) (double_encode_for (service p));
      Done (Some (signature_for secret (region p) (service p) amz (datestamp p) c))
  | _, _ => Done None
  end.

Lemma collect_signed_spec hs names :
  match collect_signed hs names with
  | Ok signed => live_values hs names signed
  | Err e => exists l1 n l2, e = MissingSignedHeader n /\ names = l1 ++ n :: l2 /\
      header_value hs n = None /\ forall m, m ∈ l1 -> header_value hs m <> None
  end.
Proof.
  induction names as [|n names IH]; simpl; [by split|].
  destruct (header_value hs n) as [v|] eqn:E.
  - destruct (collect_signed hs names) as [rest|e].
    + destruct IH as [<- Hf]. by split; [|constructor].
    + destruct IH as (l1 & m & l2 & -> & -> & Hm & Hl). exists (n :: l1), m, l2.
      split_and!; try done. intros k [->|]%elem_of_cons; [congruence|auto].
  - exists [], n, names. split_and!; try done. set_solver.
Qed.
End SigV4Lemmas.

Section SigV4Verify.
Context {H : HttpLib} {R : RingLib}.

Lemma verify_fresh secret p method path query hs body now_ms :
  fresh hs now_ms ->
  verify secret p method path query hs body now_ms =
  match collect_signed hs (signed_headers p) with
  | Err e => Done (Err e)
  | Ok _ =>
      s ← expected_signature secret p method path query hs body;
      match s with
      | Some s => if constant_time_eq s (signature p) then Done (Ok tt) else Done (Err Mismatch)
      | None => Done (Err Mismatch)
      end
  end.
Proof.
  intros (amz & ms & Ha & Hp & Hm). unfold verify, expected_signature. rewrite Ha, Hp.
  replace (MAX_SKEW_MS <? u64_abs_diff now_ms ms)%Z with false by (symmetry; by apply Z.ltb_ge).
  destruct (collect_signed hs (signed_headers p)); [|done].
  by destruct (canonical_request _ _ _ _ _ _ _).
Qed.

Lemma verify_not_fresh secret p method path query hs body now_ms :
  ~ fresh hs now_ms -> verify secret p method path query hs body now_ms = Done (Err Stale).
Proof.
  intros Hf. unfold verify. destruct (header_value hs "x-amz-date") as [amz|] eqn:Ea; [|done].
  destruct (parse_amz_datetime amz) as [ms|] eqn:Ep; [|done].
  destruct (Z.ltb_spec MAX_SKEW_MS (u64_abs_diff now_ms ms)); [done|].
  exfalso. apply Hf. by exists amz, ms.
Qed.

Lemma fresh_dec hs now_ms : fresh hs now_ms \/ ~ fresh hs now_ms.
Proof.
  unfold fresh. destruct (header_value hs "x-amz-date") as [amz|]; [|right; naive_solver].
  destruct (parse_amz_datetime amz) as [ms|] eqn:Ep; [|right; naive_solver].
  destruct (decide (u64_abs_diff now_ms ms <= MAX_SKEW_MS)%Z); [left|right]; naive_solver.
Qed.

Lemma expected_signature_none secret p method path query hs body amz signed :
  header_value hs "x-amz-date" = Some amz -> collect_signed hs (signed_headers p) = Ok signed ->
  expected_signature secret p method path query hs body <> Done None.
Proof.
  unfold expected_signature. intros -> ->. by destruct (canonical_request _ _ _ _ _ _ _).
Qed.

Lemma canonical_request_done method path query hs sh ph de c :
  canonical_request method path query hs sh ph de = Done c ->
  exists q rest, canonical_query query = Done q /\
    c = method +:+ NL +:+ canonical_uri path de +:+ NL +:+ q +:+ NL +:+ rest.
Proof.
  unfold canonical_request. intros (q & Hq & E)%comp_bind_done. hk_inv. by exists q; eexists.
Qed.

Lemma uri_encode_lacks c s e :
  is_unreserved c = false -> c <> "%"%char -> c <> "/"%char -> lacks c (uri_encode s e).
Proof.
  intros Hc Hp Hs.
  apply (lacks_sforall (fun a => is_uri_byte a || (a =b "/"))).
  { unfold is_uri_byte. rewrite Hc. apply Ascii.eqb_neq in Hp, Hs. by rewrite Hp, Hs. }
  induction s as [|b s IH]; [done|]. cbn [uri_encode]. rewrite sforall_app, IH, andb_true_r.
  destruct (is_unreserved b) eqn:E; [cbn; unfold is_uri_byte; by rewrite E|].
  destruct ((b =b "/") && negb e); [done|].
  clear. each_byte b.
Qed.

Lemma canonical_query_lacks c q r :
  is_unreserved c = false -> c <> "%"%char -> c <> "="%char -> c <> "&"%char -> c <> "/"%char ->
  canonical_query q = Done r -> lacks c r.
Proof.
  intros H1 H2 H3 H4 H5. unfold canonical_query. destruct (sempty q); [by intros; hk_inv|].
  intros (pairs & Hp & E)%comp_bind_done. hk_inv.
  assert (Hl : Forall encoded_pair (sort_pairs pairs)).
  { rewrite sort_pairs_perm. eapply comp_map_forall; [apply query_pair_is_encoded|done]. }
  induction Hl as [|kv l (k & v & ->) Hl IH]; [done|].
  assert (Hkv : lacks c (query_line (uri_encode k true, uri_encode v true))).
  { unfold query_line. simpl. rewrite !lacks_app, lacks_cons.
    split_and!; try done; try congruence; by apply uri_encode_lacks. }
  destruct l as [|kv' l]; [done|]. change (lacks c
    (query_line (uri_encode k true, uri_encode v true) +:+ "&" +:+ join "&" (map query_line (kv' :: l)))).
  rewrite !(lacks_app c _ (_ +:+ _)), lacks_app, lacks_cons.
  split_and!; try done; congruence.
Qed.

(** *** Consequences for two requests *)

Lemma verify_spec_ok secret p method path query hs body now :
  verify secret p method path query hs body now = Done (Ok tt) ->
  exists amz c signed, header_value hs "x-amz-date" = Some amz /\
    canonical_request method path query signed (join ";" (signed_headers p))
      (payload_hash hs body) (double_encode_for (service p)) = Done c /\
    signature_for secret (region p) (service p) amz (datestamp p) c = signature p.
Proof.
  intros Hv. destruct (fresh_dec hs now) as [Hf|Hf]; [|by rewrite verify_not_fresh in Hv].
  rewrite verify_fresh in Hv by done. destruct Hf as (amz & ms & Ha & _).
  unfold expected_signature in Hv. rewrite Ha in Hv.
  destruct (collect_signed hs (signed_headers p)) as [signed|e]; [|done].
  destruct (canonical_request _ _ _ signed _ _ _) as [c|] eqn:Ec; [|done].
  cbn [mbind comp_bind] in Hv.
  destruct (constant_time_eq _ _) eqn:Et; [|done].
  apply constant_time_eq_true_eq in Et. by exists amz, c, signed.
Qed.

Lemma line_inj a b s t : lacks newline a -> lacks newline b ->
  a +:+ NL +:+ s = b +:+ NL +:+ t -> a = b /\ s = t.
Proof.
  intros Ha Hb E. unfold NL in E. hk_str in E.
  pose proof (split_once_app newline a s Ha) as E1.
  pose proof (split_once_app newline b t Hb) as E2. rewrite E, E2 in E1. by injection E1 as -> ->.
Qed.

(** The path of a request line: an empty one is the root. *)
Definition absolute (path : string) : string := if sempty path then "/" else path.

Lemma canonical_uri_inj p1 p2 de : canonical_uri p1 de = canonical_uri p2 de -> absolute p1 = absolute p2.
Proof.
  unfold canonical_uri. fold (absolute p1) (absolute p2). destruct de; [|done]. intros E.
  apply (f_equal percent_decode) in E. rewrite !percent_decode_uri_encode_aux in E. by injection E.
Qed.

Lemma canonical_request_inj m1 path1 q1 h1 sh1 ph1 m2 path2 q2 h2 sh2 ph2 de c :
  canonical_request m1 path1 q1 h1 sh1 ph1 de = Done c ->
  canonical_request m2 path2 q2 h2 sh2 ph2 de = Done c ->
  lacks newline m1 -> lacks newline m2 ->
  de = true \/ lacks newline path1 /\ lacks newline path2 ->
  m1 = m2 /\ absolute path1 = absolute path2 /\ canonical_query q1 = canonical_query q2.
Proof.
  intros (r1 & t1 & Hq1 & ->)%canonical_request_done (r2 & t2 & Hq2 & E)%canonical_request_done Hm1 Hm2 Hde.
  assert (Hl : forall p, de = true \/ lacks newline p -> lacks newline (canonical_uri p de)).
  { intros p Hp. unfold canonical_uri. destruct de; [by apply uri_encode_lacks|]. destruct Hp; [done|]. by destruct (sempty p). }
  apply line_inj in E as [-> E]; [|done..].
  apply line_inj in E as [Eu E]; [|apply Hl; tauto..]. apply canonical_uri_inj in Eu.
  apply line_inj in E as [-> _]; [|by eapply canonical_query_lacks; [..|done]..].
  by rewrite Hq1, Hq2.
Qed.

Lemma canonical_query_join l :
  Forall (fun s => lacks "&" s /\ s <> "") l ->
  canonical_query (join "&" l) =
  (pairs ← comp_map query_pair l; Done (join "&" (map query_line (sort_pairs pairs)))).
Proof.
  intros Hl. destruct Hl as [|s l [Hs Hne] Hl]; [done|].
  unfold canonical_query. destruct (sempty (join "&" (s :: l))) eqn:E.
  { destruct s; [done|]. by destruct l. }
  rewrite split_join; [|done|].
  2:{ constructor; [done|]. eapply Forall_impl; [done|]. naive_solver. }
  rewrite filter_all_true; [done|].
  constructor; [by destruct s|]. eapply Forall_impl; [done|]. intros [|a t] [_ ?]; done.
Qed.

Lemma format_amz_date_token ms : scope_token (snd (format_amz_datetime ms)).
Proof.
  unfold format_amz_datetime. destruct (datetime_fields ms) as [[[y m] d] [[h mi] s]]. cbn [snd].
  split; rewrite !lacks_app; split_and!; by apply show_pad_lacks.
Qed.
End SigV4Verify.

(** ** Properties *)

Section Properties.
Context {H : HttpLib} {R : RingLib}.

(** Signing and verifying. *)
Lemma sign_verify_ok creds reg svc method host path query body ms sg hs body' now :
  sign creds reg svc method host path query body ms = Done sg ->
  (0 <= ms < 253402300800000)%Z ->
  scope_token (access_key_id creds) -> scope_token reg -> scope_token svc ->
  header_value hs "host" = Some host ->
  header_value hs "x-amz-content-sha256" = Some (content_sha256 sg) ->
  header_value hs "x-amz-date" = Some (amz_date sg) ->
  (u64_abs_diff now (ms / 1000 * 1000) <= MAX_SKEW_MS)%Z ->
  exists p, parse_authorization (authorization sg) = Some p /\
    p_access_key_id p = access_key_id creds /\ region p = reg /\ service p = svc /\
    verify (secret_access_key creds) p method path query hs body' now = Done (Ok tt).
Proof.
  unfold sign. pose proof (datetime_roundtrip_aux ms) as Hrt.
  destruct (format_amz_datetime ms) as [amz date] eqn:Ef.
  intros Hs Hms Ha Hr Hv Hh Hsha Hd Hnow.
  apply comp_bind_done in Hs as (c & Hc & E). hk_inv. cbn [amz_date content_sha256 authorization] in *.
  set (sig := signature_for _ _ _ _ _ _).
  exists (mkParsed (access_key_id creds) date reg svc ["host"; "x-amz-content-sha256"; "x-amz-date"] sig).
  split; [apply parse_authorization_of; try done|].
  - pose proof (format_amz_date_token ms) as Ht. by rewrite Ef in Ht.
  - apply to_hex_solid.
  - by apply to_hex_lacks.
  - split_and!; try done. rewrite verify_fresh.
    2:{ exists amz, (ms / 1000 * 1000)%Z. by split_and!; [|apply Hrt|]. }
    cbn [signed_headers collect_signed]. rewrite Hh, Hsha, Hd.
    unfold expected_signature. cbn [signed_headers collect_signed region service datestamp].
    rewrite Hh, Hsha, Hd. unfold payload_hash. rewrite Hsha.
    change (join ";" _) with OUTBOUND_SIGNED_HEADERS. rewrite Hc. cbn [mbind comp_bind].
    cbn [signature]. by rewrite constant_time_eq_refl.
Qed.

(** C21: what hackamore signs, hackamore verifies: an [Authorization] header
    built by [sign] parses, names the signing key, and verifies against the
    same secret on a request that carries the signed host, payload hash and
    date, for any clock within the skew window; the buffered body is not
    consulted. *)
Theorem sign_verify creds reg svc method host path query body ms sg hs body' now :
  sign creds reg svc method host path query body ms = Done sg ->
  (0 <= ms < 253402300800000)%Z ->
  scope_token (access_key_id creds) -> scope_token reg -> scope_token svc ->
  header_value hs "host" = Some host ->
  header_value hs "x-amz-content-sha256" = Some (content_sha256 sg) ->
  header_value hs "x-amz-date" = Some (amz_date sg) ->
  (u64_abs_diff now (ms / 1000 * 1000) <= MAX_SKEW_MS)%Z ->
  exists p, parse_authorization (authorization sg) = Some p /\
    p_access_key_id p = access_key_id creds /\ region p = reg /\ service p = svc /\
    verify (secret_access_key creds) p method path query hs body' now = Done (Ok tt).
Proof. apply sign_verify_ok. Qed.

(** Every verdict of [verify]. *)
Lemma verify_cases secret p method path query hs body now :
  match verify secret p method path query hs body now with
  | Done (Err Stale) => ~ fresh hs now
  | Done (Err (MissingSignedHeader n)) => fresh hs now /\
      exists l1 l2, signed_headers p = l1 ++ n :: l2 /\ header_value hs n = None /\
        forall m, m ∈ l1 -> header_value hs m <> None
  | Done (Ok _) => fresh hs now /\ (exists signed, live_values hs (signed_headers p) signed) /\
      expected_signature secret p method path query hs body = Done (Some (signature p))
  | Done (Err Mismatch) => fresh hs now /\ (exists signed, live_values hs (signed_headers p) signed) /\
      exists s, expected_signature secret p method path query hs body = Done (Some s) /\ s <> signature p
  | Panic => fresh hs now /\ (exists signed, live_values hs (signed_headers p) signed) /\
      canonical_query query = Panic
  end.
Proof.
  destruct (fresh_dec hs now) as [Hf|Hf]; [|by rewrite verify_not_fresh].
  rewrite verify_fresh by done. pose proof Hf as (amz & ms & Ha & _).
  pose proof (collect_signed_spec hs (signed_headers p)) as Hcs.
  destruct (collect_signed hs (signed_headers p)) as [signed|e] eqn:Ec.
  - destruct (expected_signature secret p method path query hs body) as [[s|]|] eqn:Es; cbn [mbind comp_bind].
    + destruct (constant_time_eq s (signature p)) eqn:Et.
      * apply constant_time_eq_true_eq in Et as ->. eauto.
      * split_and!; eauto. exists s. split; [done|]. intros ->.
        by rewrite constant_time_eq_refl in Et.
    + by eapply expected_signature_none in Es.
    + split_and!; eauto. revert Es. unfold expected_signature. rewrite Ha, Ec.
      unfold canonical_request. by destruct (canonical_query query).
  - destruct Hcs as (l1 & n & l2 & -> & Hn & ? & ?). split; [done|]. by exists l1, l2.
Qed.

(** C20: [verify] decides exactly what SigV4 promises. It accepts iff the
    request is fresh, every signed header is present and the presented
    signature is the one the secret's holder computes; [Stale], the first
    missing header and [Mismatch] each name their own cause, in that order;
    the only other outcome is the panic of decoding the query. *)
Theorem verify_spec secret p method path query hs body now :
  match verify secret p method path query hs body now with
  | Done (Err Stale) => ~ fresh hs now
  | Done (Err (MissingSignedHeader n)) => fresh hs now /\
      exists l1 l2, signed_headers p = l1 ++ n :: l2 /\ header_value hs n = None /\
        forall m, m ∈ l1 -> header_value hs m <> None
  | Done (Ok _) => fresh hs now /\ (exists signed, live_values hs (signed_headers p) signed) /\
      expected_signature secret p method path query hs body = Done (Some (signature p))
  | Done (Err Mismatch) => fresh hs now /\ (exists signed, live_values hs (signed_headers p) signed) /\
      exists s, expected_signature secret p method path query hs body = Done (Some s) /\ s <> signature p
  | Panic => fresh hs now /\ (exists signed, live_values hs (signed_headers p) signed) /\
      canonical_query query = Panic
  end.
Proof. apply verify_cases. Qed.

(** C22: a signature binds the request. If one parsed header verifies two
    requests under one secret at one date, then they agree on the method, the
    path (an empty one being the root) and the canonical query, or the
    requests exhibit a collision of HMAC-SHA256 or of SHA-256. This is so for
    every service; for S3, whose path is signed as it is, both paths must have
    no line break, as no URI has. *)
Theorem signature_binds_request secret p m1 path1 q1 hs1 b1 now1 m2 path2 q2 hs2 b2 now2 :
  verify secret p m1 path1 q1 hs1 b1 now1 = Done (Ok tt) ->
  verify secret p m2 path2 q2 hs2 b2 now2 = Done (Ok tt) ->
  header_value hs1 "x-amz-date" = header_value hs2 "x-amz-date" ->
  lacks newline m1 -> lacks newline m2 ->
  to_ascii_lowercase (service p) <> "s3" \/ lacks newline path1 /\ lacks newline path2 ->
  (m1 = m2 /\ absolute path1 = absolute path2 /\ canonical_query q1 = canonical_query q2)
  \/ (exists k x y, x <> y /\ hmac_sha256 k x = hmac_sha256 k y)
  \/ (exists x y, x <> y /\ sha256 x = sha256 y).
Proof.
  intros H1 H2 Hd Hm1 Hm2 Hde.
  pose proof (verify_spec_ok _ _ _ _ _ _ _ _ H1) as (a1 & c1 & r1 & Ha1 & Hc1 & E1).
  pose proof (verify_spec_ok _ _ _ _ _ _ _ _ H2) as (a2 & c2 & r2 & Ha2 & Hc2 & E2).
  rewrite Ha1, Ha2 in Hd. injection Hd as <-. rewrite <- E2 in E1. clear E2.
  apply to_hex_inj in E1. unfold string_to_sign in E1.
  destruct (decide (c1 = c2)) as [<-|Hne].
  - left. eapply canonical_request_inj; eauto. destruct Hde as [Hs|?]; [left|by right].
    unfold double_encode_for, eq_ignore_ascii_case. apply negb_true_iff, String.eqb_neq. exact Hs.
  - right. destruct (decide (sha256 c1 = sha256 c2)); [right; eauto|]. left.
    do 3 eexists. split; [|exact E1]. intros Heq. apply sapp_inv_head in Heq.
    repeat first [apply sapp_inv_head in Heq | injection Heq as Heq]. by apply to_hex_inj in Heq.
Qed.

(** Canonicalising a query is idempotent: the canonical form is a fixed
    point, so signer and verifier agree whichever of the two spellings
    each is handed. *)
Lemma canonical_query_idempotent q r :
  canonical_query q = Done r -> canonical_query r = Done r.
Proof.
  unfold canonical_query at 1. destruct (sempty q); [by intros; hk_inv|].
  intros (pairs & Hp & E)%comp_bind_done. hk_inv.
  assert (He : Forall encoded_pair pairs) by (eapply comp_map_forall; [apply query_pair_is_encoded|done]).
  change (canonical_query (join "&" (map query_line (sort_pairs pairs))) =
    Done (join "&" (map query_line (sort_pairs pairs)))).
  rewrite canonical_query_lines by by rewrite sort_pairs_perm.
  by rewrite sort_pairs_sorted.
Qed.

(** The order of a query's parameters is immaterial: permuting them
    leaves the canonical query, and so the signature, unchanged. *)
Lemma canonical_query_permutation l1 l2 :
  l1 ≡ₚ l2 -> Forall (fun s => lacks "&" s /\ s <> "") l1 ->
  canonical_query (join "&" l1) = canonical_query (join "&" l2).
Proof.
  intros Hp Hl1. assert (Hl2 : Forall (fun s => lacks "&" s /\ s <> "") l2) by by rewrite <- Hp.
  rewrite !canonical_query_join by done.
  pose proof (comp_map_perm query_pair _ _ Hp) as Hc.
  destruct (comp_map query_pair l1), (comp_map query_pair l2); try done.
  cbn. by rewrite (sort_pairs_proper _ _ Hc).
Qed.
End Properties.

(** ** Witnesses, on the concrete header map and hash functions *)

#[local] Existing Instance ref_http.
#[local] Existing Instance ref_ring.

Definition ex_creds : Creds := mkCreds "AKIDEXAMPLE" "secret-key".

Definition ex_sign : comp Signed :=
  sign ex_creds "us-east-1" "ec2" "POST" "ec2.us-east-1.amazonaws.com" "/" "b=2&a=1"
    "Action=DescribeInstances" 1700000000000.

Definition ex_headers (sg : Signed) : HeaderMap :=
  [("host", "ec2.us-east-1.amazonaws.com"); ("x-amz-date", amz_date sg);
   ("x-amz-content-sha256", content_sha256 sg)].

Definition ex_signed : Signed :=
  match ex_sign with Done sg => sg | Panic => mkSigned "" "" "" end.

Lemma sign_verify_witness :
  exists p, parse_authorization (authorization ex_signed) = Some p /\
    p_access_key_id p = "AKIDEXAMPLE" /\ region p = "us-east-1" /\ service p = "ec2" /\
    verify "secret-key" p "POST" "/" "b=2&a=1" (ex_headers ex_signed) "another body" 1700000299999
    = Done (Ok tt).
Proof.
  apply (sign_verify ex_creds "us-east-1" "ec2" "POST" "ec2.us-east-1.amazonaws.com" "/" "b=2&a=1"
    "Action=DescribeInstances" 1700000000000);
    [vm_compute; reflexivity|lia|by vm_compute|by vm_compute|by vm_compute|reflexivity|
     vm_compute; reflexivity|vm_compute; reflexivity|vm_compute; discriminate].
Defined.

(** The [get-vanilla] vector of AWS's test suite. *)
Definition get_vanilla : Parsed :=
  mkParsed "AKIDEXAMPLE" "20150830" "us-east-1" "service" ["host"; "x-amz-date"]
    "5fa00fa31553b73ebf1942676e86291e8372ff2a2260956d9b8aae1d763fbf31".

Definition get_vanilla_headers : HeaderMap :=
  [("host", "example.amazonaws.com"); ("x-amz-date", "20150830T123600Z")].

Example get_vanilla_verifies :
  verify "wJalrXUtnFEMI/K7MDENG+bPxRfiCYEXAMPLEKEY" get_vanilla "GET" "/" "" get_vanilla_headers ""
    1440938160000 = Done (Ok tt).
Proof. vm_compute. reflexivity. Qed.

Lemma signature_binds_request_witness :
  ("GET" = "GET" /\ absolute "/" = absolute "" /\ canonical_query "" = canonical_query "&")
  \/ (exists k x y, x <> y /\ hmac_sha256 k x = hmac_sha256 k y)
  \/ (exists x y, x <> y /\ sha256 x = sha256 y).
Proof.
  apply (signature_binds_request "wJalrXUtnFEMI/K7MDENG+bPxRfiCYEXAMPLEKEY" get_vanilla
    "GET" "/" "" get_vanilla_headers "" 1440938160000
    "GET" "" "&" get_vanilla_headers "" 1440938160000);
    [vm_compute; reflexivity..|left; vm_compute; discriminate].
Defined.

Lemma canonical_query_idempotent_witness :
  canonical_query "b=2&a=hello world&c" = Done "a=hello%20world&b=2&c=" /\
  canonical_query "a=hello%20world&b=2&c=" = Done "a=hello%20world&b=2&c=".
Proof.
  split; [vm_compute; reflexivity|].
  apply (canonical_query_idempotent "b=2&a=hello world&c"). vm_compute. reflexivity.
Defined.

Lemma canonical_query_permutation_witness :
  canonical_query (join "&" ["b=2"; "a=1"; "a"]) = canonical_query (join "&" ["a"; "a=1"; "b=2"]).
Proof.
  apply canonical_query_permutation.
  - apply (bool_decide_unpack _). vm_compute. exact I.
  - apply (bool_decide_unpack _). vm_compute. exact I.
Defined.
