(* ===== verification/Service.v ===== *)
(** [gateway/src/service.rs]: the configured upstream services, how each one's
    requests are normalised and its upstream auth is handled, the action
    catalogs policies are validated against, and the routing of a [Host]. *)

From S2P Require Import Prelude RustStr External Reference.

(** ** Definitions *)

Inductive Flavor := Github | K8s | Generic.
Inductive Protocol := Rest | AwsQuery | AwsJson.

#[export] Instance Flavor_eq_dec : EqDecision Flavor.
Proof. solve_decision. Defined.
#[export] Instance Protocol_eq_dec : EqDecision Protocol.
Proof. solve_decision. Defined.

Definition Protocol_parse (name : option string) : Protocol :=
  match name with
  | Some n => if eq_ignore_ascii_case n "aws-query" then AwsQuery
              else if eq_ignore_ascii_case n "aws-json" then AwsJson
              else Rest
  | None => Rest
  end.

Definition Flavor_parse (name : option string) : Flavor :=
  match name with
  | Some n => if eq_ignore_ascii_case n "github" then Github
              else if eq_ignore_ascii_case n "k8s" then K8s
              else Generic
  | None => Generic
  end.

Definition Flavor_name (f : Flavor) : string :=
  match f with Github => "github" | K8s => "k8s" | Generic => "generic" end.

Record Extract := mkExtract {
  protocol : Protocol;
  path_template : option string;
}.

Definition Extract_default : Extract := mkExtract Rest None.

(** A [BTreeSet] of action names. *)
Record Catalog := mkCatalog { actions : gset string }.

Definition Catalog_of (actions : list string) : Catalog := mkCatalog (list_to_set actions).
Definition Catalog_default : Catalog := mkCatalog ∅.
Definition Catalog_is_empty (c : Catalog) : bool := bool_decide (actions c = ∅).
Definition Catalog_knows (c : Catalog) (action : string) : bool := bool_decide (action ∈ actions c).

Definition METHODS : list string := ["get"; "put"; "post"; "delete"; "patch"; "head"; "options"].

Section OpenApi.
Context {J : JsonLib}.

(** [value.get(key)]: the entry of an object. *)
Definition value_get (v : value) (key : string) : option value := m ← as_object v; m !! key.

Definition operation_name (path method : string) (op : value) : string :=
  match value_get op "operationId" ≫= as_str with
  | Some id => id
  | None => to_ascii_uppercase method +:+ " " +:+ path
  end.

(** The inner loop: the methods of one path item, in [METHODS] order. *)
Definition item_actions (path : string) (item : value) : list string :=
  match as_object item with
  | None => []
  | Some m =>
      omap (fun method => op ← m !! method; Some (operation_name path method op)) METHODS
  end.

Definition from_openapi (spec : value) : Catalog :=
  match value_get spec "paths" ≫= as_object with
  | None => Catalog_default
  | Some paths =>
      mkCatalog (list_to_set (flat_map (fun p => item_actions p.1 p.2) (map_to_list paths)))
  end.
End OpenApi.

Inductive Outbound :=
| Passthrough
| Bearer (credential : string)
| Header (name credential : string)
| SigV4 (credential access_key_id region service : string).

#[export] Instance Outbound_eq_dec : EqDecision Outbound.
Proof. solve_decision. Defined.

Definition credential_id (o : Outbound) : option string :=
  match o with
  | Passthrough => None
  | Bearer credential | Header _ credential | SigV4 credential _ _ _ => Some credential
  end.

Record Service := mkService {
  svc_name : string;
  svc_host : string;
  svc_upstream_base : string;
  svc_flavor : Flavor;
  svc_outbound : Outbound;
  svc_address : string;
  svc_extract : Extract;
}.

Definition Service_new (name host upstream_base : string) : Service :=
  mkService name host upstream_base Generic Passthrough "" Extract_default.

Definition with_flavor (s : Service) (f : Flavor) : Service :=
  mkService (svc_name s) (svc_host s) (svc_upstream_base s) f (svc_outbound s) (svc_address s) (svc_extract s).
Definition with_outbound (s : Service) (o : Outbound) : Service :=
  mkService (svc_name s) (svc_host s) (svc_upstream_base s) (svc_flavor s) o (svc_address s) (svc_extract s).
Definition with_address (s : Service) (a : string) : Service :=
  mkService (svc_name s) (svc_host s) (svc_upstream_base s) (svc_flavor s) (svc_outbound s) a (svc_extract s).
Definition with_extract (s : Service) (e : Extract) : Service :=
  mkService (svc_name s) (svc_host s) (svc_upstream_base s) (svc_flavor s) (svc_outbound s) (svc_address s) e.

Record ServiceRouter := mkRouter { services : list Service }.

(** Lowercase and strip a trailing [:port]. *)
Definition normalize_host (host : string) : string :=
  let host := to_ascii_lowercase (trim host) in
  match rsplit_once ":" host with
  | Some (h, port) => if negb (sempty port) && sforall is_ascii_digit port then h else host
  | None => host
  end.

Definition host_matches (pattern host : string) : bool :=
  let pattern := to_ascii_lowercase (trim pattern) in
  if pattern =s "*" then true
  else match strip_prefix "*." pattern with
       | Some suffix => (host =s suffix) || ends_with ("." +:+ suffix) host
       | None => pattern =s host
       end.

Definition route (r : ServiceRouter) (host : string) : option Service :=
  let host := normalize_host host in
  List.find (fun s => host_matches (svc_host s) host) (services r).

(** ** ASCII case *)

Lemma byte_to_lower_idem a : byte_to_lower (byte_to_lower a) = byte_to_lower a.
Proof. destruct a as [[] [] [] [] [] [] [] []]; reflexivity. Qed.

Lemma to_ascii_lowercase_idem s : to_ascii_lowercase (to_ascii_lowercase s) = to_ascii_lowercase s.
Proof. unfold to_ascii_lowercase. induction s as [|a s IH]; simpl; [done|]. by rewrite byte_to_lower_idem, IH. Qed.

Lemma smap_app f s t : smap f (s +:+ t) = smap f s +:+ smap f t.
Proof. induction s as [|a s IH]; [done|]. hk_str. simpl. by rewrite IH. Qed.

Lemma sforall_smap p f s : sforall p (smap f s) = sforall (fun a => p (f a)) s.
Proof. induction s as [|a s IH]; simpl; [done|]. by rewrite IH. Qed.

Lemma sforall_ext p q s : (forall a, p a = q a) -> sforall p s = sforall q s.
Proof. intros E. induction s as [|a s IH]; simpl; [done|]. by rewrite E, IH. Qed.

Lemma is_solid_lower a : is_solid (byte_to_lower a) = is_solid a.
Proof. destruct a as [[] [] [] [] [] [] [] []]; reflexivity. Qed.

Lemma lower_eqb_colon a : (byte_to_lower a =b ":") = (a =b ":").
Proof. destruct a as [[] [] [] [] [] [] [] []]; reflexivity. Qed.

Lemma is_digit_lower a : is_ascii_digit (byte_to_lower a) = is_ascii_digit a.
Proof. destruct a as [[] [] [] [] [] [] [] []]; reflexivity. Qed.

(** A printable host name without spaces. *)
Definition plain_host (h : string) : Prop := sforall is_solid h = true.

Lemma digits_solid p : sforall is_ascii_digit p = true -> sforall is_solid p = true.
Proof.
  apply sforall_impl. intros a. unfold is_ascii_digit, is_solid, in_range.
  rewrite !andb_true_iff, !Z.leb_le. lia.
Qed.

Lemma normalize_host_plain h : plain_host h -> lacks ":" h -> normalize_host h = to_ascii_lowercase h.
Proof.
  intros Hp Hl. unfold normalize_host. rewrite trim_all_solid by done. cbn zeta.
  rewrite rsplit_once_lacks; [done|]. unfold lacks, to_ascii_lowercase in *. rewrite sforall_smap.
  erewrite sforall_ext; [exact Hl|]. intros a. simpl. by rewrite lower_eqb_colon.
Qed.

Lemma normalize_host_port h port :
  plain_host h -> port <> "" -> sforall is_ascii_digit port = true ->
  normalize_host (h +:+ ":" +:+ port) = to_ascii_lowercase h.
Proof.
  intros Hp Hne Hd. unfold normalize_host.
  rewrite trim_all_solid by (rewrite !sforall_app; by rewrite Hp, (digits_solid port)).
  unfold to_ascii_lowercase. rewrite !smap_app. cbn zeta.
  assert (Hdl : sforall is_ascii_digit (smap byte_to_lower port) = true).
  { rewrite sforall_smap. erewrite sforall_ext; [exact Hd|]. apply is_digit_lower. }
  change (smap byte_to_lower ":" +:+ smap byte_to_lower port) with (String ":" (smap byte_to_lower port)).
  rewrite rsplit_once_app by by apply (lacks_sforall is_ascii_digit).
  rewrite Hdl. by destruct port.
Qed.

(** ** Properties *)

(** Routing is first match: the service chosen is the earliest configured
    one whose pattern matches the normalised host, and a request is refused
    exactly when no pattern does. *)
Lemma route_first_match r host :
  match route r host with
  | Some s => exists l1 l2, services r = l1 ++ s :: l2 /\
      host_matches (svc_host s) (normalize_host host) = true /\
      Forall (fun t => host_matches (svc_host t) (normalize_host host) = false) l1
  | None => Forall (fun t => host_matches (svc_host t) (normalize_host host) = false) (services r)
  end.
Proof.
  unfold route. destruct (List.find _ _) as [s|] eqn:E.
  - apply find_some_elem in E as (l1 & l2 & -> & Hs & Hl). exists l1, l2.
    split_and!; [done..|]. by apply Forall_forall.
  - apply Forall_forall. by apply find_none_elem.
Qed.

(** The spelling of the [Host] header does not change the service: letter
    case and a numeric port are immaterial, so neither evades the route, nor
    the policy, of the bare name. *)
Lemma route_spelling r h h' port :
  plain_host h -> plain_host h' -> lacks ":" h -> eq_ignore_ascii_case h h' = true ->
  port <> "" -> sforall is_ascii_digit port = true ->
  route r (h' +:+ ":" +:+ port) = route r h.
Proof.
  intros Hp Hp' Hl He Hne Hd. apply String.eqb_eq in He. unfold route.
  by rewrite normalize_host_port, normalize_host_plain, He.
Qed.

Lemma route_spelling_witness :
  route (mkRouter [Service_new "gh" "API.github.com" "https://api.github.com"]) "api.GitHub.com:443" =
  route (mkRouter [Service_new "gh" "API.github.com" "https://api.github.com"]) "api.github.com".
Proof. apply (route_spelling _ "api.github.com" "api.GitHub.com" "443"); (reflexivity || discriminate). Defined.

(** What a host pattern means: [*] every host, [*.suffix] the suffix itself
    and its subdomains at a label boundary (never a host that merely ends
    with the same letters), and anything else that host only. *)
Lemma host_matches_spec pattern host :
  host_matches pattern host = true <->
  let p := to_ascii_lowercase (trim pattern) in
  p = "*" \/
  (exists suffix, p = "*." +:+ suffix /\ (host = suffix \/ exists sub, host = sub +:+ "." +:+ suffix)) \/
  (p = host /\ forall suffix, p <> "*." +:+ suffix).
Proof.
  unfold host_matches. cbn zeta. set (p := to_ascii_lowercase (trim pattern)).
  destruct (String.eqb_spec p "*") as [->|Hs]; [naive_solver|].
  destruct (strip_prefix "*." p) as [suffix|] eqn:E.
  - apply strip_prefix_some in E. rewrite orb_true_iff, String.eqb_eq, ends_with_true. split.
    + intros Hh. right. left. exists suffix. split; [done|]. destruct Hh as [|[r ->]]; [auto|].
      right. exists r. done.
    + intros [?|[(s' & E' & Hh)|[_ Hno]]]; [done| |by apply Hno in E].
      rewrite E in E'. apply sapp_inv_head in E' as <-. destruct Hh as [|[sub ->]]; [auto|].
      right. by exists sub.
  - rewrite String.eqb_eq. split.
    + intros Hp. right. right. split; [done|]. intros suffix Es.
      rewrite Es, strip_prefix_app in E. done.
    + intros [?|[(s' & E' & _)|[? _]]]; [done| |done]. by rewrite E', strip_prefix_app in E.
Qed.

(** [name] and [parse] are inverse on flavors, in any letter case. *)
Lemma flavor_roundtrip f n :
  eq_ignore_ascii_case n (Flavor_name f) = true -> Flavor_parse (Some n) = f.
Proof.
  unfold Flavor_parse, eq_ignore_ascii_case. intros E%String.eqb_eq. rewrite E. by destruct f.
Qed.

Section OpenApiProperties.
Context {J : JsonLib}.

(** An OpenAPI document's catalog holds exactly its operations' names:
    one for each listed method of each path item, the [operationId] if it
    is a string and the upper-case method and path otherwise. *)
Lemma from_openapi_knows spec a :
  Catalog_knows (from_openapi spec) a = true <->
  exists paths path item m method op,
    value_get spec "paths" ≫= as_object = Some paths /\ paths !! path = Some item /\
    as_object item = Some m /\ method ∈ METHODS /\ m !! method = Some op /\
    a = operation_name path method op.
Proof.
  unfold Catalog_knows. rewrite bool_decide_eq_true. unfold from_openapi.
  destruct (value_get spec "paths" ≫= as_object) as [paths|]; [|simpl; set_solver].
  cbn [actions]. rewrite elem_of_list_to_set, list_elem_of_In, in_flat_map. split.
  - intros ([path item] & Hp%list_elem_of_In%elem_of_map_to_list & Ha%list_elem_of_In).
    cbn [fst snd] in Ha. unfold item_actions in Ha. destruct (as_object item) as [m|] eqn:Em; [|set_solver].
    apply list_elem_of_omap in Ha as (method & Hm & Hop).
    apply bind_Some in Hop as (op & Hl & [= <-]). by exists paths, path, item, m, method, op.
  - intros (? & path & item & m & method & op & [= <-] & Hp & Hm & Hin & Hop & ->).
    exists (path, item). split; [by apply list_elem_of_In, elem_of_map_to_list|].
    apply list_elem_of_In. cbn [fst snd]. unfold item_actions. rewrite Hm.
    apply list_elem_of_omap. exists method. by rewrite Hop.
Qed.
End OpenApiProperties.

(** The example of the unit test [openapi_ingester_collects_operation_ids_with_fallback]. *)
Example from_openapi_example :
  let q s := quote +:+ s +:+ quote in
  let spec := "{" +:+ q "paths" +:+ ":{" +:+ q "/pets" +:+ ":{" +:+ q "get" +:+ ":{" +:+ q "operationId" +:+ ":"
    +:+ q "listPets" +:+ "}}," +:+ q "/pets/{id}" +:+ ":{" +:+ q "get" +:+ ":{}}}}" in
  option_map (fun v => let c := from_openapi (J := ref_json) v in
      (Catalog_knows c "listPets", Catalog_knows c "GET /pets/{id}", Catalog_knows c "deletePet"))
    (jfrom_slice spec) = Some (true, true, false).
Proof. vm_compute. reflexivity. Qed.
