(* ===== verification/Normalize.v ===== *)
(** [gateway/src/normalize.rs]: turning a raw request into the engine's
    [Action]. Percent-decoding a query or form can panic, hence [comp]; an RPC
    request whose operation cannot be read gets the [UNPARSED] verb. *)

From S2P Require Import Prelude RustStr Codec External Reference Models Policy Service.

(** ** Definitions *)

Definition UNPARSED : string := "__unparsed__".

(** [ProxyRequest] of [gateway/src/core.rs]; the method is its name. *)
Record ProxyRequest `{HttpLib} := mkProxyRequest {
  rq_method : string;
  rq_path : string;
  rq_query : string;
  rq_headers : HeaderMap;
  rq_body : string;
}.

Definition decode_field (s : string) : comp string := from_utf8_lossy <$> percent_decode s.

Definition parse_pair (pair : string) : comp (string * string) :=
  match split_once "=" pair with
  | Some (k, v) => k' ← decode_field k; v' ← decode_field v; Done (k', v')
  | None => k' ← decode_field pair; Done (k', "")
  end.

Definition parse_query (query : string) : comp (list (string * string)) :=
  if sempty query then Done []
  else comp_map parse_pair (List.filter (fun p => negb (sempty p)) (split "&" query)).

Definition verb_for (method : string) : Verb :=
  if (method =s "GET") || (method =s "HEAD") || (method =s "OPTIONS") then Verb_crud Read
  else if method =s "POST" then Verb_crud Create
  else if (method =s "PUT") || (method =s "PATCH") then Verb_crud Update
  else if method =s "DELETE" then Verb_crud Delete
  else Verb_crud Read.

(** The closure [find_action]. *)
Definition find_action (pairs : list (string * string)) : option string :=
  snd <$> List.find (fun kv => kv.1 =s "Action") pairs.

Definition github_collection_kind (collection : string) : string :=
  if collection =s "pulls" then "pull_request"
  else if collection =s "issues" then "issue"
  else if collection =s "contents" then "contents"
  else if collection =s "git" then "git"
  else if collection =s "actions" then "actions"
  else if collection =s "hooks" then "hook"
  else "repo_subresource".

Definition generic_resource (path : string) : Resource :=
  if sempty path then Resource_of "" "root"
  else
    let kind := match split "/" path with k :: _ => k | [] => "other" end in
    Resource_of path kind.

Definition github_resource (path : string) : Resource :=
  if sempty path then Resource_of "" "root"
  else
    let kind :=
      match split "/" path with
      | first :: more =>
          if first =s "repos" then
            match more with
            | [_; _] => "repo"
            | _ :: _ :: collection :: _ => github_collection_kind collection
            | _ => first
            end
          else first
      | [] => "other"
      end in
    Resource_of path kind.

(** [segs.iter().position(|s| *s == "namespaces")]. *)
Fixpoint position (p : string -> bool) (l : list string) : option nat :=
  match l with
  | [] => None
  | x :: l' => if p x then Some 0%nat else S <$> position p l'
  end.

Definition k8s_resource (path : string) : Resource :=
  if sempty path then Resource_of "" "root"
  else
    let segs := split "/" path in
    let kind :=
      match (i ← position (fun s => s =s "namespaces") segs; segs !! (i + 2)%nat) with
      | Some k => k
      | None => match last segs with Some k => k | None => "resource" end
      end in
    Resource_of path kind.

Section Normalize.
Context {J : JsonLib} {H : HttpLib}.

Definition aws_query_action (req : ProxyRequest) : comp Verb :=
  from_body ← match from_utf8 (rq_body req) with
              | Some b => find_action <$> parse_query b
              | None => Done None
              end;
  op ← match from_body with
       | Some v => Done (Some v)
       | None => find_action <$> parse_query (rq_query req)
       end;
  Done match op with
       | Some op => if negb (sempty op) then Verb_action op else Verb_action UNPARSED
       | None => Verb_action UNPARSED
       end.

Definition aws_json_action (req : ProxyRequest) : Verb :=
  match hm_get (rq_headers req) "x-amz-target" ≫= hv_to_str with
  | Some t =>
      if negb (sempty t) then
        Verb_action match last (split "." t) with Some op => op | None => t end
      else Verb_action UNPARSED
  | None => Verb_action UNPARSED
  end.

Definition verb_for_protocol (p : Protocol) (req : ProxyRequest) : comp Verb :=
  match p with
  | Rest => Done (verb_for (rq_method req))
  | AwsQuery => aws_query_action req
  | AwsJson => Done (aws_json_action req)
  end.

(** [map.insert(k, Value::String(v))] for each pair, in order. *)
Definition insert_pairs (pairs : list (string * string)) (m : gmap string value) : gmap string value :=
  fold_left (fun m kv => <[kv.1 := VString kv.2]> m) pairs m.

Definition merge_fields (query body : string) : comp value :=
  q ← parse_query query;
  let m := insert_pairs q ∅ in
  match from_slice body ≫= as_object with
  | Some obj => Done (VObject (obj ∪ m))
  | None =>
      match from_utf8 body with
      | Some text =>
          if has_byte "=" text then
            f ← parse_query text;
            Done (VObject (insert_pairs f m))
          else Done (VObject m)
      | None => Done (VObject m)
      end
  end.

(** One template segment: the field it captures, if it is a capture, and
    whether it takes the rest of the path. *)
Definition template_capture (seg : string) : option (string * bool) :=
  name ← strip_prefix "{" seg ≫= strip_suffix "}";
  match strip_suffix "+" name with
  | Some rest_name => Some (rest_name, true)
  | None => Some (name, false)
  end.

Definition capture_segment (p : list string) (m : gmap string value) (i : nat) (seg : string)
    : gmap string value :=
  match template_capture seg with
  | None => m
  | Some (rest_name, true) =>
      let rest := join "/" (drop i p) in
      if negb (sempty rest) then <[rest_name := VString rest]> m else m
  | Some (name, false) =>
      match p !! i with Some v => <[name := VString v]> m | None => m end
  end.

Fixpoint capture_segments (p : list string) (i : nat) (t : list string) (m : gmap string value)
    : gmap string value :=
  match t with
  | [] => m
  | seg :: t' => capture_segments p (S i) t' (capture_segment p m i seg)
  end.

Definition capture_path_template (template path : string) (fields : value) : value :=
  match as_object fields with
  | None => fields
  | Some m =>
      VObject (capture_segments (split "/" path) 0 (split "/" (trim_start_matches "/" template)) m)
  end.

Definition flavor_resource (f : Flavor) (path : string) : Resource :=
  match f with
  | Github => github_resource path
  | K8s => k8s_resource path
  | Generic => generic_resource path
  end.

Definition normalize (service : Service) (req : ProxyRequest) (decoded_path : string) : comp Action :=
  let path := trim_start_matches "/" decoded_path in
  let resource := flavor_resource (svc_flavor service) path in
  verb ← verb_for_protocol (protocol (svc_extract service)) req;
  fields ← merge_fields (rq_query req) (rq_body req);
  let fields := match path_template (svc_extract service) with
                | Some template => capture_path_template template path fields
                | None => fields
                end in
  Done (with_fields (Action_of (svc_name service) verb resource) fields).
End Normalize.

(** ** Query strings *)

(** A pair as a client encodes it. *)
Definition form_pair (kv : string * string) : string :=
  uri_encode kv.1 true +:+ "=" +:+ uri_encode kv.2 true.

Lemma uri_byte_lacks c s : is_uri_byte c = false -> lacks c (uri_encode s true).
Proof. intros Hc. apply (lacks_sforall is_uri_byte _ _ Hc), uri_encode_bytes. Qed.

Lemma decode_field_encoded s : is_utf8 s = true -> decode_field (uri_encode s true) = Done s.
Proof.
  intros Hs. unfold decode_field. rewrite percent_decode_uri_encode_aux. cbn.
  by rewrite from_utf8_lossy_id.
Qed.

Lemma parse_pair_form kv :
  is_utf8 kv.1 = true -> is_utf8 kv.2 = true -> parse_pair (form_pair kv) = Done kv.
Proof.
  intros Hk Hv. unfold parse_pair, form_pair. hk_str.
  rewrite split_once_app by by apply uri_byte_lacks.
  rewrite !decode_field_encoded by done. by destruct kv.
Qed.

Lemma form_pair_lacks kv : lacks "&" (form_pair kv).
Proof. unfold form_pair. rewrite !lacks_app. split_and!; [by apply uri_byte_lacks|done|by apply uri_byte_lacks]. Qed.

Lemma form_pair_nonempty kv : sempty (form_pair kv) = false.
Proof. unfold form_pair. by destruct (uri_encode kv.1 true). Qed.

Lemma decode_field_total s : cuts s = false -> exists r, decode_field s = Done r.
Proof.
  intros Hs. destruct (percent_decode_total s Hs) as [r Hr]. unfold decode_field. rewrite Hr. by eexists.
Qed.

Lemma comp_map_total {A B} (f : A -> comp B) (l : list A) :
  (forall x, x ∈ l -> exists y, f x = Done y) -> exists ys, comp_map f l = Done ys.
Proof.
  induction l as [|x l IH]; simpl; intros Hf; [by eexists|].
  destruct (Hf x ltac:(set_solver)) as [y ->].
  destruct IH as [ys ->]; [set_solver|]. by eexists.
Qed.

Lemma split_head c s : exists p ps v, split c s = p :: ps /\ s = p +:+ v.
Proof.
  induction s as [|a s (p & ps & v & E & Hp)]; cbn [split]; [by exists "", [], ""|].
  destruct (a =b c); [by exists "", (split c s), (String a s)|]. rewrite E.
  exists (String a p), ps, v. split; [done|]. cbn. by rewrite Hp.
Qed.

Lemma split_infix c s x : x ∈ split c s -> exists u v, s = u +:+ x +:+ v.
Proof.
  revert x. induction s as [|a s IH]; intros x; cbn [split].
  { intros ->%list_elem_of_singleton. by exists "", "". }
  assert (Hcons : x ∈ split c s -> exists u v, String a s = u +:+ x +:+ v).
  { intros (u & v & ->)%IH. by exists (String a u), v. }
  destruct (a =b c); [intros [->|?]%elem_of_cons; [by exists "", (String a s)|auto]|].
  destruct (split_head c s) as (p & ps & v & E & Hp). rewrite E in Hcons |- *.
  intros [->|Hx]%elem_of_cons; [|apply Hcons; by right]. exists "", v. cbn. by rewrite Hp.
Qed.

Lemma cuts_split c s x : cuts s = false -> x ∈ split c s -> cuts x = false.
Proof. intros Hs (u & v & ->)%split_infix. by eapply cuts_infix. Qed.

Lemma cuts_split_once c s h t :
  cuts s = false -> split_once c s = Some (h, t) -> cuts h = false /\ cuts t = false.
Proof.
  intros Hs [-> _]%split_once_some. split.
  - by apply (cuts_infix "" h (String c t)).
  - apply (cuts_infix (h +:+ String c "") t ""). by rewrite sapp_nil_r, sapp_assoc.
Qed.

(** The pieces of a query, as [filter] leaves them. *)
Lemma cuts_pieces s x : cuts s = false -> x ∈ List.filter (fun p => negb (sempty p)) (split "&" s) -> cuts x = false.
Proof.
  intros Hs Hx. apply (cuts_split "&" s); [done|]. apply list_elem_of_In in Hx. apply list_elem_of_In.
  by apply filter_In in Hx as [? _].
Qed.

Lemma parse_query_total q : cuts q = false -> exists r, parse_query q = Done r.
Proof.
  intros Hq. unfold parse_query. destruct (sempty q); [by eexists|].
  apply comp_map_total. intros x Hx. pose proof (cuts_pieces q x Hq Hx) as Hc.
  unfold parse_pair. destruct (split_once "=" x) as [[k v]|] eqn:E.
  - destruct (cuts_split_once _ _ _ _ Hc E) as [Hk Hv].
    destruct (decode_field_total k Hk) as [? ->], (decode_field_total v Hv) as [? ->]. by eexists.
  - destruct (decode_field_total x Hc) as [? ->]. by eexists.
Qed.

(** ** Fields *)

(** The value the last pair with a key gives it. *)
Definition last_value (k : string) (pairs : list (string * string)) : option string :=
  snd <$> last (List.filter (fun kv => kv.1 =s k) pairs).

Section FieldLemmas.
Context {J : JsonLib}.

Lemma insert_pairs_snoc pairs kv m :
  insert_pairs (pairs ++ [kv]) m = <[kv.1 := VString kv.2]> (insert_pairs pairs m).
Proof. unfold insert_pairs. by rewrite fold_left_app. Qed.

Lemma last_value_snoc k pairs kv :
  last_value k (pairs ++ [kv]) = if kv.1 =s k then Some kv.2 else last_value k pairs.
Proof.
  unfold last_value. rewrite List.filter_app. simpl.
  destruct (kv.1 =s k); [by rewrite last_snoc|by rewrite app_nil_r].
Qed.

Lemma insert_pairs_lookup pairs m k :
  insert_pairs pairs m !! k =
  match last_value k pairs with Some v => Some (VString v) | None => m !! k end.
Proof.
  induction pairs as [|kv pairs IH] using rev_ind; [done|].
  rewrite insert_pairs_snoc, last_value_snoc.
  destruct (String.eqb_spec kv.1 k) as [<-|Hne].
  - by rewrite lookup_insert_eq.
  - by rewrite lookup_insert_ne.
Qed.

Lemma capture_segment_other p m i seg name :
  (forall b, template_capture seg <> Some (name, b)) ->
  capture_segment p m i seg !! name = m !! name.
Proof.
  intros Hn. unfold capture_segment. destruct (template_capture seg) as [[n []]|] eqn:E; [| |done].
  - destruct (negb (sempty (join "/" (drop i p)))); [|done].
    rewrite lookup_insert_ne; [done|]. intros ->. by eapply Hn.
  - destruct (p !! i); [|done]. rewrite lookup_insert_ne; [done|]. intros ->. by eapply Hn.
Qed.

Lemma capture_segments_other p i t m name :
  Forall (fun seg => forall b, template_capture seg <> Some (name, b)) t ->
  capture_segments p i t m !! name = m !! name.
Proof.
  intros Ht. revert i m. induction Ht as [|seg t Hseg _ IH]; intros i m; [done|].
  cbn [capture_segments]. by rewrite IH, capture_segment_other.
Qed.

Lemma capture_segments_app p i t1 t2 m :
  capture_segments p i (t1 ++ t2) m =
  capture_segments p (i + length t1) t2 (capture_segments p i t1 m).
Proof.
  revert i m. induction t1 as [|seg t1 IH]; intros i m; simpl; [by rewrite Nat.add_0_r|].
  rewrite IH. f_equal. lia.
Qed.
End FieldLemmas.

(** ** Properties *)

(** A form-encoded string is read back exactly: whatever keys and values a
    client encodes, the pairs a condition sees are the decoded ones, in
    order. *)
Lemma parse_query_roundtrip pairs :
  Forall (fun kv => is_utf8 kv.1 = true /\ is_utf8 kv.2 = true) pairs ->
  parse_query (join "&" (map form_pair pairs)) = Done pairs.
Proof.
  intros Hp. destruct pairs as [|kv pairs]; [done|]. unfold parse_query.
  destruct (sempty (join "&" (map form_pair (kv :: pairs)))) eqn:E.
  { pose proof (form_pair_nonempty kv) as Hk. cbn [map] in E.
    destruct (form_pair kv); [done|]. by destruct (map form_pair pairs). }
  rewrite split_join; [|done|].
  2:{ apply Forall_map, Forall_true. intros x. apply form_pair_lacks. }
  rewrite filter_all_true.
  2:{ apply Forall_map, Forall_true. intros x. simpl. by rewrite form_pair_nonempty. }
  clear E. induction Hp as [|x l [] _ IH]; [done|]. cbn [map comp_map].
  rewrite parse_pair_form by done. cbn. by rewrite IH.
Qed.

Lemma parse_query_roundtrip_witness :
  parse_query "base=a%26b&x%2By=" = Done [("base", "a&b"); ("x+y", "")].
Proof.
  apply (parse_query_roundtrip [("base", "a&b"); ("x+y", "")]).
  repeat constructor; vm_compute; reflexivity.
Defined.

Section Properties.
Context {J : JsonLib} {JL : JsonLaws J} {H : HttpLib}.

(** The body wins. The merged fields are an object in which a JSON
    object body decides each key it has, else a form body's last pair for
    the key, else the query's last pair; nothing else contributes. *)
Lemma merge_fields_precedence query body v k :
  merge_fields query body = Done v ->
  exists m q, as_object v = Some m /\ parse_query query = Done q /\
    let from_query := VString <$> last_value k q in
    match from_slice body ≫= as_object with
    | Some obj => m !! k = match obj !! k with Some w => Some w | None => from_query end
    | None =>
        if is_utf8 body && has_byte "=" body then
          exists f, parse_query body = Done f /\
            m !! k = match last_value k f with Some w => Some (VString w) | None => from_query end
        else m !! k = from_query
    end.
Proof.
  unfold merge_fields. intros (q & Hq & Hv)%comp_bind_done.
  assert (Hlq : insert_pairs q ∅ !! k = VString <$> last_value k q).
  { rewrite insert_pairs_lookup. by destruct (last_value k q). }
  destruct (from_slice body ≫= as_object) as [obj|].
  - hk_inv. do 2 eexists. split; [apply as_object_VObject|]. split; [done|]. cbn zeta.
    rewrite lookup_union, Hlq. destruct (obj !! k), (last_value k q); done.
  - unfold from_utf8 in Hv. destruct (is_utf8 body) eqn:Eu; cbn [andb].
    + destruct (has_byte "=" body).
      * apply comp_bind_done in Hv as (f & Hf & Hv). hk_inv.
        do 2 eexists. split; [apply as_object_VObject|]. split; [done|]. exists f. split; [done|].
        rewrite insert_pairs_lookup. by destruct (last_value k f).
      * hk_inv. do 2 eexists. split; [apply as_object_VObject|]. by split.
    + hk_inv. do 2 eexists. split; [apply as_object_VObject|]. by split.
Qed.

(** What a template segment says, as it is written: [{name}] captures the
    path's segment at its place, [{name+}] what is left of the path there,
    unless nothing is. *)
Inductive captures (p : list string) (i : nat) : string -> string -> string -> Prop :=
| captures_segment name v :
    strip_suffix "+" name = None -> p !! i = Some v -> captures p i ("{" +:+ name +:+ "}") name v
| captures_rest name :
    join "/" (drop i p) <> "" -> captures p i ("{" +:+ name +:+ "+}") name (join "/" (drop i p)).

Lemma template_capture_braces name :
  template_capture ("{" +:+ name +:+ "}") =
    match strip_suffix "+" name with Some rest_name => Some (rest_name, true) | None => Some (name, false) end.
Proof. unfold template_capture. rewrite strip_prefix_app. cbn [mbind option_bind]. by rewrite strip_suffix_app. Qed.

Lemma template_capture_names seg name b :
  template_capture seg = Some (name, b) -> seg = "{" +:+ name +:+ "}" \/ seg = "{" +:+ name +:+ "+}".
Proof.
  unfold template_capture. destruct (strip_prefix "{" seg) as [t|] eqn:E; [|done]. apply strip_prefix_some in E as ->.
  cbn [mbind option_bind]. destruct (strip_suffix "}" t) as [n|] eqn:E; [|done]. apply strip_suffix_app_inv in E as ->.
  cbn [mbind option_bind]. destruct (strip_suffix "+" n) as [r|] eqn:E; intros [= <- <-]; [|by left].
  apply strip_suffix_app_inv in E as ->. right. by rewrite sapp_assoc.
Qed.

Lemma capture_segment_captures p m i seg name v :
  captures p i seg name v -> capture_segment p m i seg !! name = Some (VString v).
Proof.
  unfold capture_segment. intros [n v' Hn Hp|n Hr].
  - rewrite template_capture_braces, Hn, Hp. apply lookup_insert_eq.
  - assert (E : "{" +:+ n +:+ "+}" = "{" +:+ (n +:+ "+") +:+ "}") by by rewrite !sapp_assoc.
    rewrite E, template_capture_braces, strip_suffix_app. cbn zeta.
    destruct (join "/" (drop i p)); [done|]. apply lookup_insert_eq.
Qed.

Lemma merge_fields_object query body v : merge_fields query body = Done v -> exists m, as_object v = Some m.
Proof. intros Hv. destruct (merge_fields_precedence query body v "" Hv) as (m & q & Hm & _). by exists m. Qed.

Lemma lookup_top fs m name v :
  as_object fs = Some m -> m !! name = Some v -> lacks "." name -> lookup fs name = Some v.
Proof. intros Hm Hv Hn. unfold lookup. rewrite split_lacks by done. cbn. by rewrite Hm; cbn; rewrite Hv. Qed.

(** C36: what the path says cannot be forged. Take any request to a service
    with a path template, and the last of the template's segments that
    captures [name], at place [i]: in the action the policy decides on, the
    field [name] is the path's segment [i], or for [{name+}] all of the path
    from there, whatever the query says, and whether the body is a JSON
    object, a form or neither; and that is what a condition on [name] reads. *)
Theorem capture_wins service req decoded_path a template t1 seg t2 name v :
  path_template (svc_extract service) = Some template ->
  split "/" (trim_start_matches "/" template) = t1 ++ seg :: t2 ->
  captures (split "/" (trim_start_matches "/" decoded_path)) (length t1) seg name v ->
  ("{" +:+ name +:+ "}") ∉ t2 -> ("{" +:+ name +:+ "+}") ∉ t2 ->
  normalize service req decoded_path = Done a ->
  (exists m, as_object (fields a) = Some m /\ m !! name = Some (VString v)) /\
  (lacks "." name -> lookup (fields a) name = Some (VString v)).
Proof.
  intros Ht Hs Hc H1 H2 Hn. unfold normalize in Hn. apply comp_bind_done in Hn as (vb & _ & Hn).
  apply comp_bind_done in Hn as (fs & Hf & Hn). rewrite Ht in Hn. injection Hn as <-. cbn [with_fields fields].
  destruct (merge_fields_object _ _ _ Hf) as [m Hm]. unfold capture_path_template. rewrite Hm, Hs, capture_segments_app.
  cbn [capture_segments Nat.add].
  assert (Hv : forall m', capture_segments (split "/" (trim_start_matches "/" decoded_path)) (S (length t1)) t2
      (capture_segment (split "/" (trim_start_matches "/" decoded_path)) m' (length t1) seg) !! name = Some (VString v)).
  { intros m'. rewrite capture_segments_other; [by apply capture_segment_captures|]. apply Forall_forall.
    intros x Hx b [E|E]%template_capture_names; by rewrite E in Hx. }
  split; [eexists; split; [apply as_object_VObject|apply Hv]|].
  intros Hl. eapply lookup_top; [apply as_object_VObject|apply Hv|done].
Qed.

Definition names_verbs (p : Policy) : Prop :=
  Forall (fun r => effect r = Allow -> verbs (matches r) <> [] /\ NamedAction UNPARSED ∉ verbs (matches r))
    (rules p).

Lemma names_verbs_forall p :
  names_verbs p <->
  forall r, r ∈ rules p -> effect r = Allow ->
    verbs (matches r) <> [] /\ NamedAction UNPARSED ∉ verbs (matches r).
Proof. apply Forall_forall. Qed.

Lemma aws_query_unparsed req v :
  aws_query_action req = Done v ->
  (forall pairs, (parse_query (rq_body req) = Done pairs \/ parse_query (rq_query req) = Done pairs) ->
    forall op, find_action pairs = Some op -> op = "") ->
  v = NamedAction UNPARSED.
Proof.
  unfold aws_query_action. intros Hv Hno.
  apply comp_bind_done in Hv as (fb & Hfb & Hv). apply comp_bind_done in Hv as (op & Hop & Hv). hk_inv.
  destruct op as [op|]; [|done]. enough (op = "") as -> by done.
  destruct fb as [b|]; hk_inv.
  - unfold from_utf8 in Hfb. destruct (is_utf8 (rq_body req)); [|done].
    apply comp_fmap_done in Hfb as (pairs & Hp & Hb). by eapply Hno; [left|].
  - apply comp_fmap_done in Hop as (pairs & Hp & Hb). by eapply Hno; [right|].
Qed.

Lemma unparsed_verb svc req pth a :
  normalize svc req pth = Done a ->
  match protocol (svc_extract svc) with
  | Rest => False
  | AwsQuery => forall pairs, (parse_query (rq_body req) = Done pairs \/ parse_query (rq_query req) = Done pairs) ->
      forall op, find_action pairs = Some op -> op = ""
  | AwsJson => forall t, hm_get (rq_headers req) "x-amz-target" ≫= hv_to_str = Some t -> t = ""
  end ->
  verb a = NamedAction UNPARSED.
Proof.
  unfold normalize. intros (v & Hv & (fs & _ & Ha)%comp_bind_done)%comp_bind_done Hno. hk_inv.
  cbn [with_fields Action_of verb]. revert Hv. unfold verb_for_protocol.
  destruct (protocol (svc_extract svc)); [done| |].
  - intros Hv. by eapply aws_query_unparsed.
  - intros [= <-]. unfold aws_json_action. destruct (_ ≫= _) as [t|] eqn:Et; [|done].
    by rewrite (Hno t eq_refl).
Qed.

(** C35: extraction fails closed. A request to an RPC service whose operation
    cannot be read (no non-empty [Action] parameter, or no non-empty
    [X-Amz-Target]) is denied by every policy whose allow rules name their
    verbs. *)
Theorem unparsed_denied svc req pth a policy :
  normalize svc req pth = Done a ->
  match protocol (svc_extract svc) with
  | Rest => False
  | AwsQuery => forall pairs, (parse_query (rq_body req) = Done pairs \/ parse_query (rq_query req) = Done pairs) ->
      forall op, find_action pairs = Some op -> op = ""
  | AwsJson => forall t, hm_get (rq_headers req) "x-amz-target" ≫= hv_to_str = Some t -> t = ""
  end ->
  names_verbs policy ->
  is_allow (decide a policy) = false.
Proof.
  intros Hn Hno Hp. destruct (decide a policy) as [obs|] eqn:Ed; [|done].
  exfalso. apply decide_allow_rule in Ed as (r & Hr & He & Ha).
  rewrite names_verbs_forall in Hp. destruct (Hp r Hr He) as [Hne Hnot].
  destruct Ha as (_ & [?|(v & Hv & ->)] & _); [done|]. apply Hnot.
  enough (Hverb : verb a = NamedAction UNPARSED) by by rewrite <- Hverb.
  by eapply unparsed_verb.
Qed.
End Properties.

(** ** Witnesses *)

#[local] Existing Instance ref_json.
#[local] Existing Instance ref_http.
#[local] Existing Instance ref_json_laws.

Definition ex_object (k v : string) : string :=
  "{" +:+ quote +:+ k +:+ quote +:+ ":" +:+ quote +:+ v +:+ quote +:+ "}".

Definition ex_merged : value :=
  match merge_fields "base=main&title=x" (ex_object "base" "deve%6cop") with
  | Done v => v
  | Panic => VObject ∅
  end.

Lemma merge_fields_precedence_witness :
  exists m q, as_object ex_merged = Some m /\ parse_query "base=main&title=x" = Done q /\
    let from_query := VString <$> last_value "base" q in
    match from_slice (ex_object "base" "deve%6cop") ≫= as_object with
    | Some obj => m !! "base" = match obj !! "base" with Some w => Some w | None => from_query end
    | None =>
        if is_utf8 (ex_object "base" "deve%6cop") && has_byte "=" (ex_object "base" "deve%6cop") then
          exists f, parse_query (ex_object "base" "deve%6cop") = Done f /\
            m !! "base" = match last_value "base" f with Some w => Some (VString w) | None => from_query end
        else m !! "base" = from_query
    end.
Proof. apply merge_fields_precedence. hk_vm. Defined.

(** A request whose query and whose body both claim another bucket. *)
Definition ex_bucket : Service :=
  with_extract (Service_new "s3" "*" "https://s3.example") (mkExtract Rest (Some "/{bucket}/{key+}")).
Definition ex_bucket_request : ProxyRequest :=
  mkProxyRequest _ "PUT" "/data/x/y" "bucket=other" hm_empty (ex_object "bucket" "another").
Definition ex_bucket_action : Action :=
  match normalize ex_bucket ex_bucket_request "/data/x/y" with
  | Done a => a
  | Panic => Action_of "" (Crud Read) (mkResource "" "")
  end.

Lemma capture_wins_witness :
  (exists m, as_object (fields ex_bucket_action) = Some m /\ m !! "bucket" = Some (VString "data")) /\
  (lacks "." "bucket" -> lookup (fields ex_bucket_action) "bucket" = Some (VString "data")).
Proof.
  apply (capture_wins ex_bucket ex_bucket_request "/data/x/y" ex_bucket_action "/{bucket}/{key+}" [] "{bucket}" ["{key+}"]).
  - exact eq_refl.
  - exact eq_refl.
  - exact (captures_segment ["data"; "x"; "y"] 0 "bucket" "data" eq_refl eq_refl).
  - intros [[=]|[]%elem_of_nil]%elem_of_cons.
  - intros [[=]|[]%elem_of_nil]%elem_of_cons.
  - hk_vm.
Defined.

Definition ex_aws : Service :=
  with_extract (Service_new "aws" "*" "https://aws.example") (mkExtract AwsQuery None).
Definition ex_aws_request : ProxyRequest := mkProxyRequest _ "POST" "/" "" hm_empty "Version=2016-11-15".
Definition ex_aws_action : Action :=
  match normalize ex_aws ex_aws_request "/" with
  | Done a => a
  | Panic => Action_of "" (Crud Read) (mkResource "" "")
  end.
Definition ex_aws_policy (vs : list Verb) : Policy :=
  mkPolicy [mkRule Allow (mkMatch ["aws"] vs [] [])].

Lemma unparsed_denied_witness :
  is_allow (decide ex_aws_action (ex_aws_policy [NamedAction "DescribeInstances"])) = false.
Proof.
  apply (unparsed_denied ex_aws ex_aws_request "/" ex_aws_action).
  - hk_vm.
  - intros pairs [[= <-]|[= <-]] op; discriminate.
  - repeat constructor; [discriminate|]. intros [[=]|[]%elem_of_nil]%elem_of_cons.
Defined.

(** An allow rule that names no verb does fire on an unreadable operation. *)
Lemma unparsed_allowed_without_verbs :
  is_allow (decide ex_aws_action (ex_aws_policy [])) = true.
Proof. hk_vm. Qed.
