(* ===== verification/Control.v ===== *)
(** The control plane, [control/src/]: the launch-token table ([tokens.rs]),
    the tenant registry ([tenants.rs]), the credential vault's interface and
    its static implementation ([credentials.rs]), the audit sink's interface
    and its in-memory implementation ([audit.rs]), and their assembly
    ([lib.rs]). Each method takes one lock once, so it is one atomic step on
    its table; clock readings and random UUIDs are arguments. *)

From S2P Require Import Prelude RustStr External Reference Models.

(** ** Tokens *)

Section TokenData.
Context {J : JsonLib}.

Record Entry := mkEntry {
  e_policy : Policy;
  e_expires_at_ms : Z;
  e_secret : option string;
}.

Record SigV4Mint := mkSigV4Mint {
  sm_access_key_id : string;
  sm_secret_access_key : string;
  sm_expires_at_ms : Z;
}.

End TokenData.

(** The [HashMap] behind the lock of [Tokens]. *)
Notation Tokens := (gmap string Entry).

Section Tokens.
Context {J : JsonLib}.

Definition expiry (ttl_seconds now_ms : Z) : Z :=
  u64_saturating_add now_ms (u64_saturating_mul ttl_seconds 1000).

(** [u1] and [u2] are the two fresh UUIDs, in their simple form. *)
Definition tokens_mint (u1 u2 : string) (policy : Policy) (ttl_seconds now_ms : Z) (ts : Tokens)
    : MintResponse * Tokens :=
  let token := u1 +:+ u2 in
  let expires_at_ms := expiry ttl_seconds now_ms in
  (mkMintResponse token expires_at_ms, <[token := mkEntry policy expires_at_ms None]> ts).

Definition dummy_access_key_id (u0 : string) : string :=
  to_ascii_uppercase ("AKIAHACKAMORE" +:+ String.substring 0 10 u0).

Definition tokens_mint_sigv4 (u0 u1 u2 : string) (policy : Policy) (ttl_seconds now_ms : Z)
    (ts : Tokens) : SigV4Mint * Tokens :=
  let access_key_id := dummy_access_key_id u0 in
  let secret_access_key := u1 +:+ u2 in
  let expires_at_ms := expiry ttl_seconds now_ms in
  (mkSigV4Mint access_key_id secret_access_key expires_at_ms,
   <[access_key_id := mkEntry policy expires_at_ms (Some secret_access_key)]> ts).

Definition tokens_resolve_sigv4 (access_key_id : string) (now_ms : Z) (ts : Tokens)
    : option (Policy * string) :=
  entry ← ts !! access_key_id;
  if (e_expires_at_ms entry <=? now_ms)%Z then None
  else secret ← e_secret entry; Some (e_policy entry, secret).

Definition tokens_resolve_full (token : string) (now_ms : Z) (ts : Tokens) : option (Policy * Z) :=
  entry ← ts !! token;
  if (e_expires_at_ms entry <=? now_ms)%Z then None
  else Some (e_policy entry, e_expires_at_ms entry).

Definition tokens_resolve (token : string) (now_ms : Z) (ts : Tokens) : option Policy :=
  fst <$> tokens_resolve_full token now_ms ts.

Definition tokens_revoke (token : string) (ts : Tokens) : bool * Tokens :=
  (bool_decide (is_Some (ts !! token)), delete token ts).

Definition tokens_sweep (now_ms : Z) (ts : Tokens) : nat * Tokens :=
  let kept := filter (fun ke : string * Entry => (now_ms < e_expires_at_ms ke.2)%Z) ts in
  ((size ts - size kept)%nat, kept).

Definition tokens_len (ts : Tokens) : nat := size ts.
Definition tokens_is_empty (ts : Tokens) : bool := bool_decide (ts = ∅).
End Tokens.

(** ** Tenants *)

Notation Tenants := (gmap string (gset string)).

Definition tenants_insert (key : string) (targets : list string) (t : Tenants) : Tenants :=
  <[key := list_to_set targets]> t.
Definition tenants_is_empty (t : Tenants) : bool := bool_decide (t = ∅).
Definition tenants_owned (key : string) (t : Tenants) : option (gset string) := t !! key.

(** ** Credentials *)

Record Secret := mkSecret { expose : string }.

(** [impl Debug for Secret]. *)
Definition show_Secret (s : Secret) : string := "Secret(***)".

(** The trait: a store resolves credential ids to secrets. *)
Class CredentialStore (S : Type) := cred_resolve : S -> string -> option Secret.

Record InMemoryCredentials := mkInMemoryCredentials { secrets : gmap string Secret }.

Definition creds_insert (id : string) (secret : Secret) (c : InMemoryCredentials) : InMemoryCredentials :=
  mkInMemoryCredentials (<[id := secret]> (secrets c)).

#[export] Instance in_memory_store : CredentialStore InMemoryCredentials :=
  fun c id => secrets c !! id.

(** ** Audit *)

(** The trait: a sink receives one event per decision. *)
Class AuditSink {J : JsonLib} (S : Type) := audit_record : AuditEvent -> S -> S.

(** A sink whose events can be read back, oldest first. *)
Class AuditLog {J : JsonLib} (S : Type) `{!AuditSink S} := {
  audit_events : S -> list AuditEvent;
  audit_events_record e s : audit_events (audit_record e s) = audit_events s ++ [e];
}.

Section Audit.
Context {J : JsonLib}.

Record InMemoryAudit := mkInMemoryAudit { events : list AuditEvent }.

#[export] Instance in_memory_sink : AuditSink InMemoryAudit :=
  fun e s => mkInMemoryAudit (events s ++ [e]).

#[export, program] Instance in_memory_log : AuditLog InMemoryAudit := { audit_events := events }.
Next Obligation. done. Qed.
End Audit.

(** ** The assembled control plane *)

Section ControlPlane.
Context {J : JsonLib} {C A : Type}.

Record ControlPlane := mkControlPlane {
  cp_tokens : Tokens;
  cp_tenants : Tenants;
  cp_credentials : C;
  cp_audit : A;
}.

Definition ControlPlane_new (credentials : C) (audit : A) : ControlPlane :=
  mkControlPlane ∅ ∅ credentials audit.

Definition set_tokens (ts : Tokens) (cp : ControlPlane) : ControlPlane :=
  mkControlPlane ts (cp_tenants cp) (cp_credentials cp) (cp_audit cp).
Definition set_audit (a : A) (cp : ControlPlane) : ControlPlane :=
  mkControlPlane (cp_tokens cp) (cp_tenants cp) (cp_credentials cp) a.
End ControlPlane.
Arguments ControlPlane {J} C A.

(** ** The history of a token table *)

Section TokenHistory.
Context {J : JsonLib}.

(** The operations that change the table. *)
Inductive token_op :=
| OpMint (u1 u2 : string) (policy : Policy) (ttl_seconds now_ms : Z)
| OpMintSigV4 (u0 u1 u2 : string) (policy : Policy) (ttl_seconds now_ms : Z)
| OpRevoke (token : string)
| OpSweep (now_ms : Z).

Definition apply_op (ts : Tokens) (op : token_op) : Tokens :=
  match op with
  | OpMint u1 u2 p ttl now => (tokens_mint u1 u2 p ttl now ts).2
  | OpMintSigV4 u0 u1 u2 p ttl now => (tokens_mint_sigv4 u0 u1 u2 p ttl now ts).2
  | OpRevoke t => (tokens_revoke t ts).2
  | OpSweep now => (tokens_sweep now ts).2
  end.

Definition run_ops (ops : list token_op) : Tokens := fold_left apply_op ops ∅.

(** What a history grants a key: its latest mint, unless revoked since. A
    sweep grants and takes nothing. *)
Fixpoint granted (rev_ops : list token_op) (key : string) : option Entry :=
  match rev_ops with
  | [] => None
  | OpMint u1 u2 p ttl now :: ops =>
      if u1 +:+ u2 =s key then Some (mkEntry p (expiry ttl now) None) else granted ops key
  | OpMintSigV4 u0 u1 u2 p ttl now :: ops =>
      if dummy_access_key_id u0 =s key then Some (mkEntry p (expiry ttl now) (Some (u1 +:+ u2)))
      else granted ops key
  | OpRevoke t :: ops => if t =s key then None else granted ops key
  | OpSweep _ :: ops => granted ops key
  end.

(** An entry, as far as it is still alive. *)
Definition alive (now_ms : Z) (e : Entry) : option Entry :=
  if (e_expires_at_ms e <=? now_ms)%Z then None else Some e.

Definition swept_by (now_ms : Z) (op : token_op) : Prop :=
  match op with OpSweep t => (t <= now_ms)%Z | _ => True end.

(** ** Observational equality *)

(** No lookup at [now_ms] or later tells the tables apart. *)
Definition obs_eq (now_ms : Z) (ts1 ts2 : Tokens) : Prop :=
  forall key t, (now_ms <= t)%Z -> ts1 !! key ≫= alive t = ts2 !! key ≫= alive t.

#[export] Instance obs_eq_equiv now_ms : Equivalence (obs_eq now_ms).
Proof.
  split.
  - intros ts key t Ht. done.
  - intros ts1 ts2 E key t Ht. symmetry. auto.
  - intros ts1 ts2 ts3 E1 E2 key t Ht. by rewrite E1, E2.
Qed.

Lemma alive_later t1 t2 e : (t1 <= t2)%Z -> alive t1 e = None -> alive t2 e = None.
Proof.
  unfold alive. intros Hle. destruct (Z.leb_spec (e_expires_at_ms e) t1); [|done].
  destruct (Z.leb_spec (e_expires_at_ms e) t2); [done|lia].
Qed.

#[export] Instance insert_obs_eq now_ms :
  Proper ((=) ==> (=) ==> obs_eq now_ms ==> obs_eq now_ms)
    (fun (k : string) (e : Entry) (ts : Tokens) => <[k := e]> ts).
Proof.
  intros k ? <- e ? <- ts1 ts2 E key t Ht. cbv beta. destruct (decide (k = key)) as [->|Hne].
  - by rewrite !lookup_insert_eq.
  - rewrite !lookup_insert_ne by done. by apply E.
Qed.

#[export] Instance delete_obs_eq now_ms :
  Proper ((=) ==> obs_eq now_ms ==> obs_eq now_ms) (fun (k : string) (ts : Tokens) => delete k ts).
Proof.
  intros k ? <- ts1 ts2 E key t Ht. cbv beta. destruct (decide (k = key)) as [->|Hne].
  - by rewrite !lookup_delete_eq.
  - rewrite !lookup_delete_ne by done. by apply E.
Qed.

Lemma tokens_resolve_full_alive token now_ms ts :
  tokens_resolve_full token now_ms ts =
  (fun e => (e_policy e, e_expires_at_ms e)) <$> (ts !! token ≫= alive now_ms).
Proof.
  unfold tokens_resolve_full, alive. destruct (ts !! token) as [e|]; simpl; [|done].
  by destruct (e_expires_at_ms e <=? now_ms)%Z.
Qed.

Lemma tokens_resolve_alive token now_ms ts :
  tokens_resolve token now_ms ts = e_policy <$> (ts !! token ≫= alive now_ms).
Proof.
  unfold tokens_resolve. rewrite tokens_resolve_full_alive. by destruct (ts !! token ≫= alive now_ms).
Qed.

Lemma tokens_resolve_sigv4_alive akid now_ms ts :
  tokens_resolve_sigv4 akid now_ms ts =
  (e ← ts !! akid ≫= alive now_ms; s ← e_secret e; Some (e_policy e, s)).
Proof.
  unfold tokens_resolve_sigv4, alive. destruct (ts !! akid) as [e|]; simpl; [|done].
  by destruct (e_expires_at_ms e <=? now_ms)%Z.
Qed.

(** Every lookup the program makes respects the equivalence. *)
#[export] Instance resolve_obs_eq now_ms :
  Proper ((=) ==> obs_eq now_ms ==> (=)) (fun token ts => tokens_resolve_full token now_ms ts).
Proof. intros token ? <- ts1 ts2 E. rewrite !tokens_resolve_full_alive, E; [done|lia]. Qed.

#[export] Instance resolve_sigv4_obs_eq now_ms :
  Proper ((=) ==> obs_eq now_ms ==> (=)) (fun akid ts => tokens_resolve_sigv4 akid now_ms ts).
Proof. intros akid ? <- ts1 ts2 E. rewrite !tokens_resolve_sigv4_alive, E; [done|lia]. Qed.

Lemma sweep_lookup now_ms ts key :
  (tokens_sweep now_ms ts).2 !! key = ts !! key ≫= alive now_ms.
Proof.
  cbn [tokens_sweep snd]. rewrite map_lookup_filter. destruct (ts !! key) as [e|]; simpl; [|done].
  unfold alive. destruct (Z.leb_spec (e_expires_at_ms e) now_ms).
  - rewrite option_guard_False; [done|lia].
  - rewrite option_guard_True; [done|lia].
Qed.

Lemma alive_alive t1 t2 (o : option Entry) :
  (t1 <= t2)%Z -> (o ≫= alive t1) ≫= alive t2 = o ≫= alive t2.
Proof.
  intros Hle. destruct o as [e|]; simpl; [|done]. destruct (alive t1 e) as [e'|] eqn:E.
  - unfold alive in E. destruct (_ <=? _)%Z in E; [done|]. by injection E as <-.
  - simpl. by rewrite (alive_later t1).
Qed.

Lemma sweep_obs_eq now_ms ts : obs_eq now_ms (tokens_sweep now_ms ts).2 ts.
Proof. intros key t Ht. rewrite sweep_lookup. by apply alive_alive. Qed.

Lemma run_ops_snoc ops op : run_ops (ops ++ [op]) = apply_op (run_ops ops) op.
Proof. unfold run_ops. by rewrite fold_left_app. Qed.

Lemma run_ops_granted ops now_ms key :
  Forall (swept_by now_ms) ops ->
  run_ops ops !! key ≫= alive now_ms = granted (rev ops) key ≫= alive now_ms.
Proof.
  induction ops as [|op ops IH] using rev_ind.
  { intros _. unfold run_ops. cbn [fold_left rev granted]. rewrite lookup_empty. done. }
  intros [Hops Hop]%Forall_app. rewrite Forall_singleton in Hop.
  rewrite run_ops_snoc, rev_app_distr. cbn [rev app]. specialize (IH Hops).
  destruct op as [u1 u2 p ttl t|u0 u1 u2 p ttl t|k|t]; cbn [apply_op granted tokens_mint tokens_mint_sigv4 tokens_revoke snd].
  - destruct (String.eqb_spec (u1 +:+ u2) key) as [<-|Hne].
    + by rewrite lookup_insert_eq.
    + by rewrite lookup_insert_ne.
  - destruct (String.eqb_spec (dummy_access_key_id u0) key) as [<-|Hne].
    + by rewrite lookup_insert_eq.
    + by rewrite lookup_insert_ne.
  - destruct (String.eqb_spec k key) as [<-|Hne].
    + by rewrite lookup_delete_eq.
    + by rewrite lookup_delete_ne.
  - rewrite sweep_lookup, alive_alive by exact Hop. exact IH.
Qed.
End TokenHistory.

(** ** Properties *)

Section Properties.
Context {J : JsonLib}.

(** C15: the token table refines its history. After any sequence of mints,
    revocations and sweeps, the last sweep no later than now, resolving a
    key yields what its latest unrevoked mint granted, until that grant's
    expiry and not at it: sweeping is invisible. *)
Theorem tokens_refine_history ops now_ms key :
  Forall (swept_by now_ms) ops ->
  tokens_resolve_full key now_ms (run_ops ops) =
    (e ← granted (rev ops) key;
     if (e_expires_at_ms e <=? now_ms)%Z then None else Some (e_policy e, e_expires_at_ms e)) /\
  tokens_resolve_sigv4 key now_ms (run_ops ops) =
    (e ← granted (rev ops) key;
     if (e_expires_at_ms e <=? now_ms)%Z then None
     else s ← e_secret e; Some (e_policy e, s)).
Proof.
  intros Hs. rewrite tokens_resolve_full_alive, tokens_resolve_sigv4_alive, run_ops_granted by done.
  unfold alive. destruct (granted (rev ops) key) as [e|]; simpl; [|done].
  by destruct (e_expires_at_ms e <=? now_ms)%Z.
Qed.

(** A minted token is good exactly for its time to live: it resolves to
    the submitted policy before its expiry and to nothing from then on, it
    is never a SigV4 credential, and no other key is affected. Expiry
    saturates, so no time to live wraps into the past. *)
Lemma mint_resolves u1 u2 p ttl now ts key t :
  is_u64 ttl -> is_u64 now ->
  let '(r, ts') := tokens_mint u1 u2 p ttl now ts in
  (now <= mr_expires_at_ms r <= U64_MAX)%Z /\
  tokens_resolve (mr_token r) t ts' = (if (mr_expires_at_ms r <=? t)%Z then None else Some p) /\
  tokens_resolve_sigv4 (mr_token r) t ts' = None /\
  (key <> mr_token r -> tokens_resolve key t ts' = tokens_resolve key t ts).
Proof.
  intros Httl Hnow. unfold tokens_mint. cbn [mr_token mr_expires_at_ms].
  rewrite !tokens_resolve_alive, tokens_resolve_sigv4_alive, lookup_insert_eq. cbn.
  split_and!.
  - unfold is_u64, expiry, u64_saturating_add, u64_saturating_mul in *. lia.
  - unfold expiry, u64_saturating_add, u64_saturating_mul. lia.
  - unfold alive. cbn. by destruct (_ <=? t)%Z.
  - unfold alive. cbn. by destruct (_ <=? t)%Z.
  - intros Hne. by rewrite lookup_insert_ne.
Qed.

(** Sweeping removes exactly the expired entries and reports how many;
    no lookup at that time or later can tell that it ran. *)
Lemma sweep_sound now_ms ts :
  let '(n, ts') := tokens_sweep now_ms ts in
  (n + tokens_len ts')%nat = tokens_len ts /\
  (forall key e, ts' !! key = Some e <-> ts !! key = Some e /\ (now_ms < e_expires_at_ms e)%Z) /\
  obs_eq now_ms ts' ts.
Proof.
  pose proof (sweep_obs_eq now_ms ts) as Ho. unfold tokens_sweep in *. cbn [snd] in Ho.
  set (kept := filter _ ts) in *. split_and!; [| |done].
  - unfold tokens_len. assert (size kept <= size ts)%nat; [|lia].
    apply map_subseteq_size, map_filter_subseteq.
  - intros key e. apply map_lookup_filter_Some.
Qed.

(** Revocation is immediate and final: the token resolves to nothing at
    any time, the answer says whether it was there, and every other key is
    as before. *)
Lemma revoke_sound token ts key t :
  let '(removed, ts') := tokens_revoke token ts in
  tokens_resolve token t ts' = None /\ tokens_resolve_sigv4 token t ts' = None /\
  (removed = true <-> is_Some (ts !! token)) /\
  (key <> token -> ts' !! key = ts !! key).
Proof.
  unfold tokens_revoke. rewrite tokens_resolve_alive, tokens_resolve_sigv4_alive, lookup_delete_eq.
  split_and!; [done..|by rewrite bool_decide_eq_true|]. intros. by rewrite lookup_delete_ne.
Qed.

(** A dummy access key id, which a request's [Authorization] header shows
    in the clear, is by itself a bearer token: [resolve] does not look at
    the entry's secret, so the id alone yields the bound policy for the
    credential's whole lifetime. *)
Lemma access_key_id_is_bearer u0 u1 u2 p ttl now ts t :
  let '(m, ts') := tokens_mint_sigv4 u0 u1 u2 p ttl now ts in
  tokens_resolve_sigv4 (sm_access_key_id m) t ts' =
    (if (sm_expires_at_ms m <=? t)%Z then None else Some (p, sm_secret_access_key m)) /\
  tokens_resolve (sm_access_key_id m) t ts' =
    (if (sm_expires_at_ms m <=? t)%Z then None else Some p).
Proof.
  unfold tokens_mint_sigv4. cbn [sm_access_key_id sm_expires_at_ms sm_secret_access_key].
  rewrite tokens_resolve_alive, tokens_resolve_sigv4_alive, lookup_insert_eq.
  unfold alive. cbn. by destruct (_ <=? t)%Z.
Qed.
End Properties.

(** ** Witnesses *)

#[local] Existing Instance ref_json.

Definition ex_history : list token_op :=
  [OpMint "a" "b" (mkPolicy []) 60 1000; OpMint "c" "d" (mkPolicy []) 1 1000; OpSweep 50000; OpRevoke "cd"].

Lemma tokens_refine_history_witness :
  tokens_resolve_full "ab" 50000 (run_ops ex_history) =
    (e ← granted (rev ex_history) "ab";
     if (e_expires_at_ms e <=? 50000)%Z then None else Some (e_policy e, e_expires_at_ms e)) /\
  tokens_resolve_sigv4 "ab" 50000 (run_ops ex_history) =
    (e ← granted (rev ex_history) "ab";
     if (e_expires_at_ms e <=? 50000)%Z then None else s ← e_secret e; Some (e_policy e, s)).
Proof. apply tokens_refine_history. repeat constructor; simpl; lia. Defined.

Lemma mint_resolves_witness :
  let '(r, ts') := tokens_mint "u" "v" (mkPolicy []) U64_MAX 5 ∅ in
  (5 <= mr_expires_at_ms r <= U64_MAX)%Z /\
  tokens_resolve (mr_token r) 7 ts' = (if (mr_expires_at_ms r <=? 7)%Z then None else Some (mkPolicy [])) /\
  tokens_resolve_sigv4 (mr_token r) 7 ts' = None /\
  ("k" <> mr_token r -> tokens_resolve "k" 7 ts' = tokens_resolve "k" 7 ∅).
Proof. apply (mint_resolves "u" "v" (mkPolicy []) U64_MAX 5 ∅ "k" 7); unfold is_u64, U64_MAX; lia. Defined.
