(* ===== verification/Gateway.v ===== *)
(** [gateway/src/core.rs]: authenticate, route, canonicalise, decide, and plan
    the upstream request; mint, revoke, sweep and provision tokens. Each
    method is a computation over the [World] the process shares: the control
    plane, and the count of UUIDs drawn. The clock is read once per call of a
    method that uses it, so its reading is the argument [now]. *)

From S2P Require Import Prelude RustStr Codec Canonicalize Datetime External Reference Models Policy.
From S2P Require Import SigV4 Service Normalize Control.

(** ** Data *)

Inductive AuthSource := HackamoreHeader | Authorization | SigV4Source.

#[export] Instance AuthSource_eq_dec : EqDecision AuthSource.
Proof. solve_decision. Defined.

Inductive MintError :=
| MissingTenant
| UnknownTenant
| TargetNotOwned (t : string)
| TenantWildcardTarget
| UnknownAction (target action : string).

#[export] Instance MintError_eq_dec : EqDecision MintError.
Proof. solve_decision. Defined.

(** [impl Display for MintError]. *)
Definition show_MintError (e : MintError) : string :=
  match e with
  | MissingTenant => "missing tenant credential"
  | UnknownTenant => "unknown tenant credential"
  | TargetNotOwned t => "target '" +:+ t +:+ "' is not owned by this tenant"
  | TenantWildcardTarget => "tenant allow rules must name explicit targets"
  | UnknownAction target action =>
      "action '" +:+ action +:+ "' is not in the catalog for target '" +:+ target +:+ "'"
  end.

Record Rejection := mkRejection {
  rj_status : Z;
  rj_reason : DenyReason;
  rj_message : string;
}.

Definition UNAUTHORIZED : Z := 401.
Definition NOT_FOUND : Z := 404.
Definition BAD_REQUEST : Z := 400.
Definition FORBIDDEN : Z := 403.
Definition BAD_GATEWAY : Z := 502.

Definition HACKAMORE_TOKEN_HEADER : string := "x-hackamore-token".

Definition HOP_BY_HOP : list string :=
  ["connection"; "keep-alive"; "proxy-authenticate"; "proxy-authorization"; "te"; "trailers";
   "transfer-encoding"; "upgrade"].

(** ** Pure helpers *)

Definition is_dropped_header (name : string) (source : AuthSource) : bool :=
  let n := to_ascii_lowercase name in
  if (n =s HACKAMORE_TOKEN_HEADER) || (n =s "host") || (n =s "content-length") then true
  else if n =s "authorization" then bool_decide (source <> HackamoreHeader)
  else if bool_decide (source = SigV4Source) && ((n =s "x-amz-date") || (n =s "x-amz-content-sha256")) then true
  else existsb (fun h => h =s n) HOP_BY_HOP.

Definition host_of (base : string) : string :=
  let no_scheme := match split_once_str "://" base with Some (_, r) => r | None => base end in
  match split "/" no_scheme with h :: _ => h | [] => no_scheme end.

Definition upstream_url (base path query : string) : string :=
  let base := trim_end_matches "/" base in
  if sempty query then base +:+ path else base +:+ path +:+ "?" +:+ query.

Section Mint.
Context {J : JsonLib}.

(** The inner loop of [validate_tenant_policy]. *)
Fixpoint check_owned (owned : gset string) (targets : list string) : result unit MintError :=
  match targets with
  | [] => Ok tt
  | t :: ts => if negb (bool_decide (t ∈ owned)) then Err (TargetNotOwned t) else check_owned owned ts
  end.

Fixpoint validate_tenant_rules (rules : list Rule) (owned : gset string) : result unit MintError :=
  match rules with
  | [] => Ok tt
  | rule :: rules' =>
      if bool_decide (effect rule <> Allow) then validate_tenant_rules rules' owned
      else if bool_decide (targets (matches rule) = []) then Err TenantWildcardTarget
      else match check_owned owned (targets (matches rule)) with
           | Err e => Err e
           | Ok _ => validate_tenant_rules rules' owned
           end
  end.

Definition validate_tenant_policy (policy : Policy) (owned : gset string) : result unit MintError :=
  validate_tenant_rules (rules policy) owned.

(** The check of one named action against one rule's targets. *)
Fixpoint check_targets (catalogs : gmap string Catalog) (id : string) (targets : list string)
    : result unit MintError :=
  match targets with
  | [] => Ok tt
  | target :: ts =>
      match catalogs !! target with
      | None => check_targets catalogs id ts
      | Some catalog =>
          if negb (Catalog_is_empty catalog) && negb (Catalog_knows catalog id)
          then Err (UnknownAction target id)
          else check_targets catalogs id ts
      end
  end.

Definition nonempty_catalogs (catalogs : gmap string Catalog) : list Catalog :=
  List.filter (fun c => negb (Catalog_is_empty c)) (map snd (map_to_list catalogs)).

Fixpoint check_verbs (catalogs : gmap string Catalog) (targets : list string) (verbs : list Verb)
    : result unit MintError :=
  match verbs with
  | [] => Ok tt
  | Crud _ :: vs => check_verbs catalogs targets vs
  | NamedAction id :: vs =>
      match
        if bool_decide (targets = []) then
          if negb (bool_decide (nonempty_catalogs catalogs = []))
             && negb (existsb (fun c => Catalog_knows c id) (nonempty_catalogs catalogs))
          then Err (UnknownAction "*" id)
          else Ok tt
        else check_targets catalogs id targets
      with
      | Err e => Err e
      | Ok _ => check_verbs catalogs targets vs
      end
  end.

Fixpoint validate_catalog_rules (catalogs : gmap string Catalog) (rules : list Rule)
    : result unit MintError :=
  match rules with
  | [] => Ok tt
  | rule :: rules' =>
      if bool_decide (effect rule <> Allow) then validate_catalog_rules catalogs rules'
      else match check_verbs catalogs (targets (matches rule)) (verbs (matches rule)) with
           | Err e => Err e
           | Ok _ => validate_catalog_rules catalogs rules'
           end
  end.

(** What [provisionable_services] collects over the allow rules: whether
    one has no targets, and the named ones. *)
Definition any_target (policy : Policy) : bool :=
  existsb (fun r => bool_decide (effect r = Allow) && bool_decide (targets (matches r) = [])) (rules policy).
Definition named_targets (policy : Policy) : list string :=
  flat_map (fun r => if bool_decide (effect r = Allow) then targets (matches r) else []) (rules policy).
Definition provisioned (policy : Policy) (s : Service) : bool :=
  any_target policy || bool_decide (svc_name s ∈ named_targets policy).
End Mint.

Section Gateway.
Context {J : JsonLib} {H : HttpLib} {R : RingLib} {U : UuidLib}.
Context {C A : Type} `{!CredentialStore C} `{!AuditSink A}.

Record ForwardPlan := mkForwardPlan {
  fp_url : string;
  fp_method : string;
  fp_headers : HeaderMap;
  fp_body : string;
}.

Inductive Outcome :=
| Forward (plan : ForwardPlan)
| Reject (rejection : Rejection).

Definition reject (status : Z) (reason : DenyReason) (message : string) : Outcome :=
  Reject (mkRejection status reason message).

(** The configuration a [Gateway] is built with. *)
Record Gateway := mkGateway {
  router : ServiceRouter;
  catalogs : gmap string Catalog;
  hackamore_ca_pem : string;
}.

Definition Gateway_new (r : ServiceRouter) : Gateway := mkGateway r ∅ "".
Definition with_catalogs (g : Gateway) (c : gmap string Catalog) : Gateway :=
  mkGateway (router g) c (hackamore_ca_pem g).
Definition with_ca (g : Gateway) (ca : string) : Gateway := mkGateway (router g) (catalogs g) ca.

(** ** The shared state *)

Record World := mkWorld {
  w_control : ControlPlane C A;
  w_uuids : nat;
}.

Definition world_tokens (w : World) : Tokens := cp_tokens (w_control w).

(** A call to [Uuid::new_v4().simple()]. *)
Definition fresh_uuid : eff World string :=
  fun w => (Done (uuid_simple (w_uuids w)), mkWorld (w_control w) (S (w_uuids w))).

Definition get_control : eff World (ControlPlane C A) := fun w => (Done (w_control w), w).

(** Run an operation on the token table. *)
Definition on_tokens {T} (f : Tokens -> T * Tokens) : eff World T :=
  fun w => let '(r, ts) := f (world_tokens w) in
           (Done r, mkWorld (set_tokens ts (w_control w)) (w_uuids w)).

Definition record (e : AuditEvent) : eff World unit :=
  fun w => (Done tt, mkWorld (set_audit (audit_record e (cp_audit (w_control w))) (w_control w)) (w_uuids w)).

Definition audit (action : Action) (decision : Decision) (detail : string) (now : Z) : eff World unit :=
  record (mkAuditEvent now action decision detail).

Definition unrouted (host : string) : Action :=
  Action_of "<unrouted>" (Verb_crud Read) (Resource_of host "host").

Definition audit_raw (host : string) (decision : Decision) (detail : string) (now : Z) : eff World unit :=
  audit (unrouted host) decision detail now.

(** ** Minting *)

Definition mint (policy : Policy) (ttl_seconds now : Z) : eff World MintResponse :=
  u1 ← fresh_uuid; u2 ← fresh_uuid; on_tokens (tokens_mint u1 u2 policy ttl_seconds now).

Definition validate_catalog (g : Gateway) (policy : Policy) : result unit MintError :=
  validate_catalog_rules (catalogs g) (rules policy).

(** The tenant gate of [mint_checked]. *)
Definition authorize_mint (tenants : Tenants) (policy : Policy) (tenant : option string)
    : result unit MintError :=
  if tenants_is_empty tenants then Ok tt
  else match tenant with
       | None => Err MissingTenant
       | Some key =>
           match tenants_owned key tenants with
           | None => Err UnknownTenant
           | Some owned => validate_tenant_policy policy owned
           end
       end.

Definition mint_checked (g : Gateway) (policy : Policy) (ttl_seconds : Z) (tenant : option string) (now : Z)
    : eff World (result MintResponse MintError) :=
  cp ← get_control;
  match authorize_mint (cp_tenants cp) policy tenant with
  | Err e => mret (Err e)
  | Ok _ =>
      match validate_catalog g policy with
      | Err e => mret (Err e)
      | Ok _ => r ← mint policy ttl_seconds now; mret (Ok r)
      end
  end.

Definition revoke (token : string) : eff World bool := on_tokens (tokens_revoke token).
Definition sweep_expired (now : Z) : eff World nat := on_tokens (tokens_sweep now).

(** ** Provisioning *)

Definition mint_service_auth (service : Service) (token : string) (policy : Policy) (now ttl_remaining : Z)
    : eff World (ProvisionMode * ProvisionAuth) :=
  match svc_outbound service with
  | SigV4 _ _ region _ =>
      u0 ← fresh_uuid; u1 ← fresh_uuid; u2 ← fresh_uuid;
      dummy ← on_tokens (tokens_mint_sigv4 u0 u1 u2 policy ttl_remaining now);
      mret (Inject, SigV4Auth (sm_access_key_id dummy) (sm_secret_access_key dummy) region)
  | Service.Passthrough => mret (Models.Passthrough, BearerAuth token)
  | Bearer _ | Header _ _ => mret (Inject, BearerAuth token)
  end.

Fixpoint provision_services (services : list Service) (token : string) (policy : Policy)
    (now ttl_remaining : Z) : eff World (list ProvisionService) :=
  match services with
  | [] => mret []
  | s :: ss =>
      if negb (provisioned policy s) then provision_services ss token policy now ttl_remaining
      else
        ma ← mint_service_auth s token policy now ttl_remaining;
        rest ← provision_services ss token policy now ttl_remaining;
        mret (mkProvisionService (svc_name s) (Flavor_name (svc_flavor s)) (svc_address s) ma.1 ma.2 :: rest)
  end.

Definition ttl_remaining (now expires_at_ms : Z) : Z :=
  Z.max (u64_saturating_sub expires_at_ms now / 1000) 1.

Definition provisionable_services (g : Gateway) (token : string) (policy : Policy) (now expires_at_ms : Z)
    : eff World (list ProvisionService) :=
  provision_services (services (router g)) token policy now (ttl_remaining now expires_at_ms).

Definition provision (g : Gateway) (token : string) (now : Z) : eff World (option ProvisionDoc) :=
  cp ← get_control;
  match tokens_resolve_full token now (cp_tokens cp) with
  | None => mret None
  | Some (policy, expires_at_ms) =>
      svcs ← provisionable_services g token policy now expires_at_ms;
      mret (Some (mkProvisionDoc token (hackamore_ca_pem g) expires_at_ms svcs))
  end.

(** ** Authentication *)

Definition header_str (hs : HeaderMap) (name : string) : option string := hm_get hs name ≫= hv_to_str.

Definition extract_host (hs : HeaderMap) : option string := header_str hs "host".

(** The fallback of [extract_auth]: a [Bearer] or [token] scheme. *)
Definition extract_authorization (hs : HeaderMap) : option (string * AuthSource) :=
  raw ← header_str hs "authorization";
  '(scheme, v) ← split_once " " raw;
  let scheme := to_ascii_lowercase scheme in
  if ((scheme =s "bearer") || (scheme =s "token")) && negb (sempty (trim v))
  then Some (trim v, Authorization)
  else None.

Definition extract_auth (hs : HeaderMap) : option (string * AuthSource) :=
  match header_str hs HACKAMORE_TOKEN_HEADER with
  | Some v => if negb (sempty (trim v)) then Some (trim v, HackamoreHeader) else extract_authorization hs
  | None => extract_authorization hs
  end.

Definition token_from_headers (hs : HeaderMap) : option string := fst <$> extract_auth hs.

Definition unauth : Outcome := reject UNAUTHORIZED Unauthenticated "invalid or unknown SigV4 credential".

Definition authenticate_sigv4 (req : ProxyRequest) (auth : string) (now : Z)
    : eff World (result (Policy * AuthSource) Outcome) :=
  match parse_authorization auth with
  | None => mret (Err unauth)
  | Some parsed =>
      cp ← get_control;
      match tokens_resolve_sigv4 (p_access_key_id parsed) now (cp_tokens cp) with
      | None => mret (Err unauth)
      | Some (policy, secret) =>
          v ← eff_lift (verify secret parsed (rq_method req) (rq_path req) (rq_query req)
                          (rq_headers req) (rq_body req) now);
          match v with
          | Ok _ => mret (Ok (policy, SigV4Source))
          | Err _ => mret (Err unauth)
          end
      end
  end.

Definition authenticate_bearer (req : ProxyRequest) (now : Z)
    : eff World (result (Policy * AuthSource) Outcome) :=
  match extract_auth (rq_headers req) with
  | None => mret (Err (reject UNAUTHORIZED Unauthenticated "missing hackamore token"))
  | Some (token, source) =>
      cp ← get_control;
      match tokens_resolve token now (cp_tokens cp) with
      | Some policy => mret (Ok (policy, source))
      | None => mret (Err (reject UNAUTHORIZED Unauthenticated "unknown or expired hackamore token"))
      end
  end.

Definition authenticate (req : ProxyRequest) (now : Z) : eff World (result (Policy * AuthSource) Outcome) :=
  match header_str (rq_headers req) "authorization" with
  | Some auth => if starts_with "AWS4-HMAC-SHA256" auth then authenticate_sigv4 req auth now
                 else authenticate_bearer req now
  | None => authenticate_bearer req now
  end.

(** ** Forwarding *)

Definition sanitize_headers (hs : HeaderMap) (source : AuthSource) : HeaderMap :=
  fold_left (fun out nv => if is_dropped_header nv.1 source then out else hm_append out nv.1 nv.2)
    (hm_iter hs) hm_empty.

Definition set_header (hs : HeaderMap) (name v : string) : HeaderMap :=
  match hv_from_str v with Some hv => hm_insert hs name hv | None => hs end.

Definition not_configured (credential : string) : string :=
  "credential '" +:+ credential +:+ "' not configured".

Definition resolve_header_value (action : Action) (credential prefix : string) (now : Z)
    : eff World (result HeaderValue Outcome) :=
  cp ← get_control;
  match cred_resolve (cp_credentials cp) credential with
  | None =>
      audit action DecisionDeny (not_configured credential) now;;
      mret (Err (reject BAD_GATEWAY NotAllowed "required credential is not configured"))
  | Some secret =>
      match hv_from_str (prefix +:+ expose secret) with
      | Some v => mret (Ok v)
      | None =>
          audit action DecisionDeny "credential not header-safe" now;;
          mret (Err (reject BAD_GATEWAY NotAllowed "credential is not header-safe"))
      end
  end.

(** The outbound stance: the headers to send and the audit detail, or the
    audited rejection. *)
Definition apply_outbound (service : Service) (action : Action) (req : ProxyRequest)
    (headers : HeaderMap) (now : Z) : eff World (result (HeaderMap * string) Outcome) :=
  match svc_outbound service with
  | Service.Passthrough => mret (Ok (headers, "allowed (passthrough)"))
  | Bearer credential =>
      r ← resolve_header_value action credential "Bearer " now;
      match r with
      | Err outcome => mret (Err outcome)
      | Ok v => mret (Ok (hm_insert headers "authorization" v,
                          "allowed; injected bearer [" +:+ credential +:+ "]"))
      end
  | Header name credential =>
      match hn_from_bytes name with
      | None =>
          audit action DecisionDeny "invalid header name" now;;
          mret (Err (reject BAD_GATEWAY NotAllowed "configured header name is invalid"))
      | Some header_name =>
          r ← resolve_header_value action credential "" now;
          match r with
          | Err outcome => mret (Err outcome)
          | Ok v => mret (Ok (hm_insert headers header_name v,
                              "allowed; injected header " +:+ name +:+ " [" +:+ credential +:+ "]"))
          end
      end
  | SigV4 credential access_key_id region aws_service =>
      cp ← get_control;
      match cred_resolve (cp_credentials cp) credential with
      | None =>
          audit action DecisionDeny (not_configured credential) now;;
          mret (Err (reject BAD_GATEWAY NotAllowed "required credential is not configured"))
      | Some secret =>
          let host := host_of (svc_upstream_base service) in
          signed ← eff_lift (sign (mkCreds access_key_id (expose secret)) region aws_service
                               (rq_method req) host (rq_path req) (rq_query req) (rq_body req) now);
          let headers := set_header headers "authorization" (authorization signed) in
          let headers := set_header headers "x-amz-date" (amz_date signed) in
          let headers := set_header headers "x-amz-content-sha256" (content_sha256 signed) in
          mret (Ok (headers, "allowed; sigv4 re-signed [" +:+ credential +:+ "]"))
      end
  end.

Definition plan_forward (service : Service) (action : Action) (req : ProxyRequest) (source : AuthSource)
    (now : Z) : eff World Outcome :=
  r ← apply_outbound service action req (sanitize_headers (rq_headers req) source) now;
  match r with
  | Err outcome => mret outcome
  | Ok (headers, detail) =>
      audit action DecisionAllow detail now;;
      mret (Forward (mkForwardPlan
        (upstream_url (svc_upstream_base service) (rq_path req) (rq_query req))
        (rq_method req) headers (rq_body req)))
  end.

(** ** The request path *)

Definition set_path (req : ProxyRequest) (p : string) : ProxyRequest :=
  mkProxyRequest _ (rq_method req) p (rq_query req) (rq_headers req) (rq_body req).

(** What follows authentication. *)
Definition authorize (g : Gateway) (req : ProxyRequest) (policy : Policy) (source : AuthSource) (now : Z)
    : eff World Outcome :=
  let host := match extract_host (rq_headers req) with Some h => h | None => "" end in
  match route (router g) host with
  | None =>
      audit_raw host DecisionDeny "no service for host" now;;
      mret (reject NOT_FOUND UnknownTarget "no service configured for this host")
  | Some service =>
      c ← eff_lift (Canonicalize.path (rq_path req));
      match c with
      | Err _ =>
          audit_raw host DecisionDeny "non-canonical path" now;;
          mret (reject BAD_REQUEST NotAllowed "non-canonical request path")
      | Ok canonical =>
          action ← eff_lift (normalize service req (decoded canonical));
          match decide action policy with
          | VDeny reason =>
              audit action DecisionDeny (show_DenyReason reason) now;;
              mret (reject FORBIDDEN reason "denied by policy")
          | VAllow _ => plan_forward service action (set_path req (encoded canonical)) source now
          end
      end
  end.

Definition handle (g : Gateway) (req : ProxyRequest) (now : Z) : eff World Outcome :=
  a ← authenticate req now;
  match a with
  | Err outcome => mret outcome
  | Ok (policy, source) => authorize g req policy source now
  end.
End Gateway.
Arguments World {J} C A.

(** ** The specification of the request path *)

Section Spec.
Context {J : JsonLib} {H : HttpLib} {R : RingLib} {U : UuidLib}.
Context {C A : Type} `{!CredentialStore C} `{!AuditSink A}.

Definition sigv4_header (hs : HeaderMap) : option string :=
  match header_str hs "authorization" with
  | Some auth => if starts_with "AWS4-HMAC-SHA256" auth then Some auth else None
  | None => None
  end.

(** The request proves possession of a live capability for a policy: a
    bearer token, or a signature by a live SigV4 credential's secret. *)
Inductive authentic (ts : Tokens) (req : ProxyRequest) (now : Z) : Policy -> AuthSource -> Prop :=
| authentic_bearer token source policy :
    sigv4_header (rq_headers req) = None ->
    extract_auth (rq_headers req) = Some (token, source) ->
    tokens_resolve token now ts = Some policy ->
    authentic ts req now policy source
| authentic_sigv4 auth parsed policy secret :
    sigv4_header (rq_headers req) = Some auth ->
    parse_authorization auth = Some parsed ->
    tokens_resolve_sigv4 (p_access_key_id parsed) now ts = Some (policy, secret) ->
    verify secret parsed (rq_method req) (rq_path req) (rq_query req) (rq_headers req) (rq_body req) now
      = Done (Ok tt) ->
    authentic ts req now policy SigV4Source.

(** The request presents [key] as a bearer token: in [X-Hackamore-Token], or,
    where that header is absent or blank, in [Authorization] under the scheme
    [Bearer] or [token] in any case. *)
Inductive presents (hs : HeaderMap) : string -> AuthSource -> Prop :=
| presents_header v :
    header_str hs "x-hackamore-token" = Some v -> trim v <> "" -> presents hs (trim v) HackamoreHeader
| presents_authorization scheme v :
    (forall v0, header_str hs "x-hackamore-token" = Some v0 -> trim v0 = "") ->
    header_str hs "authorization" = Some (scheme +:+ " " +:+ v) -> lacks " " scheme ->
    to_ascii_lowercase scheme = "bearer" \/ to_ascii_lowercase scheme = "token" -> trim v <> "" ->
    presents hs (trim v) Authorization.

(** What proves a capability: a live bearer token, unless the request claims a
    signature; or a signature, over the request and within the skew window,
    by the secret of a live dummy credential. *)
Inductive proves (ts : Tokens) (req : ProxyRequest) (now : Z) : Policy -> AuthSource -> Prop :=
| proves_token key source e :
    (forall auth, header_str (rq_headers req) "authorization" = Some auth -> starts_with "AWS4-HMAC-SHA256" auth = false) ->
    presents (rq_headers req) key source ->
    ts !! key = Some e -> (now < e_expires_at_ms e)%Z -> e_secret e = None ->
    proves ts req now (e_policy e) source
| proves_signature auth p e secret signed :
    header_str (rq_headers req) "authorization" = Some auth -> starts_with "AWS4-HMAC-SHA256" auth = true ->
    parse_authorization auth = Some p ->
    ts !! p_access_key_id p = Some e -> (now < e_expires_at_ms e)%Z -> e_secret e = Some secret ->
    fresh (rq_headers req) now -> live_values (rq_headers req) (signed_headers p) signed ->
    expected_signature secret p (rq_method req) (rq_path req) (rq_query req) (rq_headers req) (rq_body req)
      = Done (Some (signature p)) ->
    proves ts req now (e_policy e) SigV4Source.

Lemma extract_auth_presents hs key source : extract_auth hs = Some (key, source) <-> presents hs key source.
Proof.
  assert (Ha : (forall v0, header_str hs "x-hackamore-token" = Some v0 -> trim v0 = "") ->
    extract_authorization hs = Some (key, source) <-> presents hs key source).
  { intros Hn. unfold extract_authorization. split.
    - destruct (header_str hs "authorization") as [raw|] eqn:Er; [|done]. cbn [mbind option_bind].
      destruct (split_once " " raw) as [[scheme v]|] eqn:Es; [|done]. cbn [mbind option_bind].
      apply split_once_some in Es as [-> Hl].
      destruct ((to_ascii_lowercase scheme =s "bearer") || (to_ascii_lowercase scheme =s "token")) eqn:Eb; [|done].
      destruct (sempty (trim v)) eqn:Ev; [done|]. intros [= <- <-].
      apply (presents_authorization hs scheme v); [done|done|done| |by intros E; rewrite E in Ev].
      apply orb_true_iff in Eb. by rewrite !String.eqb_eq in Eb.
    - intros Hp. inversion Hp as [v Hv Hne|scheme v _ Hv Hl Hs Hne]; subst; [by apply Hn in Hv|].
      rewrite Hv. cbn [mbind option_bind]. change (scheme +:+ " " +:+ v) with (scheme +:+ String " " v).
      rewrite split_once_app by done. cbn [mbind option_bind].
      replace ((to_ascii_lowercase scheme =s "bearer") || (to_ascii_lowercase scheme =s "token")) with true
        by (symmetry; apply orb_true_iff; rewrite !String.eqb_eq; exact Hs).
      by destruct (trim v). }
  unfold extract_auth, HACKAMORE_TOKEN_HEADER. destruct (header_str hs "x-hackamore-token") as [v|] eqn:Ex.
  2:{ apply Ha. done. }
  destruct (sempty (trim v)) eqn:Ev; cbn [negb].
  - apply Ha. intros ? [= <-]. by destruct (trim v).
  - split.
    + intros [= <- <-]. apply presents_header; [done|]. intros E. by rewrite E in Ev.
    + intros Hp. inversion Hp as [v' Hv' _|scheme v' Hn]; subst; [congruence|]. exfalso.
      rewrite (Hn v Ex) in Ev. discriminate Ev.
Qed.

Lemma resolve_live key now ts p :
  tokens_resolve key now ts = Some p <-> exists e, ts !! key = Some e /\ (now < e_expires_at_ms e)%Z /\ e_policy e = p.
Proof.
  unfold tokens_resolve, tokens_resolve_full. destruct (ts !! key) as [e|]; cbn [mbind option_bind]; [|naive_solver].
  destruct (Z.leb_spec (e_expires_at_ms e) now); cbn [fmap option_fmap option_map fst].
  - split; [done|]. intros (e' & [= <-] & ? & _). lia.
  - split; [intros [= <-]; eauto|]. by intros (e' & [= <-] & _ & <-).
Qed.

Lemma verify_accepts secret p method path query hs body now :
  verify secret p method path query hs body now = Done (Ok tt) <->
  fresh hs now /\ (exists signed, live_values hs (signed_headers p) signed) /\
  expected_signature secret p method path query hs body = Done (Some (signature p)).
Proof.
  pose proof (verify_cases secret p method path query hs body now) as Hv.
  destruct (verify secret p method path query hs body now) as [[[]|[| |n]]|] eqn:E; (split; [try done|]).
  - by intros _.
  - intros (_ & _ & He). destruct Hv as (_ & _ & s & Hs & Hne). exfalso. rewrite He in Hs. by injection Hs.
  - intros (Hf & _). done.
  - intros (Hf & (signed & Hl1 & Hl2) & _). destruct Hv as (_ & l1 & l2 & Hs & Hn & _). exfalso.
    rewrite Hs in Hl1. assert (Hin : n ∈ signed.*1) by (rewrite Hl1; set_solver).
    apply list_elem_of_fmap in Hin as ([k v] & -> & Hin). rewrite Forall_forall in Hl2.
    specialize (Hl2 _ Hin). cbn in *. congruence.
  - intros (_ & (signed & Hl) & He). destruct Hv as (_ & _ & Hp). exfalso. revert He. unfold expected_signature.
    destruct (header_value hs "x-amz-date"); [|done]. destruct (collect_signed hs (signed_headers p)); [|done].
    unfold canonical_request. by rewrite Hp.
Qed.

Lemma authentic_proves ts req now p s :
  (forall key source e, presents (rq_headers req) key source -> ts !! key = Some e -> e_secret e = None) ->
  authentic ts req now p s <-> proves ts req now p s.
Proof.
  intros Hk. assert (Hnone : sigv4_header (rq_headers req) = None <-> forall auth,
    header_str (rq_headers req) "authorization" = Some auth -> starts_with "AWS4-HMAC-SHA256" auth = false).
  { unfold sigv4_header. destruct (header_str (rq_headers req) "authorization") as [auth|]; [|naive_solver].
    destruct (starts_with "AWS4-HMAC-SHA256" auth) eqn:E; [|naive_solver]. split; [done|]. intros Hn. by rewrite Hn in E. }
  split.
  - intros [key src q Hs He Ht|auth parsed q secret Hs Hp Ht Hv].
    + apply resolve_live in Ht as (e & Hl & Hx & <-). apply extract_auth_presents in He.
      apply (proves_token ts req now key src e); [by apply Hnone|done..|by eapply Hk].
    + unfold sigv4_header in Hs. destruct (header_str (rq_headers req) "authorization") as [auth'|] eqn:Ea; [|done].
      destruct (starts_with "AWS4-HMAC-SHA256" auth') eqn:Es; [|done]. injection Hs as ->.
      unfold tokens_resolve_sigv4 in Ht. destruct (ts !! p_access_key_id parsed) as [e|] eqn:El; [|done].
      cbn [mbind option_bind] in Ht. destruct (Z.leb_spec (e_expires_at_ms e) now); [done|].
      destruct (e_secret e) as [sec|] eqn:Esec; [|done]. injection Ht as <- ->.
      apply verify_accepts in Hv as (Hf & (signed & Hl) & He). by eapply proves_signature.
  - intros [key src e Hs He Hl Hx _|auth parsed e secret signed Ha Hs Hp Hl Hx Hsec Hf Hlv He].
    + apply (authentic_bearer ts req now key src); [by apply Hnone|by apply extract_auth_presents|].
      apply resolve_live. eauto.
    + apply (authentic_sigv4 ts req now auth parsed (e_policy e) secret); [unfold sigv4_header; by rewrite Ha, Hs|done| |].
      * unfold tokens_resolve_sigv4. rewrite Hl. cbn [mbind option_bind].
        destruct (Z.leb_spec (e_expires_at_ms e) now); [lia|]. by rewrite Hsec.
      * apply verify_accepts. eauto.
Qed.

(** The headers a service's outbound stance sets, in order. *)
Inductive injects (cr : C) (s : Service) (req : ProxyRequest) (now : Z)
    : list (string * HeaderValue) -> string -> Prop :=
| injects_passthrough :
    svc_outbound s = Service.Passthrough ->
    injects cr s req now [] "allowed (passthrough)"
| injects_bearer c secret v :
    svc_outbound s = Bearer c ->
    cred_resolve cr c = Some secret -> hv_from_str ("Bearer " +:+ expose secret) = Some v ->
    injects cr s req now [("authorization", v)] ("allowed; injected bearer [" +:+ c +:+ "]")
| injects_header name c n secret v :
    svc_outbound s = Header name c -> hn_from_bytes name = Some n ->
    cred_resolve cr c = Some secret -> hv_from_str (expose secret) = Some v ->
    injects cr s req now [(n, v)] ("allowed; injected header " +:+ name +:+ " [" +:+ c +:+ "]")
| injects_sigv4 c akid region aws secret sg :
    svc_outbound s = SigV4 c akid region aws ->
    cred_resolve cr c = Some secret ->
    sign (mkCreds akid (expose secret)) region aws (rq_method req) (host_of (svc_upstream_base s))
      (rq_path req) (rq_query req) (rq_body req) now = Done sg ->
    injects cr s req now
      (omap (fun nv : string * string => v ← hv_from_str nv.2; Some (nv.1, v))
         [("authorization", authorization sg); ("x-amz-date", amz_date sg);
          ("x-amz-content-sha256", content_sha256 sg)])
      ("allowed; sigv4 re-signed [" +:+ c +:+ "]").

Definition insert_all (l : list (string * HeaderValue)) (m : HeaderMap) : HeaderMap :=
  fold_left (fun m nv => hm_insert m nv.1 nv.2) l m.

(** The message of a 401: which of the two schemes was tried, and whether it
    presented anything. *)
Inductive challenge (req : ProxyRequest) : string -> Prop :=
| challenge_sigv4 auth :
    sigv4_header (rq_headers req) = Some auth -> challenge req "invalid or unknown SigV4 credential"
| challenge_missing :
    sigv4_header (rq_headers req) = None -> extract_auth (rq_headers req) = None ->
    challenge req "missing hackamore token"
| challenge_unknown token source :
    sigv4_header (rq_headers req) = None -> extract_auth (rq_headers req) = Some (token, source) ->
    challenge req "unknown or expired hackamore token".

(** The service's stance puts this credential in a header, after a prefix. *)
Inductive places (s : Service) : string -> string -> Prop :=
| places_bearer c : svc_outbound s = Bearer c -> places s c "Bearer "
| places_header name n c : svc_outbound s = Header name c -> hn_from_bytes name = Some n -> places s c "".

(** Why a service's credential cannot be injected, as the client and as the
    audit log are told. *)
Inductive uninjectable (cr : C) (s : Service) : string -> string -> Prop :=
| uninjectable_header c prefix :
    places s c prefix -> cred_resolve cr c = None ->
    uninjectable cr s "required credential is not configured" ("credential '" +:+ c +:+ "' not configured")
| uninjectable_sigv4 c akid region aws :
    svc_outbound s = SigV4 c akid region aws -> cred_resolve cr c = None ->
    uninjectable cr s "required credential is not configured" ("credential '" +:+ c +:+ "' not configured")
| uninjectable_name name c :
    svc_outbound s = Header name c -> hn_from_bytes name = None ->
    uninjectable cr s "configured header name is invalid" "invalid header name"
| uninjectable_unsafe c prefix secret :
    places s c prefix -> cred_resolve cr c = Some secret -> hv_from_str (prefix +:+ expose secret) = None ->
    uninjectable cr s "credential is not header-safe" "credential not header-safe".

(** What [handle] may answer, and the events it records, by the stage that
    decides. Which events go with a 401 is left open. *)
Inductive handled (g : Gateway) (ts : Tokens) (cr : C) (req : ProxyRequest) (now : Z)
    : Outcome -> list AuditEvent -> Prop :=
| handled_unauthenticated message es :
    (forall p src, ~ authentic ts req now p src) -> challenge req message ->
    handled g ts cr req now (reject UNAUTHORIZED Unauthenticated message) es
| handled_unrouted p src host :
    authentic ts req now p src ->
    host = default "" (extract_host (rq_headers req)) ->
    route (router g) host = None ->
    handled g ts cr req now (reject NOT_FOUND UnknownTarget "no service configured for this host")
      [mkAuditEvent now (unrouted host) DecisionDeny "no service for host"]
| handled_escape p src host s :
    authentic ts req now p src ->
    host = default "" (extract_host (rq_headers req)) ->
    route (router g) host = Some s ->
    Canonicalize.path (rq_path req) = Done (Err Escape) ->
    handled g ts cr req now (reject BAD_REQUEST NotAllowed "non-canonical request path")
      [mkAuditEvent now (unrouted host) DecisionDeny "non-canonical path"]
| handled_denied p src s c a reason :
    authentic ts req now p src ->
    route (router g) (default "" (extract_host (rq_headers req))) = Some s ->
    Canonicalize.path (rq_path req) = Done (Ok c) ->
    normalize s req (decoded c) = Done a ->
    decides a (rules p) (VDeny reason) ->
    handled g ts cr req now (reject FORBIDDEN reason "denied by policy")
      [mkAuditEvent now a DecisionDeny (show_DenyReason reason)]
| handled_unconfigured p src s c a message detail :
    authentic ts req now p src ->
    route (router g) (default "" (extract_host (rq_headers req))) = Some s ->
    Canonicalize.path (rq_path req) = Done (Ok c) ->
    normalize s req (decoded c) = Done a ->
    decides a (rules p) (VAllow []) ->
    (forall l d, ~ injects cr s (set_path req (encoded c)) now l d) ->
    uninjectable cr s message detail ->
    handled g ts cr req now (reject BAD_GATEWAY NotAllowed message)
      [mkAuditEvent now a DecisionDeny detail]
| handled_forward p src s c a l detail :
    authentic ts req now p src ->
    route (router g) (default "" (extract_host (rq_headers req))) = Some s ->
    Canonicalize.path (rq_path req) = Done (Ok c) ->
    normalize s req (decoded c) = Done a ->
    decides a (rules p) (VAllow []) ->
    injects cr s (set_path req (encoded c)) now l detail ->
    handled g ts cr req now
      (Forward (mkForwardPlan (upstream_url (svc_upstream_base s) (encoded c) (rq_query req))
         (rq_method req) (insert_all l (sanitize_headers (rq_headers req) src)) (rq_body req)))
      [mkAuditEvent now a DecisionAllow detail].

(** The world with events recorded, and nothing else changed. *)
Definition recorded (es : list AuditEvent) (w : World C A) : World C A :=
  mkWorld (set_audit (fold_left (fun s e => audit_record e s) es (cp_audit (w_control w))) (w_control w))
    (w_uuids w).

Lemma recorded_nil w : recorded [] w = w.
Proof. by destruct w as [[]]. Qed.

Lemma audit_events_recorded `{!AuditLog A} es (w : World C A) :
  audit_events (cp_audit (w_control (recorded es w))) = audit_events (cp_audit (w_control w)) ++ es.
Proof.
  cbn. generalize (cp_audit (w_control w)). induction es as [|e es IH]; intros a; cbn; [by rewrite app_nil_r|].
  by rewrite IH, audit_events_record, <- app_assoc.
Qed.

Lemma sigv4_header_bearer hs auth :
  header_str hs "authorization" = Some auth -> starts_with "AWS4-HMAC-SHA256" auth = false ->
  sigv4_header hs = None.
Proof. unfold sigv4_header. by intros -> ->. Qed.

(** ** Authentication is exact *)

Lemma authenticate_bearer_spec req now (w : World C A) :
  sigv4_header (rq_headers req) = None ->
  match authenticate_bearer req now w with
  | (Done (Ok (p, s)), w') => w' = w /\ authentic (world_tokens w) req now p s
  | (Done (Err o), w') => w' = w /\ (exists m, o = reject UNAUTHORIZED Unauthenticated m) /\
      forall p s, ~ authentic (world_tokens w) req now p s
  | (Panic, _) => False
  end.
Proof.
  intros Hn. unfold authenticate_bearer.
  destruct (extract_auth (rq_headers req)) as [[token source]|] eqn:Ee.
  - eff_run. cbn [get_control]. destruct (tokens_resolve token now (cp_tokens (w_control w))) as [policy|] eqn:Et.
    + split; [done|]. by eapply authentic_bearer.
    + split_and!; [done|by eexists|]. intros p s Ha. inversion Ha; subst; [|congruence].
      rewrite Ee in *. simplify_eq. unfold world_tokens in *. congruence.
  - eff_run. split_and!; [done|by eexists|]. intros p s Ha. inversion Ha; congruence.
Qed.

Lemma authenticate_sigv4_spec req auth now (w : World C A) :
  sigv4_header (rq_headers req) = Some auth ->
  match authenticate_sigv4 req auth now w with
  | (Done (Ok (p, s)), w') => w' = w /\ authentic (world_tokens w) req now p s
  | (Done (Err o), w') => w' = w /\ (exists m, o = reject UNAUTHORIZED Unauthenticated m) /\
      forall p s, ~ authentic (world_tokens w) req now p s
  | (Panic, w') => w' = w /\ canonical_query (rq_query req) = Panic
  end.
Proof.
  intros Hs. unfold authenticate_sigv4.
  assert (Hinv : forall p s, authentic (world_tokens w) req now p s ->
    exists parsed secret, parse_authorization auth = Some parsed /\
      tokens_resolve_sigv4 (p_access_key_id parsed) now (cp_tokens (w_control w)) = Some (p, secret) /\
      verify secret parsed (rq_method req) (rq_path req) (rq_query req) (rq_headers req) (rq_body req) now
        = Done (Ok tt)).
  { intros p s Ha. inversion Ha; [congruence|]. rewrite Hs in *. simplify_eq. eauto. }
  destruct (parse_authorization auth) as [parsed|] eqn:Ep.
  2:{ eff_run. split_and!; [done|by eexists|]. intros p s Ha%Hinv. naive_solver. }
  eff_run. cbn [get_control]. destruct (tokens_resolve_sigv4 _ _ _) as [[policy secret]|] eqn:Et.
  2:{ eff_run. split_and!; [done|by eexists|]. intros p s Ha%Hinv. naive_solver congruence. }
  pose proof (verify_cases secret parsed (rq_method req) (rq_path req) (rq_query req)
    (rq_headers req) (rq_body req) now) as Hv.
  destruct (verify _ _ _ _ _ _ _ _) as [[[]|e]|] eqn:Ev.
  - split; [done|]. by eapply authentic_sigv4.
  - split_and!; [done|by eexists|]. intros p s Ha%Hinv.
    destruct Ha as (? & ? & ? & ? & ?). simplify_eq. congruence.
  - tauto.
Qed.

Lemma authenticate_spec_aux req now (w : World C A) :
  match authenticate req now w with
  | (Done (Ok (p, s)), w') => w' = w /\ authentic (world_tokens w) req now p s
  | (Done (Err o), w') => w' = w /\ (exists m, o = reject UNAUTHORIZED Unauthenticated m) /\
      forall p s, ~ authentic (world_tokens w) req now p s
  | (Panic, w') => w' = w /\ canonical_query (rq_query req) = Panic
  end.
Proof.
  unfold authenticate. destruct (header_str (rq_headers req) "authorization") as [auth|] eqn:Ea.
  - destruct (starts_with "AWS4-HMAC-SHA256" auth) eqn:Es.
    + apply authenticate_sigv4_spec. unfold sigv4_header. by rewrite Ea, Es.
    + pose proof (authenticate_bearer_spec req now w (sigv4_header_bearer _ _ Ea Es)) as Hb.
      by destruct (authenticate_bearer req now w) as [[[[]|]|] ?].
  - assert (Hn : sigv4_header (rq_headers req) = None) by (unfold sigv4_header; by rewrite Ea).
    pose proof (authenticate_bearer_spec req now w Hn) as Hb.
    by destruct (authenticate_bearer req now w) as [[[[]|]|] ?].
Qed.

Lemma authenticate_challenge req now (w w' : World C A) o :
  authenticate req now w = (Done (Err o), w') ->
  exists m, o = reject UNAUTHORIZED Unauthenticated m /\ challenge req m.
Proof.
  assert (Hb : sigv4_header (rq_headers req) = None -> authenticate_bearer req now w = (Done (Err o), w') ->
    exists m, o = reject UNAUTHORIZED Unauthenticated m /\ challenge req m).
  { intros Hn. unfold authenticate_bearer. destruct (extract_auth (rq_headers req)) as [[token source]|] eqn:Ee.
    - intros E. eff_run in E. cbn [get_control] in E. destruct (tokens_resolve _ _ _); [done|].
      injection E as <- _. eexists. split; [done|]. by eapply challenge_unknown.
    - intros E. eff_run in E. injection E as <- _. eexists. split; [done|]. by apply challenge_missing. }
  unfold authenticate, sigv4_header in *.
  destruct (header_str (rq_headers req) "authorization") as [auth|] eqn:Ea; [|by apply Hb].
  destruct (starts_with "AWS4-HMAC-SHA256" auth) eqn:Es; [|by apply Hb]. clear Hb.
  assert (Hc : challenge req "invalid or unknown SigV4 credential").
  { eapply challenge_sigv4. unfold sigv4_header. by rewrite Ea, Es. }
  unfold authenticate_sigv4. destruct (parse_authorization auth) as [parsed|]; intros E; eff_run in E;
    [|injection E as <- _; by eexists].
  cbn [get_control] in E. destruct (tokens_resolve_sigv4 _ _ _) as [[policy secret]|]; [|injection E as <- _; by eexists].
  destruct (verify _ _ _ _ _ _ _ _) as [[]|]; [done|injection E as <- _; by eexists|done].
Qed.

(** ** The outbound stance *)

Lemma resolve_header_value_spec s a c prefix now (w : World C A) :
  places s c prefix ->
  match resolve_header_value a c prefix now w with
  | (Done (Ok v), w') => w' = w /\ exists secret,
      cred_resolve (cp_credentials (w_control w)) c = Some secret /\ hv_from_str (prefix +:+ expose secret) = Some v
  | (Done (Err o), w') => (exists m d, o = reject BAD_GATEWAY NotAllowed m /\
        w' = recorded [mkAuditEvent now a DecisionDeny d] w /\ uninjectable (cp_credentials (w_control w)) s m d) /\
      forall secret v, cred_resolve (cp_credentials (w_control w)) c = Some secret ->
        hv_from_str (prefix +:+ expose secret) <> Some v
  | (Panic, _) => False
  end.
Proof.
  intros Hp. unfold resolve_header_value. eff_run. cbn [get_control].
  destruct (cred_resolve (cp_credentials (w_control w)) c) as [secret|] eqn:Ec.
  - destruct (hv_from_str (prefix +:+ expose secret)) as [v|] eqn:Ev.
    + split; [done|]. by exists secret.
    + split; [do 2 eexists; split_and!; [done|done|by eapply uninjectable_unsafe]|]. intros s' v Hs. simplify_eq. by rewrite Ev.
  - split; [do 2 eexists; split_and!; [done|done|by eapply uninjectable_header]|]. done.
Qed.

Lemma sign_panic cr reg svc m host p q b now :
  sign cr reg svc m host p q b now = Panic -> canonical_query q = Panic.
Proof.
  unfold sign. destruct (format_amz_datetime now). unfold canonical_request.
  by destruct (canonical_query q).
Qed.

Lemma apply_outbound_spec s a req hs now (w : World C A) :
  let cr := cp_credentials (w_control w) in
  match apply_outbound s a req hs now w with
  | (Done (Ok (hs', detail)), w') => w' = w /\ exists l, injects cr s req now l detail /\ hs' = insert_all l hs
  | (Done (Err o), w') => (exists m d, o = reject BAD_GATEWAY NotAllowed m /\
        w' = recorded [mkAuditEvent now a DecisionDeny d] w /\ uninjectable cr s m d) /\
      forall l d, ~ injects cr s req now l d
  | (Panic, w') => w' = w /\ canonical_query (rq_query req) = Panic
  end.
Proof.
  cbn zeta. unfold apply_outbound. destruct (svc_outbound s) as [|c|name c|c akid region aws] eqn:Eo.
  - eff_run. split; [done|]. exists []. split; [by constructor|done].
  - pose proof (resolve_header_value_spec s a c "Bearer " now w (places_bearer s c Eo)) as Hr. eff_run.
    destruct (resolve_header_value a c "Bearer " now w) as [[[v|o]|] w']; [| |done].
    + destruct Hr as (-> & secret & Hc & Hv). split; [done|]. eexists. split; [by eapply injects_bearer|done].
    + destruct Hr as [He Hn]. split; [done|]. intros l d Hi. inversion Hi; hk_same; by eapply Hn.
  - destruct (hn_from_bytes name) as [n|] eqn:En.
    + pose proof (resolve_header_value_spec s a c "" now w (places_header s name n c Eo En)) as Hr. eff_run.
      destruct (resolve_header_value a c "" now w) as [[[v|o]|] w']; [| |done].
      * destruct Hr as (-> & secret & Hc & Hv). split; [done|]. eexists.
        split; [by eapply injects_header|done].
      * destruct Hr as [He Hn]. split; [done|]. intros l d Hi.
        inversion Hi; hk_same; by eapply Hn.
    + eff_run. split; [do 2 eexists; split_and!; [done|done|by eapply uninjectable_name]|].
      intros l d Hi. inversion Hi; congruence.
  - eff_run. cbn [get_control].
    destruct (cred_resolve (cp_credentials (w_control w)) c) as [secret|] eqn:Ec.
    + destruct (sign _ _ _ _ _ _ _ _ _) as [sg|] eqn:Es.
      * split; [done|]. eexists. split; [by eapply injects_sigv4|].
        unfold set_header. cbn [omap list_omap fst snd].
        by destruct (hv_from_str (authorization sg)), (hv_from_str (amz_date sg)), (hv_from_str (content_sha256 sg)).
      * split; [done|]. by eapply sign_panic.
    + split; [do 2 eexists; split_and!; [done|done|by eapply uninjectable_sigv4]|]. intros l d Hi. inversion Hi; congruence.
Qed.

(** ** [handle] meets the specification *)

Lemma authorize_spec g req p src now (w w' : World C A) o :
  authentic (world_tokens w) req now p src ->
  authorize g req p src now w = (Done o, w') ->
  exists es, handled g (world_tokens w) (cp_credentials (w_control w)) req now o es /\ w' = recorded es w.
Proof.
  intros Ha Hw. unfold authorize in Hw. cbn zeta in Hw.
  change (match extract_host (rq_headers req) with Some h => h | None => "" end)
    with (default "" (extract_host (rq_headers req))) in Hw.
  destruct (route (router g) (default "" (extract_host (rq_headers req)))) as [s|] eqn:Er.
  2:{ eff_run in Hw. injection Hw as <- <-. eexists. split; [by eapply handled_unrouted|done]. }
  eff_run in Hw. destruct (Canonicalize.path (rq_path req)) as [[c|[]]|] eqn:Ec; [| |done].
  2:{ injection Hw as <- <-. eexists. split; [by eapply handled_escape|done]. }
  destruct (normalize s req (decoded c)) as [a|] eqn:En; [|done].
  destruct (decide a p) as [obs|reason] eqn:Ed.
  2:{ injection Hw as <- <-. eexists.
      split; [eapply handled_denied; [done..|by apply decide_go_decides]|done]. }
  pose proof (decide_bare _ _ _ Ed) as ->.
  apply decide_go_decides in Ed. unfold plan_forward in Hw. eff_run in Hw.
  pose proof (apply_outbound_spec s a (set_path req (encoded c))
    (sanitize_headers (rq_headers (set_path req (encoded c))) src) now w) as Hs. cbn zeta in Hs.
  destruct (apply_outbound _ _ _ _ _ w) as [[[[hs detail]|oe]|] w1]; [| |done].
  - destruct Hs as (-> & l & Hi & ->). injection Hw as <- <-. eexists.
    split; [by eapply handled_forward|done].
  - destruct Hs as [(m & d & -> & -> & Hu) Hn]. injection Hw as <- <-. eexists.
    split; [by eapply handled_unconfigured|done].
Qed.

Lemma handle_handled g req now (w w' : World C A) o :
  handle g req now w = (Done o, w') ->
  exists es, handled g (world_tokens w) (cp_credentials (w_control w)) req now o es /\ w' = recorded es w.
Proof.
  unfold handle. pose proof (authenticate_spec_aux req now w) as Ha.
  intros Hw. eff_run in Hw.
  destruct (authenticate req now w) as [[[[p src]|oe]|] w1] eqn:E; [| |done].
  - destruct Ha as [-> Ha]. by eapply authorize_spec.
  - destruct Ha as (-> & _ & Hn). injection Hw as <- <-. exists [].
    destruct (authenticate_challenge _ _ _ _ _ E) as (m & -> & Hm).
    split; [by apply handled_unauthenticated|]. by rewrite recorded_nil.
Qed.

Lemma handle_unauthenticated g req now (w w' : World C A) rj :
  handle g req now w = (Done (Reject rj), w') -> rj_status rj = UNAUTHORIZED -> w' = w.
Proof.
  unfold handle. pose proof (authenticate_spec_aux req now w) as Ha. intros Hw Hs. eff_run in Hw.
  destruct (authenticate req now w) as [[[[p src]|oe]|] w1]; [| |done].
  - destruct Ha as [-> Ha]. destruct (authorize_spec _ _ _ _ _ _ _ _ Ha Hw) as (es & Hh & _).
    inversion Hh; subst; try done. exfalso. naive_solver.
  - destruct Ha as (-> & _). by injection Hw as _ <-.
Qed.
End Spec.

(** ** Headers sent upstream *)

Section Headers.
Context {H : HttpLib} {HL : HttpLaws H}.

Lemma insert_all_get_all l m n :
  hm_get_all (insert_all l m) n =
  match List.find (fun nv => nv.1 =s n) (rev l) with Some nv => [nv.2] | None => hm_get_all m n end.
Proof.
  induction l as [|[k v] l IH] using rev_ind; [done|].
  unfold insert_all in *. rewrite fold_left_app, rev_app_distr. cbn [fold_left rev app List.find fst snd].
  rewrite hm_get_all_insert. by destruct (k =s n).
Qed.

Lemma sanitize_get_all hs src n :
  hm_get_all (sanitize_headers hs src) n = if is_dropped_header n src then [] else hm_get_all hs n.
Proof.
  unfold sanitize_headers.
  assert (E : forall l m, fold_left (fun out nv => if is_dropped_header nv.1 src then out
               else hm_append out nv.1 nv.2) l m =
     fold_left (fun out p => if negb (is_dropped_header p.1 src) then hm_append out p.1 p.2 else out) l m).
  { induction l as [|x l IHl]; intros m; simpl; [done|]. by destruct (is_dropped_header x.1 src). }
  rewrite E, (hm_append_all (fun k => negb (is_dropped_header k src))), hm_get_all_empty.
  rewrite hm_get_all_iter. by destruct (is_dropped_header n src).
Qed.
End Headers.

(** The header a capability is proved in. *)
Definition carrier (source : AuthSource) : string :=
  match source with HackamoreHeader => "x-hackamore-token" | Authorization | SigV4Source => "authorization" end.

(** The headers that stop at the proxy, unless a stance sets them anew. *)
Definition not_forwarded (source : AuthSource) : list string :=
  match source with
  | HackamoreHeader => []
  | Authorization => ["authorization"]
  | SigV4Source => ["authorization"; "x-amz-date"; "x-amz-content-sha256"]
  end ++
  ["x-hackamore-token"; "host"; "content-length"; "connection"; "keep-alive"; "proxy-authenticate";
   "proxy-authorization"; "te"; "trailers"; "transfer-encoding"; "upgrade"].

Lemma dropped_not_forwarded n source :
  to_ascii_lowercase n = n -> is_dropped_header n source = bool_decide (n ∈ not_forwarded source).
Proof.
  intros Hn. rewrite <- existsb_eqb. unfold is_dropped_header, HACKAMORE_TOKEN_HEADER. rewrite Hn.
  assert (Hc : existsb (fun h => h =s n) HOP_BY_HOP = existsb (String.eqb n) HOP_BY_HOP).
  { induction HOP_BY_HOP as [|h l IH]; [done|]. cbn [existsb]. by rewrite IH, String.eqb_sym. }
  cbn zeta. rewrite Hc. destruct source;
    [change (bool_decide (HackamoreHeader <> HackamoreHeader)) with false; change (bool_decide (HackamoreHeader = SigV4Source)) with false
    |change (bool_decide (Authorization <> HackamoreHeader)) with true; change (bool_decide (Authorization = SigV4Source)) with false
    |change (bool_decide (SigV4Source <> HackamoreHeader)) with true; change (bool_decide (SigV4Source = SigV4Source)) with true];
    cbn -[String.eqb]; (destruct (String.eqb_spec n "authorization") as [->|_]; [reflexivity|]);
    destruct (n =s "x-hackamore-token"), (n =s "host"), (n =s "content-length"),
      (n =s "x-amz-date"), (n =s "x-amz-content-sha256"); rewrite ?orb_true_r; reflexivity.
Qed.

(** ** Totality: what a request must not hold *)

Lemma path_go_total segs :
  Forall (fun s => cuts s = false) segs -> forall stack, exists r, path_go segs stack = Done r.
Proof.
  induction 1 as [|s segs Hs _ IH]; intros stack; simpl; [by eexists|].
  destruct (percent_decode_total s Hs) as [b ->]. cbn [mbind comp_bind].
  destruct (path_step stack (from_utf8_lossy b)); [apply IH|by eexists].
Qed.

Lemma trim_start_matches_suffix c s : exists u, s = u +:+ trim_start_matches c s.
Proof.
  induction s as [|a s [u IH]]; [by exists ""|]. cbn [trim_start_matches].
  destruct (a =b c); [|by exists ""]. exists (String a u). exact (f_equal (String a) IH).
Qed.

Lemma path_total raw : cuts raw = false -> exists r, Canonicalize.path raw = Done r.
Proof.
  intros Hr. unfold Canonicalize.path. destruct (trim_start_matches_suffix "/" raw) as [u Hu].
  assert (Ht : cuts (trim_start_matches "/" raw) = false).
  { apply (cuts_infix u _ ""). by rewrite sapp_nil_r, <- Hu. }
  destruct (path_go_total (split "/" (trim_start_matches "/" raw))) with (stack := @nil string) as [r ->].
  { apply Forall_forall. intros x Hx. by eapply cuts_split. }
  cbn. destruct r; by eexists.
Qed.

Lemma canonical_query_total q : cuts q = false -> exists r, canonical_query q = Done r.
Proof.
  intros Hq. unfold canonical_query. destruct (sempty q); [by eexists|].
  edestruct (comp_map_total query_pair) as [ys ->]; [|by eexists].
  intros x Hx. pose proof (cuts_pieces q x Hq Hx) as Hc. unfold query_pair.
  assert (exists k v, match split_once "=" x with Some kv => kv | None => (x, "") end = (k, v) /\
    cuts k = false /\ cuts v = false) as (k & v & -> & Hk & Hv).
  { destruct (split_once "=" x) as [[k v]|] eqn:E; [|by exists x, ""].
    destruct (cuts_split_once _ _ _ _ Hc E). by exists k, v. }
  destruct (percent_decode_total k Hk) as [? ->], (percent_decode_total v Hv) as [? ->]. by eexists.
Qed.

Section Total.
Context {J : JsonLib} {H : HttpLib}.

(** A body is looked at as text only when it is UTF-8. *)
Lemma from_utf8_whole b t : (is_utf8 b = true -> cuts b = false) -> from_utf8 b = Some t -> t = b /\ cuts t = false.
Proof. unfold from_utf8. destruct (is_utf8 b); [|done]. intros Hb [= <-]. auto. Qed.

Lemma merge_fields_total q b :
  cuts q = false -> (is_utf8 b = true -> cuts b = false) -> exists v, merge_fields q b = Done v.
Proof.
  intros Hq Hb. unfold merge_fields. destruct (parse_query_total q Hq) as [rq ->].
  cbn [mbind comp_bind]. destruct (from_slice b ≫= as_object); [by eexists|].
  destruct (from_utf8 b) as [t|] eqn:E; [|by eexists]. destruct (from_utf8_whole b t Hb E) as [_ Ht].
  destruct (has_byte "=" t); [|by eexists]. destruct (parse_query_total t Ht) as [rb ->]. by eexists.
Qed.

Lemma normalize_total s req pth :
  cuts (rq_query req) = false -> (is_utf8 (rq_body req) = true -> cuts (rq_body req) = false) ->
  exists a, normalize s req pth = Done a.
Proof.
  intros Hq Hb. unfold normalize.
  assert (exists v, verb_for_protocol (protocol (svc_extract s)) req = Done v) as [v ->].
  { destruct (protocol (svc_extract s)); simpl; [by eexists| |by eexists]. unfold aws_query_action.
    destruct (parse_query_total _ Hq) as [rq Erq].
    destruct (from_utf8 (rq_body req)) as [t|] eqn:E.
    - destruct (from_utf8_whole _ t Hb E) as [_ Ht]. destruct (parse_query_total t Ht) as [rb ->].
      cbn [fmap comp_fmap mbind comp_bind]. destruct (find_action rb); cbn; [by eexists|].
      rewrite Erq. cbn. by eexists.
    - cbn. rewrite Erq. cbn. by eexists. }
  cbn [mbind comp_bind]. destruct (merge_fields_total _ _ Hq Hb) as [fs ->]. by eexists.
Qed.
End Total.

(** ** Properties of the request path *)

Section RequestProperties.
Context {J : JsonLib} {H : HttpLib} {R : RingLib} {U : UuidLib}.
Context {C A : Type} `{!CredentialStore C} `{!AuditSink A}.

(** C5: [handle] refines its staged specification. Every answer it gives is
    one of [handled]'s, with its status, reason and message, decided at the
    first stage that applies, for the policy a live capability proves; and
    the world changes only by the audit events of that stage, exactly one for
    each authenticated decision, with its action and detail, so no request
    alters a token, a tenant or a credential. What the log says of a 401 the
    specification leaves open. *)
Theorem handle_refines g req now (w w' : World C A) o :
  handle g req now w = (Done o, w') ->
  exists es, handled g (world_tokens w) (cp_credentials (w_control w)) req now o es /\ w' = recorded es w.
Proof. apply handle_handled. Qed.

(** Complete mediation. A request is forwarded only if it proves a live
    capability for a policy, its host routes to a service, its path is
    canonical, and that policy's first applicable rule allows the action
    the service's normalisation gives it; what is forwarded is that very
    request at its canonical path, to that service's upstream. *)
Lemma forward_only_if_allowed g req now (w w' : World C A) plan :
  handle g req now w = (Done (Forward plan), w') ->
  exists policy source service c action,
    authentic (world_tokens w) req now policy source /\
    route (router g) (default "" (extract_host (rq_headers req))) = Some service /\
    Canonicalize.path (rq_path req) = Done (Ok c) /\
    normalize service req (decoded c) = Done action /\
    decides action (rules policy) (VAllow []) /\
    fp_url plan = upstream_url (svc_upstream_base service) (encoded c) (rq_query req) /\
    fp_method plan = rq_method req /\ fp_body plan = rq_body req.
Proof.
  intros (es & Hh & _)%handle_handled. inversion Hh; subst. by do 5 eexists.
Qed.

(** C10: authentication is exact. As long as no request presents an access key
    id as if it were a token, it succeeds precisely for the policy of the live
    bearer token the request presents, or of the live dummy credential whose
    secret signed it ([proves]); it fails with 401 when nothing is proved; and
    it changes nothing. *)
Theorem authenticate_exact req now (w : World C A) :
  (forall key source e, presents (rq_headers req) key source -> world_tokens w !! key = Some e -> e_secret e = None) ->
  match authenticate req now w with
  | (Done (Ok (p, s)), w') => w' = w /\ proves (world_tokens w) req now p s
  | (Done (Err o), w') => w' = w /\ (exists m, o = reject UNAUTHORIZED Unauthenticated m) /\
      forall p s, ~ proves (world_tokens w) req now p s
  | (Panic, w') => w' = w /\ canonical_query (rq_query req) = Panic
  end.
Proof.
  intros Hk. pose proof (authenticate_spec_aux req now w) as Ha.
  destruct (authenticate req now w) as [[[[p s]|o]|] w']; [| |exact Ha].
  - destruct Ha as [-> Ha]. split; [done|]. by apply (authentic_proves _ req now p s Hk).
  - destruct Ha as (-> & Ho & Hn). split_and!; [done..|]. intros p s Hp%(authentic_proves _ req now p s Hk). by eapply Hn.
Qed.

(** A refused authentication leaves no trace: a 401 changes nothing, and in
    particular the audit log does not mention it. *)
Lemma unauthenticated_not_audited g req now (w w' : World C A) rj :
  handle g req now w = (Done (Reject rj), w') -> rj_status rj = UNAUTHORIZED -> w' = w.
Proof. apply handle_unauthenticated. Qed.

(** One audit event per authenticated decision: an answer other than a
    401 appends exactly one event, stamped with the request's time, that
    says Allow if and only if the request is forwarded; a 401 appends none. *)
Lemma one_audit_event `{!AuditLog A} g req now (w w' : World C A) o :
  handle g req now w = (Done o, w') ->
  exists es, audit_events (cp_audit (w_control w')) = audit_events (cp_audit (w_control w)) ++ es /\
  match o with
  | Reject r => if (rj_status r =? UNAUTHORIZED)%Z then es = []
                else exists e, es = [e] /\ at_ms e = now /\ ev_decision e = DecisionDeny
  | Forward _ => exists e, es = [e] /\ at_ms e = now /\ ev_decision e = DecisionAllow
  end.
Proof.
  intros Hw. assert (Hu : forall rj, o = Reject rj -> rj_status rj = UNAUTHORIZED -> w' = w).
  { intros rj -> . by eapply handle_unauthenticated. }
  destruct o as [plan|rj]; [|destruct (Z.eqb_spec (rj_status rj) UNAUTHORIZED) as [Hs|Hs]].
  2:{ rewrite (Hu rj eq_refl Hs). exists []. by rewrite app_nil_r. }
  all: clear Hu; apply handle_handled in Hw as (es & Hh & ->); exists es; (split; [apply audit_events_recorded|]);
    inversion Hh; subst; cbn in *; try done; by eexists.
Qed.

(** C31: availability, up to the panic of percent-decoding. A request is
    always answered, whatever its credentials, policy and service, unless its
    path, its query or its text body holds a percent sign whose two digits cut
    a multi-byte character; ASCII requests and well-formed UTF-8 escapes never
    do. *)
Theorem handle_total g req now (w : World C A) :
  cuts (rq_path req) = false -> cuts (rq_query req) = false ->
  (is_utf8 (rq_body req) = true -> cuts (rq_body req) = false) ->
  exists o w', handle g req now w = (Done o, w').
Proof.
  intros Hp Hq Hb. destruct (canonical_query_total _ Hq) as [cq Hcq].
  unfold handle. eff_run. pose proof (authenticate_spec_aux req now w) as Ha.
  destruct (authenticate req now w) as [[[[p src]|o]|] w1]; [| |destruct Ha; congruence].
  2:{ by do 2 eexists. }
  destruct Ha as [-> _]. unfold authorize. cbn zeta.
  destruct (route _ _) as [s|]; [|by do 2 eexists]. eff_run.
  destruct (path_total _ Hp) as [[c|e] ->]; [|by do 2 eexists].
  destruct (normalize_total s req (decoded c) Hq Hb) as [a ->].
  destruct (decide a p); [|by do 2 eexists]. unfold plan_forward. eff_run.
  pose proof (apply_outbound_spec s a (set_path req (encoded c))
    (sanitize_headers (rq_headers (set_path req (encoded c))) src) now w) as Hs. cbn zeta in Hs.
  destruct (apply_outbound _ _ _ _ _ w) as [[[[hs d]|o]|] w2]; [by do 2 eexists..|].
  cbn [set_path rq_query] in Hs. destruct Hs. congruence.
Qed.

(** C11: what is sent upstream, header by header. A header the service's
    stance injects has exactly the injected value. Of the others,
    [X-Hackamore-Token], [Host], [Content-Length] and the hop-by-hop headers
    are removed, and so are [Authorization] when the capability was proved by
    it and the two headers of a signature when it was proved by one; every
    other header is passed on with all its values. In particular the header
    in which the consumer's token came is never passed on. *)
Theorem forward_headers {HL : HttpLaws H} g req now (w w' : World C A) plan :
  handle g req now w = (Done (Forward plan), w') ->
  exists policy source service c l detail,
    authentic (world_tokens w) req now policy source /\
    route (router g) (default "" (extract_host (rq_headers req))) = Some service /\
    injects (cp_credentials (w_control w)) service (set_path req (encoded c)) now l detail /\
    (forall n, to_ascii_lowercase n = n -> hm_get_all (fp_headers plan) n =
      match List.find (fun nv => nv.1 =s n) (rev l) with
      | Some nv => [nv.2]
      | None => if bool_decide (n ∈ not_forwarded source) then [] else hm_get_all (rq_headers req) n
      end) /\
    (carrier source ∉ l.*1 -> hm_get_all (fp_headers plan) (carrier source) = []).
Proof.
  intros (es & Hh & _)%handle_handled. inversion Hh as [| | | | |p src s c a l detail Ha Hr Hc Hn Hd Hi]; subst.
  exists p, src, s, c, l, detail. split_and!; [done..| |].
  - intros n Hl. cbn [fp_headers]. by rewrite insert_all_get_all, sanitize_get_all, dropped_not_forwarded.
  - intros Hni. cbn [fp_headers]. rewrite insert_all_get_all, sanitize_get_all.
    destruct (List.find _ (rev l)) as [nv|] eqn:Ef; [|by destruct src].
    exfalso. apply List.find_some in Ef as [Hin Heq%String.eqb_eq]. apply Hni. rewrite <- Heq.
    apply list_elem_of_fmap. exists nv. split; [done|]. apply list_elem_of_In. by apply in_rev.
Qed.
End RequestProperties.

(** ** Mint-time validation *)

Section MintLemmas.
Context {J : JsonLib}.

Lemma check_owned_ok owned ts : check_owned owned ts = Ok tt <-> Forall (fun t => t ∈ owned) ts.
Proof.
  induction ts as [|t ts IH]; simpl; [done|]. rewrite Forall_cons, <- IH.
  destruct (bool_decide_reflect (t ∈ owned)); simpl; naive_solver.
Qed.

(** An allow rule names targets, all owned. *)
Definition rule_owned (owned : gset string) (r : Rule) : Prop :=
  effect r = Allow -> targets (matches r) <> [] /\ Forall (fun t => t ∈ owned) (targets (matches r)).

Lemma validate_tenant_rules_ok rs owned :
  validate_tenant_rules rs owned = Ok tt <-> Forall (rule_owned owned) rs.
Proof.
  induction rs as [|r rs IH]; simpl; [done|]. rewrite Forall_cons, <- IH. unfold rule_owned.
  destruct (bool_decide_reflect (effect r <> Allow)) as [He|He]; [naive_solver|].
  apply dec_stable in He.
  destruct (bool_decide_reflect (targets (matches r) = [])) as [Ht|Ht]; [naive_solver|].
  destruct (check_owned owned (targets (matches r))) as [[]|e] eqn:E.
  - apply check_owned_ok in E. naive_solver.
  - split; [done|]. intros [Hr _]. destruct (Hr He) as [_ Ho]. by rewrite <- check_owned_ok, E in Ho.
Qed.

Lemma owned_policy_targets p owned a obs :
  Forall (rule_owned owned) (rules p) -> decide a p = VAllow obs -> target a ∈ owned.
Proof.
  intros Ho (r & Hr & He & Ha)%decide_allow_rule.
  rewrite Forall_forall in Ho. destruct (Ho r Hr He) as [Hne Hall].
  destruct Ha as ([?|(t & Ht & <-)] & _); [done|]. rewrite Forall_forall in Hall. auto.
Qed.

(** A named action the catalogs vouch for, under a rule's targets. *)
Definition vouched (cats : gmap string Catalog) (ts : list string) (id : string) : Prop :=
  match ts with
  | [] =>
      (forall t c, cats !! t = Some c -> Catalog_is_empty c = true) \/
      (exists t c, cats !! t = Some c /\ Catalog_is_empty c = false /\ Catalog_knows c id = true)
  | _ => forall t c, t ∈ ts -> cats !! t = Some c -> Catalog_is_empty c = false -> Catalog_knows c id = true
  end.

Lemma elem_of_nonempty_catalogs cats c :
  c ∈ nonempty_catalogs cats <-> exists t, cats !! t = Some c /\ Catalog_is_empty c = false.
Proof.
  unfold nonempty_catalogs. rewrite list_elem_of_In, filter_In, negb_true_iff, in_map_iff. split.
  - intros [([t c'] & <- & Hin%list_elem_of_In%elem_of_map_to_list) He]. by exists t.
  - intros (t & Ht & He). split; [|done]. exists (t, c). split; [done|].
    by apply list_elem_of_In, elem_of_map_to_list.
Qed.

Lemma check_targets_ok cats id ts :
  check_targets cats id ts = Ok tt <->
  forall t c, t ∈ ts -> cats !! t = Some c -> Catalog_is_empty c = false -> Catalog_knows c id = true.
Proof.
  induction ts as [|t ts IH]; simpl; [set_solver|].
  destruct (cats !! t) as [c|] eqn:Ec.
  - destruct (Catalog_is_empty c) eqn:Ee, (Catalog_knows c id) eqn:Ek; cbn [negb andb]; rewrite ?IH; split;
      intros Hx; try done; try (intros t' c' [->|Hin]%elem_of_cons ??; [congruence|by eapply Hx]);
      try (intros t' c' Hin ??; eapply Hx; [by apply elem_of_cons; right|done..]).
    exfalso. specialize (Hx t c ltac:(set_solver) Ec Ee). congruence.
  - rewrite IH. split; intros Hx t' c'; [intros [->|Hin]%elem_of_cons ??; [congruence|by eapply Hx]|].
    intros Hin ??. eapply Hx; [by apply elem_of_cons; right|done..].
Qed.

Lemma any_catalog_ok cats id :
  negb (bool_decide (nonempty_catalogs cats = []))
    && negb (existsb (fun c => Catalog_knows c id) (nonempty_catalogs cats)) = false <->
  vouched cats [] id.
Proof.
  unfold vouched. rewrite andb_false_iff, !negb_false_iff, bool_decide_eq_true, existsb_exists_elem.
  setoid_rewrite elem_of_nonempty_catalogs. split; intros [Hn|Hk].
  - left. intros t c Ht. destruct (Catalog_is_empty c) eqn:Ee; [done|].
    assert (Hc : c ∈ nonempty_catalogs cats) by (apply elem_of_nonempty_catalogs; by exists t).
    rewrite Hn in Hc. by apply elem_of_nil in Hc.
  - right. naive_solver.
  - left. apply elem_of_nil_inv. intros c (t & Ht & He)%elem_of_nonempty_catalogs.
    by rewrite (Hn t c Ht) in He.
  - right. naive_solver.
Qed.

Lemma check_verbs_ok cats ts vs :
  check_verbs cats ts vs = Ok tt <-> forall id, NamedAction id ∈ vs -> vouched cats ts id.
Proof.
  induction vs as [|[k|id] vs IH]; cbn [check_verbs]; [set_solver| |].
  { rewrite IH. split; intros Hx id; [intros [[=]|?]%elem_of_cons; auto|].
    intros. apply Hx. by apply elem_of_cons; right. }
  destruct ts as [|t ts'].
  - rewrite bool_decide_eq_true_2 by done. pose proof (any_catalog_ok cats id) as Hv.
    destruct (_ && _).
    + split; [done|]. intros Hx. exfalso.
      assert (true = false) by (apply Hv, Hx; set_solver). done.
    + rewrite IH. split; [|set_solver].
      intros Hx id' [[= ->]|Hin]%elem_of_cons; [by apply Hv|auto].
  - set (ts := t :: ts') in *. rewrite bool_decide_eq_false_2 by done. pose proof (check_targets_ok cats id ts) as Hv.
    assert (Hvo : vouched cats ts id <-> check_targets cats id ts = Ok tt).
    { by rewrite Hv. }
    destruct (check_targets cats id ts) as [[]|e].
    + rewrite IH. split; [|set_solver]. intros Hx id' [[= ->]|Hin]%elem_of_cons; [by apply Hvo|auto].
    + split; [done|]. intros Hx. assert (Err e = Ok tt :> result unit MintError); [|done].
      apply Hvo, Hx. set_solver.
Qed.

Lemma validate_catalog_rules_ok cats rs :
  validate_catalog_rules cats rs = Ok tt <->
  Forall (fun r => effect r = Allow -> forall id, NamedAction id ∈ verbs (matches r) ->
    vouched cats (targets (matches r)) id) rs.
Proof.
  induction rs as [|r rs IH]; simpl; [done|]. rewrite Forall_cons, <- IH.
  destruct (bool_decide_reflect (effect r <> Allow)) as [He|He]; [naive_solver|].
  apply dec_stable in He. pose proof (check_verbs_ok cats (targets (matches r)) (verbs (matches r))) as Hc.
  destruct (check_verbs cats _ _) as [[]|e]; [naive_solver|].
  split; [done|]. intros [Hr _]. assert (Err e = Ok tt :> result unit MintError); [|done]. by apply Hc, Hr.
Qed.
End MintLemmas.

(** ** Minting and provisioning *)

Section MintProperties.
Context {J : JsonLib} {H : HttpLib} {R : RingLib} {U : UuidLib}.
Context {C A : Type} `{!CredentialStore C} `{!AuditSink A}.

(** The world after a mint: two UUIDs drawn, one entry added. *)
Definition minted (policy : Policy) (ttl now : Z) (w : World C A) : MintResponse * World C A :=
  let '(r, ts) := tokens_mint (uuid_simple (w_uuids w)) (uuid_simple (S (w_uuids w))) policy ttl now
                    (world_tokens w) in
  (r, mkWorld (set_tokens ts (w_control w)) (S (S (w_uuids w)))).

Lemma mint_minted policy ttl now (w : World C A) :
  mint policy ttl now w = (Done (minted policy ttl now w).1, (minted policy ttl now w).2).
Proof. done. Qed.

(** Minting is checked, on every branch. It succeeds exactly when the
    tenant gate and the catalogs accept the policy, and then stores one new
    token; every refusal carries the first failing check's error and
    leaves the world untouched, no entropy drawn. *)
Lemma mint_checked_spec g policy ttl tenant now (w : World C A) :
  match mint_checked g policy ttl tenant now w with
  | (Done (Ok r), w') =>
      authorize_mint (cp_tenants (w_control w)) policy tenant = Ok tt /\
      validate_catalog g policy = Ok tt /\ (r, w') = minted policy ttl now w
  | (Done (Err e), w') => w' = w /\
      (authorize_mint (cp_tenants (w_control w)) policy tenant = Err e \/
       authorize_mint (cp_tenants (w_control w)) policy tenant = Ok tt /\ validate_catalog g policy = Err e)
  | (Panic, _) => False
  end.
Proof.
  unfold mint_checked. eff_run. cbn [get_control].
  destruct (authorize_mint _ _ _) as [[]|e]; [|by split; [|left]].
  destruct (validate_catalog g policy) as [[]|e]; [|by split; [|right]].
  rewrite mint_minted. split_and!; [done..|]. by destruct (minted policy ttl now w).
Qed.

(** C14: tenants are isolated. Where any tenant is registered, a minted
    policy was submitted under a registered key and, whatever its rules'
    order and wildcards, can only ever allow actions on targets that tenant
    owns. *)
Theorem tenant_isolation g policy ttl tenant now (w w' : World C A) r :
  mint_checked g policy ttl tenant now w = (Done (Ok r), w') ->
  cp_tenants (w_control w) <> ∅ ->
  exists key owned, tenant = Some key /\ cp_tenants (w_control w) !! key = Some owned /\
    forall action obs, decide action policy = VAllow obs -> target action ∈ owned.
Proof.
  intros Hm Hne. unfold mint_checked in Hm. eff_run in Hm. cbn [get_control] in Hm.
  unfold authorize_mint, tenants_is_empty in Hm. rewrite bool_decide_eq_false_2 in Hm by done.
  destruct tenant as [key|]; [|done]. unfold tenants_owned in Hm.
  destruct (cp_tenants (w_control w) !! key) as [owned|] eqn:Eo; [|done].
  destruct (validate_tenant_policy policy owned) as [[]|] eqn:Ev; [|done].
  exists key, owned. split_and!; [done..|]. intros a obs. apply owned_policy_targets.
  by apply validate_tenant_rules_ok.
Qed.

(** C32: the catalog check, declaratively: it accepts a policy exactly when
    every named action of an allow rule is vouched for, by the catalog of
    each target the rule names that has one, or by some catalog when it
    names no target and any catalog is configured. *)
Theorem validate_catalog_spec g policy :
  validate_catalog g policy = Ok tt <->
  Forall (fun r => effect r = Allow -> forall id, NamedAction id ∈ verbs (matches r) ->
    vouched (catalogs g) (targets (matches r)) id) (rules policy).
Proof. apply validate_catalog_rules_ok. Qed.

(** *** What provisioning does to the world *)

(** A provisioned entry is the consumer's own token, or a dummy credential
    alive in the table for the policy, until [t]. *)
Definition entry_ok (token : string) (policy : Policy) (t : Z) (ts : Tokens) (e : ProvisionService) : Prop :=
  match ps_auth e with
  | BearerAuth tok => tok = token
  | SigV4Auth akid _ _ => exists secret, ts !! akid = Some (mkEntry policy t (Some secret))
  end.

Lemma entry_ok_insert token policy t ts akid s e :
  entry_ok token policy t ts e ->
  entry_ok token policy t (<[akid := mkEntry policy t (Some s)]> ts) e.
Proof.
  unfold entry_ok. destruct (ps_auth e) as [|k ? ?]; [done|]. intros [secret Hs].
  destruct (String.eqb_spec akid k) as [->|Hne].
  - rewrite lookup_insert_eq. by eexists.
  - rewrite lookup_insert_ne by done. by eexists.
Qed.

Lemma provision_services_spec ss token policy now ttl (w : World C A) :
  exists l w', provision_services ss token policy now ttl w = (Done l, w') /\
    map ps_target l = map svc_name (List.filter (provisioned policy) ss) /\
    Forall (entry_ok token policy (expiry ttl now) (world_tokens w')) l /\
    (forall e, entry_ok token policy (expiry ttl now) (world_tokens w) e ->
      entry_ok token policy (expiry ttl now) (world_tokens w') e).
Proof.
  revert w. induction ss as [|s ss IH]; intros w.
  { exists [], w. split_and!; done. }
  cbn [provision_services List.filter]. destruct (provisioned policy s); cbn [negb]; [|apply IH].
  unfold mint_service_auth. destruct (svc_outbound s) as [|c|n c|c akid region aws].
  4:{ set (w1 := mkWorld (set_tokens (tokens_mint_sigv4 (uuid_simple (w_uuids w))
        (uuid_simple (S (w_uuids w))) (uuid_simple (S (S (w_uuids w)))) policy ttl now (world_tokens w)).2
        (w_control w)) (S (S (S (w_uuids w)))) : World C A).
      destruct (IH w1) as (l & w' & E & Ht & Hl & Hk).
      do 2 eexists. split.
      { eff_run. unfold on_tokens. cbn -[provision_services].
        match goal with |- context [provision_services _ _ _ _ _ ?x] => change x with w1 end.
        by rewrite E. }
      cbn [map ps_target]. split_and!; [by f_equal| |].
      - constructor; [|done]. apply Hk. unfold entry_ok. cbn. rewrite lookup_insert_eq. by eexists.
      - intros e He. apply Hk. cbn. by apply entry_ok_insert. }
  all: destruct (IH w) as (l & w' & E & Ht & Hl & Hk); do 2 eexists;
    (split; [eff_run; by rewrite E|]); cbn [map ps_target];
    (split_and!; [by f_equal|by constructor|done]).
Qed.
End MintProperties.

Section ProvisionProperties.
Context {J : JsonLib} {H : HttpLib} {R : RingLib} {U : UuidLib}.

(** Provisioning, on every branch. An unknown or expired token gets
    nothing and changes nothing; a live one gets its own token and expiry
    back, one entry per configured service its policy's allow rules reach,
    in order, each carrying that same token or a dummy SigV4 credential
    that is in the table for the same policy. *)
Lemma provision_spec {C A : Type} `{!CredentialStore C} `{!AuditSink A} g token now (w : World C A) :
  match provision g token now w with
  | (Done None, w') => w' = w /\ tokens_resolve_full token now (world_tokens w) = None
  | (Done (Some doc), w') => exists policy t,
      tokens_resolve_full token now (world_tokens w) = Some (policy, t) /\
      hackamore_token doc = token /\ pd_expires_at_ms doc = t /\
      map ps_target (pd_services doc) =
        map svc_name (List.filter (provisioned policy) (services (router g))) /\
      Forall (entry_ok token policy (expiry (ttl_remaining now t) now) (world_tokens w')) (pd_services doc)
  | (Panic, _) => False
  end.
Proof.
  unfold provision. eff_run. cbn [get_control].
  change (cp_tokens (w_control w)) with (world_tokens w).
  destruct (tokens_resolve_full token now (world_tokens w)) as [[policy t]|]; [|done].
  destruct (provision_services_spec (services (router g)) token policy now (ttl_remaining now t) w)
    as (l & w' & E & Ht & Hl & _).
  unfold provisionable_services. rewrite E. by exists policy, t.
Qed.

(** C34: a dummy credential dies with its token, to within a second: its
    expiry is later than now, never 1000 ms past the token's, and not past
    it at all while the token has a full second left. *)
Theorem dummy_expiry_bound now t :
  is_u64 now -> is_u64 t -> (now < t)%Z ->
  (now < expiry (ttl_remaining now t) now < t + 1000)%Z /\
  (now + 1000 <= t -> expiry (ttl_remaining now t) now <= t)%Z.
Proof.
  unfold is_u64, expiry, ttl_remaining, u64_saturating_add, u64_saturating_mul, u64_saturating_sub, U64_MAX.
  intros Hn Ht Hlt. pose proof (Z.div_mod (Z.max (t - now) 0) 1000 ltac:(lia)).
  pose proof (Z.mod_pos_bound (Z.max (t - now) 0) 1000 ltac:(lia)).
  set (q := (Z.max (t - now) 0 / 1000)%Z) in *. set (m := (Z.max (t - now) 0 mod 1000)%Z) in *. lia.
Qed.

(** C33: the document carries no upstream secret: it is the same whatever the
    credential store holds, byte for byte, for any two worlds with the same
    tokens and the same randomness. *)
Theorem provision_no_secrets {C1 A1 C2 A2 : Type} `{!CredentialStore C1} `{!CredentialStore C2}
    `{!AuditSink A1} `{!AuditSink A2} g token now (w1 : World C1 A1) (w2 : World C2 A2) :
  world_tokens w1 = world_tokens w2 -> w_uuids w1 = w_uuids w2 ->
  (provision g token now w1).1 = (provision g token now w2).1.
Proof.
  intros Ht Hu. unfold provision. eff_run. cbn [get_control].
  change (cp_tokens (w_control w1)) with (world_tokens w1).
  change (cp_tokens (w_control w2)) with (world_tokens w2). rewrite Ht.
  destruct (tokens_resolve_full token now (world_tokens w2)) as [[policy t]|]; [|done].
  unfold provisionable_services. generalize (ttl_remaining now t). intros ttl.
  assert (Hs : forall ss (v1 : World C1 A1) (v2 : World C2 A2),
    world_tokens v1 = world_tokens v2 -> w_uuids v1 = w_uuids v2 ->
    (provision_services ss token policy now ttl v1).1 = (provision_services ss token policy now ttl v2).1).
  { clear. induction ss as [|s ss IH]; intros v1 v2 Ht Hu; [done|]. cbn [provision_services].
    destruct (negb (provisioned policy s)); [by apply IH|].
    unfold mint_service_auth. destruct (svc_outbound s); eff_run; unfold on_tokens, fresh_uuid; cbn -[provision_services].
    4:{ rewrite Hu.
        match goal with |- context [provision_services _ _ _ _ _ ?x] =>
          match goal with |- context [provision_services _ _ _ _ _ ?y] =>
            tryif constr_eq x y then fail else
              assert (E : (provision_services ss token policy now ttl x).1 = (provision_services ss token policy now ttl y).1)
        end end.
        { apply IH; [|done]. unfold world_tokens in *. cbn. by rewrite Ht. }
        destruct (provision_services ss _ _ _ _ _) as [[]?], (provision_services ss _ _ _ _ _) as [[]?];
          cbn in E; simplify_eq; done. }
    all: pose proof (IH v1 v2 Ht Hu) as E;
      destruct (provision_services ss _ _ _ _ v1) as [[]?], (provision_services ss _ _ _ _ v2) as [[]?];
      cbn in E; simplify_eq; done. }
  pose proof (Hs (services (router g)) w1 w2 Ht Hu) as E.
  destruct (provision_services _ _ _ _ _ w1) as [[]?], (provision_services _ _ _ _ _ w2) as [[]?];
    cbn in E; simplify_eq; done.
Qed.

(** Provisioning is complete for the policy: if it can allow any action
    at all on a configured service, that service is in the document. *)
Lemma provision_complete a policy obs s :
  decide a policy = VAllow obs -> target a = svc_name s -> provisioned policy s = true.
Proof.
  intros (r & Hr & He & Ha)%decide_allow_rule Ht. unfold provisioned. apply orb_true_iff.
  destruct Ha as (Hf & _). destruct Hf as [Hnil|(t & Hin & ->)].
  - left. apply existsb_exists_elem. exists r. split; [done|]. by rewrite He, Hnil.
  - right. apply bool_decide_eq_true. rewrite <- Ht. unfold named_targets.
    apply list_elem_of_In, in_flat_map. exists r. split; [by apply list_elem_of_In|].
    rewrite bool_decide_eq_true_2 by done. by apply list_elem_of_In.
Qed.
End ProvisionProperties.

(** ** Witnesses: one service, one tenant, one token *)

#[local] Existing Instance ref_json.
#[local] Existing Instance ref_http.
#[local] Existing Instance ref_ring.
#[local] Existing Instance ref_uuid.
#[local] Existing Instance ref_http_laws.

Definition ex_policy : Policy :=
  mkPolicy [mkRule Deny (mkMatch ["gh"] [] ["repos/*/secret/**"] []);
            mkRule Allow (mkMatch ["gh"] [Crud Read] ["repos/**"] [])].

Definition ex_gateway : Gateway :=
  Gateway_new (mkRouter
    [with_outbound (Service_new "gh" "api.github.com" "https://api.github.com/") (Bearer "gh-app");
     with_outbound (Service_new "ec2" "*.amazonaws.com" "https://ec2.amazonaws.com")
       (SigV4 "aws" "AKIDEXAMPLE" "us-east-1" "ec2")]).

Definition ex_world0 : World InMemoryCredentials InMemoryAudit :=
  mkWorld (mkControlPlane ∅ {["tenant-a" := {["gh"]}]}
    (mkInMemoryCredentials {["gh-app" := mkSecret "ghs_real"]}) (mkInMemoryAudit [])) 0.

Definition done_or {T} (d : T) (c : comp T) : T := match c with Done a => a | Panic => d end.

Definition ex_minted : comp (result MintResponse MintError) * World InMemoryCredentials InMemoryAudit :=
  mint_checked ex_gateway ex_policy 60 (Some "tenant-a") 1000 ex_world0.
Definition ex_response : MintResponse :=
  match ex_minted.1 with Done (Ok r) => r | _ => mkMintResponse "" 0 end.
Definition ex_world : World InMemoryCredentials InMemoryAudit := ex_minted.2.
Definition ex_token : string := mr_token ex_response.

Definition ex_request : ProxyRequest :=
  mkProxyRequest _ "GET" "/repos//o/./r" "per_page=1"
    [("host", "API.github.com:443"); ("x-hackamore-token", ex_token); ("accept", "*/*");
     ("authorization", "Bearer mine"); ("connection", "close")] "".

Definition ex_handled : comp Outcome * World InMemoryCredentials InMemoryAudit :=
  handle ex_gateway ex_request 2000 ex_world.
Definition ex_outcome : Outcome := done_or unauth ex_handled.1.
Definition ex_plan : ForwardPlan :=
  match ex_outcome with Forward p => p | Reject _ => mkForwardPlan "" "" hm_empty "" end.

Lemma ex_plan_headers :
  fp_url ex_plan = "https://api.github.com/repos/o/r?per_page=1" /\
  fp_headers ex_plan = [("accept", "*/*"); ("authorization", "Bearer ghs_real")].
Proof. split; vm_compute; reflexivity. Qed.

Lemma handle_refines_witness :
  exists es, handled ex_gateway (world_tokens ex_world) (cp_credentials (w_control ex_world)) ex_request 2000
    ex_outcome es /\ ex_handled.2 = recorded es ex_world.
Proof. apply handle_refines. hk_vm. Defined.

Lemma ex_world_tokens : world_tokens ex_world = {[ex_token := mkEntry ex_policy 61000 None]}.
Proof. hk_vm. Qed.

Lemma authenticate_exact_witness :
  match authenticate ex_request 2000 ex_world with
  | (Done (Ok (p, s)), w') => w' = ex_world /\ proves (world_tokens ex_world) ex_request 2000 p s
  | (Done (Err o), w') => w' = ex_world /\ (exists m, o = reject UNAUTHORIZED Unauthenticated m) /\
      forall p s, ~ proves (world_tokens ex_world) ex_request 2000 p s
  | (Panic, w') => w' = ex_world /\ canonical_query (rq_query ex_request) = Panic
  end.
Proof.
  apply authenticate_exact. intros key source e _. rewrite ex_world_tokens.
  intros [_ <-]%lookup_singleton_Some. reflexivity.
Defined.

(** It succeeds. *)
Lemma ex_request_authentic :
  (authenticate ex_request 2000 ex_world).1 = Done (Ok (ex_policy, HackamoreHeader)).
Proof. hk_vm. Qed.

Lemma forward_only_if_allowed_witness :
  exists policy source service c action,
    authentic (world_tokens ex_world) ex_request 2000 policy source /\
    route (router ex_gateway) (default "" (extract_host (rq_headers ex_request))) = Some service /\
    Canonicalize.path (rq_path ex_request) = Done (Ok c) /\
    normalize service ex_request (decoded c) = Done action /\
    decides action (rules policy) (VAllow []) /\
    fp_url ex_plan = upstream_url (svc_upstream_base service) (encoded c) (rq_query ex_request) /\
    fp_method ex_plan = rq_method ex_request /\ fp_body ex_plan = rq_body ex_request.
Proof. apply (forward_only_if_allowed _ _ _ _ ex_handled.2). hk_vm. Defined.

Lemma one_audit_event_witness :
  exists es, audit_events (cp_audit (w_control ex_handled.2)) =
      audit_events (cp_audit (w_control ex_world)) ++ es /\
  match ex_outcome with
  | Reject r => if (rj_status r =? UNAUTHORIZED)%Z then es = []
                else exists e, es = [e] /\ at_ms e = 2000%Z /\ ev_decision e = DecisionDeny
  | Forward _ => exists e, es = [e] /\ at_ms e = 2000%Z /\ ev_decision e = DecisionAllow
  end.
Proof. apply (one_audit_event ex_gateway ex_request). hk_vm. Defined.

Lemma handle_total_witness : exists o w', handle ex_gateway ex_request 2000 ex_world = (Done o, w').
Proof. apply handle_total; [hk_vm|hk_vm|intros _; hk_vm]. Defined.

Lemma forward_headers_witness :
  exists policy source service c l detail,
    authentic (world_tokens ex_world) ex_request 2000 policy source /\
    route (router ex_gateway) (default "" (extract_host (rq_headers ex_request))) = Some service /\
    injects (cp_credentials (w_control ex_world)) service (set_path ex_request (encoded c)) 2000 l detail /\
    (forall n, to_ascii_lowercase n = n -> hm_get_all (fp_headers ex_plan) n =
      match List.find (fun nv => nv.1 =s n) (rev l) with
      | Some nv => [nv.2]
      | None => if bool_decide (n ∈ not_forwarded source) then [] else hm_get_all (rq_headers ex_request) n
      end) /\
    (carrier source ∉ l.*1 -> hm_get_all (fp_headers ex_plan) (carrier source) = []).
Proof. apply (forward_headers ex_gateway _ _ ex_world ex_handled.2). hk_vm. Defined.

Lemma tenant_isolation_witness :
  exists key owned, Some "tenant-a" = Some key /\ cp_tenants (w_control ex_world0) !! key = Some owned /\
    forall action obs, decide action ex_policy = VAllow obs -> target action ∈ owned.
Proof.
  apply (tenant_isolation ex_gateway ex_policy 60 (Some "tenant-a") 1000 ex_world0 ex_world ex_response);
    [hk_vm|]. discriminate.
Defined.

Lemma dummy_expiry_bound_witness :
  (0 < expiry (ttl_remaining 0 500) 0 < 500 + 1000)%Z /\
  (0 + 1000 <= 500 -> expiry (ttl_remaining 0 500) 0 <= 500)%Z.
Proof. apply dummy_expiry_bound; unfold is_u64, U64_MAX; lia. Defined.

(** The dummy of a token with 500 ms left lives for 1000. *)
Lemma dummy_outlives_token : expiry (ttl_remaining 0 500) 0 = 1000%Z.
Proof. reflexivity. Qed.

Definition ex_other_world : World InMemoryCredentials InMemoryAudit :=
  mkWorld (mkControlPlane (world_tokens ex_world) ∅ (mkInMemoryCredentials ∅) (mkInMemoryAudit []))
    (w_uuids ex_world).

Lemma provision_no_secrets_witness :
  (provision ex_gateway ex_token 2000 ex_world).1 = (provision ex_gateway ex_token 2000 ex_other_world).1.
Proof. apply provision_no_secrets; reflexivity. Defined.

Lemma provision_complete_witness : provisioned ex_policy (Service_new "gh" "*" "https://x") = true.
Proof.
  apply (provision_complete (Action_of "gh" (Crud Read) (mkResource "repos/o/r" "repo")) ex_policy []);
    [hk_vm|reflexivity].
Defined.
