(* ===== verification/Upgrade.v ===== *)
(** [gateway/src/upgrade.rs]: recognising an HTTP upgrade, carrying its headers
    onto the forward plan, parsing the upstream URL and relaying the upgrade.
    What the network answers is the record [Net]; a relay returns the response
    and the list of things it did to the network, in order. The byte tunnel
    itself ([copy_bidirectional]) is the event [Splice]. *)

From S2P Require Import Prelude RustStr Datetime External Reference Models SigV4 Control Gateway.

Definition UPGRADE_HEADERS : list string :=
  ["connection"; "upgrade"; "sec-websocket-key"; "sec-websocket-version"; "sec-websocket-protocol";
   "sec-websocket-extensions"].

(** ** The upstream URL *)

Record UpstreamTarget := mkTarget {
  ut_tls : bool;
  ut_host : string;
  ut_port : Z;
  ut_path_and_query : string;
}.

Definition default_port (tls : bool) : Z := if tls then 443 else 80.

(** The match on [rest.find('/')]. *)
Definition split_authority (rest : string) : string * string :=
  match split_once "/" rest with
  | Some (h, t) => (h, String "/" t)
  | None => (rest, "/")
  end.

Definition UpstreamTarget_parse (url : string) : option UpstreamTarget :=
  '(scheme, rest) ← split_once_str "://" url;
  tls ← (if scheme =s "https" then Some true else if scheme =s "http" then Some false else None);
  let '(authority, path) := split_authority rest in
  '(host, port) ← match rsplit_once ":" authority with
                  | Some (h, p) => port ← parse_u16 p; Some (h, port)
                  | None => Some (authority, default_port tls)
                  end;
  Some (mkTarget tls host port (if sempty path then "/" else path)).

Definition authority (t : UpstreamTarget) : string :=
  if (ut_port t =? default_port (ut_tls t))%Z then ut_host t
  else ut_host t +:+ ":" +:+ show_dec (ut_port t).

(** ** Headers *)

Section Headers.
Context {H : HttpLib}.

Definition is_upgrade (hs : HeaderMap) : bool :=
  match header_str hs "connection" with
  | Some v => existsb (fun t => eq_ignore_ascii_case (trim t) "upgrade") (split "," v)
  | None => false
  end && hm_contains_key hs "upgrade".

(** One turn of the loop of [carry_upgrade_headers]. *)
Definition carry_header (original : HeaderMap) (plan : HeaderMap) (name : string) : HeaderMap :=
  match hm_get original name with
  | Some v => match hn_from_bytes name with Some hn => hm_insert plan hn v | None => plan end
  | None => plan
  end.

Definition carry_upgrade_headers (original plan : HeaderMap) : HeaderMap :=
  fold_left (carry_header original) UPGRADE_HEADERS plan.
End Headers.

(** ** The relay *)

Section Relay.
Context {H : HttpLib} {Q : RequestLib}.

Record UpgradeRequest := mkUpgradeRequest {
  ur_method : string;
  ur_uri : string;
  ur_headers : HeaderMap;
}.

Definition build_request (plan : ForwardPlan) (target : UpstreamTarget) : result UpgradeRequest string :=
  match uri_try_from (ut_path_and_query target) with
  | Err e => Err e
  | Ok uri =>
      match hv_try_from (authority target) with
      | Err e => Err e
      | Ok host =>
          Ok (mkUpgradeRequest (fp_method plan) uri
                (hm_append (fold_left (fun out nv => hm_append out nv.1 nv.2) (hm_iter (fp_headers plan)) hm_empty)
                   "host" host))
      end
  end.

(** An upstream's answer; its body is streamed. *)
Record UpstreamResponse := mkUpstreamResponse {
  us_status : Z;
  us_headers : HeaderMap;
  us_body : string;
}.

(** A request reqwest makes by itself, when an answer redirects it. *)
Record Hop := mkHop {
  hop_method : string;
  hop_url : string;
  hop_headers : HeaderMap;
  hop_body : option string;
}.

(** The answers the network gives while one request is served: reqwest's
    [send], with the redirects its default policy follows on the way to the
    final answer; TCP, TLS and HTTP/1 connection establishment, and the
    request over that connection. *)
Record Net := mkNet {
  net_http : string -> string -> HeaderMap -> option string -> list Hop * result UpstreamResponse string;
  net_tcp : string -> Z -> result unit string;
  net_server_name : string -> bool;
  net_tls : string -> result unit string;
  net_handshake : result unit string;
  net_send : UpgradeRequest -> result UpstreamResponse string;
}.

Inductive NetEvent :=
| SendHttp (method url : string) (headers : HeaderMap) (body : option string)
| FollowRedirect (hop : Hop)
| Connect (host : string) (port : Z) (tls : bool)
| SendUpgrade (request : UpgradeRequest)
| Splice.

(** What a handler answers: a text or JSON body under a status, one of the
    schema's documents under 200, or an upstream's answer. *)
Inductive Response :=
| TextResponse (status : Z) (message : string)
| JsonResponse (status : Z) (body : string)
| MintedResponse (response : MintResponse)
| RevokedResponse (revoked : bool)
| ProvisionResponse (doc : ProvisionDoc)
| Relayed (status : Z) (headers : HeaderMap) (body : string).

Definition SWITCHING_PROTOCOLS : Z := 101.

Definition bad (message : string) : Response := TextResponse BAD_GATEWAY message.

(** [connect], with [handshake]. *)
Definition connect (net : Net) (target : UpstreamTarget) : result unit string :=
  match net_tcp net (ut_host target) (ut_port target) with
  | Err e => Err e
  | Ok _ =>
      if ut_tls target then
        if net_server_name net (ut_host target) then
          match net_tls net (ut_host target) with
          | Err e => Err e
          | Ok _ => net_handshake net
          end
        else Err "invalid upstream server name"
      else net_handshake net
  end.

Definition tunnel (net : Net) (plan : ForwardPlan) : Response * list NetEvent :=
  match UpstreamTarget_parse (fp_url plan) with
  | None => (bad "invalid upstream url for upgrade", [])
  | Some target =>
      let opened := Connect (ut_host target) (ut_port target) (ut_tls target) in
      match connect net target with
      | Err e => (bad ("upstream connect failed: " +:+ e), [opened])
      | Ok _ =>
          match build_request plan target with
          | Err e => (bad e, [opened])
          | Ok req =>
              match net_send net req with
              | Err e => (bad ("upstream upgrade request failed: " +:+ e), [opened; SendUpgrade req])
              | Ok resp =>
                  if negb (us_status resp =? SWITCHING_PROTOCOLS)%Z
                  then (Relayed (us_status resp) (us_headers resp) (us_body resp), [opened; SendUpgrade req])
                  else (Relayed (us_status resp) (us_headers resp) "", [opened; SendUpgrade req; Splice])
              end
          end
      end
  end.
End Relay.

(** ** Lemmas on the URL *)

(** [strip_prefix] fails on what it has already seen. *)
Lemma strip_prefix_none_ext p u t t' :
  (String.length p <= String.length u)%nat ->
  strip_prefix p (u +:+ t) = None -> strip_prefix p (u +:+ t') = None.
Proof.
  revert u. induction p as [|a p IH]; intros [|b u] Hl; cbn [String.length] in Hl; [done|done|lia|].
  hk_str. cbn [strip_prefix]. destruct (a =b b); [|done]. apply IH. lia.
Qed.

(** The first occurrence of a pattern does not depend on what follows it. *)
Lemma split_once_str_ext pat s h t t' :
  split_once_str pat s = Some (h, t) -> split_once_str pat (h +:+ pat +:+ t') = Some (h, t').
Proof.
  intros E. pose proof (split_once_str_some _ _ _ _ E) as ->. revert E.
  induction h as [|a h IH]; hk_str.
  - intros _. destruct pat as [|b pat]; [by destruct t'|].
    hk_str. cbn [split_once_str strip_prefix]. by rewrite Ascii.eqb_refl, strip_prefix_app.
  - cbn [split_once_str].
    destruct (strip_prefix pat (String a (h +:+ pat +:+ t))) as [r|] eqn:E1; [done|].
    assert (E2 : strip_prefix pat (String a (h +:+ pat +:+ t')) = None).
    { rewrite <- !sapp_cons, <- !(sapp_assoc _ pat) in *. eapply strip_prefix_none_ext; [|exact E1].
      rewrite slength_app. cbn. lia. }
    rewrite E2. destruct (split_once_str pat (h +:+ pat +:+ t)) as [[h' t'']|]; [|done].
    intros [= <- ->]. by rewrite IH.
Qed.

Lemma trim_end_matches_app c p x :
  trim_end_matches c x <> "" -> trim_end_matches c (p +:+ x) = p +:+ trim_end_matches c x.
Proof.
  intros Hx. induction p as [|a p IH]; [done|]. hk_str. cbn [trim_end_matches]. rewrite IH.
  destruct (p +:+ trim_end_matches c x) eqn:E; [|done].
  exfalso. destruct p; [hk_str in E; congruence|done].
Qed.

Lemma trim_end_matches_lacks c s t :
  lacks c s -> s <> "" -> trim_end_matches c (s +:+ t) = s +:+ trim_end_matches c t.
Proof.
  induction s as [|a s IH]; [done|]. rewrite lacks_cons. intros [Ha Hs] _. hk_str. cbn [trim_end_matches].
  destruct s as [|b s].
  - hk_str. destruct (trim_end_matches c t); [|done]. by destruct (Ascii.eqb_spec a c).
  - rewrite IH by done. hk_str. done.
Qed.

(** Trimming keeps a slash at the front, unless it leaves nothing. *)
Lemma trim_end_matches_head c t :
  trim_end_matches c (String c t) = "" \/ exists u, trim_end_matches c (String c t) = String c u.
Proof.
  cbn [trim_end_matches]. destruct (trim_end_matches c t) as [|b u]; [|by right; exists (String b u)].
  left. by rewrite Ascii.eqb_refl.
Qed.

Lemma split_authority_app a x t : lacks "/" a -> x = String "/" t -> split_authority (a +:+ x) = (a, x).
Proof. intros Ha ->. unfold split_authority. by rewrite split_once_app. Qed.

(** Where a URL points, before its path. *)
Definition endpoint_of (t : UpstreamTarget) : bool * string * Z := (ut_tls t, ut_host t, ut_port t).

(** The parse depends on the scheme and the authority alone, then the path. *)
Lemma parse_same_authority scheme url rest rest' a x x' t0 :
  split_once_str "://" url = Some (scheme, rest) -> split_authority rest = (a, x) ->
  split_authority rest' = (a, x') ->
  UpstreamTarget_parse url = Some t0 ->
  exists t, UpstreamTarget_parse (scheme +:+ "://" +:+ rest') = Some t /\ endpoint_of t = endpoint_of t0 /\
    ut_path_and_query t = (if sempty x' then "/" else x').
Proof.
  unfold UpstreamTarget_parse. intros E Ea Ea'. rewrite (split_once_str_ext _ _ _ _ rest' E), E.
  cbn [mbind option_bind]. rewrite Ea, Ea'.
  destruct (if scheme =s "https" then _ else _) as [tls|]; [|done]. cbn [mbind option_bind].
  destruct (match rsplit_once ":" a with Some _ => _ | None => _ end) as [[host port]|]; [|done].
  cbn [mbind option_bind]. intros [= <-]. eexists. split; [reflexivity|]. done.
Qed.

(** *** Ports *)

Lemma parse_digits_dec fuel n s hi :
  (0 <= n <= hi)%Z -> (n < 10 ^ Z.of_nat fuel)%Z ->
  parse_digits 10 1 0 hi (dec_go fuel n s) 0 = parse_digits 10 1 0 hi s n.
Proof.
  revert n s. induction fuel as [|f IH]; intros n s Hn Hf.
  - cbn in Hf. replace n with 0%Z by lia. done.
  - cbn [dec_go]. pose proof (Z.div_mod n 10 ltac:(lia)). pose proof (Z.mod_pos_bound n 10 ltac:(lia)).
    rewrite Nat2Z.inj_succ, Z.pow_succ_r in Hf by lia.
    assert (Hd : forall acc, (acc * 10 + n mod 10 = n)%Z ->
      parse_digits 10 1 0 hi (String (digit_char (n mod 10)) s) acc = parse_digits 10 1 0 hi s n).
    { intros acc E. cbn [parse_digits]. rewrite (proj1 (digit_char_to (n mod 10) ltac:(lia))).
      rewrite Z.mul_1_l, E. by replace (in_range 0 hi n) with true by (symmetry; apply in_range_true; lia). }
    destruct (Z.ltb_spec n 10).
    + apply Hd. lia.
    + rewrite IH by (try apply Z.div_lt_upper_bound; lia). apply Hd. lia.
Qed.

Lemma dec_go_head fuel n s :
  (0 <= n)%Z -> exists d t, (0 <= d < 10)%Z /\ dec_go (S fuel) n s = String (digit_char d) t.
Proof.
  revert n s. induction fuel as [|f IH]; intros n s Hn; cbn [dec_go].
  - pose proof (Z.mod_pos_bound n 10 ltac:(lia)). destruct (n <? 10)%Z; eauto.
  - pose proof (Z.mod_pos_bound n 10 ltac:(lia)). destruct (n <? 10)%Z; [eauto|].
    apply (IH (n / 10)%Z (String (digit_char (n mod 10)) s)). apply Z.div_pos; lia.
Qed.

(** A port printed and parsed again. *)
Lemma parse_u16_show_dec p : (0 <= p <= 65535)%Z -> parse_u16 (show_dec p) = Some p.
Proof.
  intros Hp. pose proof (parse_digits_dec 20 p "" 65535 Hp ltac:(cbn; lia)) as E.
  unfold parse_u16, show_dec in *. destruct (dec_go_head 19 p "" ltac:(lia)) as (d & t & Hd & Ht).
  rewrite Ht in *. destruct (digit_char_to d Hd) as (_ & H1 & H2). unfold parse_unsigned.
  destruct (Ascii.eqb_spec (digit_char d) "+"); [done|].
  cbn [parse_digits] in E |- *. rewrite <- E.
  destruct (digit_char d) as [[] [] [] [] [] [] [] []]; try done; by destruct t.
Qed.

Lemma show_dec_lacks c n : is_ascii_digit c = false -> lacks c (show_dec n).
Proof.
  intros Hc. apply (lacks_sforall is_ascii_digit _ _ Hc). apply dec_go_digits. done.
Qed.

(** What a string splits into at its first slash. *)
Lemma split_authority_spec rest a x :
  split_authority rest = (a, x) ->
  lacks "/" a /\ exists y, rest = a +:+ y /\ (y = "" \/ exists u, y = String "/" u).
Proof.
  unfold split_authority. destruct (split_once "/" rest) as [[h t]|] eqn:E; intros [= <- <-].
  - apply split_once_some in E as [-> Hh]. split; [done|]. eauto.
  - split; [|exists ""; rewrite sapp_nil_r; auto].
    destruct (decide (lacks "/" rest)) as [Hl|Hl]; [done|]. exfalso. clear -E Hl.
    induction rest as [|b rest IH]; [done|]. cbn [split_once] in E. rewrite lacks_cons in Hl.
    destruct (Ascii.eqb_spec b "/"); [done|]. destruct (split_once "/" rest) as [[]|]; [done|]. tauto.
Qed.

(** The forward plan's URL keeps the base's scheme, host and port. *)
Lemma upstream_url_target base p query t0 :
  UpstreamTarget_parse base = Some t0 -> ut_host t0 <> "" -> starts_with "/" p = true ->
  exists t pre, UpstreamTarget_parse (upstream_url base p query) = Some t /\ endpoint_of t = endpoint_of t0 /\
    ut_path_and_query t = pre +:+ p +:+ (if sempty query then "" else "?" +:+ query).
Proof.
  intros Hp Hh [p' ->]%starts_with_true.
  destruct (split_once_str "://" base) as [[scheme rest]|] eqn:E; [|unfold UpstreamTarget_parse in Hp; by rewrite E in Hp].
  destruct (split_authority rest) as [a x] eqn:Ea.
  destruct (split_authority_spec _ _ _ Ea) as (Hl & y & -> & Hy).
  assert (Hne : a <> "").
  { intros ->. unfold UpstreamTarget_parse in Hp. rewrite E in Hp. cbn [mbind option_bind] in Hp. rewrite Ea in Hp.
    destruct (if scheme =s "https" then _ else _) in Hp; [|done]. cbn in Hp. by injection Hp as <-. }
  assert (Htrim : trim_end_matches "/" base = scheme +:+ "://" +:+ a +:+ trim_end_matches "/" y).
  { rewrite (split_once_str_some _ _ _ _ E). pose proof (trim_end_matches_lacks "/" a y Hl Hne) as Ht.
    rewrite <- Ht, <- !(sapp_assoc scheme). apply trim_end_matches_app. rewrite Ht. by destruct a. }
  set (q := if sempty query then "" else "?" +:+ query).
  assert (Hu : upstream_url base ("/" +:+ p') query =
    scheme +:+ "://" +:+ (a +:+ trim_end_matches "/" y +:+ "/" +:+ p' +:+ q)).
  { unfold upstream_url, q. cbn zeta. rewrite Htrim. destruct (sempty query); rewrite ?sapp_nil_r, ?sapp_assoc; done. }
  assert (Hs : exists u, trim_end_matches "/" y +:+ "/" +:+ p' +:+ q = String "/" u).
  { destruct Hy as [->|[u ->]]; [by eexists|].
    destruct (trim_end_matches_head "/" u) as [->|[u' ->]]; hk_str; by eexists. }
  destruct Hs as [u Hs]. rewrite Hu, Hs.
  destruct (parse_same_authority scheme base _ (a +:+ String "/" u) a x (String "/" u) t0 E Ea
    (split_authority_app _ _ _ Hl eq_refl) Hp) as (t & Ht & Hep & Hpq).
  exists t, (trim_end_matches "/" y). split_and!; [done..|]. rewrite Hpq. cbn [sempty]. by rewrite <- Hs, !sapp_assoc.
Qed.

(** ** Properties *)

(** The relay is pinned to the configured upstream. Whatever the request's
    path (as long as it starts with a slash) and query, the URL of a forward
    plan parses, and to the scheme, host and port of the service's own base
    URL, so neither can redirect a tunnel to another machine. *)
Lemma upstream_pinned base p query t0 :
  UpstreamTarget_parse base = Some t0 -> ut_host t0 <> "" -> starts_with "/" p = true ->
  exists t pre, UpstreamTarget_parse (upstream_url base p query) = Some t /\ endpoint_of t = endpoint_of t0 /\
    ut_path_and_query t = pre +:+ p +:+ (if sempty query then "" else "?" +:+ query).
Proof. apply upstream_url_target. Qed.

(** An upstream's [Host] is its address. For a host without a colon or a
    slash, a URL made of the authority that [authority] prints and any
    absolute path parses back to the same target. *)
Lemma authority_roundtrip t :
  lacks ":" (ut_host t) -> lacks "/" (ut_host t) -> (0 <= ut_port t <= 65535)%Z ->
  starts_with "/" (ut_path_and_query t) = true ->
  UpstreamTarget_parse ((if ut_tls t then "https" else "http") +:+ "://" +:+ authority t +:+ ut_path_and_query t)
  = Some t.
Proof.
  destruct t as [tls host port pq]. cbn [ut_tls ut_host ut_port ut_path_and_query]. intros Hc Hs Hp [u ->]%starts_with_true.
  unfold UpstreamTarget_parse.
  assert (E : split_once_str "://" ((if tls then "https" else "http") +:+ "://" +:+
    authority (mkTarget tls host port ("/" +:+ u)) +:+ "/" +:+ u) =
    Some (if tls then "https" else "http", authority (mkTarget tls host port ("/" +:+ u)) +:+ "/" +:+ u)).
  { apply (split_once_str_app ":"). by destruct tls. }
  rewrite E. cbn [mbind option_bind].
  replace (if (if tls then "https" else "http") =s "https" then Some true else _) with (Some tls) by (by destruct tls).
  cbn [mbind option_bind]. unfold authority. cbn [ut_tls ut_host ut_port].
  destruct (Z.eqb_spec port (default_port tls)) as [->|_].
  - rewrite (split_authority_app _ _ u) by done. rewrite rsplit_once_lacks by done. done.
  - rewrite (split_authority_app _ _ u); [|by rewrite !lacks_app; split_and!; [|done|apply show_dec_lacks]|done].
    change (host +:+ ":" +:+ show_dec port) with (host +:+ String ":" (show_dec port)).
    rewrite rsplit_once_app by (by apply show_dec_lacks). cbn [mbind option_bind].
    by rewrite parse_u16_show_dec.
Qed.

Section HeaderProperties.
Context {H : HttpLib} {HL : HttpLaws H}.

Lemma carry_header_get o m k n :
  hn_from_bytes k = Some k ->
  hm_get_all (carry_header o m k) n =
  if k =s n then match hm_get o k with Some v => [v] | None => hm_get_all m n end else hm_get_all m n.
Proof.
  intros Hk. unfold carry_header. rewrite Hk.
  destruct (hm_get o k); [rewrite hm_get_all_insert|]; by destruct (k =s n).
Qed.

Lemma carry_fold_get o ks m n :
  Forall (fun k => hn_from_bytes k = Some k) ks ->
  hm_get_all (fold_left (carry_header o) ks m) n =
  if existsb (fun k => k =s n) ks then match hm_get o n with Some v => [v] | None => hm_get_all m n end
  else hm_get_all m n.
Proof.
  intros Hks. revert m. induction Hks as [|k ks Hk _ IH]; intros m; cbn [fold_left existsb]; [done|].
  rewrite IH, carry_header_get by done.
  destruct (String.eqb_spec k n) as [->|]; cbn [orb]; [|done].
  destruct (existsb _ ks), (hm_get o n); done.
Qed.

(** Carrying an upgrade touches the six upgrade headers only: each takes
    the first value the client sent, if it sent one, and every other header
    of the plan, the injected credential included, keeps its values. *)
Lemma carry_upgrade_headers_spec original plan name :
  hm_get_all (carry_upgrade_headers original plan) name =
  if existsb (fun k => k =s name) UPGRADE_HEADERS
  then match hm_get original name with Some v => [v] | None => hm_get_all plan name end
  else hm_get_all plan name.
Proof.
  apply carry_fold_get. repeat constructor; (rewrite hn_from_bytes_token; [done|done|cbn; lia|done]).
Qed.
End HeaderProperties.

(** ** The relay's effects *)

Section RelayProperties.
Context {H : HttpLib} {Q : RequestLib}.

(** A relay connects nowhere but to its plan's target, sends one request at
    most, and splices only after a 101. *)
Lemma tunnel_events net plan r es :
  tunnel net plan = (r, es) ->
  es = [] /\ UpstreamTarget_parse (fp_url plan) = None \/
  exists t, UpstreamTarget_parse (fp_url plan) = Some t /\
    (es = [Connect (ut_host t) (ut_port t) (ut_tls t)] \/
     exists req, build_request plan t = Ok req /\
       (es = [Connect (ut_host t) (ut_port t) (ut_tls t); SendUpgrade req] \/
        es = [Connect (ut_host t) (ut_port t) (ut_tls t); SendUpgrade req; Splice] /\
        exists hs, r = Relayed SWITCHING_PROTOCOLS hs "")).
Proof.
  unfold tunnel. destruct (UpstreamTarget_parse (fp_url plan)) as [t|]; [|intros [= <- <-]; auto].
  intros E. right. exists t. split; [done|]. cbn zeta in E.
  destruct (connect net t); [|injection E as <- <-; auto].
  destruct (build_request plan t) as [req|]; [|injection E as <- <-; auto].
  destruct (net_send net req) as [resp|]; [|injection E as <- <-; eauto 6].
  right. exists req. split; [done|].
  destruct (Z.eqb_spec (us_status resp) SWITCHING_PROTOCOLS) as [Hs|]; injection E as <- <-; [|auto].
  right. rewrite Hs. eauto.
Qed.
End RelayProperties.

(** ** Witnesses *)

Lemma upstream_pinned_witness :
  exists t pre,
    UpstreamTarget_parse (upstream_url "https://api.k8s.example:6443/prod/" "/@evil.example:80/x" "watch=1") = Some t /\
    endpoint_of t = endpoint_of (mkTarget true "api.k8s.example" 6443 "/prod/") /\
    ut_path_and_query t = pre +:+ "/@evil.example:80/x" +:+ "?" +:+ "watch=1".
Proof.
  apply (upstream_pinned "https://api.k8s.example:6443/prod/" "/@evil.example:80/x" "watch=1");
    [reflexivity|discriminate|reflexivity].
Defined.

Lemma authority_roundtrip_witness :
  UpstreamTarget_parse ("http" +:+ "://" +:+ "127.0.0.1:8080" +:+ "/exec") =
  Some (mkTarget false "127.0.0.1" 8080 "/exec").
Proof.
  apply (authority_roundtrip (mkTarget false "127.0.0.1" 8080 "/exec"));
    [reflexivity|reflexivity|cbn; lia|reflexivity].
Defined.
