(* ===== verification/Server.v ===== *)
(** [gateway/src/server.rs]: the handlers of the proxy and admin listeners. A
    handler is a computation over the gateway's [World] that returns the
    response and what it did to the network. Reading a body, dispatching on a
    route and decoding a typed JSON body are axum's; the sweeper and
    the TLS accept loop are in [Tasks]; sockets are not modelled. *)

From S2P Require Import Prelude RustStr External Reference Models SigV4 Service Normalize Control Gateway Upgrade.

(** 25 MiB. *)
Definition MAX_BODY : Z := 25 * 1024 * 1024.
(** [Duration::from_secs(60)], in milliseconds. *)
Definition SWEEP_INTERVAL : Z := 60 * 1000.

Definition PAYLOAD_TOO_LARGE : Z := 413.

Section Server.
Context {J : JsonLib} {JT : JsonText} {H : HttpLib} {Q : RequestLib} {R : RingLib} {U : UuidLib} {Bd : BodyLib}.
Context {C A : Type} `{!CredentialStore C} `{!AuditSink A}.

(** A request as axum hands it over: [hq_on_upgrade] says whether hyper left a
    pending upgrade among its extensions. *)
Record HttpRequest := mkHttpRequest {
  hq_method : string;
  hq_path : string;
  hq_query : option string;
  hq_headers : HeaderMap;
  hq_on_upgrade : bool;
  hq_body : ReqBody;
}.

Record MintRequest := mkMintRequest {
  mq_policy : Policy;
  mq_ttl_seconds : Z;
}.

(** ** Responses *)

Definition rejection_response (rejection : Rejection) : Response :=
  JsonResponse (rj_status rejection)
    (json_to_string (VObject (<["error" := VString (rj_message rejection)]>
                             (<["reason" := VString (show_DenyReason (rj_reason rejection))]> ∅)))).

Definition error_response (status : Z) (message : string) : Response :=
  JsonResponse status (json_to_string (VObject {["error" := VString message]})).

Definition dropped_response_header (name : string) : bool :=
  existsb (String.eqb (to_ascii_lowercase name))
    ["connection"; "keep-alive"; "transfer-encoding"; "content-length"; "te"; "trailers"; "upgrade"].

Definition filter_response_headers (headers : HeaderMap) : HeaderMap :=
  fold_left (fun out nv => if dropped_response_header nv.1 then out else hm_append out nv.1 nv.2)
    (hm_iter headers) hm_empty.

Definition forward (net : Net) (plan : ForwardPlan) : Response * list NetEvent :=
  let body := if negb (sempty (fp_body plan)) then Some (fp_body plan) else None in
  let '(hops, answer) := net_http net (fp_method plan) (fp_url plan) (fp_headers plan) body in
  let sent := SendHttp (fp_method plan) (fp_url plan) (fp_headers plan) body :: map FollowRedirect hops in
  match answer with
  | Err e => (error_response BAD_GATEWAY ("upstream error: " +:+ e), sent)
  | Ok upstream =>
      (Relayed (us_status upstream) (filter_response_headers (us_headers upstream)) (us_body upstream), sent)
  end.

(** ** Handlers *)

(** The upgrade captured before the request is taken apart: the client's
    pending upgrade, and the headers as they came. *)
Definition on_upgrade (req : HttpRequest) : bool := is_upgrade (hq_headers req) && hq_on_upgrade req.
Definition original_headers (req : HttpRequest) : option HeaderMap :=
  if is_upgrade (hq_headers req) then Some (hq_headers req) else None.

Definition set_headers (plan : ForwardPlan) (hs : HeaderMap) : ForwardPlan :=
  mkForwardPlan (fp_url plan) (fp_method plan) hs (fp_body plan).

(** What becomes of an outcome. *)
Definition respond (net : Net) (req : HttpRequest) (o : Outcome) : Response * list NetEvent :=
  match o with
  | Reject rejection => (rejection_response rejection, [])
  | Forward plan =>
      match on_upgrade req, original_headers req with
      | true, Some orig => tunnel net (set_headers plan (carry_upgrade_headers orig (fp_headers plan)))
      | _, _ => forward net plan
      end
  end.

Definition proxy_request (req : HttpRequest) (body : string) : ProxyRequest :=
  mkProxyRequest _ (hq_method req) (hq_path req) (default "" (hq_query req)) (hq_headers req) body.

Definition proxy_handler (g : Gateway) (net : Net) (req : HttpRequest) (now : Z)
    : eff (World C A) (Response * list NetEvent) :=
  match to_bytes (hq_body req) MAX_BODY with
  | None => mret (error_response PAYLOAD_TOO_LARGE "request body too large", [])
  | Some body =>
      o ← handle g (proxy_request req body) now;
      mret (respond net req o)
  end.

(** The tenant credential of a mint. *)
Definition mint_tenant (headers : HeaderMap) : option string :=
  v ← header_str headers "x-hackamore-tenant";
  if negb (sempty (trim v)) then Some (trim v) else None.

Definition mint_handler (g : Gateway) (headers : HeaderMap) (req : MintRequest) (now : Z)
    : eff (World C A) Response :=
  r ← mint_checked g (mq_policy req) (mq_ttl_seconds req) (mint_tenant headers) now;
  match r with
  | Ok response => mret (MintedResponse response)
  | Err err => mret (error_response FORBIDDEN (show_MintError err))
  end.

Definition revoke_handler (token : string) : eff (World C A) Response :=
  revoked ← revoke token;
  mret (RevokedResponse revoked).

Definition provision_handler (g : Gateway) (headers : HeaderMap) (now : Z) : eff (World C A) Response :=
  match token_from_headers headers with
  | None => mret (error_response UNAUTHORIZED "missing hackamore token")
  | Some token =>
      doc ← provision g token now;
      match doc with
      | Some doc => mret (ProvisionResponse doc)
      | None => mret (error_response UNAUTHORIZED "unknown or expired hackamore token")
      end
  end.

(** One tick of the sweeper. *)
Definition sweep_tick (now : Z) : eff (World C A) unit :=
  sweep_expired now;;
  mret tt.
End Server.

(** ** Routing *)

Inductive Endpoint := ProvisionEndpoint | ProxyEndpoint | MintEndpoint | RevokeEndpoint.

Definition proxy_router : Router Endpoint :=
  mkAxumRouter [("/.hackamore/provision", "GET", ProvisionEndpoint)] (Some ProxyEndpoint).

Definition admin_router : Router Endpoint :=
  mkAxumRouter [("/mint", "POST", MintEndpoint); ("/revoke", "POST", RevokeEndpoint)] None.

Section Listener.
Context {J : JsonLib} {JT : JsonText} {H : HttpLib} {Q : RequestLib} {R : RingLib} {U : UuidLib} {Bd : BodyLib}.
Context {X : AxumLib}.
Context {C A : Type} `{!CredentialStore C} `{!AuditSink A}.

(** A request on the proxy listener; [None] where axum answers by itself. *)
Definition serve_proxy (g : Gateway) (net : Net) (req : HttpRequest) (now : Z)
    : eff (World C A) (option (Response * list NetEvent)) :=
  match axum_dispatch proxy_router (hq_method req) (hq_path req) with
  | Some ProvisionEndpoint => r ← provision_handler g (hq_headers req) now; mret (Some (r, []))
  | Some ProxyEndpoint => r ← proxy_handler g net req now; mret (Some r)
  | _ => mret None
  end.
End Listener.

(** ** Lemmas *)

Section Lemmas.
Context {J : JsonLib} {JT : JsonText} {H : HttpLib} {Q : RequestLib} {Bd : BodyLib}.

(** The body put on a request to the upstream. *)
Definition payload (body : string) : option string := if sempty body then None else Some body.

(** The client asked for an upgrade and its connection can be taken over. *)
Definition upgrading (req : HttpRequest) : Prop := is_upgrade (hq_headers req) = true /\ hq_on_upgrade req = true.

(** An allowed upgrade's plan, as the relay gets it. *)
Definition carried (req : HttpRequest) (plan : ForwardPlan) : ForwardPlan :=
  set_headers plan (carry_upgrade_headers (hq_headers req) (fp_headers plan)).

Definition opened (t : UpstreamTarget) : NetEvent := Connect (ut_host t) (ut_port t) (ut_tls t).

Lemma upgrading_dec req : upgrading req \/ ~ upgrading req.
Proof. unfold upgrading. destruct (is_upgrade (hq_headers req)), (hq_on_upgrade req); intuition congruence. Qed.

Lemma respond_plain net req plan : ~ upgrading req -> respond net req (Forward plan) = forward net plan.
Proof.
  unfold upgrading, respond, on_upgrade, original_headers.
  destruct (is_upgrade (hq_headers req)), (hq_on_upgrade req); try done. by intros [].
Qed.

Lemma respond_upgrade net req plan : upgrading req -> respond net req (Forward plan) = tunnel net (carried req plan).
Proof. intros [Hu Ho]. unfold respond, on_upgrade, original_headers. by rewrite Hu, Ho. Qed.

(** Without an upgrade the network sees the plan's one request, and the
    redirects the client follows from it. *)
Lemma forward_events net plan r es :
  forward net plan = (r, es) ->
  exists hops, es = SendHttp (fp_method plan) (fp_url plan) (fp_headers plan) (payload (fp_body plan))
    :: map FollowRedirect hops.
Proof.
  unfold forward, payload. cbn zeta. destruct (sempty (fp_body plan)); cbn [negb];
    destruct (net_http net _ _ _ _) as [hops []]; intros [= <- <-]; by exists hops.
Qed.

Lemma filter_response_headers_get_all {HL : HttpLaws H} hs n :
  hm_get_all (filter_response_headers hs) n = if dropped_response_header n then [] else hm_get_all hs n.
Proof.
  unfold filter_response_headers.
  assert (E : forall l m, fold_left (fun out nv => if dropped_response_header nv.1 then out
               else hm_append out nv.1 nv.2) l m =
     fold_left (fun out p => if negb (dropped_response_header p.1) then hm_append out p.1 p.2 else out) l m).
  { induction l as [|x l IHl]; intros m; cbn [fold_left]; [done|]. by destruct (dropped_response_header x.1). }
  rewrite E, (hm_append_all (fun k => negb (dropped_response_header k))), hm_get_all_empty, hm_get_all_iter.
  by destruct (dropped_response_header n).
Qed.

(** What becomes of an allowed plan. Without an upgrade, its request is handed
    to the HTTP client once, and the client gets the upstream's status and
    body and all its headers but those of the connection, or a 502. With one,
    the proxy connects to the plan's target, sends the request with the
    client's upgrade headers, and relays the answer, joining the two
    connections if the upstream switches protocols; each failure on the way
    is a 502 that names it. *)
Inductive relays (net : Net) (req : HttpRequest) (plan : ForwardPlan) : Response -> list NetEvent -> Prop :=
| relays_answer hops up hs :
    ~ upgrading req ->
    net_http net (fp_method plan) (fp_url plan) (fp_headers plan) (payload (fp_body plan)) = (hops, Ok up) ->
    (forall n, to_ascii_lowercase n = n -> hm_get_all hs n =
       if bool_decide (n ∈ ["connection"; "keep-alive"; "transfer-encoding"; "content-length"; "te"; "trailers"; "upgrade"])
       then [] else hm_get_all (us_headers up) n) ->
    relays net req plan (Relayed (us_status up) hs (us_body up))
      (SendHttp (fp_method plan) (fp_url plan) (fp_headers plan) (payload (fp_body plan)) :: map FollowRedirect hops)
| relays_error hops e :
    ~ upgrading req ->
    net_http net (fp_method plan) (fp_url plan) (fp_headers plan) (payload (fp_body plan)) = (hops, Err e) ->
    relays net req plan (error_response 502 ("upstream error: " +:+ e))
      (SendHttp (fp_method plan) (fp_url plan) (fp_headers plan) (payload (fp_body plan)) :: map FollowRedirect hops)
| relays_no_target :
    upgrading req -> UpstreamTarget_parse (fp_url plan) = None ->
    relays net req plan (TextResponse 502 "invalid upstream url for upgrade") []
| relays_unreachable t e :
    upgrading req -> UpstreamTarget_parse (fp_url plan) = Some t -> connect net t = Err e ->
    relays net req plan (TextResponse 502 ("upstream connect failed: " +:+ e)) [opened t]
| relays_unbuildable t e :
    upgrading req -> UpstreamTarget_parse (fp_url plan) = Some t -> connect net t = Ok tt ->
    build_request (carried req plan) t = Err e ->
    relays net req plan (TextResponse 502 e) [opened t]
| relays_failed t rq e :
    upgrading req -> UpstreamTarget_parse (fp_url plan) = Some t -> connect net t = Ok tt ->
    build_request (carried req plan) t = Ok rq -> net_send net rq = Err e ->
    relays net req plan (TextResponse 502 ("upstream upgrade request failed: " +:+ e)) [opened t; SendUpgrade rq]
| relays_declined t rq up :
    upgrading req -> UpstreamTarget_parse (fp_url plan) = Some t -> connect net t = Ok tt ->
    build_request (carried req plan) t = Ok rq -> net_send net rq = Ok up -> us_status up <> 101%Z ->
    relays net req plan (Relayed (us_status up) (us_headers up) (us_body up)) [opened t; SendUpgrade rq]
| relays_switched t rq up :
    upgrading req -> UpstreamTarget_parse (fp_url plan) = Some t -> connect net t = Ok tt ->
    build_request (carried req plan) t = Ok rq -> net_send net rq = Ok up -> us_status up = 101%Z ->
    relays net req plan (Relayed 101 (us_headers up) "") [opened t; SendUpgrade rq; Splice].

Lemma dropped_response_list n :
  to_ascii_lowercase n = n -> dropped_response_header n =
  bool_decide (n ∈ ["connection"; "keep-alive"; "transfer-encoding"; "content-length"; "te"; "trailers"; "upgrade"]).
Proof. intros Hn. unfold dropped_response_header. rewrite Hn. apply existsb_eqb. Qed.

Lemma respond_relays {HL : HttpLaws H} net req plan r es :
  respond net req (Forward plan) = (r, es) -> relays net req plan r es.
Proof.
  destruct (upgrading_dec req) as [Hu|Hu].
  - rewrite respond_upgrade by done. unfold tunnel. change (fp_url (carried req plan)) with (fp_url plan).
    destruct (UpstreamTarget_parse (fp_url plan)) as [t|] eqn:Et; [|intros [= <- <-]; by constructor]. cbn zeta.
    destruct (connect net t) as [[]|e] eqn:Ec; [|intros [= <- <-]; by constructor].
    destruct (build_request (carried req plan) t) as [rq|e] eqn:Eb; [|intros [= <- <-]; by constructor].
    destruct (net_send net rq) as [up|e] eqn:Es; [|intros [= <- <-]; by econstructor].
    destruct (Z.eqb_spec (us_status up) SWITCHING_PROTOCOLS) as [Hs|Hs]; intros [= <- <-]; [|by econstructor].
    rewrite Hs. by eapply relays_switched.
  - rewrite respond_plain by done. unfold forward. cbn zeta.
    replace (if negb (sempty (fp_body plan)) then Some (fp_body plan) else None) with (payload (fp_body plan))
      by (unfold payload; by destruct (sempty (fp_body plan))).
    destruct (net_http net _ _ _ _) as [hops [up|e]] eqn:En; intros [= <- <-]; [|by eapply relays_error].
    apply relays_answer; [done..|]. intros n Hn. by rewrite filter_response_headers_get_all, dropped_response_list.
Qed.
End Lemmas.

(** ** Properties *)

Section Properties.
Context {J : JsonLib} {JT : JsonText} {H : HttpLib} {Q : RequestLib} {R : RingLib} {U : UuidLib} {Bd : BodyLib}.
Context {BdL : BodyLaws Bd} {X : AxumLib} {XL : AxumLaws X}.
Context {C A : Type} `{!CredentialStore C} `{!AuditSink A}.

(** The proxy listener, on every branch. *)
Lemma serve_proxy_cases g net req now (w : World C A) :
  match serve_proxy g net req now w with
  | (Done None, w') => hq_path req = "/.hackamore/provision" /\ w' = w
  | (Done (Some (r, es)), w') =>
      if hq_path req =s "/.hackamore/provision"
      then es = [] /\ provision_handler g (hq_headers req) now w = (Done r, w')
      else match to_bytes (hq_body req) MAX_BODY with
           | None => r = error_response PAYLOAD_TOO_LARGE "request body too large" /\ es = [] /\ w' = w
           | Some body => (Z.of_nat (String.length body) <= 26214400)%Z /\
               exists o, handle g (proxy_request req body) now w = (Done o, w') /\ respond net req o = (r, es)
           end
  | (Panic, w') =>
      if hq_path req =s "/.hackamore/provision"
      then provision_handler g (hq_headers req) now w = (Panic, w')
      else exists body, to_bytes (hq_body req) MAX_BODY = Some body /\
             handle g (proxy_request req body) now w = (Panic, w')
  end.
Proof.
  unfold serve_proxy. destruct (String.eqb_spec (hq_path req) "/.hackamore/provision") as [->|Hne].
  - destruct (axum_path proxy_router "/.hackamore/provision" "GET" (hq_method req) ProvisionEndpoint eq_refl)
      as [-> | ->]; [|done].
    eff_run. by destruct (provision_handler g (hq_headers req) now w) as [[r|] w'].
  - rewrite axum_fallback by (repeat constructor; cbn; congruence). cbn [rt_fallback proxy_router].
    unfold proxy_handler. destruct (to_bytes (hq_body req) MAX_BODY) as [body|] eqn:Eb; [|done].
    eff_run. destruct (handle g (proxy_request req body) now w) as [[o|] w'] eqn:Eh; [|eauto].
    destruct (respond net req o) as [r es] eqn:Er. split; [by apply to_bytes_limit in Eb|]. eauto.
Qed.

(** C29: the proxy listener, on every branch, for the reserved provisioning
    path and for every path outside the reserved prefix. The provisioning path
    never reaches the gateway's routing or the network, whatever its host and
    method. Any other request is refused unread past 25 MiB, with nothing
    changed, and otherwise handled once, under its own method, path, query,
    headers and body: a rejection becomes a response of its status without
    touching the network, and a forward is relayed ([relays]): its request is
    sent exactly once, and the client has the upstream's answer. *)
Theorem serve_proxy_spec {HL : HttpLaws H} g net req now (w : World C A) :
  hq_path req = "/.hackamore/provision" \/ starts_with "/.hackamore/" (hq_path req) = false ->
  match serve_proxy g net req now w with
  | (Done None, w') => hq_path req = "/.hackamore/provision" /\ w' = w
  | (Done (Some (r, es)), w') =>
      if hq_path req =s "/.hackamore/provision"
      then es = [] /\ provision_handler g (hq_headers req) now w = (Done r, w')
      else match to_bytes (hq_body req) MAX_BODY with
           | None => r = error_response PAYLOAD_TOO_LARGE "request body too large" /\ es = [] /\ w' = w
           | Some body => (Z.of_nat (String.length body) <= 26214400)%Z /\
               exists o, handle g (proxy_request req body) now w = (Done o, w') /\
                 match o with
                 | Reject rj => r = rejection_response rj /\ es = []
                 | Forward plan => relays net req plan r es
                 end
           end
  | (Panic, w') =>
      if hq_path req =s "/.hackamore/provision"
      then provision_handler g (hq_headers req) now w = (Panic, w')
      else exists body, to_bytes (hq_body req) MAX_BODY = Some body /\
             handle g (proxy_request req body) now w = (Panic, w')
  end.
Proof.
  intros _. pose proof (serve_proxy_cases g net req now w) as Hs.
  destruct (serve_proxy g net req now w) as [[[[r es]|]|] w']; [|exact Hs..].
  destruct (hq_path req =s _); [exact Hs|]. destruct (to_bytes _ _) as [body|]; [|exact Hs].
  destruct Hs as (Hl & o & Ho & Hr). split; [exact Hl|]. exists o. split; [exact Ho|].
  destruct o as [plan|rj]; [by apply respond_relays|]. by injection Hr as <- <-.
Qed.

(** Only the exact path is reserved: every other path under [/.hackamore/] is
    proxied like any request, to whatever service its host names. *)
Lemma reserved_prefix_proxied g net req now rest (w : World C A) :
  hq_path req = "/.hackamore/" +:+ rest -> rest <> "provision" ->
  serve_proxy g net req now w = (r ← proxy_handler g net req now; mret (Some r)) w.
Proof.
  intros Hp Hr. unfold serve_proxy. rewrite axum_fallback; [done|].
  rewrite Hp. repeat constructor. cbn. intros E. apply Hr. by injection E.
Qed.

(** The admin listener's mint answers its caller with the gateway's verdict. *)
Lemma mint_handler_spec g headers req now (w : World C A) :
  match mint_handler g headers req now w with
  | (Done r, w') => exists v, mint_checked g (mq_policy req) (mq_ttl_seconds req) (mint_tenant headers) now w = (Done v, w') /\
      match v with
      | Ok m => r = MintedResponse m
      | Err e => r = error_response FORBIDDEN (show_MintError e)
      end
  | (Panic, w') => mint_checked g (mq_policy req) (mq_ttl_seconds req) (mint_tenant headers) now w = (Panic, w')
  end.
Proof.
  unfold mint_handler. eff_run. destruct (mint_checked _ _ _ _ _ w) as [[[m|e]|] w'];
    [exists (Ok m)|exists (Err e)|]; done.
Qed.
End Properties.

(** ** Witness: the forwarded request of [Gateway.v], on the wire *)

#[local] Existing Instance ref_json.
#[local] Existing Instance ref_json_text.
#[local] Existing Instance ref_http.
#[local] Existing Instance ref_http_laws.
#[local] Existing Instance ref_request.
#[local] Existing Instance ref_ring.
#[local] Existing Instance ref_uuid.
#[local] Existing Instance ref_body.
#[local] Existing Instance ref_body_laws.
#[local] Existing Instance ref_axum.
#[local] Existing Instance ref_axum_laws.

Definition ex_net : Net :=
  mkNet (fun _ _ _ _ => ([], Ok (mkUpstreamResponse 200 [("content-length", "2"); ("etag", "x")] "ok")))
    (fun _ _ => Ok tt) (fun _ => true) (fun _ => Ok tt) (Ok tt)
    (fun _ => Ok (mkUpstreamResponse 101 [("upgrade", "websocket")] "")).

Definition ex_http_request : HttpRequest :=
  mkHttpRequest "GET" "/repos//o/./r" (Some "per_page=1") (rq_headers ex_request) false "".

Definition ex_served : comp (option (Response * list NetEvent)) * World InMemoryCredentials InMemoryAudit :=
  serve_proxy ex_gateway ex_net ex_http_request 2000 ex_world.

Definition ex_sent : NetEvent :=
  SendHttp "GET" "https://api.github.com/repos/o/r?per_page=1"
    [("accept", "*/*"); ("authorization", "Bearer ghs_real")] None.

Lemma ex_served_events : ex_served.1 = Done (Some (Relayed 200 [("etag", "x")] "ok", [ex_sent])).
Proof. hk_vm. Qed.

Lemma serve_proxy_spec_witness :
  exists o, handle ex_gateway (proxy_request ex_http_request "") 2000 ex_world = (Done o, ex_served.2) /\
  match o with
  | Reject rj => Relayed 200 [("etag", "x")] "ok" = rejection_response rj /\ [ex_sent] = []
  | Forward plan => relays ex_net ex_http_request plan (Relayed 200 [("etag", "x")] "ok") [ex_sent]
  end.
Proof.
  pose proof (serve_proxy_spec ex_gateway ex_net ex_http_request 2000 ex_world (or_intror eq_refl)) as Hs.
  pose proof ex_served_events as E. unfold ex_served in *.
  destruct (serve_proxy ex_gateway ex_net ex_http_request 2000 ex_world) as [c w'].
  cbn [fst snd] in *. rewrite E in Hs. exact (proj2 Hs).
Defined.

(** The HTTP client follows an upstream's redirect wherever it points: of the
    two requests this allowed one causes, the second leaves the service. *)
Definition ex_redirecting : Net :=
  mkNet (fun m _ _ b => ([mkHop m "https://elsewhere.example/" hm_empty b], Ok (mkUpstreamResponse 200 hm_empty "")))
    (fun _ _ => Ok tt) (fun _ => true) (fun _ => Ok tt) (Ok tt) (fun _ => Err "").

Lemma redirect_leaves_upstream :
  (serve_proxy ex_gateway ex_redirecting ex_http_request 2000 ex_world).1 =
    Done (Some (Relayed 200 [] "", [ex_sent; FollowRedirect (mkHop "GET" "https://elsewhere.example/" [] None)])).
Proof. hk_vm. Qed.
