(* ===== verification/System.v ===== *)
(** The running server as a transition system: any interleaving of requests on
    the two listeners, ticks of the sweeper and rotations of the credential
    store, each handler one step, at any times and against any network.
    [Concurrency] splits the handlers into their critical sections. *)

From stdpp Require Import relations.
From S2P Require Import Prelude RustStr Canonicalize Datetime External Reference Models Policy SigV4 Service Normalize Control Gateway.
From S2P Require Import Upgrade Server.

Section System.
Context {J : JsonLib} {JT : JsonText} {H : HttpLib} {Q : RequestLib} {R : RingLib} {U : UuidLib} {Bd : BodyLib}.
Context {X : AxumLib} {XL : AxumLaws X} {BdL : BodyLaws Bd}.
Context {C A : Type} `{!CredentialStore C} `{!AuditSink A}.

(** What one request on the proxy listener made the server do on the network,
    with the token table it was served under. *)
Record Exchange := mkExchange {
  xc_request : HttpRequest;
  xc_now : Z;
  xc_tokens : Tokens;
  xc_events : list NetEvent;
}.

(** The shared world, every exchange so far, and (ghost) the policies minted
    so far. *)
Record Sys := mkSys {
  sy_world : World C A;
  sy_net : list Exchange;
  sy_minted : list Policy;
}.

Definition set_credentials (c : C) (w : World C A) : World C A :=
  mkWorld (mkControlPlane (cp_tokens (w_control w)) (cp_tenants (w_control w)) c (cp_audit (w_control w))) (w_uuids w).

Definition minted_by (req : MintRequest) (r : Response) : list Policy :=
  match r with MintedResponse _ => [mq_policy req] | _ => [] end.

(** A handler that panics loses its request, not the server. *)
Inductive step (g : Gateway) : Sys -> Sys -> Prop :=
| step_proxy w es ps net req now r es' w' :
    serve_proxy g net req now w = (Done (Some (r, es')), w') ->
    step g (mkSys w es ps) (mkSys w' (es ++ [mkExchange req now (world_tokens w) es']) ps)
| step_unserved w es ps net req now w' :
    serve_proxy g net req now w = (Done None, w') -> step g (mkSys w es ps) (mkSys w' es ps)
| step_panic w es ps net req now w' :
    serve_proxy g net req now w = (Panic, w') -> step g (mkSys w es ps) (mkSys w' es ps)
| step_mint w es ps headers req now r w' :
    mint_handler g headers req now w = (Done r, w') ->
    step g (mkSys w es ps) (mkSys w' es (ps ++ minted_by req r))
| step_revoke w es ps token r w' :
    revoke_handler token w = (Done r, w') -> step g (mkSys w es ps) (mkSys w' es ps)
| step_sweep w es ps now w' :
    sweep_tick now w = (Done tt, w') -> step g (mkSys w es ps) (mkSys w' es ps)
| step_rotate w es ps c : step g (mkSys w es ps) (mkSys (set_credentials c w) es ps).

(** A server as it starts: no token, nothing sent. *)
Definition initial (s : Sys) : Prop :=
  world_tokens (sy_world s) = ∅ /\ sy_net s = [] /\ sy_minted s = [].

Definition tenants_of (w : World C A) : Tenants := cp_tenants (w_control w).

(** ** What the operations leave alone *)

(** The token table, the tenants and the UUID count are as they were. *)
Definition same_tables (w w' : World C A) : Prop :=
  world_tokens w' = world_tokens w /\ tenants_of w' = tenants_of w /\ w_uuids w' = w_uuids w.

Lemma handle_same_tables g req now (w : World C A) : same_tables w (handle g req now w).2.
Proof.
  unfold handle. eff_run. pose proof (authenticate_spec_aux req now w) as Ha.
  destruct (authenticate req now w) as [[[[p src]|o]|] w1]; destruct Ha as [-> Ha]; try done.
  unfold authorize. cbn zeta. destruct (route _ _) as [s|]; [|done]. eff_run.
  destruct (Canonicalize.path (rq_path req)) as [[c|e]|]; try done.
  destruct (normalize s req (decoded c)) as [a|]; [|done].
  destruct (decide a p); [|done]. unfold plan_forward. eff_run.
  pose proof (apply_outbound_spec s a (set_path req (encoded c))
    (sanitize_headers (rq_headers (set_path req (encoded c))) src) now w) as Hs. cbn zeta in Hs.
  destruct (apply_outbound _ _ _ _ _ w) as [[[[hs d]|o]|] w2].
  - by destruct Hs as (-> & _).
  - by destruct Hs as [(m & d & _ & -> & _) _].
  - by destruct Hs as [-> _].
Qed.

(** Every token's policy is among [ps]. *)
Definition policies_in (ps : list Policy) (ts : Tokens) : Prop :=
  forall key e, ts !! key = Some e -> e_policy e ∈ ps.

Lemma policies_in_insert ps ts key e :
  policies_in ps ts -> e_policy e ∈ ps -> policies_in ps (<[key := e]> ts).
Proof. intros Hts He k e' [[_ <-]|[_ Hl]]%lookup_insert_Some; [done|by eapply Hts]. Qed.

Lemma policies_in_more ps ps' ts : policies_in ps ts -> policies_in (ps ++ ps') ts.
Proof. intros Hts k e Hl. apply elem_of_app. left. by eapply Hts. Qed.

Lemma resolve_full_entry token now ts p t :
  tokens_resolve_full token now ts = Some (p, t) -> exists e, ts !! token = Some e /\ e_policy e = p.
Proof.
  unfold tokens_resolve_full. destruct (ts !! token) as [e|]; [|done]. cbn [mbind option_bind].
  destruct (_ <=? _)%Z; [done|]. intros [= <- _]. eauto.
Qed.

Lemma provision_services_keep ps ss token policy now ttl (w : World C A) :
  policy ∈ ps -> policies_in ps (world_tokens w) ->
  exists l, (provision_services ss token policy now ttl w).1 = Done l /\
  policies_in ps (world_tokens (provision_services ss token policy now ttl w).2) /\
  tenants_of (provision_services ss token policy now ttl w).2 = tenants_of w.
Proof.
  intros Hp. revert w. induction ss as [|s ss IH]; intros w Hw; [by eexists|].
  cbn [provision_services]. destruct (negb (provisioned policy s)); [by apply IH|].
  unfold mint_service_auth. destruct (svc_outbound s); eff_run.
  4:{ unfold on_tokens, fresh_uuid. cbn -[provision_services].
      match goal with |- context [provision_services _ _ _ _ _ ?x] => destruct (IH x) as (l & E1 & E2 & E3) end.
      { apply policies_in_insert; done. }
      destruct (provision_services ss _ _ _ _ _) as [[|] w2]; [|done]. cbn in *. eauto. }
  all: destruct (IH w Hw) as (l & E1 & E2 & E3);
    destruct (provision_services ss _ _ _ _ _) as [[|] w2]; [|done]; cbn in *; eauto.
Qed.

Lemma provision_handler_keep ps g headers now (w : World C A) :
  policies_in ps (world_tokens w) ->
  policies_in ps (world_tokens (provision_handler g headers now w).2) /\
  tenants_of (provision_handler g headers now w).2 = tenants_of w.
Proof.
  intros Hw. unfold provision_handler. destruct (token_from_headers headers) as [token|]; [|done].
  unfold provision. eff_run. cbn [get_control].
  destruct (tokens_resolve_full token now (cp_tokens (w_control w))) as [[p t]|] eqn:Et; [|done].
  apply resolve_full_entry in Et as (e & He & <-). unfold provisionable_services.
  destruct (provision_services_keep ps (services (router g)) token (e_policy e) now (ttl_remaining now t) w)
    as (l & E1 & E2 & E3); [by eapply Hw|done|].
  destruct (provision_services _ _ _ _ _ w) as [[|] w2]; cbn in *; done.
Qed.

(** ** The invariant *)

(** A target on the scheme, host and port of the service's base URL. *)
Definition at_base (s : Service) (t : UpstreamTarget) : Prop :=
  forall t0, UpstreamTarget_parse (svc_upstream_base s) = Some t0 -> ut_host t0 <> "" -> endpoint_of t = endpoint_of t0.

(** What serving a request for a service may do on the network, [c] being the
    request's canonical path: hand the HTTP client the request's own method
    and body for that path under the service's base, the client following the
    redirects it is answered; or connect to the base's own scheme, host and
    port, and there ask for an upgrade of that method and path. *)
Inductive traffic (s : Service) (req : ProxyRequest) (c : CanonicalPath) : list NetEvent -> Prop :=
| traffic_none : traffic s req c []
| traffic_http hs hops :
    traffic s req c
      (SendHttp (rq_method req) (upstream_url (svc_upstream_base s) (encoded c) (rq_query req)) hs (payload (rq_body req))
       :: map FollowRedirect hops)
| traffic_connect t :
    UpstreamTarget_parse (upstream_url (svc_upstream_base s) (encoded c) (rq_query req)) = Some t -> at_base s t ->
    traffic s req c [opened t]
| traffic_upgrade t uri hs (switched : bool) :
    UpstreamTarget_parse (upstream_url (svc_upstream_base s) (encoded c) (rq_query req)) = Some t -> at_base s t ->
    uri_try_from (ut_path_and_query t) = Ok uri ->
    traffic s req c ([opened t; SendUpgrade (mkUpgradeRequest (rq_method req) uri hs)] ++ if switched then [Splice] else []).

(** The request is allowed: it proves a live capability for the policy, its
    host routes to the service, and that policy allows the action the
    service's normalisation gives the request at its canonical path. *)
Record permitted (g : Gateway) (ts : Tokens) (req : ProxyRequest) (now : Z)
    (policy : Policy) (s : Service) (c : CanonicalPath) (action : Action) : Prop := mkPermitted {
  pm_authentic : exists source, authentic ts req now policy source;
  pm_route : route (router g) (default "" (extract_host (rq_headers req))) = Some s;
  pm_path : Canonicalize.path (rq_path req) = Done (Ok c);
  pm_action : normalize s req (decoded c) = Done action;
  pm_allowed : decides action (rules policy) (VAllow []);
}.

(** The exchange did nothing on the network, or its own request was permitted
    by one of the policies and what it did is that request's traffic. *)
Definition authorised (g : Gateway) (ps : list Policy) (x : Exchange) : Prop :=
  xc_events x = [] \/
  exists body policy s c action,
    to_bytes (hq_body (xc_request x)) MAX_BODY = Some body /\ policy ∈ ps /\
    permitted g (xc_tokens x) (proxy_request (xc_request x) body) (xc_now x) policy s c action /\
    traffic s (proxy_request (xc_request x) body) c (xc_events x).

(** The policy passed the checks of a mint. *)
Definition accepted (g : Gateway) (tenants : Tenants) (p : Policy) : Prop :=
  (exists tenant, authorize_mint tenants p tenant = Ok tt) /\ validate_catalog g p = Ok tt.

Record inv (g : Gateway) (tenants : Tenants) (s : Sys) : Prop := {
  inv_tokens : policies_in (sy_minted s) (world_tokens (sy_world s));
  inv_tenants : tenants_of (sy_world s) = tenants;
  inv_minted : Forall (accepted g tenants) (sy_minted s);
  inv_net : Forall (authorised g (sy_minted s)) (sy_net s);
}.

Lemma authentic_entry ts req now p src :
  authentic ts req now p src -> exists key e, ts !! key = Some e /\ e_policy e = p.
Proof.
  intros [token source policy _ _ Ht|auth parsed policy secret _ _ Ht _].
  - unfold tokens_resolve in Ht. destruct (tokens_resolve_full token now ts) as [[q t]|] eqn:E; [|done].
    injection Ht as <-. apply resolve_full_entry in E as (e & He & <-). eauto.
  - unfold tokens_resolve_sigv4 in Ht. destruct (ts !! p_access_key_id parsed) as [e|] eqn:E; [|done].
    cbn [mbind option_bind] in Ht. destruct (_ <=? _)%Z; [done|].
    destruct (e_secret e); [|done]. injection Ht as <- _. eauto.
Qed.

Lemma normalize_target s req pth a : normalize s req pth = Done a -> target a = svc_name s.
Proof.
  unfold normalize. intros (v & _ & E)%comp_bind_done. apply comp_bind_done in E as (f & _ & E).
  by injection E as <-.
Qed.

Lemma route_service r host s : route r host = Some s -> s ∈ services r.
Proof. intros (l1 & l2 & -> & _)%find_some_elem. apply elem_of_app. right. left. Qed.

Lemma encoded_absolute raw c : Canonicalize.path raw = Done (Ok c) -> starts_with "/" (encoded c) = true.
Proof. intros (stack & _ & ->)%path_ok_inv. done. Qed.

(** Whatever the network answers, a plan for a request's canonical path under
    a service's base is relayed as that request's traffic. *)
Lemma respond_traffic net hreq req s c hs r es :
  Canonicalize.path (rq_path req) = Done (Ok c) ->
  respond net hreq (Forward (mkForwardPlan (upstream_url (svc_upstream_base s) (encoded c) (rq_query req))
    (rq_method req) hs (rq_body req))) = (r, es) ->
  traffic s req c es.
Proof.
  intros Hc%encoded_absolute Hr. set (plan := mkForwardPlan _ _ _ _) in Hr. destruct (upgrading_dec hreq) as [Hu|Hu].
  2:{ rewrite respond_plain in Hr by done. apply forward_events in Hr as [hops ->]. constructor. }
  rewrite respond_upgrade in Hr by done.
  destruct (tunnel_events _ _ _ _ Hr) as [[-> _]|(t & Ht & Hes)]; [constructor|].
  change (fp_url (carried hreq plan)) with (fp_url plan) in Ht.
  assert (Hb : at_base s t).
  { intros t0 Ht0 Hne. destruct (upstream_url_target _ _ (rq_query req) _ Ht0 Hne Hc) as (t' & _ & Ht' & He & _).
    cbn [plan fp_url] in Ht. rewrite Ht in Ht'. by injection Ht' as <-. }
  destruct Hes as [->|(rq & Hrq & Hes)]; [by apply traffic_connect|].
  unfold build_request in Hrq. destruct (uri_try_from (ut_path_and_query t)) as [uri|] eqn:Eu; [|done].
  destruct (hv_try_from (authority t)); [|done]. injection Hrq as <-.
  destruct Hes as [->|[-> _]]; [by apply (traffic_upgrade s req c t uri _ false)|by apply (traffic_upgrade s req c t uri _ true)].
Qed.

(** A forward is permitted, and planned for its own request. *)
Lemma forward_permitted g req now (w w' : World C A) plan :
  handle g req now w = (Done (Forward plan), w') ->
  exists policy s c action hs, permitted g (world_tokens w) req now policy s c action /\
    plan = mkForwardPlan (upstream_url (svc_upstream_base s) (encoded c) (rq_query req)) (rq_method req) hs (rq_body req).
Proof.
  intros (es & Hh & _)%handle_handled. inversion Hh; subst. do 5 eexists. split; [split; eauto|done].
Qed.

Lemma authorised_more g ps ps' e : authorised g ps e -> authorised g (ps ++ ps') e.
Proof.
  intros [He|(body & p & s & c & a & Hb & Hp & Hs)]; [by left|right]. exists body, p, s, c, a. split; [done|]. split; [|exact Hs].
  apply elem_of_app. by left.
Qed.

(** One request on the proxy listener keeps the invariant, whatever comes of it. *)
Lemma serve_proxy_keep g net req now ps (w w' : World C A) c :
  policies_in ps (world_tokens w) -> serve_proxy g net req now w = (c, w') ->
  policies_in ps (world_tokens w') /\ tenants_of w' = tenants_of w /\
  forall r es, c = Done (Some (r, es)) -> authorised g ps (mkExchange req now (world_tokens w) es).
Proof.
  intros Hps E. pose proof (serve_proxy_cases g net req now w) as Hs. rewrite E in Hs.
  assert (Hprov : forall c', provision_handler g (hq_headers req) now w = (c', w') ->
    policies_in ps (world_tokens w') /\ tenants_of w' = tenants_of w).
  { intros c' Ec. pose proof (provision_handler_keep ps g (hq_headers req) now w Hps) as Hk. by rewrite Ec in Hk. }
  assert (Hhandle : forall body c', handle g (proxy_request req body) now w = (c', w') ->
    policies_in ps (world_tokens w') /\ tenants_of w' = tenants_of w).
  { intros body c' Ec. pose proof (handle_same_tables g (proxy_request req body) now w) as Hk.
    rewrite Ec in Hk. destruct Hk as (Hk1 & Hk2 & _). cbn [snd] in *. by rewrite Hk1, Hk2. }
  destruct c as [[[r es]|]|]; destruct (String.eqb_spec (hq_path req) "/.hackamore/provision") as [Hpath|Hpath].
  - destruct Hs as [-> Hs]. destruct (Hprov _ Hs). split_and!; [done..|]. intros ?? [= <- <-]. by left.
  - destruct (to_bytes (hq_body req) MAX_BODY) as [body|] eqn:Eb.
    + destruct Hs as (_ & o & Ho & Hes). destruct (Hhandle _ _ Ho). split_and!; [done..|]. intros ?? [= <- <-].
      destruct o as [plan|rj]; [|injection Hes as <- <-; by left].
      destruct (forward_permitted _ _ _ _ _ _ Ho) as (p & s & ca & a & hs & Hperm & ->). right.
      pose proof Hperm as [[src (key & e & Hkey & He)%authentic_entry] _ Hc _ _]. exists body, p, s, ca, a.
      split; [done|]. split; [rewrite <- He; by eapply Hps|]. split; [done|]. by eapply respond_traffic.
    + destruct Hs as (_ & -> & ->). split_and!; [done..|]. intros ?? [= <- <-]. by left.
  - destruct Hs as [_ ->]. done.
  - destruct Hs as [_ ->]. done.
  - destruct (Hprov _ Hs). done.
  - destruct Hs as (body & _ & Hh). destruct (Hhandle _ _ Hh). done.
Qed.

Lemma inv_step g tenants s s' : inv g tenants s -> step g s s' -> inv g tenants s'.
Proof.
  intros [Ht Hn Hm He] Hst. inversion Hst as [w es ps net req now r es' w' E|w es ps net req now w' E
    |w es ps net req now w' E|w es ps headers req now r w' E|w es ps token r w' E|w es ps now w' E|w es ps c]; subst;
    cbn [sy_world sy_net sy_minted] in *.
  1-3: destruct (serve_proxy_keep _ _ _ _ _ _ _ _ Ht E) as (H1 & H2 & H3); split; cbn; [done|by rewrite H2|done|].
  - apply Forall_app. split; [done|]. constructor; [by eapply H3|done].
  - done.
  - done.
  - pose proof (mint_handler_spec g headers req now w) as Hs. rewrite E in Hs. destruct Hs as (v & Hv & Hr).
    unfold mint_checked in Hv. eff_run in Hv. cbn [get_control] in Hv.
    destruct (authorize_mint (cp_tenants (w_control w)) (mq_policy req) (mint_tenant headers)) as [[]|e] eqn:Ea.
    2:{ injection Hv as <- <-. subst r. cbn [minted_by]. rewrite app_nil_r. by split. }
    destruct (validate_catalog g (mq_policy req)) as [[]|e] eqn:Ec.
    2:{ injection Hv as <- <-. subst r. cbn [minted_by]. rewrite app_nil_r. by split. }
    rewrite mint_minted in Hv. injection Hv as <- <-. subst r. cbn [minted_by]. split; cbn [sy_world sy_net sy_minted].
    + apply policies_in_insert; [by apply policies_in_more|]. cbn. set_solver.
    + done.
    + apply Forall_app. split; [done|]. constructor; [|done]. split; [by eexists|done].
    + eapply Forall_impl; [exact He|]. intros. by apply authorised_more.
  - injection E as <- <-. split; cbn; [|done..]. intros k e Hk. apply lookup_delete_Some in Hk as [_ Hk]. by eapply Ht.
  - injection E as <-. split; cbn; [|done..]. intros k e Hk. apply map_lookup_filter_Some in Hk as [Hk _]. by eapply Ht.
  - by split.
Qed.

Lemma inv_reachable g s0 s : initial s0 -> rtc (step g) s0 s -> inv g (tenants_of (sy_world s0)) s.
Proof.
  intros (Ht & He & Hm) Hr. assert (H0 : inv g (tenants_of (sy_world s0)) s0).
  { split; [|done| |]; rewrite ?Ht, ?He, ?Hm; [|by constructor..]. intros k e Hk. by rewrite lookup_empty in Hk. }
  clear Ht He Hm. remember (tenants_of (sy_world s0)) as tenants eqn:E. clear E.
  induction Hr as [|x y z Hxy Hyz IH]; [done|]. apply IH. by eapply inv_step.
Qed.

(** ** Properties *)

(** C1: nothing leaves unauthorised. In any run of the server from an empty
    token table, over any interleaving of requests, mints, revocations,
    sweeps and credential rotations, whatever a request on the proxy listener
    made the server do on the network was permitted: the request proved a
    live capability for a policy accepted by an earlier mint, its host routes
    to a configured service, and the action that the service's normalisation
    gives this request is one that policy allows; and what was done is this
    request alone, at its canonical path on the service's own upstream. Only
    the redirects an upstream answers it with are followed elsewhere, by the
    HTTP client. *)
Theorem traffic_authorised g s0 s :
  initial s0 -> rtc (step g) s0 s ->
  Forall (authorised g (sy_minted s)) (sy_net s) /\
  Forall (accepted g (tenants_of (sy_world s0))) (sy_minted s).
Proof. intros Hi Hr. by destruct (inv_reachable g s0 s Hi Hr). Qed.

(** If any tenant is registered, everything done on the network is a request
    for a service that some registered tenant owns. *)
Lemma tenants_confine g s0 s :
  initial s0 -> tenants_of (sy_world s0) <> ∅ -> rtc (step g) s0 s ->
  Forall (fun x => xc_events x = [] \/ exists body policy srv c action key owned,
    permitted g (xc_tokens x) (proxy_request (xc_request x) body) (xc_now x) policy srv c action /\
    srv ∈ services (router g) /\ tenants_of (sy_world s0) !! key = Some owned /\ svc_name srv ∈ owned /\
    traffic srv (proxy_request (xc_request x) body) c (xc_events x)) (sy_net s).
Proof.
  intros Hi Hne Hr. destruct (inv_reachable g s0 s Hi Hr) as [_ _ Hm He].
  eapply Forall_impl; [exact He|]. intros x [Hx|(body & p & srv & c & a & _ & Hp & Hperm & Ht)]; [by left|right].
  rewrite Forall_forall in Hm. destruct (Hm p Hp) as [[tenant Hau] _].
  unfold authorize_mint, tenants_is_empty in Hau. rewrite bool_decide_eq_false_2 in Hau by done.
  destruct tenant as [key|]; [|done]. unfold tenants_owned in Hau.
  destruct (tenants_of (sy_world s0) !! key) as [owned|] eqn:Eo; [|done].
  pose proof Hperm as [_ Hro%route_service _ Hn Hd]. exists body, p, srv, c, a, key, owned. split_and!; [done..| |done].
  rewrite <- (normalize_target _ _ _ _ Hn). apply validate_tenant_rules_ok in Hau.
  eapply owned_policy_targets; [exact Hau|]. apply decide_go_decides. exact Hd.
Qed.
End System.
Arguments Sys {J H Bd} C A.

(** ** Revocation is final *)

Section Revocation.
Context {J : JsonLib} {JT : JsonText} {H : HttpLib} {Q : RequestLib} {R : RingLib} {U : UuidLib} {Bd : BodyLib}.
Context {X : AxumLib} {XL : AxumLaws X} {BdL : BodyLaws Bd} {UL : UuidLaws U}.
Context {C A : Type} `{!CredentialStore C} `{!AuditSink A}.

(** The token of the mint that drew its first UUID [k]-th. *)
Definition token_of (k : nat) : string := uuid_simple k +:+ uuid_simple (S k).

(** The first [n] UUIDs drawn are distinct. *)
Definition distinct_uuids (n : nat) : Prop :=
  forall i j, (i < n)%nat -> (j < n)%nat -> uuid_simple i = uuid_simple j -> i = j.

Lemma sapp_inv_length (s t s' t' : string) :
  String.length s = String.length s' -> s +:+ t = s' +:+ t' -> s = s'.
Proof.
  revert s'. induction s as [|a s IH]; intros [|b s']; cbn [String.length]; [done|done|done|].
  hk_str. intros [= Hl] [= -> E]. f_equal. by eapply IH.
Qed.

Lemma substring_length_le n m s : (String.length (String.substring n m s) <= m)%nat.
Proof.
  revert n m. induction s as [|a s IH]; intros [|n] [|m]; cbn [String.substring String.length]; try lia.
  - specialize (IH 0%nat m). lia.
  - apply IH.
  - apply (IH n (S m)).
Qed.

Lemma smap_length f s : String.length (smap f s) = String.length s.
Proof. induction s as [|a s IH]; cbn; auto. Qed.

(** Tokens and dummy access key ids never coincide: their lengths differ. *)
Lemma dummy_is_no_token u k : dummy_access_key_id u <> token_of k.
Proof.
  intros E. apply (f_equal String.length) in E. revert E. unfold dummy_access_key_id, token_of, to_ascii_uppercase.
  rewrite smap_length, !slength_app, !uuid_simple_length. pose proof (substring_length_le 0 10 u). cbn [String.length]. lia.
Qed.

Lemma token_of_inj n i j :
  distinct_uuids n -> (i < n)%nat -> (j < n)%nat -> token_of i = token_of j -> i = j.
Proof.
  intros Hd Hi Hj E. apply (Hd i j Hi Hj). eapply sapp_inv_length; [|exact E]. by rewrite !uuid_simple_length.
Qed.

(** A computation draws UUIDs forward, and brings back no token below the
    count it starts from. *)
Definition forward_only (k : nat) (w w' : World C A) : Prop :=
  (w_uuids w <= w_uuids w')%nat /\
  forall n, distinct_uuids n -> (S k < w_uuids w)%nat -> (w_uuids w' <= n)%nat ->
    world_tokens w !! token_of k = None -> world_tokens w' !! token_of k = None.

Lemma forward_only_refl k w : forward_only k w w.
Proof. by split. Qed.

Lemma forward_only_same k w w' : same_tables w w' -> forward_only k w w'.
Proof. intros (Ht & _ & Hu). split; [lia|]. by rewrite Ht. Qed.

Lemma forward_only_trans k w1 w2 w3 : forward_only k w1 w2 -> forward_only k w2 w3 -> forward_only k w1 w3.
Proof.
  intros [H1 H1'] [H2 H2']. split; [lia|]. intros n Hn Hk Hle Hno. eapply H2'; [done|lia|done|].
  eapply H1'; [done|done|lia|done].
Qed.

Lemma provision_services_forward k ss token policy now ttl (w : World C A) :
  forward_only k w (provision_services ss token policy now ttl w).2.
Proof.
  revert w. induction ss as [|s ss IH]; intros w; [apply forward_only_refl|].
  cbn [provision_services]. destruct (negb (provisioned policy s)); [apply IH|].
  unfold mint_service_auth. destruct (svc_outbound s); eff_run.
  4:{ unfold on_tokens, fresh_uuid. cbn -[provision_services dummy_access_key_id].
      match goal with |- context [provision_services _ _ _ _ _ ?x] => pose proof (IH x) as Hx end.
      destruct (provision_services ss _ _ _ _ _) as [[l|] w2]; cbn [snd] in *;
        (eapply forward_only_trans; [|exact Hx]; split; [cbn; lia|];
         intros n _ _ _ Hno; cbn -[dummy_access_key_id]; by rewrite lookup_insert_ne by apply dummy_is_no_token). }
  all: pose proof (IH w) as Hx; by destruct (provision_services ss _ _ _ _ w) as [[l|] w2].
Qed.

Lemma provision_handler_forward k g headers now (w : World C A) :
  forward_only k w (provision_handler g headers now w).2.
Proof.
  unfold provision_handler. destruct (token_from_headers headers) as [token|]; [|apply forward_only_refl].
  unfold provision. eff_run. cbn [get_control].
  destruct (tokens_resolve_full token now (cp_tokens (w_control w))) as [[p t]|]; [|apply forward_only_refl].
  unfold provisionable_services. pose proof (provision_services_forward k (services (router g)) token p now (ttl_remaining now t) w) as Hx.
  by destruct (provision_services _ _ _ _ _ w) as [[l|] w2].
Qed.

Lemma step_forward g k s s' : step g s s' -> forward_only k (sy_world s) (sy_world s').
Proof.
  assert (Hserve : forall net req now (w w' : World C A) c, serve_proxy g net req now w = (c, w') -> forward_only k w w').
  { intros net req now w w' c E. pose proof (serve_proxy_cases g net req now w) as Hs. rewrite E in Hs.
    assert (Hp : forall c', provision_handler g (hq_headers req) now w = (c', w') -> forward_only k w w').
    { intros c' Ec. pose proof (provision_handler_forward k g (hq_headers req) now w) as Hf. by rewrite Ec in Hf. }
    assert (Hh : forall body c', handle g (proxy_request req body) now w = (c', w') -> forward_only k w w').
    { intros body c' Ec. apply forward_only_same. pose proof (handle_same_tables g (proxy_request req body) now w) as Hf.
      by rewrite Ec in Hf. }
    destruct c as [[[r es]|]|]; [destruct (hq_path req =s _)| |destruct (hq_path req =s _)].
    - destruct Hs as [_ Hs]. by eapply Hp.
    - destruct (to_bytes _ _); [|destruct Hs as (_ & _ & ->); apply forward_only_refl].
      destruct Hs as (_ & o & Ho & _). by eapply Hh.
    - destruct Hs as [_ ->]. apply forward_only_refl.
    - by eapply Hp.
    - destruct Hs as (body & _ & Ho). by eapply Hh. }
  intros Hst. inversion Hst as [w es ps net req now r es' w' E|w es ps net req now w' E
    |w es ps net req now w' E|w es ps headers req now r w' E|w es ps token r w' E|w es ps now w' E|w es ps c]; subst;
    cbn [sy_world]; try by eapply Hserve.
  - unfold mint_handler, mint_checked in E. eff_run in E. cbn [get_control] in E.
    destruct (authorize_mint _ _ _); [|injection E as <- <-; apply forward_only_refl].
    destruct (validate_catalog _ _); [|injection E as <- <-; apply forward_only_refl].
    rewrite mint_minted in E. injection E as <- <-. split; [cbn; lia|]. intros n Hn Hk Hle Hno.
    cbn in Hle |- *. change (uuid_simple (w_uuids w) +:+ uuid_simple (S (w_uuids w))) with (token_of (w_uuids w)).
    rewrite lookup_insert_ne; [done|]. intros E. apply (token_of_inj n) in E; [lia|done|lia|lia].
  - injection E as <- <-. split; [done|]. intros n _ _ _ Hno. cbn. apply lookup_delete_None. by right.
  - injection E as <-. split; [done|]. intros n _ _ _ Hno. cbn. apply map_lookup_filter_None. by left.
  - split; [done|]. done.
Qed.

(** A request presenting a token that is not in the table is answered 401. *)
Lemma handle_unknown_token g req now token source (w : World C A) :
  sigv4_header (rq_headers req) = None -> extract_auth (rq_headers req) = Some (token, source) ->
  world_tokens w !! token = None ->
  exists m, handle g req now w = (Done (reject UNAUTHORIZED Unauthenticated m), w).
Proof.
  intros Hs Hx Hnone.
  assert (Hres : tokens_resolve token now (world_tokens w) = None).
  { unfold tokens_resolve, tokens_resolve_full. by rewrite Hnone. }
  pose proof (authenticate_spec_aux req now w) as Ha. unfold handle. eff_run.
  destruct (authenticate req now w) as [[[[p src]|o]|] w'] eqn:Ea.
  - exfalso. destruct Ha as [_ Ha]. inversion Ha; hk_same.
  - destruct Ha as (-> & (m & ->) & _). by exists m.
  - exfalso. unfold authenticate, authenticate_bearer in Ea. revert Ea Hs. unfold sigv4_header.
    rewrite Hx. destruct (header_str (rq_headers req) "authorization") as [auth|]; [destruct (starts_with _ auth)|];
      try done; intros Ea _; eff_run in Ea; cbn [get_control] in Ea; by destruct (tokens_resolve _ _ _).
Qed.

(** Revocation is final. Once a token is revoked, no continuation of the
    run, whatever is minted, provisioned, swept or rotated, brings it back:
    it resolves to nothing at any time, and every request presenting it is
    answered 401 and changes nothing. Distinctness of the UUIDs drawn is all
    this needs. *)
Lemma revocation_final g k (w w1 : World C A) es ps r s n :
  (S k < w_uuids w)%nat -> revoke_handler (token_of k) w = (Done r, w1) ->
  rtc (step g) (mkSys w1 es ps) s -> (w_uuids (sy_world s) <= n)%nat -> distinct_uuids n ->
  (forall now, tokens_resolve (token_of k) now (world_tokens (sy_world s)) = None) /\
  forall req now source, sigv4_header (rq_headers req) = None ->
    extract_auth (rq_headers req) = Some (token_of k, source) ->
    exists m, handle g req now (sy_world s) = (Done (reject UNAUTHORIZED Unauthenticated m), sy_world s).
Proof.
  intros Hk Hr Hrun Hle Hn. injection Hr as <- <-.
  assert (Hf : forall s0 s1, rtc (step g) s0 s1 -> forward_only k (sy_world s0) (sy_world s1)).
  { induction 1 as [|x y z Hxy _ IH]; [apply forward_only_refl|].
    eapply forward_only_trans; [by eapply step_forward|exact IH]. }
  destruct (Hf _ _ Hrun) as [_ Hnone]. specialize (Hnone n Hn Hk Hle (lookup_delete_eq _ _)).
  assert (Hres : forall now, tokens_resolve (token_of k) now (world_tokens (sy_world s)) = None).
  { intros now. unfold tokens_resolve, tokens_resolve_full. by rewrite Hnone. }
  split; [exact Hres|]. intros req now source Hs Hx. by eapply handle_unknown_token.
Qed.
End Revocation.

(** ** Provisioned credentials *)

Section Provisioned.
Context {J : JsonLib} {H : HttpLib} {R : RingLib} {U : UuidLib} {UL : UuidLaws U}.
Context {C A : Type} `{!CredentialStore C} `{!AuditSink A}.

(** The access key ids a document hands out. *)
Definition dummy_ids (l : list ProvisionService) : list string :=
  omap (fun e => match ps_auth e with SigV4Auth akid _ _ => Some akid | BearerAuth _ => None end) l.

(** A dummy of the document is in the table with its own secret. *)
Definition entry_live (policy : Policy) (t : Z) (ts : Tokens) (e : ProvisionService) : Prop :=
  match ps_auth e with
  | BearerAuth _ => True
  | SigV4Auth akid secret _ => ts !! akid = Some (mkEntry policy t (Some secret))
  end.

Lemma provision_services_live ss token policy now ttl (w : World C A) :
  exists l w', provision_services ss token policy now ttl w = (Done l, w') /\
    (NoDup (dummy_ids l) -> Forall (entry_live policy (expiry ttl now) (world_tokens w')) l) /\
    (forall key, key ∉ dummy_ids l -> world_tokens w' !! key = world_tokens w !! key) /\
    Forall (fun akid => exists n, akid = dummy_access_key_id (uuid_simple n)) (dummy_ids l).
Proof.
  revert w. induction ss as [|s ss IH]; intros w.
  { exists [], w. repeat split; constructor. }
  cbn [provision_services]. destruct (negb (provisioned policy s)); [apply IH|].
  unfold mint_service_auth. destruct (svc_outbound s) as [|c|n c|c akid region aws]; eff_run.
  4:{ unfold on_tokens, fresh_uuid. cbn -[provision_services dummy_access_key_id dummy_ids].
      match goal with |- context [provision_services _ _ _ _ _ ?x] => destruct (IH x) as (l & w2 & E & Hl & Hk & Hd) end.
      rewrite E. do 2 eexists. split; [reflexivity|].
      change (dummy_ids (?e :: l)) with (dummy_access_key_id (uuid_simple (w_uuids w)) :: dummy_ids l).
      split_and!.
      - intros [Hnot Hnd]%NoDup_cons. constructor; [|by apply Hl]. unfold entry_live. cbn [ps_auth].
        rewrite Hk by done. unfold world_tokens. cbn -[dummy_access_key_id]. by rewrite lookup_insert_eq.
      - intros key [Hne Hnot]%not_elem_of_cons. rewrite Hk by done. unfold world_tokens. cbn -[dummy_access_key_id].
        by rewrite lookup_insert_ne.
      - constructor; [by eexists|done]. }
  all: destruct (IH w) as (l & w2 & E & Hl & Hk & Hd); rewrite E; do 2 eexists; (split; [reflexivity|]);
    (split; [intros Hnd; constructor; [done|by apply Hl]|]); by split.
Qed.

Lemma sforall_substring p n m s : sforall p s = true -> sforall p (String.substring n m s) = true.
Proof.
  revert n m. induction s as [|a s IH]; intros [|n] [|m] Hs; cbn [String.substring sforall] in *; try done;
    apply andb_true_iff in Hs as [Ha Hs]; [by rewrite Ha, IH|by apply IH..].
Qed.

(** Access key ids need no quoting in an [Authorization] header. *)
Lemma dummy_id_token n : scope_token (dummy_access_key_id (uuid_simple n)).
Proof.
  assert (Hall : sforall (fun a => is_ascii_upper a || is_ascii_digit a)
    (dummy_access_key_id (uuid_simple n)) = true).
  { unfold dummy_access_key_id, to_ascii_uppercase. rewrite sforall_smap, sforall_app. apply andb_true_iff. split; [reflexivity|].
    apply sforall_substring. eapply sforall_impl; [|apply uuid_simple_hex]. cbn beta. intros a Ha.
    destruct a as [[] [] [] [] [] [] [] []]; first [reflexivity|discriminate Ha]. }
  split; (eapply lacks_sforall; [|exact Hall]); reflexivity.
Qed.

(** C16: provisioned credentials work, end to end. If the document [provision]
    returns has distinct access key ids, then with any dummy credential in it
    a consumer can sign any request for any scope, and the gateway, given
    that request with the signer's headers while the dummy lives and within
    the skew window, authenticates it for the very policy of the token the
    document was fetched with. *)
Theorem provisioned_credential_signs g token now (w w' : World C A) doc e akid secret reg :
  provision g token now w = (Done (Some doc), w') -> NoDup (dummy_ids (pd_services doc)) ->
  e ∈ pd_services doc -> ps_auth e = SigV4Auth akid secret reg ->
  exists policy, tokens_resolve_full token now (world_tokens w) = Some (policy, pd_expires_at_ms doc) /\
  forall req sg ms svc host now',
    sign (mkCreds akid secret) reg svc (rq_method req) host (rq_path req) (rq_query req) (rq_body req) ms = Done sg ->
    (0 <= ms < 253402300800000)%Z -> scope_token reg -> scope_token svc ->
    header_value (rq_headers req) "host" = Some host ->
    header_value (rq_headers req) "x-amz-content-sha256" = Some (content_sha256 sg) ->
    header_value (rq_headers req) "x-amz-date" = Some (amz_date sg) ->
    header_value (rq_headers req) "authorization" = Some (authorization sg) ->
    (u64_abs_diff now' (ms / 1000 * 1000) <= MAX_SKEW_MS)%Z ->
    (now' < expiry (ttl_remaining now (pd_expires_at_ms doc)) now)%Z ->
    authenticate req now' w' = (Done (Ok (policy, SigV4Source)), w').
Proof.
  intros Hp Hnd He Hau. unfold provision in Hp. eff_run in Hp. cbn [get_control] in Hp.
  unfold world_tokens at 1. destruct (tokens_resolve_full token now (cp_tokens (w_control w))) as [[policy t]|]; [|done].
  unfold provisionable_services in Hp.
  destruct (provision_services_live (services (router g)) token policy now (ttl_remaining now t) w)
    as (l & w2 & E & Hl & _ & Hd). rewrite E in Hp. injection Hp as <- <-. cbn [pd_services pd_expires_at_ms] in *.
  exists policy. split; [done|]. intros req sg ms svc host now' Hs Hms Hr Hv Hh Hsha Hdt Hauth Hskew Hlive.
  assert (Hlook : world_tokens w2 !! akid = Some (mkEntry policy (expiry (ttl_remaining now t) now) (Some secret))).
  { specialize (Hl Hnd). rewrite Forall_forall in Hl. specialize (Hl e He). unfold entry_live in Hl. by rewrite Hau in Hl. }
  assert (Htok : scope_token akid).
  { rewrite Forall_forall in Hd. destruct (Hd akid) as [n ->]; [|apply dummy_id_token].
    apply list_elem_of_omap. exists e. split; [done|]. by rewrite Hau. }
  destruct (sign_verify_ok _ _ _ _ _ _ _ _ _ sg (rq_headers req) (rq_body req) now' Hs Hms Htok Hr Hv Hh Hsha Hdt Hskew)
    as (p & Hpa & Hakid & _ & _ & Hver). cbn [access_key_id secret_access_key] in *.
  assert (Hstart : starts_with "AWS4-HMAC-SHA256" (authorization sg) = true).
  { unfold sign in Hs. destruct (format_amz_datetime ms). apply comp_bind_done in Hs as (c & _ & Hsg). injection Hsg as <-.
    cbn [authorization]. apply starts_with_true. by eexists. }
  change (header_str (rq_headers req) "authorization" = Some (authorization sg)) in Hauth.
  unfold authenticate. rewrite Hauth, Hstart.
  unfold authenticate_sigv4. rewrite Hpa. eff_run. cbn [get_control]. unfold tokens_resolve_sigv4. rewrite Hakid.
  change (cp_tokens (w_control w2)) with (world_tokens w2). rewrite Hlook. cbn [mbind option_bind e_expires_at_ms].
  replace (_ <=? now')%Z with false by (symmetry; apply Z.leb_gt; lia). cbn [e_secret e_policy mbind option_bind]. by rewrite Hver.
Qed.
End Provisioned.

(** ** Witnesses: a run of the example gateway *)

#[local] Existing Instance ref_json.
#[local] Existing Instance ref_json_text.
#[local] Existing Instance ref_http.
#[local] Existing Instance ref_request.
#[local] Existing Instance ref_ring.
#[local] Existing Instance ref_uuid.
#[local] Existing Instance ref_uuid_laws.
#[local] Existing Instance ref_body.
#[local] Existing Instance ref_body_laws.
#[local] Existing Instance ref_axum.
#[local] Existing Instance ref_axum_laws.

(** Mint for a tenant, then serve one request. *)
Definition ex_start : Sys InMemoryCredentials InMemoryAudit := mkSys ex_world0 [] [].
Definition ex_headers : HeaderMap := [("x-hackamore-tenant", " tenant-a ")].
Definition ex_answer : Response := Relayed 200 [("etag", "x")] "ok".
Definition ex_exchange : Exchange := mkExchange ex_http_request 2000 (world_tokens ex_world) [ex_sent].
Definition ex_end : Sys InMemoryCredentials InMemoryAudit := mkSys ex_served.2 [ex_exchange] [ex_policy].

Lemma ex_run : rtc (step ex_gateway) ex_start ex_end.
Proof.
  eapply rtc_l; [apply (step_mint _ ex_world0 [] [] ex_headers (mkMintRequest ex_policy 60) 1000
    (MintedResponse ex_response) ex_world); hk_vm|].
  apply rtc_once. apply (step_proxy _ ex_world [] [ex_policy] ex_net ex_http_request 2000
    ex_answer [ex_sent] ex_served.2). hk_vm.
Qed.

Lemma traffic_authorised_witness :
  Forall (authorised ex_gateway [ex_policy]) [ex_exchange] /\
  Forall (accepted ex_gateway (tenants_of ex_world0)) [ex_policy].
Proof. apply (traffic_authorised ex_gateway ex_start ex_end); [by repeat split|exact ex_run]. Defined.

(** Its token revoked, the example's request is refused. *)
Definition ex_revoked : World InMemoryCredentials InMemoryAudit :=
  (revoke_handler ex_token ex_world).2.

Definition ex_late_request : ProxyRequest :=
  mkProxyRequest _ "GET" "/repos/o/r" "" [("x-hackamore-token", ex_token)] "".

Lemma ex_distinct : distinct_uuids 2.
Proof. intros [|[|i]] [|[|j]] ?? E; first [reflexivity|exfalso; lia|vm_compute in E; discriminate E]. Qed.

Lemma ex_revoke : revoke_handler (token_of 0) ex_world = (Done (RevokedResponse true), ex_revoked).
Proof. hk_vm. Qed.

Lemma ex_drawn : w_uuids ex_world = 2%nat.
Proof. hk_vm. Qed.

Lemma ex_drawn_after : w_uuids ex_revoked = 2%nat.
Proof. hk_vm. Qed.

Lemma ex_presents :
  sigv4_header (rq_headers ex_late_request) = None /\
  extract_auth (rq_headers ex_late_request) = Some (token_of 0, HackamoreHeader).
Proof. split; hk_vm. Qed.

Lemma revocation_final_witness :
  exists m, handle ex_gateway ex_late_request 3000 ex_revoked = (Done (reject UNAUTHORIZED Unauthenticated m), ex_revoked).
Proof.
  destruct (revocation_final ex_gateway 0 ex_world ex_revoked [] [] (RevokedResponse true) (mkSys ex_revoked [] []) 2)
    as [_ Hf].
  - rewrite ex_drawn. lia.
  - exact ex_revoke.
  - apply rtc_refl.
  - cbn [sy_world]. rewrite ex_drawn_after. lia.
  - exact ex_distinct.
  - exact (Hf ex_late_request 3000%Z HackamoreHeader (proj1 ex_presents) (proj2 ex_presents)).
Defined.

(** A consumer fetches its dummy AWS credential and signs a request with it. *)
Definition ex_ec2_policy : Policy := mkPolicy [mkRule Allow (mkMatch ["ec2"] [] [] [])].
Definition ex_t0 : Z := 1700000000000.

Definition ex_fetched : comp (option ProvisionDoc) * World InMemoryCredentials InMemoryAudit :=
  let m := minted ex_ec2_policy 3600 ex_t0 (mkWorld (ControlPlane_new (mkInMemoryCredentials ∅) (mkInMemoryAudit [])) 0) in
  provision ex_gateway (mr_token m.1) ex_t0 m.2.

Definition ex_dummy : ProvisionService :=
  mkProvisionService "ec2" "generic" "" Inject
    (SigV4Auth "AKIAHACKAMORE0000000000" (token_of 3) "us-east-1").

Definition ex_doc : ProvisionDoc := mkProvisionDoc (token_of 0) "" (ex_t0 + 3600000) [ex_dummy].

Definition ex_dummy_signed : Signed :=
  match sign (mkCreds "AKIAHACKAMORE0000000000" (token_of 3)) "us-east-1" "ec2" "GET" "ec2.amazonaws.com" "/" "Action=DescribeInstances" "" ex_t0 with
  | Done sg => sg
  | Panic => mkSigned "" "" ""
  end.

Definition ex_signed_request : ProxyRequest :=
  mkProxyRequest _ "GET" "/" "Action=DescribeInstances"
    [("host", "ec2.amazonaws.com"); ("x-amz-content-sha256", content_sha256 ex_dummy_signed);
     ("x-amz-date", amz_date ex_dummy_signed); ("authorization", authorization ex_dummy_signed)] "".

Lemma ex_fetched_doc : ex_fetched.1 = Done (Some ex_doc).
Proof. hk_vm. Qed.

Lemma provisioned_credential_signs_witness :
  exists policy, authenticate ex_signed_request (ex_t0 + 1000) ex_fetched.2 = (Done (Ok (policy, SigV4Source)), ex_fetched.2).
Proof.
  pose proof ex_fetched_doc as E. destruct ex_fetched as [c w'] eqn:Ef. cbn [fst snd] in *. subst c.
  destruct (provisioned_credential_signs ex_gateway _ ex_t0 _ w' ex_doc ex_dummy "AKIAHACKAMORE0000000000" (token_of 3) "us-east-1" Ef)
    as (policy & _ & Hp).
  - apply (bool_decide_unpack _). vm_compute. exact I.
  - apply list_elem_of_singleton. reflexivity.
  - reflexivity.
  - exists policy. apply (Hp ex_signed_request ex_dummy_signed ex_t0 "ec2" "ec2.amazonaws.com");
      [hk_vm|vm_compute; intuition congruence|split; reflexivity|split; reflexivity|hk_vm..|vm_compute; intuition congruence|vm_compute; reflexivity].
Defined.
