(* ===== verification/Agent.v ===== *)
(** [agent/src/lib.rs] and the home resolution of [agent/src/main.rs]:
    rendering a provision document, writing native tool configuration under a
    home directory, the manifest, and tearing it down. Files live in a finite
    map from path to contents; [faults] says which operations the operating
    system refuses, and a refused operation changes nothing. Directories
    exist as soon as they are asked for. *)

From S2P Require Import Prelude RustStr External Models.

Definition MANIFEST : string := ".hackamore/manifest".
Definition CA_BUNDLE : string := ".hackamore/hackamore-ca.pem".

(** ** The file system *)

Inductive IoError := NotFound | OtherError (message : string).
Inductive FsOp := ReadFile | CreateDirs | WriteFile | RemoveFile.

Notation Files := (gmap string string).

(** A computation that may fail with an [std::io::Error]; what it did to the
    files before failing stays done. *)
Definition fs (A : Type) : Type := Files -> result A IoError * Files.

#[export] Instance fs_ret : MRet fs := fun A a s => (Ok a, s).
#[export] Instance fs_bind : MBind fs := fun A B f m s =>
  match m s with
  | (Ok a, s') => f a s'
  | (Err e, s') => (Err e, s')
  end.

(** [home.join(rel)] for a relative [rel]. *)
Definition join_path (home rel : string) : string :=
  if sempty home || ends_with "/" home then home +:+ rel else home +:+ "/" +:+ rel.

Section FileSystem.
Variable faults : FsOp -> string -> option string.

Definition allowed (op : FsOp) (path : string) : fs unit := fun s =>
  match faults op path with Some e => (Err (OtherError e), s) | None => (Ok tt, s) end.

(** The text of a file. *)
Definition contents (path : string) : fs string := fun s =>
  match s !! path with
  | None => (Err NotFound, s)
  | Some bytes => match from_utf8 bytes with
                  | Some text => (Ok text, s)
                  | None => (Err (OtherError "stream did not contain valid UTF-8"), s)
                  end
  end.

Definition unlink (path : string) : fs unit := fun s =>
  match s !! path with None => (Err NotFound, s) | Some _ => (Ok tt, delete path s) end.

Definition put (path contents : string) : fs string := fun s => (Ok path, <[path := contents]> s).

(** [std::fs::read_to_string]. *)
Definition read_to_string (path : string) : fs string := allowed ReadFile path;; contents path.

(** [std::fs::remove_file]. *)
Definition remove_file (path : string) : fs unit := allowed RemoveFile path;; unlink path.

(** [write], with [create_dir_all] of the parent. *)
Definition write (path contents : string) : fs string :=
  allowed CreateDirs path;; allowed WriteFile path;; put path contents.
End FileSystem.

(** ** Rendering *)

Definition mode_hint (mode : ProvisionMode) : string :=
  match mode with
  | Inject => "inject (hackamore supplies the credential)"
  | Passthrough => "passthrough (bring your own credential)"
  end.

Definition dquote : string := String "034" "".

Definition env_service (s : ProvisionService) : string :=
  "# service '" +:+ ps_target s +:+ "' [" +:+ ps_flavor s +:+ "] " +:+ mode_hint (ps_mode s) +:+ NL
  +:+ (if negb (sempty (ps_address s)) then "#   point your tool at: " +:+ ps_address s +:+ NL else "").

Definition render_env (doc : ProvisionDoc) : string :=
  "# hackamore-agent env (token expires at " +:+ show_dec (pd_expires_at_ms doc) +:+ " ms)" +:+ NL
  +:+ "export HACKAMORE_TOKEN='" +:+ hackamore_token doc +:+ "'" +:+ NL
  +:+ "export HACKAMORE_TOKEN_HEADER='X-Hackamore-Token'" +:+ NL
  +:+ (if negb (sempty (hackamore_ca doc)) then
         "export HACKAMORE_CA_BUNDLE=" +:+ dquote +:+ "$HOME/" +:+ CA_BUNDLE +:+ dquote +:+ NL
         +:+ "export AWS_CA_BUNDLE=" +:+ dquote +:+ "$HOME/" +:+ CA_BUNDLE +:+ dquote +:+ NL
         +:+ "export GIT_SSL_CAINFO=" +:+ dquote +:+ "$HOME/" +:+ CA_BUNDLE +:+ dquote +:+ NL
       else "")
  +:+ concat (map env_service (pd_services doc)).

Definition status_service (s : ProvisionService) : string :=
  let addr := if sempty (ps_address s) then "(via hackamore proxy)" else ps_address s in
  "  - " +:+ ps_target s +:+ " [" +:+ ps_flavor s +:+ "] " +:+ mode_hint (ps_mode s) +:+ " → " +:+ addr +:+ NL.

Definition render_status (doc : ProvisionDoc) : string :=
  "hackamore token valid until " +:+ show_dec (pd_expires_at_ms doc) +:+ " ms; "
  +:+ show_dec (Z.of_nat (length (pd_services doc))) +:+ " service(s) reachable:" +:+ NL
  +:+ concat (map status_service (pd_services doc)).

(** ** A service's parts *)

Definition bearer_token (s : ProvisionService) : option string :=
  match ps_auth s with BearerAuth token => Some token | SigV4Auth _ _ _ => None end.

Definition endpoint (s : ProvisionService) : string :=
  if sempty (ps_address s) then "https://hackamore.local" else ps_address s.

Definition endpoint_host (s : ProvisionService) : string :=
  trim_end_matches "/" (trim_start_str "http://" (trim_start_str "https://" (endpoint s))).

(** ** Merging lines *)

(** The loop of [merge_lines]: the lines seen and, in order, those kept. *)
Fixpoint merge_loop (ls : list string) (seen : gset string) (ordered : list string) : list string :=
  match ls with
  | [] => ordered
  | l :: ls' =>
      let l := trim l in
      if negb (sempty l) && negb (bool_decide (l ∈ seen))
      then merge_loop ls' ({[l]} ∪ seen) (ordered ++ [l])
      else merge_loop ls' seen ordered
  end.

Definition merge_text (existing line : string) : string :=
  join NL (merge_loop (lines existing ++ [line]) ∅ []) +:+ NL.

(** ** Writing *)

Section Write.
Variable faults : FsOp -> string -> option string.

Definition merge_lines (path line : string) : fs string := fun s =>
  match read_to_string faults path s with
  | (Ok text, s') => (Ok (merge_text text line), s')
  | (Err NotFound, s') => (Ok (merge_text "" line), s')
  | (Err e, s') => (Err e, s')
  end.

Definition write_kubeconfig (home : string) (s : ProvisionService) (ca : option string) : fs string :=
  let token := default "" (bearer_token s) in
  let name := ps_target s in
  let cluster_tls := match ca with
                     | Some p => "    certificate-authority: " +:+ p +:+ NL
                     | None => ""
                     end in
  let body :=
    "apiVersion: v1" +:+ NL +:+ "kind: Config" +:+ NL +:+ "current-context: " +:+ name +:+ NL
    +:+ "clusters:" +:+ NL +:+ "- name: " +:+ name +:+ NL +:+ "  cluster:" +:+ NL
    +:+ "    server: " +:+ endpoint s +:+ NL +:+ cluster_tls
    +:+ "contexts:" +:+ NL +:+ "- name: " +:+ name +:+ NL +:+ "  context:" +:+ NL
    +:+ "    cluster: " +:+ name +:+ NL +:+ "    user: " +:+ name +:+ NL
    +:+ "users:" +:+ NL +:+ "- name: " +:+ name +:+ NL +:+ "  user:" +:+ NL
    +:+ "    token: " +:+ token +:+ NL in
  write faults (join_path (join_path home ".kube") "config") body.

Definition TAB : string := String "009" "".

Definition cred_line (s : ProvisionService) : string :=
  "https://x-access-token:" +:+ default "" (bearer_token s) +:+ "@" +:+ endpoint_host s.

Definition write_github (home : string) (s : ProvisionService) (ca : option string) : fs (list string) :=
  let token := default "" (bearer_token s) in
  let host := endpoint_host s in
  let creds := join_path home ".git-credentials" in
  merged ← merge_lines creds (cred_line s);
  creds ← write faults creds merged;
  let gitconfig :=
    "[credential]" +:+ NL +:+ TAB +:+ "helper = store" +:+ NL
    +:+ match ca with
        | Some p => "[http]" +:+ NL +:+ TAB +:+ "sslCAInfo = " +:+ p +:+ NL
        | None => ""
        end in
  gitconfig ← write faults (join_path home ".gitconfig") gitconfig;
  let hosts :=
    host +:+ ":" +:+ NL +:+ "    oauth_token: " +:+ token +:+ NL +:+ "    git_protocol: https" +:+ NL
    +:+ "    user: x-access-token" +:+ NL in
  gh ← write faults (join_path (join_path (join_path home ".config") "gh") "hosts.yml") hosts;
  mret [creds; gitconfig; gh].

Definition write_aws (home : string) (s : ProvisionService) (access_key_id secret_access_key region : string)
    (ca : option string) : fs (list string) :=
  let creds :=
    "[default]" +:+ NL +:+ "aws_access_key_id = " +:+ access_key_id +:+ NL
    +:+ "aws_secret_access_key = " +:+ secret_access_key +:+ NL in
  let config :=
    "[default]" +:+ NL +:+ "region = " +:+ region +:+ NL +:+ "endpoint_url = " +:+ endpoint s +:+ NL
    +:+ match ca with Some p => "ca_bundle = " +:+ p +:+ NL | None => "" end in
  p1 ← write faults (join_path (join_path home ".aws") "credentials") creds;
  p2 ← write faults (join_path (join_path home ".aws") "config") config;
  mret [p1; p2].

Definition write_manifest (home : string) (written : list string) : fs unit :=
  write faults (join_path home MANIFEST) (join NL written +:+ NL);;
  mret tt.

(** One turn of the loop of [write_configs]. *)
Definition write_service (home : string) (ca : option string) (s : ProvisionService) : fs (list string) :=
  tool ← (if ps_flavor s =s "github" then write_github home s ca
          else if ps_flavor s =s "k8s" then p ← write_kubeconfig home s ca; mret [p]
          else mret []);
  aws ← match ps_auth s with
        | SigV4Auth akid secret region => write_aws home s akid secret region ca
        | BearerAuth _ => mret []
        end;
  mret (tool ++ aws).

Fixpoint write_services (home : string) (ca : option string) (ss : list ProvisionService) : fs (list string) :=
  match ss with
  | [] => mret []
  | s :: ss' =>
      ps ← write_service home ca s;
      rest ← write_services home ca ss';
      mret (ps ++ rest)
  end.

Definition write_ca (home ca : string) : fs (list string * option string) :=
  if sempty ca then mret ([], None)
  else
    let p := join_path home CA_BUNDLE in
    written ← write faults p ca;
    mret ([written], Some p).

Definition write_configs (home : string) (doc : ProvisionDoc) : fs (list string) :=
  env ← write faults (join_path home "hackamore.env") (render_env doc);
  ca ← write_ca home (hackamore_ca doc);
  tools ← write_services home ca.2 (pd_services doc);
  let written := env :: ca.1 ++ tools in
  write_manifest home written;;
  mret written.

(** ** Tearing down *)

Fixpoint remove_listed (paths : list string) : fs (list string) :=
  match paths with
  | [] => mret []
  | path :: ps => fun s =>
      match remove_file faults path s with
      | (Ok _, s') => (removed ← remove_listed ps; mret (path :: removed)) s'
      | (Err NotFound, s') => remove_listed ps s'
      | (Err e, s') => (Err e, s')
      end
  end.

(** [let _ = m]: the result is dropped, an error too. *)
Definition ignore {A} (m : fs A) : fs unit := fun s => (Ok tt, (m s).2).

Definition not_blank (l : string) : bool := negb (sempty (trim l)).

Definition teardown (home : string) : fs (list string) := fun s =>
  let manifest := join_path home MANIFEST in
  match read_to_string faults manifest s with
  | (Ok text, s') =>
      (removed ← remove_listed (List.filter not_blank (lines text));
       ignore (remove_file faults manifest);;
       mret removed : fs (list string)) s'
  | (Err NotFound, s') => (Ok [], s')
  | (Err e, s') => (Err e, s')
  end.
End Write.

(** ** Fetching, and the home directory *)

(** The GET of the provision document with the token in [X-Hackamore-Token]: a
    transport error's text, or the status and the decoded document (or the
    decoding error's text). *)
Class ProvisionNet := provision_get : string -> string -> result (Z * result ProvisionDoc string) string.

Section Fetch.
Context {N : ProvisionNet} {X : ExchangeLib}.

Definition fetch_provision (proxy_url token : string) : result ProvisionDoc string :=
  let url := trim_end_matches "/" proxy_url +:+ "/.hackamore/provision" in
  match provision_get url token with
  | Err e => Err ("provision request failed: " +:+ e)
  | Ok (status, body) =>
      if negb (in_range 200 299 status) then Err ("provision failed: HTTP " +:+ show_status status)
      else match body with
           | Err e => Err ("provision decode failed: " +:+ e)
           | Ok doc => Ok doc
           end
  end.
End Fetch.

Definition resolve_home (explicit home_var : option string) : result string string :=
  match explicit with
  | Some p => Ok p
  | None => match home_var with Some p => Ok p | None => Err "no --home and $HOME is unset" end
  end.

(** ** Merging, as sets of lines *)

Lemma merge_loop_spec ls seen ordered :
  NoDup ordered -> (forall l, l ∈ seen <-> l ∈ ordered) ->
  NoDup (merge_loop ls seen ordered) /\
  forall l, l ∈ merge_loop ls seen ordered <-> l ∈ ordered \/ l <> "" /\ exists l0, l0 ∈ ls /\ l = trim l0.
Proof.
  revert seen ordered. induction ls as [|x ls IH]; intros seen ordered Hnd Hseen; cbn [merge_loop].
  { split; [done|]. intros l. split; [auto|]. intros [?|(_ & l0 & Hin & _)]; [done|by apply elem_of_nil in Hin]. }
  destruct (negb (sempty (trim x)) && negb (bool_decide (trim x ∈ seen))) eqn:E.
  - apply andb_true_iff in E as [Ex Es]. apply negb_true_iff, bool_decide_eq_false in Es.
    assert (Hnot : trim x ∉ ordered) by (by rewrite <- Hseen).
    destruct (IH ({[trim x]} ∪ seen) (ordered ++ [trim x])) as [H1 H2].
    + apply NoDup_app. split_and!; [done| |apply NoDup_singleton].
      intros l Hl ->%list_elem_of_singleton. done.
    + intros l. rewrite elem_of_union, elem_of_singleton, elem_of_app, list_elem_of_singleton, Hseen. tauto.
    + split; [done|]. intros l. rewrite H2, elem_of_app, list_elem_of_singleton.
      setoid_rewrite elem_of_cons. split.
      * intros [[?| ->]|(Hne & l0 & Hin & ->)]; [auto| |right; split; eauto].
        right. split; [|eauto]. intros E. by rewrite E in Ex.
      * intros [?|(Hne & l0 & [->|Hin] & ->)]; [auto..|]. right. eauto.
  - destruct (IH seen ordered Hnd Hseen) as [H1 H2]. split; [done|]. intros l. rewrite H2.
    setoid_rewrite elem_of_cons. split.
    + intros [?|(Hne & l0 & Hin & ->)]; [auto|]. right. split; eauto.
    + intros [?|(Hne & l0 & [->|Hin] & ->)]; [auto| |right; split; eauto].
      apply andb_false_iff in E as [E|E]; apply negb_false_iff in E.
      * exfalso. apply Hne. by destruct (trim x).
      * left. apply bool_decide_eq_true in E. by apply Hseen.
Qed.

(** Lines already merged are kept as they are. *)
Lemma merge_loop_fixed r ls seen ordered :
  NoDup (ordered ++ r) -> Forall (fun l => trim l = l /\ l <> "") r -> (forall l, l ∈ seen <-> l ∈ ordered) ->
  exists seen', (forall l, l ∈ seen' <-> l ∈ ordered ++ r) /\
    merge_loop (r ++ ls) seen ordered = merge_loop ls seen' (ordered ++ r).
Proof.
  intros Hnd Hr. revert seen ordered Hnd. induction Hr as [|x r [Hx Hne] _ IH]; intros seen ordered Hnd Hseen.
  { exists seen. by rewrite app_nil_r. }
  cbn [merge_loop app]. rewrite Hx. assert (Es : negb (sempty x) && negb (bool_decide (x ∈ seen)) = true).
  { apply andb_true_iff. split; [by destruct x|]. rewrite bool_decide_eq_false_2; [done|]. rewrite Hseen.
    apply NoDup_app in Hnd as (_ & Hd & _). intros Hin. apply (Hd x Hin). apply elem_of_cons; auto. }
  rewrite Es. change (x :: r) with ([x] ++ r) in *. rewrite app_assoc in *. apply IH; [done|].
  intros l. rewrite elem_of_union, elem_of_singleton, elem_of_app, list_elem_of_singleton, Hseen. tauto.
Qed.

Lemma lines_go_lack pieces : Forall (lacks newline) pieces -> Forall (lacks newline) (lines_go pieces).
Proof.
  intros Hp. induction Hp as [|p ps Hl Hps IH]; [constructor|]. cbn [lines_go].
  assert (Hcr : lacks newline (strip_cr p)).
  { unfold strip_cr. destruct (strip_suffix _ p) as [r|] eqn:E; [|done].
    apply strip_suffix_app_inv in E as ->. by apply lacks_app in Hl as [? _]. }
  destruct ps; [destruct (sempty p); by repeat constructor|by constructor].
Qed.

Lemma lines_lack text : Forall (lacks newline) (lines text).
Proof. apply lines_go_lack, split_pieces_lack. Qed.

Definition merged_lines (text line : string) : list string := merge_loop (lines text ++ [line]) ∅ [].

Lemma merged_lines_spec text line :
  NoDup (merged_lines text line) /\
  forall l, l ∈ merged_lines text line <-> l <> "" /\ exists l0, (l0 ∈ lines text \/ l0 = line) /\ l = trim l0.
Proof.
  destruct (merge_loop_spec (lines text ++ [line]) ∅ []) as [H1 H2]; [constructor|set_solver|].
  split; [exact H1|]. intros l. unfold merged_lines. rewrite H2.
  setoid_rewrite elem_of_app. setoid_rewrite list_elem_of_singleton.
  split; [|auto]. intros [Hin|?]; [by apply elem_of_nil in Hin|done].
Qed.

Lemma lines_merge_text text line :
  lacks newline line -> trim line <> "" -> lines (merge_text text line) = merged_lines text line.
Proof.
  intros Hl Hne. destruct (merged_lines_spec text line) as [_ Hin]. unfold merge_text. apply lines_join.
  - apply Forall_forall. intros l (_ & l0 & Hl0 & ->)%Hin. split; [|apply strip_cr_trim].
    apply trim_lacks. destruct Hl0 as [Hl0| ->]; [|done].
    pose proof (lines_lack text) as Hf. rewrite Forall_forall in Hf. by apply Hf.
  - intros E. assert (Hc : trim line ∈ merged_lines text line) by (apply Hin; eauto).
    rewrite E in Hc. by apply elem_of_nil in Hc.
Qed.

(** Merging a credential line is a set union and is idempotent. Reading the
    merged file back gives, once each, exactly the trimmed non-blank lines of
    the old file and the new line: nothing the user had is lost. Merging the
    same line again changes not a byte. *)
Lemma merge_lines_union text line :
  lacks newline line -> trim line <> "" ->
  NoDup (lines (merge_text text line)) /\
  (forall l, l ∈ lines (merge_text text line) <->
     l <> "" /\ exists l0, (l0 ∈ lines text \/ l0 = line) /\ l = trim l0) /\
  merge_text (merge_text text line) line = merge_text text line.
Proof.
  intros Hl Hne. rewrite lines_merge_text by done.
  destruct (merged_lines_spec text line) as [Hnd Hin]. split_and!; [exact Hnd|exact Hin|].
  unfold merge_text at 1. rewrite lines_merge_text by done.
  change (merge_text text line) with (join NL (merged_lines text line) +:+ NL).
  destruct (merge_loop_fixed (merged_lines text line) [line] ∅ []) as (seen & Hseen & ->); [done| |set_solver|].
  - apply Forall_forall. intros l (Hn & l0 & _ & ->)%Hin. by rewrite trim_idem.
  - cbn [app merge_loop]. rewrite bool_decide_eq_true_2; [by rewrite andb_false_r|].
    apply Hseen. cbn [app]. apply Hin. eauto.
Qed.

(** ** Where setup writes *)

Definition config_paths (home : string) : list string :=
  [join_path home "hackamore.env"; join_path home CA_BUNDLE; join_path home ".git-credentials";
   join_path home ".gitconfig"; join_path (join_path (join_path home ".config") "gh") "hosts.yml";
   join_path (join_path home ".kube") "config"; join_path (join_path home ".aws") "credentials";
   join_path (join_path home ".aws") "config"].

Section Confined.
Variable faults : FsOp -> string -> option string.
Variable home : string.

(** A file setup may write, and that exists. *)
Definition placed (s : Files) (p : string) : Prop := p ∈ config_paths home /\ is_Some (s !! p).

(** The computation touches no file outside [config_paths] and deletes none.
    If [acc] are the paths written so far, then on success those written are
    the ones [out] reads off its result: they are placed, given that those of
    [acc] are, and every other file is as it was at the start. *)
Definition within {A} (acc : list string) (m : fs A) (out : A -> list string) : Prop :=
  forall s0 s : Files, Forall (placed s) acc -> (forall p, p ∉ acc -> s !! p = s0 !! p) ->
    (forall p, p ∉ config_paths home -> (m s).2 !! p = s !! p) /\
    (forall p, is_Some (s !! p) -> is_Some ((m s).2 !! p)) /\
    forall a, (m s).1 = Ok a -> Forall (placed (m s).2) (out a) /\ forall p, p ∉ out a -> (m s).2 !! p = s0 !! p.

Lemma within_ret {A} acc (a : A) out : (forall p, p ∈ out a <-> p ∈ acc) -> within acc (mret a) out.
Proof.
  intros Hsub s0 s Hacc Hs. split_and!; [done|done|]. intros ? [= <-]. split.
  - rewrite Forall_forall in *. intros p Hp. by apply Hacc, Hsub.
  - intros p Hp. apply Hs. by rewrite <- Hsub.
Qed.

Lemma within_bind {A B} acc (m : fs A) (f : A -> fs B) outa outb :
  within acc m outa -> (forall a, within (outa a) (f a) outb) -> within acc (m ≫= f) outb.
Proof.
  intros Hm Hf s0 s Hacc Hs. destruct (Hm s0 s Hacc Hs) as (H1 & H2 & H3). unfold mbind, fs_bind.
  destruct (m s) as [[a|e] s'] eqn:E; cbn [fst snd] in *; [|split_and!; done].
  destruct (H3 a eq_refl) as [H7 H8]. destruct (Hf a s0 s' H7 H8) as (H4 & H5 & H6).
  split_and!; [intros p Hp; rewrite H4, H1 by done; done|auto|exact H6].
Qed.

Lemma within_write acc path text :
  path ∈ config_paths home -> within acc (write faults path text) (fun p => acc ++ [p]).
Proof.
  intros Hp s0 s Hacc Hs. unfold write, mbind, fs_bind, allowed, put.
  destruct (faults CreateDirs path); [split_and!; done|]. destruct (faults WriteFile path); [split_and!; done|].
  cbn [fst snd].
  assert (Hg : forall q, is_Some (s !! q) -> is_Some (<[path := text]> s !! q)).
  { intros q Hq. destruct (decide (path = q)) as [->|]; [by rewrite lookup_insert_eq|by rewrite lookup_insert_ne]. }
  split_and!; [|exact Hg|].
  - intros q Hq. rewrite lookup_insert_ne; [done|]. intros ->. done.
  - intros ? [= <-]. split.
    + apply Forall_app. split; [|apply Forall_singleton; split; [done|]; by rewrite lookup_insert_eq].
      eapply Forall_impl; [exact Hacc|]. intros q [? ?]. split; auto.
    + intros q [Hq Hne]%not_elem_of_app. rewrite lookup_insert_ne; [by apply Hs|]. intros ->. by apply Hne, list_elem_of_singleton.
Qed.

Lemma within_read {A} acc (m : fs A) : (forall s, (m s).2 = s) -> within acc m (fun _ => acc).
Proof. intros Hm s0 s Hacc Hs. rewrite Hm. split_and!; done. Qed.

Lemma read_pure path s : (read_to_string faults path s).2 = s.
Proof.
  unfold read_to_string, mbind, fs_bind, allowed, contents. destruct (faults ReadFile path); [done|].
  destruct (s !! path) as [b|]; [|done]. by destruct (from_utf8 b).
Qed.

Lemma merge_lines_pure path line s : (merge_lines faults path line s).2 = s.
Proof.
  unfold merge_lines. pose proof (read_pure path s) as Hr.
  destruct (read_to_string faults path s) as [[t|[|e]] s']; exact Hr.
Qed.

Ltac in_config := unfold config_paths; set_solver.

Ltac in_acc := let p := fresh "p" in intros p; cbn; rewrite ?elem_of_app, ?elem_of_cons, ?elem_of_nil; naive_solver.

Lemma write_github_within acc s ca : within acc (write_github faults home s ca) (fun ps => acc ++ ps).
Proof.
  unfold write_github. eapply within_bind; [apply within_read, merge_lines_pure|]. intros merged.
  eapply within_bind; [apply within_write; in_config|]. intros p1.
  eapply within_bind; [apply within_write; in_config|]. intros p2.
  eapply within_bind; [apply within_write; in_config|]. intros p3.
  apply within_ret. in_acc.
Qed.

Lemma write_kubeconfig_within acc s ca : within acc (write_kubeconfig faults home s ca) (fun p => acc ++ [p]).
Proof. apply within_write. in_config. Qed.

Lemma write_aws_within acc s a b c ca : within acc (write_aws faults home s a b c ca) (fun ps => acc ++ ps).
Proof.
  unfold write_aws. eapply within_bind; [apply within_write; in_config|]. intros p1.
  eapply within_bind; [apply within_write; in_config|]. intros p2. apply within_ret. in_acc.
Qed.

Lemma write_service_within acc ca s : within acc (write_service faults home ca s) (fun ps => acc ++ ps).
Proof.
  unfold write_service. eapply within_bind with (outa := fun ps => acc ++ ps).
  - destruct (ps_flavor s =s "github"); [apply write_github_within|].
    destruct (ps_flavor s =s "k8s"); [|apply within_ret; in_acc].
    eapply within_bind; [apply write_kubeconfig_within|]. intros p. apply within_ret. in_acc.
  - intros tool. eapply within_bind with (outa := fun ps => (acc ++ tool) ++ ps).
    + destruct (ps_auth s); [apply within_ret; in_acc|apply write_aws_within].
    + intros aws. apply within_ret. in_acc.
Qed.

Lemma write_services_within acc ca ss : within acc (write_services faults home ca ss) (fun ps => acc ++ ps).
Proof.
  revert acc. induction ss as [|s ss IH]; intros acc; cbn [write_services]; [apply within_ret; in_acc|].
  eapply within_bind; [apply write_service_within|]. intros ps. eapply within_bind; [apply IH|].
  intros rest. apply within_ret. in_acc.
Qed.

Lemma write_ca_within acc ca : within acc (write_ca faults home ca) (fun r => acc ++ r.1).
Proof.
  unfold write_ca. destruct (sempty ca); [apply within_ret; in_acc|].
  eapply within_bind; [apply within_write; in_config|]. intros p. apply within_ret. in_acc.
Qed.
End Confined.

(** ** The manifest *)






Lemma write_configs_spec faults home doc s :
  let '(r, s') := write_configs faults home doc s in
  (forall p, p ∉ config_paths home -> p <> join_path home MANIFEST -> s' !! p = s !! p) /\
  (forall p, is_Some (s !! p) -> is_Some (s' !! p)) /\
  forall written, r = Ok written ->
    written <> [] /\ Forall (placed home s') written /\ s' !! join_path home MANIFEST = Some (join NL written +:+ NL) /\
    forall p, p ∉ join_path home MANIFEST :: written -> s' !! p = s !! p.
Proof.
  set (m := env ← write faults (join_path home "hackamore.env") (render_env doc);
            ca ← write_ca faults home (hackamore_ca doc);
            tools ← write_services faults home ca.2 (pd_services doc); mret (env :: ca.1 ++ tools)).
  assert (Em : write_configs faults home doc s = (w ← m; write_manifest faults home w;; mret w) s).
  { unfold m, write_configs, mbind, fs_bind. destruct (write _ _ _ s) as [[env|]s1]; [|done].
    destruct (write_ca _ _ _ s1) as [[ca|] s2]; [|done]. by destruct (write_services _ _ _ _ s2) as [[tools|] s3]. }
  assert (Hm : within home [] m id).
  { unfold m. eapply within_bind; [apply within_write; unfold config_paths; set_solver|]. intros env.
    eapply within_bind; [apply write_ca_within|]. intros ca. eapply within_bind; [apply write_services_within|].
    intros tools. apply within_ret. intros p. cbn. rewrite ?elem_of_app, ?elem_of_cons, ?elem_of_nil. naive_solver. }
  assert (Hne : forall w, (m s).1 = Ok w -> w <> []).
  { intros w. unfold m, mbind, fs_bind. destruct (write _ _ _ s) as [[env|]s1]; [|done].
    destruct (write_ca _ _ _ s1) as [[ca|] s2]; [|done]. destruct (write_services _ _ _ _ s2) as [[tools|] s3]; [|done].
    by intros [= <-]. }
  rewrite Em. destruct (Hm s s) as (H1 & H2 & H3); [constructor|done|]. unfold mbind, fs_bind.
  destruct (m s) as [[w|e] s1]; cbn [fst snd] in *; [|split_and!; [auto|auto|done]].
  unfold write_manifest, write, mbind, fs_bind, allowed, put.
  destruct (faults CreateDirs (join_path home MANIFEST)); [split_and!; [auto|auto|done]|].
  destruct (faults WriteFile (join_path home MANIFEST)); [split_and!; [auto|auto|done]|].
  assert (Hgrow : forall p, is_Some (s1 !! p) -> is_Some (<[join_path home MANIFEST := join NL w +:+ NL]> s1 !! p)).
  { intros p Hp. destruct (decide (join_path home MANIFEST = p)) as [->|]; [by rewrite lookup_insert_eq|by rewrite lookup_insert_ne]. }
  cbn. split_and!.
  - intros p Hp Hpm. rewrite lookup_insert_ne by congruence. auto.
  - auto.
  - intros ? [= <-]. destruct (H3 w eq_refl) as [Hpl Hfr].
    split_and!; [by apply Hne| |by rewrite lookup_insert_eq|].
    + eapply Forall_impl; [exact Hpl|]. intros p [? ?]. split; auto.
    + intros p [Hp1 Hp2]%not_elem_of_cons. rewrite lookup_insert_ne by congruence. by apply Hfr.
Qed.


(** ** Setup and teardown *)

Section SetupProperties.
Variable faults : FsOp -> string -> option string.

(** Setup is confined to the home directory. Whatever the document and
    whichever operations the operating system refuses, only the eight
    configuration files and the manifest can change and nothing is deleted;
    on success every path reported exists, is one of the eight, and is
    recorded in the manifest, and no other file but the manifest changed. *)
Lemma setup_confined home doc s :
  let '(r, s') := write_configs faults home doc s in
  (forall p, p ∉ config_paths home -> p <> join_path home MANIFEST -> s' !! p = s !! p) /\
  (forall p, is_Some (s !! p) -> is_Some (s' !! p)) /\
  forall written, r = Ok written ->
    written <> [] /\ Forall (placed home s') written /\ s' !! join_path home MANIFEST = Some (join NL written +:+ NL) /\
    forall p, p ∉ join_path home MANIFEST :: written -> s' !! p = s !! p.
Proof. apply write_configs_spec. Qed.


End SetupProperties.

(** ** Witnesses *)

Definition no_faults (op : FsOp) (path : string) : option string := None.

Definition ex_doc : ProvisionDoc :=
  mkProvisionDoc "tok" "PEM" 12345
    [mkProvisionService "github" "github" "https://gh.local/" Inject (BearerAuth "tok");
     mkProvisionService "aws" "generic" "" Inject (SigV4Auth "AKIADUMMY" "secret" "us-east-1")].

(** A fresh home, and a file outside it. *)
Definition ex_fresh : Files := {["/etc/hosts" := "127.0.0.1"]}.

Definition ex_fresh_setup : result (list string) IoError * Files := write_configs no_faults "/h" ex_doc ex_fresh.

(** A home with a credential of the user's own, and a file outside it. *)
Definition ex_files : Files :=
  {["/h/.git-credentials" := "https://me@example.com" +:+ NL; "/etc/hosts" := "127.0.0.1"]}.

Definition ex_setup : result (list string) IoError * Files := write_configs no_faults "/h" ex_doc ex_files.
Definition ex_written : list string := match ex_setup.1 with Ok w => w | Err _ => [] end.

Lemma merge_lines_union_witness :
  NoDup (lines (merge_text ("https://me@example.com" +:+ NL +:+ NL) "https://x@h")) /\
  (forall l, l ∈ lines (merge_text ("https://me@example.com" +:+ NL +:+ NL) "https://x@h") <->
     l <> "" /\ exists l0, (l0 ∈ lines ("https://me@example.com" +:+ NL +:+ NL) \/ l0 = "https://x@h") /\ l = trim l0) /\
  merge_text (merge_text ("https://me@example.com" +:+ NL +:+ NL) "https://x@h") "https://x@h" =
  merge_text ("https://me@example.com" +:+ NL +:+ NL) "https://x@h".
Proof. apply merge_lines_union; [reflexivity|vm_compute; discriminate]. Defined.


(** The merged credential file is on the manifest, so teardown deletes the
    user's own line with it. *)
Lemma teardown_deletes_merged_lines :
  is_Some (ex_files !! "/h/.git-credentials") /\
  (teardown no_faults "/h" ex_setup.2).2 !! "/h/.git-credentials" = None.
Proof. split; [by eexists|hk_vm]. Qed.

(** A second setup writes the manifest anew: the AWS files only the first one
    wrote, with their dummy credential, outlive a teardown. *)
Lemma second_setup_forgets :
  let second := mkProvisionDoc "tok" "PEM" 12345 [mkProvisionService "github" "github" "https://gh.local/" Inject (BearerAuth "tok")] in
  let s2 := (write_configs no_faults "/h" second ex_fresh_setup.2).2 in
  (teardown no_faults "/h" s2).2 !! "/h/.aws/credentials" = ex_fresh_setup.2 !! "/h/.aws/credentials" /\
  is_Some (ex_fresh_setup.2 !! "/h/.aws/credentials") /\ ex_fresh !! "/h/.aws/credentials" = None.
Proof. cbv zeta. split_and!; [hk_vm| |done]. eexists. vm_compute. reflexivity. Qed.

(** Two Kubernetes services share one file; the later one is left. *)
Lemma kubeconfig_last_wins :
  let s name := mkProvisionService name "k8s" "" Inject (BearerAuth "t") in
  (write_services no_faults "/h" None [s "a"; s "b"] ∅).2 =
  (write_services no_faults "/h" None [s "b"] ∅).2.
Proof. cbv zeta. hk_vm. Qed.
