(* ===== verification/AuditFile.v ===== *)
(** The durable sink of [control/src/audit.rs]: one JSON line per event,
    appended to a file that survives restarts and is read back line by line.
    The event's JSON codec is generated code and an interface here; [fa_broken]
    is a file whose writes fail. The tracing sink only logs: its state is
    [unit]. *)

From S2P Require Import Prelude RustStr External Reference Models Control.

(** [serde_json::to_string] and [from_str] on an [AuditEvent]. *)
Class EventCodec {J : JsonLib} := {
  event_to_string : AuditEvent -> option string;
  event_from_str : string -> option AuditEvent;
}.

(** What is relied on: an event that serialises is one line, not blank and not
    ending in a carriage return, and reads back. *)
Class EventLaws {J : JsonLib} (E : EventCodec) : Prop := {
  event_line e s : event_to_string e = Some s -> lacks newline s /\ trim s <> "" /\ strip_cr s = s;
  event_roundtrip e s : event_to_string e = Some s -> event_from_str s = Some e;
}.

Section FileAudit.
Context {J : JsonLib} {EC : EventCodec}.

Record FileAudit := mkFileAudit {
  fa_text : string;
  fa_broken : bool;
}.

(** [FileAudit::open], appending to what the file holds, if it exists. *)
Definition FileAudit_open (existing : option string) (broken : bool) : FileAudit :=
  mkFileAudit (default "" existing) broken.

#[export] Instance file_sink : AuditSink FileAudit := fun event f =>
  match event_to_string event with
  | None => f
  | Some line => if fa_broken f then f else mkFileAudit (fa_text f +:+ line +:+ NL) (fa_broken f)
  end.

(** [FileAudit::read]. *)
Definition FileAudit_read (text : string) : list AuditEvent :=
  omap event_from_str (List.filter (fun l => negb (sempty (trim l))) (lines text)).

#[export] Instance tracing_sink : AuditSink unit := fun _ s => s.

(** [ControlPlane::with_defaults]: an empty vault and the tracing sink. *)
Definition ControlPlane_with_defaults : ControlPlane InMemoryCredentials unit :=
  ControlPlane_new (mkInMemoryCredentials ∅) tt.

(** ** Lemmas *)

(** The file ends between two lines. *)
Definition at_line_start (text : string) : Prop := text = "" \/ exists t, text = t +:+ NL.

Lemma lines_go_app ps qs :
  qs <> [] -> lines_go (ps ++ qs) = map strip_cr ps ++ lines_go qs.
Proof.
  intros Hq. induction ps as [|p ps IH]; [done|]. cbn [app lines_go map].
  destruct (ps ++ qs) eqn:Eq; [by destruct ps|]. by rewrite IH.
Qed.

(** Lines of what ends with a newline, then more. *)
Lemma lines_app_nl t u : lines (t +:+ NL +:+ u) = map strip_cr (split newline t) ++ lines u.
Proof.
  unfold lines, NL. change (String newline "" +:+ u) with (String newline u).
  rewrite split_app_sep. apply lines_go_app, split_nonempty.
Qed.

Lemma lines_at_start text line :
  at_line_start text -> lacks newline line -> lines (text +:+ line +:+ NL) = lines text ++ [strip_cr line].
Proof.
  intros Ht Hl. assert (Hone : lines (line +:+ NL) = [strip_cr line]).
  { pose proof (lines_app_nl line "") as E. rewrite sapp_nil_r in E. rewrite E, split_lacks by done. done. }
  destruct Ht as [->|[t ->]]; [exact Hone|].
  rewrite sapp_assoc, lines_app_nl, Hone. pose proof (lines_app_nl t "") as E. rewrite sapp_nil_r in E.
  by rewrite E, app_nil_r.
Qed.

Lemma read_record {EL : EventLaws EC} e s f :
  event_to_string e = Some s -> fa_broken f = false -> at_line_start (fa_text f) ->
  at_line_start (fa_text (audit_record e f)) /\ fa_broken (audit_record e f) = false /\
  FileAudit_read (fa_text (audit_record e f)) = FileAudit_read (fa_text f) ++ [e].
Proof.
  intros Hs Hb Ht. unfold audit_record, file_sink. rewrite Hs, Hb. cbn [fa_text fa_broken].
  destruct (event_line e s Hs) as (Hl & Hne & Hcr). split_and!; [|done|].
  - right. exists (fa_text f +:+ s). by rewrite sapp_assoc.
  - unfold FileAudit_read. rewrite lines_at_start, Hcr, List.filter_app by done. cbn [List.filter].
    destruct (trim s) eqn:Et; [done|]. cbn [sempty negb]. rewrite omap_app. cbn [omap list_omap].
    by rewrite (event_roundtrip e s Hs).
Qed.

(** ** Properties *)

(** The audit log is durable and complete. Whatever sequence of events is
    recorded to a working file that ends at a line start, reading the file
    afterwards gives everything it held before followed by exactly those
    events, in order; reopening it in between changes nothing. *)
Lemma file_audit_durable {EL : EventLaws EC} es f :
  Forall (fun e => is_Some (event_to_string e)) es -> fa_broken f = false -> at_line_start (fa_text f) ->
  FileAudit_read (fa_text (fold_left (fun s e => audit_record e s) es f)) = FileAudit_read (fa_text f) ++ es /\
  at_line_start (fa_text (fold_left (fun s e => audit_record e s) es f)) /\
  FileAudit_open (Some (fa_text (fold_left (fun s e => audit_record e s) es f))) false =
    fold_left (fun s e => audit_record e s) es f.
Proof.
  intros Hes. revert f. induction Hes as [|e es [s Hs] _ IH]; intros f Hb Ht; cbn [fold_left].
  { rewrite app_nil_r. split_and!; [done|done|]. destruct f. cbn in *. by subst. }
  destruct (read_record e s f Hs Hb Ht) as (Ht' & Hb' & Hr). destruct (IH _ Hb' Ht') as (H1 & H2 & H3).
  rewrite H1, Hr, <- app_assoc. done.
Qed.
End FileAudit.

(** ** Witness: events written as their detail text *)

#[local] Existing Instance ref_json.

Definition ex_event (d : string) : AuditEvent :=
  mkAuditEvent 0 (Action_of "gh" (Crud Read) (Resource_of "" "")) DecisionAllow d.

Definition is_ex_event (e : AuditEvent) : bool :=
  (at_ms e =? 0)%Z && (target (ev_action e) =s "gh") && bool_decide (verb (ev_action e) = Crud Read)
  && (res_path (resource (ev_action e)) =s "") && (res_kind (resource (ev_action e)) =s "")
  && match fields (ev_action e) with JObj [] => true | _ => false end
  && bool_decide (ev_decision e = DecisionAllow).

(** A codec that serialises the events of this shape only. *)
Definition ex_codec : EventCodec := {|
  event_to_string e :=
    if is_ex_event e && sforall is_solid (ev_detail e) && last_solid (ev_detail e) then Some (ev_detail e) else None;
  event_from_str s := Some (ex_event s);
|}.

#[local] Existing Instance ex_codec.

Lemma ex_codec_laws : EventLaws ex_codec.
Proof.
  split; cbn; intros e s; destruct (is_ex_event e) eqn:He; try done; cbn [andb];
    destruct (sforall is_solid (ev_detail e)) eqn:Hs; try done; cbn [andb];
    destruct (last_solid (ev_detail e)) eqn:Hl; try done; intros [= <-].
  - split_and!; [eapply lacks_sforall; [|exact Hs]; reflexivity| |by apply strip_cr_solid].
    rewrite trim_all_solid by done. by destruct (ev_detail e).
  - destruct e as [at_ [tg vb [rp rk] fl] dec d]. unfold is_ex_event in He. cbn in He.
    rewrite !andb_true_iff, !bool_decide_eq_true, !String.eqb_eq, Z.eqb_eq in He.
    destruct He as ((((((-> & ->) & ->) & ->) & ->) & Hf) & ->).
    destruct fl as [| | | | |[|]]; done.
Qed.

#[local] Existing Instance ex_codec_laws.

Lemma file_audit_durable_witness :
  let f := FileAudit_open (Some ("old" +:+ NL)) false in
  FileAudit_read (fa_text (fold_left (fun s e => audit_record e s) [ex_event "a"; ex_event "b"] f)) =
    FileAudit_read ("old" +:+ NL) ++ [ex_event "a"; ex_event "b"] /\
  at_line_start (fa_text (fold_left (fun s e => audit_record e s) [ex_event "a"; ex_event "b"] f)) /\
  FileAudit_open (Some (fa_text (fold_left (fun s e => audit_record e s) [ex_event "a"; ex_event "b"] f))) false =
    fold_left (fun s e => audit_record e s) [ex_event "a"; ex_event "b"] f.
Proof.
  apply (file_audit_durable [ex_event "a"; ex_event "b"] (FileAudit_open (Some ("old" +:+ NL)) false));
    [|reflexivity|right; exists "old"; reflexivity].
  repeat constructor; eexists; vm_compute; reflexivity.
Defined.
