(* ===== verification/Cli.v ===== *)
(** [cli/src/config.rs] and [cli/src/main.rs]: the configuration's types and
    how [serve] builds the control plane and the gateway from one. Reading a
    file and parsing a JSON document are arguments; the parsed [Config] is the
    start (serde derives its parser). [Commands] goes on to the listeners and
    [Tasks] to the background tasks. *)

From stdpp Require Import relations.
From S2P Require Import Prelude RustStr External Reference Models Policy SigV4 Service Normalize Control Gateway.
From S2P Require Import Upgrade Server System Providers Tls AuditFile.

(** ** Configuration *)

Inductive OutboundConfig :=
| PassthroughConfig
| BearerConfig (id : string)
| HeaderConfig (name credential : string)
| Sigv4Config (credential access_key_id region service : string).

Record ServiceConfig := mkServiceConfig {
  sc_name : string;
  sc_host : string;
  sc_upstream_base : string;
  sc_flavor : option string;
  sc_consumer_address : option string;
  sc_protocol : option string;
  sc_path_template : option string;
  sc_catalog : list string;
  sc_catalog_openapi : option string;
  sc_outbound : OutboundConfig;
}.

Inductive ProviderConfig :=
| EksConfig (access_key_id secret_access_key region cluster_name : string)
| GithubAppConfig (app_id installation_id private_key_path : string) (api_base : option string).

Record TlsConfig := mkTlsConfig {
  tc_cert : string;
  tc_key : string;
  tc_ca : option string;
}.

Record Config := mkConfig {
  cfg_proxy_addr : string;
  cfg_admin_addr : string;
  cfg_services : list ServiceConfig;
  cfg_credentials : gmap string string;
  cfg_providers : gmap string ProviderConfig;
  cfg_tenants : gmap string (list string);
  cfg_tls : option TlsConfig;
  cfg_audit_log : option string;
}.

(** ** Pure parts of [serve] *)

Definition outbound_of (o : OutboundConfig) : Outbound :=
  match o with
  | PassthroughConfig => Service.Passthrough
  | BearerConfig id => Bearer id
  | HeaderConfig name credential => Header name credential
  | Sigv4Config credential access_key_id region service => SigV4 credential access_key_id region service
  end.

Definition service_of (s : ServiceConfig) : Service :=
  mkService (sc_name s) (sc_host s) (sc_upstream_base s) (Flavor_parse (sc_flavor s))
    (outbound_of (sc_outbound s)) (default "" (sc_consumer_address s))
    (mkExtract (Protocol_parse (sc_protocol s)) (sc_path_template s)).

(** The loop that registers the tenants. *)
Definition register_tenants (cfg : Config) (t : Tenants) : Tenants :=
  fold_left (fun t kv => tenants_insert kv.1 kv.2 t) (map_to_list (cfg_tenants cfg)) t.

Section Serve.
Context {J : JsonLib} {R : RingLib} {B : Base64Lib} {K : RsaLib} {X : ExchangeLib} {T : TlsLib} {EC : EventCodec}.
(** [std::fs::read_to_string] with the error's text, and [serde_json::from_str]. *)
Variable reads : string -> result string string.
Variable parse_json : string -> result value string.

(** The catalog loop over the services. *)
Fixpoint load_catalogs (ss : list ServiceConfig) (catalogs : gmap string Catalog)
    : result (gmap string Catalog) string :=
  match ss with
  | [] => Ok catalogs
  | s :: ss' =>
      match sc_catalog_openapi s with
      | Some path =>
          match reads path with
          | Err e => Err ("read openapi " +:+ path +:+ ": " +:+ e)
          | Ok text =>
              match parse_json text with
              | Err e => Err ("parse openapi " +:+ path +:+ ": " +:+ e)
              | Ok spec => load_catalogs ss' (<[sc_name s := from_openapi spec]> catalogs)
              end
          end
      | None =>
          if bool_decide (sc_catalog s = []) then load_catalogs ss' catalogs
          else load_catalogs ss' (<[sc_name s := Catalog_of (sc_catalog s)]> catalogs)
      end
  end.

Definition read_or (what path : string) : result string string :=
  match reads path with
  | Ok text => Ok text
  | Err e => Err ("read " +:+ what +:+ " " +:+ path +:+ ": " +:+ e)
  end.

(** The TLS material's configuration and the CA for the provision document;
    the outer option is the PEM loop's fuel. *)
Definition load_tls (tls : option TlsConfig) : option (result (option ServerConfig * string) string) :=
  match tls with
  | None => Some (Ok (None, ""))
  | Some t =>
      match try cert_pem := read_or "tls cert" (tc_cert t) in
            try key_pem := read_or "tls key" (tc_key t) in
            try ca_pem := (match tc_ca t with Some p => read_or "tls ca" p | None => Ok cert_pem end) in
            Ok (mkTlsMaterial cert_pem key_pem ca_pem) with
      | Err e => Some (Err e)
      | Ok material =>
          match server_config material with
          | None => None
          | Some (Err e) => Some (Err e)
          | Some (Ok config) => Some (Ok (Some config, ca_pem material))
          end
      end
  end.

(** ** Credentials *)

(** The two stores behind the [dyn CredentialStore]. *)
Definition Credentials : Type := (InMemoryCredentials + CachingCredentials)%type.

#[export] Instance credentials_store : CredentialStore Credentials := fun c id =>
  match c with inl vault => cred_resolve vault id | inr caching => cred_resolve caching id end.

Definition build_provider (p : ProviderConfig) : result CredentialProvider string :=
  match p with
  | EksConfig akid secret region cluster => Ok (eks_provider (mkEks akid (mkSecret secret) region cluster))
  | GithubAppConfig app_id installation_id key_path api_base =>
      try pem := read_or "app key" key_path in
      try der := pkcs8_from_pem pem in
      Ok (github_provider (mkGitHubApp app_id installation_id der (default "https://api.github.com" api_base)))
  end.

Fixpoint build_providers (ps : list (string * ProviderConfig)) : result (list (string * CredentialProvider)) string :=
  match ps with
  | [] => Ok []
  | (id, p) :: ps' =>
      try provider := build_provider p in
      try rest := build_providers ps' in
      Ok ((id, provider) :: rest)
  end.

Definition build_credentials (cfg : Config) (now : Z) : result Credentials string :=
  if bool_decide (cfg_providers cfg = ∅) then
    Ok (inl (fold_left (fun v kv => creds_insert kv.1 (mkSecret kv.2) v) (map_to_list (cfg_credentials cfg))
               (mkInMemoryCredentials ∅)))
  else
    let statics := mkSecret <$> cfg_credentials cfg in
    try providers := build_providers (map_to_list (cfg_providers cfg)) in
    Ok (inr (refresh_due now (Caching_new statics providers)).2).

(** ** Audit *)

(** The two sinks behind the [dyn AuditSink]; [opened] is what opening the
    log at a path gives. *)
Definition Audit : Type := (FileAudit + unit)%type.

#[export] Instance audit_sink : AuditSink Audit := fun e a =>
  match a with inl f => inl (audit_record e f) | inr u => inr (audit_record e u) end.

Variable opened : string -> result FileAudit string.

Definition build_audit (cfg : Config) : result Audit string :=
  match cfg_audit_log cfg with
  | Some path => match opened path with
                 | Ok sink => Ok (inl sink)
                 | Err e => Err ("open audit log " +:+ path +:+ ": " +:+ e)
                 end
  | None => Ok (inr tt)
  end.

(** ** [serve], up to the listeners *)

Definition assemble (cfg : Config) (now : Z)
    : option (result (Gateway * ControlPlane Credentials Audit * option ServerConfig) string) :=
  match try credentials := build_credentials cfg now in
        try audit := build_audit cfg in
        try catalogs := load_catalogs (cfg_services cfg) ∅ in
        Ok (credentials, audit, catalogs) with
  | Err e => Some (Err e)
  | Ok (credentials, audit, catalogs) =>
      let control := ControlPlane_new credentials audit in
      let control := mkControlPlane (cp_tokens control) (register_tenants cfg (cp_tenants control))
                       (cp_credentials control) (cp_audit control) in
      match load_tls (cfg_tls cfg) with
      | None => None
      | Some (Err e) => Some (Err e)
      | Some (Ok (tls_config, ca_pem)) =>
          let gateway := with_ca (with_catalogs
            (Gateway_new (mkRouter (map service_of (cfg_services cfg)))) catalogs) ca_pem in
          Some (Ok (gateway, control, tls_config))
      end
  end.
End Serve.

(** ** Lemmas *)

(** Inserting the pairs of a map one by one rebuilds it. *)
Lemma insert_list_lookup {V W} (f : V -> W) (l : list (string * V)) (m : gmap string W) id :
  NoDup l.*1 ->
  fold_left (fun m kv => <[kv.1 := f kv.2]> m) l m !! id =
  match (list_to_map l : gmap string V) !! id with Some v => Some (f v) | None => m !! id end.
Proof.
  revert m. induction l as [|[k v] l IH]; intros m Hnd; cbn [fold_left list_to_map foldr]; [by rewrite lookup_empty|].
  rewrite fmap_cons in Hnd. apply NoDup_cons in Hnd as [Hk Hnd]. rewrite IH by done. cbn [fst snd] in *.
  destruct (String.eqb_spec k id) as [->|Hne].
  - rewrite lookup_insert_eq, not_elem_of_list_to_map_1 by done. by rewrite lookup_insert_eq.
  - by rewrite !lookup_insert_ne by done.
Qed.

Lemma insert_map_lookup {V W} (f : V -> W) (src : gmap string V) (m : gmap string W) id :
  fold_left (fun m kv => <[kv.1 := f kv.2]> m) (map_to_list src) m !! id =
  match src !! id with Some v => Some (f v) | None => m !! id end.
Proof. rewrite insert_list_lookup by apply NoDup_fst_map_to_list. by rewrite list_to_map_to_list. Qed.

Lemma register_tenants_lookup cfg key :
  register_tenants cfg ∅ !! key = list_to_set <$> cfg_tenants cfg !! key.
Proof.
  unfold register_tenants, tenants_insert.
  rewrite (insert_map_lookup (fun l : list string => list_to_set l : gset string)), lookup_empty.
  by destruct (cfg_tenants cfg !! key).
Qed.

Section Lemmas.
Context {J : JsonLib} {R : RingLib} {B : Base64Lib} {K : RsaLib} {X : ExchangeLib} {T : TlsLib} {EC : EventCodec}.
Variable reads : string -> result string string.
Variable parse_json : string -> result value string.
Variable opened : string -> result FileAudit string.

Lemma fold_creds (l : list (string * string)) v :
  secrets (fold_left (fun v kv => creds_insert kv.1 (mkSecret kv.2) v) l v) =
  fold_left (fun m kv => <[kv.1 := mkSecret kv.2]> m) l (secrets v).
Proof. revert v. induction l as [|[k s] l IH]; intros v; [done|]. cbn [fold_left]. by rewrite IH. Qed.

Lemma build_providers_spec ps out :
  build_providers reads ps = Ok out ->
  out.*1 = ps.*1 /\ forall id p, (id, p) ∈ ps -> exists provider, build_provider reads p = Ok provider /\ (id, provider) ∈ out.
Proof.
  revert out. induction ps as [|[k p] ps IH]; intros out; cbn [build_providers].
  { intros [= <-]. split; [done|]. intros ?? Hin%elem_of_nil. done. }
  destruct (build_provider reads p) as [provider|] eqn:Ep; [|done].
  destruct (build_providers reads ps) as [rest|] eqn:Er; [|done]. intros [= <-].
  destruct (IH rest eq_refl) as [H1 H2]. split; [cbn; by f_equal|].
  intros id q [[= -> ->]|Hin]%elem_of_cons; [exists provider; split; [done|apply elem_of_cons; auto]|].
  destruct (H2 id q Hin) as (pr & ? & ?). exists pr. split; [done|]. apply elem_of_cons; auto.
Qed.

(** What a provider-backed id is served right after start-up. *)
Definition primed (now : Z) (p : ProviderConfig) : option Secret :=
  match build_provider reads p with
  | Ok provider => match provider_mint provider now with Ok m => Some (ms_secret m) | Err _ => None end
  | Err _ => None
  end.

Lemma build_credentials_provider cfg now store id p :
  build_credentials reads cfg now = Ok store -> cfg_providers cfg !! id = Some p ->
  exists provider, build_provider reads p = Ok provider.
Proof.
  unfold build_credentials. intros Hb Hp. case_bool_decide as He; [by rewrite He, lookup_empty in Hp|].
  destruct (build_providers reads (map_to_list (cfg_providers cfg))) as [ps|] eqn:Eps; [|done].
  destruct (build_providers_spec _ _ Eps) as [_ Hps]. destruct (Hps id p) as (provider & Hb' & _); [|by exists provider].
  by apply elem_of_map_to_list.
Qed.

(** What the store [build_credentials] returns serves: static secrets first,
    then what the providers minted at start-up. *)
Lemma build_credentials_serves cfg now store id :
  build_credentials reads cfg now = Ok store ->
  cred_resolve store id =
  match cfg_credentials cfg !! id with
  | Some s => Some (mkSecret s)
  | None => cfg_providers cfg !! id ≫= primed now
  end.
Proof.
  unfold build_credentials. case_bool_decide as Hp.
  - intros [= <-]. unfold cred_resolve, credentials_store, cred_resolve, in_memory_store.
    rewrite fold_creds, (insert_map_lookup mkSecret). cbn [secrets]. rewrite Hp, !lookup_empty.
    by destruct (cfg_credentials cfg !! id).
  - destruct (build_providers reads (map_to_list (cfg_providers cfg))) as [ps|] eqn:Eps; [|done]. intros [= <-].
    destruct (build_providers_spec _ _ Eps) as [Hids Hps].
    assert (Hnd : NoDup ps.*1) by (rewrite Hids; apply NoDup_fst_map_to_list).
    unfold cred_resolve, credentials_store, cred_resolve, caching_store, refresh_due, Caching_new.
    cbn [providers cache static_secrets].
    pose proof (refresh_loop_entry ps now ∅ id) as He. pose proof (refresh_loop_other ps now ∅ id) as Ho.
    destruct (refresh_loop ps now ∅) as [ids c]. cbn [fst snd static_secrets cache] in *.
    rewrite lookup_fmap. destruct (cfg_credentials cfg !! id) as [s|]; [done|]. cbn [fmap option_fmap option_map].
    destruct (cfg_providers cfg !! id) as [p|] eqn:Ecfg; cbn [mbind option_bind].
    + destruct (Hps id p) as (provider & Hb & Hin); [by apply elem_of_map_to_list|].
      destruct (He provider Hnd Hin) as [-> _]. unfold primed, refreshed_entry, needs_refresh. rewrite Hb, lookup_empty.
      by destruct (provider_mint provider now).
    + rewrite Ho, lookup_empty; [done|]. rewrite Hids. intros ([k p] & -> & Hin)%list_elem_of_fmap.
      apply elem_of_map_to_list in Hin. cbn in Ecfg. congruence.
Qed.

(** C40: what a credential id means, after start-up. The configuration's ids
    are meant to be disjoint, and an id that is not both a static credential
    and a provider is served by the store [build_credentials] returns as it is
    configured: a static credential is its secret; a provider's id is the
    secret the provider mints at the time of start-up, and nothing if it
    fails to; any other id is nothing. *)
Theorem build_credentials_resolve cfg now store id :
  build_credentials reads cfg now = Ok store ->
  cfg_credentials cfg !! id = None \/ cfg_providers cfg !! id = None ->
  match cfg_credentials cfg !! id, cfg_providers cfg !! id with
  | Some s, _ => cred_resolve store id = Some (mkSecret s)
  | None, None => cred_resolve store id = None
  | None, Some p => exists provider, build_provider reads p = Ok provider /\
      cred_resolve store id = match provider_mint provider now with Ok m => Some (ms_secret m) | Err _ => None end
  end.
Proof.
  intros Hb _. rewrite (build_credentials_serves cfg now store id Hb).
  destruct (cfg_credentials cfg !! id) as [s|]; [done|]. destruct (cfg_providers cfg !! id) as [p|] eqn:Ep; [|done].
  destruct (build_credentials_provider cfg now store id p Hb Ep) as [provider Hp]. exists provider. split; [done|].
  cbn [mbind option_bind]. unfold primed. by rewrite Hp.
Qed.

Lemma assemble_shape cfg now g cp tls :
  assemble reads parse_json opened cfg now = Some (Ok (g, cp, tls)) ->
  services (router g) = map service_of (cfg_services cfg) /\ cp_tokens cp = ∅ /\
  cp_tenants cp = register_tenants cfg ∅.
Proof.
  unfold assemble. destruct (build_credentials reads cfg now) as [cr|]; [|done].
  destruct (build_audit opened cfg) as [au|]; [|done]. destruct (load_catalogs reads parse_json _ _) as [cats|]; [|done].
  destruct (load_tls reads (cfg_tls cfg)) as [[[tc ca]|]|]; [|done..]. intros [= <- <- <-]. done.
Qed.

(** Start-up ends: the PEM loops have fuel enough. *)
Lemma assemble_total cfg now : exists r, assemble reads parse_json opened cfg now = Some r.
Proof.
  unfold assemble. destruct (build_credentials reads cfg now) as [cr|]; [|by eexists].
  destruct (build_audit opened cfg) as [au|]; [|by eexists].
  destruct (load_catalogs reads parse_json _ _) as [cats|]; [|by eexists].
  unfold load_tls. destruct (cfg_tls cfg) as [t|]; [|by eexists].
  destruct (read_or reads "tls cert" (tc_cert t)) as [cert|]; [|by eexists].
  destruct (read_or reads "tls key" (tc_key t)) as [key|]; [|by eexists].
  destruct (match tc_ca t with Some p => _ | None => _ end) as [ca|]; [|by eexists].
  destruct (server_config_ok (mkTlsMaterial cert key ca)) as ([c|e] & -> & _); by eexists.
Qed.
End Lemmas.

(** ** From the configuration file to the network *)

Section EndToEnd.
Context {J : JsonLib} {JT : JsonText} {H : HttpLib} {Q : RequestLib} {R : RingLib} {U : UuidLib} {Bd : BodyLib}.
Context {A : AxumLib} {AL : AxumLaws A} {BdL : BodyLaws Bd}.
Context {B : Base64Lib} {K : RsaLib} {X : ExchangeLib} {T : TlsLib} {EC : EventCodec}.
Variable reads : string -> result string string.
Variable parse_json : string -> result value string.
Variable opened : string -> result FileAudit string.

(** C2: a configuration with tenants confines the server. If [serve] starts
    from it, then in every run of that server, whatever is requested, minted,
    revoked or rotated, all that a request makes it do on the network is that
    request's own traffic to the upstream of a service of the configuration
    whose name some tenant of the configuration lists: the service its host
    routes to, when the request proves a capability that allows it. Nothing
    else is sent by the server itself; redirects by that upstream are
    followed by its HTTP client. *)
Theorem configured_confinement cfg now g cp tls n s :
  assemble reads parse_json opened cfg now = Some (Ok (g, cp, tls)) ->
  cfg_tenants cfg <> ∅ ->
  rtc (step g) (mkSys (mkWorld cp n) [] []) s ->
  Forall (fun x => xc_events x = [] \/ exists body policy sc c action key targets,
    permitted g (xc_tokens x) (proxy_request (xc_request x) body) (xc_now x) policy (service_of sc) c action /\
    sc ∈ cfg_services cfg /\ cfg_tenants cfg !! key = Some targets /\ sc_name sc ∈ targets /\
    traffic (service_of sc) (proxy_request (xc_request x) body) c (xc_events x)) (sy_net s).
Proof.
  intros Hasm Hne Hrun. destruct (assemble_shape _ _ _ _ _ _ _ _ Hasm) as (Hsv & Htok & Hten).
  assert (Hne' : tenants_of (mkWorld cp n) <> ∅).
  { unfold tenants_of. cbn [w_control]. rewrite Hten. intros E. apply Hne, map_empty. intros key.
    pose proof (register_tenants_lookup cfg key) as Hk. rewrite E, lookup_empty in Hk. by destruct (cfg_tenants cfg !! key). }
  pose proof (tenants_confine g (mkSys (mkWorld cp n) [] []) s) as Hc.
  eapply Forall_impl; [apply Hc; [by repeat split|exact Hne'|exact Hrun]|].
  intros x [Hx|(body & p & srv & c & a & key & owned & Hperm & Hsrv & Hk & Ho & Hev)]; [by left|right]. rewrite Hsv in Hsrv.
  apply list_elem_of_fmap in Hsrv as (sc & -> & Hsc). cbn [sy_world] in Hk. unfold tenants_of in Hk. cbn [w_control] in Hk.
  rewrite Hten, register_tenants_lookup in Hk. destruct (cfg_tenants cfg !! key) as [targets|] eqn:Ek; [|done].
  injection Hk as <-. exists body, p, sc, c, a, key, targets. split_and!; [done..| |done]. by apply elem_of_list_to_set in Ho.
Qed.
End EndToEnd.

(** ** Witnesses *)

#[local] Existing Instance ref_json.
#[local] Existing Instance ref_json_text.
#[local] Existing Instance ref_http.
#[local] Existing Instance ref_request.
#[local] Existing Instance ref_ring.
#[local] Existing Instance ref_uuid.
#[local] Existing Instance ref_body.
#[local] Existing Instance ref_body_laws.
#[local] Existing Instance ref_axum.
#[local] Existing Instance ref_axum_laws.
#[local] Existing Instance ref_base64.
#[local] Existing Instance ref_rsa.
#[local] Existing Instance ref_exchange.
#[local] Existing Instance ref_tls.
#[local] Existing Instance ex_codec.

Definition ex_reads (path : string) : result string string := Err "No such file or directory".
Definition ex_parse (text : string) : result value string := Err "expected value".
Definition ex_opened (path : string) : result FileAudit string := Ok (FileAudit_open None false).

(** One service and one tenant; the EKS provider shares an id with a static
    credential. *)
Definition ex_cfg : Config :=
  mkConfig "127.0.0.1:9090" "127.0.0.1:9091"
    [mkServiceConfig "gh" "api.github.com" "https://api.github.com/" (Some "github") None None None [] None
       (BearerConfig "gh-app")]
    {["gh-app" := "ghs_real"]}
    {["gh-app" := EksConfig "AKID" "k" "us-east-1" "prod"; "eks" := EksConfig "AKID" "k" "us-east-1" "prod"]}
    {["tenant-a" := ["gh"]]} None None.

Definition is_ok {V W} (r : result V W) : bool := match r with Ok _ => true | Err _ => false end.

Lemma ex_credentials_built : is_ok (build_credentials ex_reads ex_cfg 1700000000000) = true.
Proof. hk_vm. Qed.

Lemma build_credentials_resolve_witness :
  exists store, build_credentials ex_reads ex_cfg 1700000000000 = Ok store /\
  exists provider, build_provider ex_reads (EksConfig "AKID" "k" "us-east-1" "prod") = Ok provider /\
    cred_resolve store "eks" =
      match provider_mint provider 1700000000000 with Ok m => Some (ms_secret m) | Err _ => None end.
Proof.
  pose proof ex_credentials_built as Hok.
  destruct (build_credentials ex_reads ex_cfg 1700000000000) as [store|e] eqn:E; [|discriminate Hok].
  exists store. split; [reflexivity|]. exact (build_credentials_resolve ex_reads ex_cfg 1700000000000 store "eks" E (or_introl eq_refl)).
Defined.

(** A provider does not shadow a static credential of its id. *)
Lemma provider_does_not_shadow :
  (store ← (match build_credentials ex_reads ex_cfg 1700000000000 with Ok s => Some s | Err _ => None end);
   cred_resolve store "gh-app") = Some (mkSecret "ghs_real").
Proof. hk_vm. Qed.

Definition ex_assembled : option (result (Gateway * ControlPlane Credentials Audit * option ServerConfig) string) :=
  assemble ex_reads ex_parse ex_opened ex_cfg 1700000000000.
Definition ex_cfg_gateway : Gateway :=
  with_ca (with_catalogs (Gateway_new (mkRouter (map service_of (cfg_services ex_cfg)))) ∅) "".
Definition ex_cfg_control : ControlPlane Credentials Audit :=
  match ex_assembled with
  | Some (Ok (_, cp, _)) => cp
  | _ => ControlPlane_new (inl (mkInMemoryCredentials ∅)) (inr tt)
  end.

Definition ex_cfg_world : World Credentials Audit := mkWorld ex_cfg_control 0.
Definition ex_cfg_minted : comp Response * World Credentials Audit :=
  mint_handler ex_cfg_gateway ex_headers (mkMintRequest ex_policy 60) 1000 ex_cfg_world.
Definition ex_cfg_served : comp (option (Response * list NetEvent)) * World Credentials Audit :=
  serve_proxy ex_cfg_gateway ex_net ex_http_request 2000 ex_cfg_minted.2.

Definition ex_cfg_exchange : Exchange :=
  mkExchange ex_http_request 2000 (world_tokens ex_cfg_minted.2) [ex_sent].

Lemma ex_cfg_run :
  rtc (step ex_cfg_gateway) (mkSys ex_cfg_world [] []) (mkSys ex_cfg_served.2 [ex_cfg_exchange] [ex_policy]).
Proof.
  eapply rtc_l; [apply (step_mint _ ex_cfg_world [] [] ex_headers (mkMintRequest ex_policy 60) 1000
    (MintedResponse ex_response) ex_cfg_minted.2); hk_vm|].
  apply rtc_once. apply (step_proxy _ ex_cfg_minted.2 [] [ex_policy] ex_net ex_http_request 2000
    ex_answer [ex_sent] ex_cfg_served.2). hk_vm.
Qed.

Lemma ex_assembled_ok : ex_assembled = Some (Ok (ex_cfg_gateway, ex_cfg_control, None)).
Proof. hk_vm. Qed.

Lemma ex_cfg_tenants : cfg_tenants ex_cfg <> ∅.
Proof. intros E. apply (f_equal (fun m => m !! "tenant-a")) in E. discriminate E. Qed.

Lemma configured_confinement_witness :
  Forall (fun x => xc_events x = [] \/ exists body policy sc c action key targets,
    permitted ex_cfg_gateway (xc_tokens x) (proxy_request (xc_request x) body) (xc_now x) policy (service_of sc) c action /\
    sc ∈ cfg_services ex_cfg /\ cfg_tenants ex_cfg !! key = Some targets /\ sc_name sc ∈ targets /\
    traffic (service_of sc) (proxy_request (xc_request x) body) c (xc_events x)) [ex_cfg_exchange].
Proof.
  exact (configured_confinement ex_reads ex_parse ex_opened ex_cfg 1700000000000 ex_cfg_gateway ex_cfg_control None 0
    (mkSys ex_cfg_served.2 [ex_cfg_exchange] [ex_policy]) ex_assembled_ok ex_cfg_tenants ex_cfg_run).
Defined.
