(* ===== verification/Commands.v ===== *)
(** The commands of the two binaries, [cli/src/main.rs] and
    [agent/src/main.rs], and the listeners of [gateway/src/server.rs]'s
    [serve]: what each command reads, asks, writes and prints, and how the
    command line tools meet the server. The argument parser is clap's; a
    command starts from its parsed arguments. Standard output is the text
    printed. *)

From S2P Require Import Prelude RustStr External Reference Models Policy Service Control Gateway.
From S2P Require Import Upgrade Server Providers Tls AuditFile System Agent Cli.

(** ** [hackamore-agent] *)

Record Common := mkCommon {
  hackamore_url : string;
  token : string;
}.

Inductive AgentCommand :=
| Show (c : Common)
| Env (c : Common)
| Status (c : Common)
| Setup (common : Common) (home : option string)
| Teardown (home : option string).

(** The boxed error of [main]: a message, or an I/O error. *)
Inductive CommandError := Message (text : string) | Io (e : IoError).

Section AgentMain.
Context {N : ProvisionNet} {X : ExchangeLib}.
Variable faults : FsOp -> string -> option string.
(** [serde_json::to_string_pretty] of a document. *)
Variable pretty : ProvisionDoc -> result string string.
(** [$HOME]. *)
Variable home_var : option string.

Definition message {V} (r : result V string) : result V CommandError :=
  match r with Ok v => Ok v | Err e => Err (Message e) end.

Definition fetch (c : Common) : result ProvisionDoc CommandError :=
  message (fetch_provision (hackamore_url c) (token c)).

Definition print_paths (verb : string) (paths : list string) : string :=
  String.concat "" (map (fun p => verb +:+ " " +:+ p +:+ NL) paths).

(** What a command prints, and the files after it. *)
Definition agent_main (cmd : AgentCommand) : Files -> result string CommandError * Files := fun s =>
  match cmd with
  | Show c => (try doc := fetch c in try text := message (pretty doc) in Ok (text +:+ NL), s)
  | Env c => (try doc := fetch c in Ok (render_env doc), s)
  | Status c => (try doc := fetch c in Ok (render_status doc), s)
  | Setup common home =>
      match try doc := fetch common in try home := message (resolve_home home home_var) in Ok (doc, home) with
      | Err e => (Err e, s)
      | Ok (doc, home) =>
          match write_configs faults home doc s with
          | (Ok written, s') => (Ok (print_paths "wrote" written), s')
          | (Err e, s') => (Err (Io e), s')
          end
      end
  | Teardown home =>
      match message (resolve_home home home_var) with
      | Err e => (Err e, s)
      | Ok home =>
          match teardown faults home s with
          | (Ok removed, s') => (Ok (print_paths "removed" removed), s')
          | (Err e, s') => (Err (Io e), s')
          end
      end
  end.

(** Only [setup] and [teardown] touch the file system. *)
Lemma agent_main_reads cmd s :
  (forall c h, cmd <> Setup c h) -> (forall h, cmd <> Teardown h) -> (agent_main cmd s).2 = s.
Proof. intros Hs Ht. destruct cmd; try done; exfalso; [by eapply Hs|by eapply Ht]. Qed.
End AgentMain.

(** ** The agent against the server *)

Section AgentServer.
Context {J : JsonLib} {JT : JsonText} {H : HttpLib} {Q : RequestLib} {R : RingLib} {U : UuidLib} {Bd : BodyLib}.
Context {HL : HttpLaws H}.
Context {C A : Type} `{!CredentialStore C} `{!AuditSink A}.

(** The headers of the agent's GET. *)
Definition agent_headers (token : string) : HeaderMap :=
  match hv_from_str token with
  | Some v => hm_insert hm_empty HACKAMORE_TOKEN_HEADER v
  | None => hm_empty
  end.

(** The provision endpoint of a server in state [w], as the agent sees it:
    what its handler answers, decoded. *)
Definition provision_endpoint (g : Gateway) (now : Z) (w : World C A) : ProvisionNet := fun _ token =>
  match (provision_handler g (agent_headers token) now w).1 with
  | Done (ProvisionResponse doc) => Ok (200%Z, Ok doc)
  | Done (JsonResponse status _) => Ok (status, Err "missing field")
  | _ => Err "connection closed before message completed"
  end.

Lemma agent_headers_token tok v :
  hv_from_str tok = Some v -> trim tok = tok -> tok <> "" ->
  token_from_headers (agent_headers tok) = Some tok.
Proof.
  intros Hv Ht Hne. unfold token_from_headers, extract_auth, header_str, agent_headers. rewrite Hv, hm_get_insert.
  rewrite String.eqb_refl. cbn [mbind option_bind]. rewrite (hv_to_from_str _ _ Hv), Ht.
  destruct tok as [|a s]; [done|]. reflexivity.
Qed.

(** The agent's fetch from a server gives the document [provision] makes for
    the token, and fails with the HTTP status 401 exactly when the token is
    not live. *)
Lemma fetch_from_server `{!ExchangeLib} g url now (w : World C A) tok v :
  hv_from_str tok = Some v -> trim tok = tok -> tok <> "" ->
  @fetch_provision (provision_endpoint g now w) _ url tok =
  match tokens_resolve_full tok now (world_tokens w), (provision g tok now w).1 with
  | Some _, Done (Some doc) => Ok doc
  | _, _ => Err ("provision failed: HTTP " +:+ show_status UNAUTHORIZED)
  end.
Proof.
  intros Hv Ht Hne. unfold fetch_provision, provision_get, provision_endpoint, provision_handler.
  rewrite (agent_headers_token tok v) by done. rewrite eff_bind_unfold. unfold provision. eff_run. cbn [get_control].
  change (cp_tokens (w_control w)) with (world_tokens w).
  destruct (tokens_resolve_full tok now (world_tokens w)) as [[p t]|]; [|reflexivity].
  unfold provisionable_services.
  destruct (provision_services_spec (services (router g)) tok p now (ttl_remaining now t) w) as (l & w' & E & _).
  rewrite E. reflexivity.
Qed.
End AgentServer.

(** ** [hackamore]: loading, minting, serving *)

Section HackamoreMain.
Context {J : JsonLib} {R : RingLib} {B : Base64Lib} {K : RsaLib} {X : ExchangeLib} {T : TlsLib} {EC : EventCodec}.
(** Reading a file, and the parsers serde derives, with their errors' texts. *)
Variable reads : string -> result string string.
Variable parse_json : string -> result value string.
Variable parse_config : string -> result Config string.
Variable parse_policy : string -> result Policy string.
Variable opened : string -> result FileAudit string.

(** [Config::load]. *)
Definition Config_load (path : string) : result Config string :=
  match reads path with
  | Err e => Err ("read config " +:+ path +:+ ": " +:+ e)
  | Ok text =>
      match parse_config text with
      | Err e => Err ("parse config " +:+ path +:+ ": " +:+ e)
      | Ok cfg => Ok cfg
      end
  end.

Record MintArgs := mkMintArgs {
  admin_url : string;
  policy_path : string;
  ttl : Z;
}.

(** The POST of a mint request: a transport error's text, or the status and
    the decoded answer. *)
Variable post : string -> MintRequest -> result (Z * result MintResponse string) string.
(** [serde_json::to_string_pretty] of the answer. *)
Variable pretty : MintResponse -> result string string.

(** The [mint] command: what it prints. *)
Definition mint_command (args : MintArgs) : result string string :=
  match reads (policy_path args) with
  | Err e => Err ("read policy " +:+ policy_path args +:+ ": " +:+ e)
  | Ok text =>
      match parse_policy text with
      | Err e => Err ("parse policy " +:+ policy_path args +:+ ": " +:+ e)
      | Ok policy =>
          let url := trim_end_matches "/" (admin_url args) +:+ "/mint" in
          try resp := post url (mkMintRequest policy (ttl args)) in
          if negb (in_range 200 299 resp.1) then Err ("mint failed: HTTP " +:+ show_status resp.1)
          else
            try minted := resp.2 in
            try text := pretty minted in
            Ok (text +:+ NL)
      end
  end.

(** *** [serve]: two listeners over one state *)

(** [SocketAddr]'s parser and [TcpListener::bind]. *)
Context {SocketAddr Socket : Type}.
Variable parse_addr : string -> result SocketAddr string.
Variable bind : SocketAddr -> result Socket string.

(** What [serve] runs once both listeners are bound: the proxy's router,
    over TLS when configured, and the admin router, in plain text. *)
Record Listeners := mkListeners {
  ls_proxy : Socket;
  ls_proxy_tls : option ServerConfig;
  ls_proxy_routes : Router Endpoint;
  ls_admin : Socket;
  ls_admin_routes : Router Endpoint;
  ls_sweep_interval : Z;
}.

Definition gateway_serve (proxy_addr admin_addr : SocketAddr) (tls : option ServerConfig) : result Listeners string :=
  try proxy_listener := bind proxy_addr in
  try admin_listener := bind admin_addr in
  Ok (mkListeners proxy_listener tls proxy_router admin_listener admin_router SWEEP_INTERVAL).

(** The [serve] command, up to its loop: the gateway, its control plane and
    the listeners. The outer option is the fuel of the PEM reader. *)
Definition serve_command (config : string) (now : Z)
    : option (result (Gateway * ControlPlane Credentials Audit * Listeners) string) :=
  match Config_load config with
  | Err e => Some (Err e)
  | Ok cfg =>
      match assemble reads parse_json opened cfg now with
      | None => None
      | Some (Err e) => Some (Err e)
      | Some (Ok (gateway, control, tls_config)) =>
          Some (try proxy_addr := parse_addr (cfg_proxy_addr cfg) in
                try admin_addr := parse_addr (cfg_admin_addr cfg) in
                try listeners := gateway_serve proxy_addr admin_addr tls_config in
                Ok (gateway, control, listeners))
      end
  end.

(** The [serve] command starts a server or reports an error: its start-up
    terminates. When it starts, it is the gateway of the loaded configuration,
    minting is reachable on the admin listener only, and TLS is on the proxy
    listener exactly as configured. *)
Lemma serve_command_starts config now :
  exists r, serve_command config now = Some r /\
  forall g cp ls, r = Ok (g, cp, ls) ->
    exists cfg tls, Config_load config = Ok cfg /\
      assemble reads parse_json opened cfg now = Some (Ok (g, cp, tls)) /\
      ls_proxy_tls ls = tls /\
      Forall (fun e => e.2 = ProvisionEndpoint) (rt_routes (ls_proxy_routes ls)) /\
      rt_fallback (ls_proxy_routes ls) = Some ProxyEndpoint /\
      rt_fallback (ls_admin_routes ls) = None.
Proof.
  unfold serve_command. destruct (Config_load config) as [cfg|e] eqn:El.
  2:{ eexists. split; [reflexivity|]. intros g cp ls [=]. }
  destruct (assemble_total reads parse_json opened cfg now) as [r Er]. rewrite Er.
  destruct r as [[[g cp] tls]|e].
  2:{ eexists. split; [reflexivity|]. intros g cp ls [=]. }
  eexists. split; [reflexivity|]. intros g' cp' ls.
  destruct (parse_addr (cfg_proxy_addr cfg)) as [pa|]; [|done].
  destruct (parse_addr (cfg_admin_addr cfg)) as [aa|]; [|done]. unfold gateway_serve.
  destruct (bind pa) as [pl|]; [|done]. destruct (bind aa) as [al|]; [|done]. intros [= <- <- <-].
  exists cfg, tls. split_and!; [done..|repeat constructor|done|done].
Qed.
End HackamoreMain.

(** ** The mint command against the server *)

Section MintServer.
Context {J : JsonLib} {JT : JsonText} {H : HttpLib} {Q : RequestLib} {R : RingLib} {U : UuidLib} {Bd : BodyLib}.
Context {X : ExchangeLib} {C A : Type} `{!CredentialStore C} `{!AuditSink A}.

(** The mint endpoint of a server in state [w], for a request with no tenant
    header, which the command does not send. *)
Definition mint_endpoint (g : Gateway) (now : Z) (w : World C A) (url : string) (req : MintRequest)
    : result (Z * result MintResponse string) string :=
  match (mint_handler g hm_empty req now w).1 with
  | Done (MintedResponse m) => Ok (200%Z, Ok m)
  | Done (JsonResponse status _) => Ok (status, Err "missing field")
  | _ => Err "connection closed before message completed"
  end.

(** Against a server with tenants the command never mints: it sends no tenant
    credential. *)
Lemma mint_command_needs_open_server {HL : HttpLaws H} reads parse_policy pretty g now (w : World C A) args :
  cp_tenants (w_control w) <> ∅ ->
  exists e, mint_command reads parse_policy (mint_endpoint g now w) pretty args = Err e.
Proof.
  intros Hne. unfold mint_command. destruct (reads _) as [text|]; [|by eexists].
  destruct (parse_policy text) as [policy|]; [|by eexists]. unfold mint_endpoint, mint_handler.
  assert (E : mint_tenant hm_empty = None) by (unfold mint_tenant, header_str; by rewrite hm_get_empty).
  rewrite E. unfold mint_checked. eff_run. cbn [get_control]. unfold authorize_mint, tenants_is_empty.
  rewrite bool_decide_eq_false_2 by done. cbn. by eexists.
Qed.
End MintServer.
