(* ===== verification/Tasks.v ===== *)
(** The tasks [serve] of [gateway/src/server.rs] leaves running: the sweeper
    of the token table, as its sweeps at given clock readings, and the accept
    loop of the TLS listener, over what accepting gives. *)

From S2P Require Import Prelude RustStr External Reference Models Policy Control Gateway Server Providers System.

(** ** The sweeper *)

Section Sweeper.
Context {J : JsonLib} {H : HttpLib} {R : RingLib} {U : UuidLib}.
Context {C A : Type} `{!CredentialStore C} `{!AuditSink A}.

Fixpoint sweeps (ticks : list Z) : eff (World C A) unit :=
  match ticks with
  | [] => mret tt
  | now :: ticks' => sweep_tick now;; sweeps ticks'
  end.

(** [spawn_sweeper]'s task: the immediate first tick is skipped. *)
Definition sweeper (ticks : list Z) : eff (World C A) unit := sweeps (tail ticks).

(** Sweeping answers, touches the token table only, and keeps exactly the
    entries that outlive every sweep. *)
Lemma sweeps_keep ticks (w : World C A) :
  exists w', sweeps ticks w = (Done tt, w') /\ w_uuids w' = w_uuids w /\
    set_tokens ∅ (w_control w') = set_tokens ∅ (w_control w) /\
    forall key e, world_tokens w' !! key = Some e <->
      world_tokens w !! key = Some e /\ Forall (fun now => now < e_expires_at_ms e)%Z ticks.
Proof.
  revert w. induction ticks as [|now ticks IH]; intros w; cbn [sweeps].
  { exists w. split_and!; [done..|]. intros key e. split; [by split|tauto]. }
  set (w1 := mkWorld (set_tokens (tokens_sweep now (world_tokens w)).2 (w_control w)) (w_uuids w)).
  destruct (IH w1) as (w' & E & Hu & Hc & Hk). exists w'.
  split; [exact E|]. split; [exact Hu|]. split; [by rewrite Hc|].
  intros key e. rewrite Hk, Forall_cons. change (world_tokens w1) with (tokens_sweep now (world_tokens w)).2.
  cbn [tokens_sweep snd]. rewrite map_lookup_filter_Some. cbn [snd]. tauto.
Qed.

(** The table tracks live capacity: whenever the sweeper has run from [t0]
    to [t], at least one interval, what is left expires later than one
    interval ago, and nothing that is still live was removed. *)
Lemma sweeper_reclaims t0 t interval (w : World C A) :
  (0 < interval)%Z -> (t0 + interval <= t)%Z ->
  exists w', sweeper (ticks_until t0 interval t) w = (Done tt, w') /\
    forall key e, world_tokens w' !! key = Some e ->
      world_tokens w !! key = Some e /\ (t - interval < e_expires_at_ms e)%Z.
Proof.
  intros Hi Ht. destruct (sweeps_keep (tail (ticks_until t0 interval t)) w) as (w' & E & _ & _ & Hk).
  exists w'. split; [exact E|]. intros key e [Hw Hl]%Hk. split; [exact Hw|].
  destruct (ticks_until_last t0 interval t ltac:(lia) ltac:(lia)) as [ticks Ht'].
  assert (Hlen : length (ticks_until t0 interval t) = (Z.to_nat ((t - t0) / interval) + 1)%nat).
  { unfold ticks_until. by rewrite length_map, length_seq. }
  assert (1 <= (t - t0) / interval)%Z by (apply Z.div_le_lower_bound; lia).
  rewrite Ht' in Hl, Hlen. destruct ticks as [|t1 ticks]; [cbn in Hlen; lia|]. cbn [app tail] in Hl.
  apply Forall_app in Hl as [_ Hl]. apply Forall_cons in Hl as [Hl _].
  pose proof (Z.div_mod (t - t0) interval ltac:(lia)). pose proof (Z.mod_pos_bound (t - t0) interval ltac:(lia)).
  lia.
Qed.

Lemma sweeper_keeps_live t0 t interval (w : World C A) key e :
  (0 < interval)%Z -> (t0 <= t)%Z -> world_tokens w !! key = Some e -> (t < e_expires_at_ms e)%Z ->
  exists w', sweeper (ticks_until t0 interval t) w = (Done tt, w') /\ world_tokens w' !! key = Some e.
Proof.
  intros Hi Ht Hw He. destruct (sweeps_keep (tail (ticks_until t0 interval t)) w) as (w' & E & _ & _ & Hk).
  exists w'. split; [exact E|]. apply Hk. split; [exact Hw|].
  assert (Hall : Forall (fun now => now < e_expires_at_ms e)%Z (ticks_until t0 interval t)).
  { apply Forall_forall. intros x (k & -> & Hk')%list_elem_of_fmap. apply elem_of_seq in Hk' as [_ Hk'].
    pose proof (Z.div_mod (t - t0) interval ltac:(lia)). pose proof (Z.mod_pos_bound (t - t0) interval ltac:(lia)).
    pose proof (Z.div_pos (t - t0) interval ltac:(lia) Hi). nia. }
  destruct (ticks_until t0 interval t) as [|x l]; [done|]. by apply Forall_cons in Hall as [_ ?].
Qed.
End Sweeper.

(** ** The TLS accept loop *)

Section Accept.
Context {Stream TlsStream : Type}.
(** The handshake of rustls, and hyper's driver of one connection: what it
    logs, if it fails. *)
Variable handshake : Stream -> result TlsStream string.
Variable serve_connection : TlsStream -> option string.

(** The task spawned for one accepted connection: the stream it serves, and
    what it logs. *)
Definition connection_task (stream : Stream) : option TlsStream * option string :=
  match handshake stream with
  | Err e => (None, Some ("tls handshake failed: " +:+ e))
  | Ok tls_stream =>
      (Some tls_stream,
       match serve_connection tls_stream with
       | Some e => Some ("tls connection error: " +:+ e)
       | None => None
       end)
  end.

(** The loop over what [accept] returns: the tasks it spawns, and the error
    that ends it. *)
Fixpoint serve_proxy_tls (accepts : list (result Stream string))
    : list (option TlsStream * option string) * option string :=
  match accepts with
  | [] => ([], None)
  | Err e :: _ => ([], Some e)
  | Ok stream :: accepts' =>
      let '(tasks, ended) := serve_proxy_tls accepts' in (connection_task stream :: tasks, ended)
  end.

(** A connection that fails, in the handshake or later, takes down no other:
    every connection accepted before an accept fails has its own task. *)
Lemma serve_proxy_tls_spec streams rest :
  serve_proxy_tls (map Ok streams ++ rest) =
  (map connection_task streams ++ (serve_proxy_tls rest).1, (serve_proxy_tls rest).2).
Proof.
  induction streams as [|s streams IH]; [cbn; by destruct (serve_proxy_tls rest)|].
  cbn [map app serve_proxy_tls]. by rewrite IH.
Qed.
End Accept.
