(* ===== verification/Lifetime.v ===== *)
(** How long a capability lives: the expiry of what provisioning mints, and
    what expiry and revocation do not end. *)

From stdpp Require Import relations.
From S2P Require Import Prelude RustStr External Reference Models Policy Service Control Gateway System.

Section Renewal.
Context {J : JsonLib} {H : HttpLib} {R : RingLib} {U : UuidLib}.
Context {C A : Type} `{!CredentialStore C} `{!AuditSink A}.

(** A consumer fetches a document with a key it holds. *)
Definition fetches (g : Gateway) (key : string) (now : Z) (w w' : World C A) : Prop :=
  exists doc, provision g key now w = (Done (Some doc), w').

Definition sigv4_service (g : Gateway) (policy : Policy) (s : Service) : Prop :=
  s ∈ services (router g) /\ provisioned policy s = true /\
  exists credential akid region aws, svc_outbound s = SigV4 credential akid region aws.

(** Every provisioned SigV4 service gets a dummy credential. *)
Lemma provision_services_dummy s ss token policy now ttl (w : World C A) l w' :
  s ∈ ss -> provisioned policy s = true ->
  (exists credential akid region aws, svc_outbound s = SigV4 credential akid region aws) ->
  provision_services ss token policy now ttl w = (Done l, w') ->
  exists e akid secret reg, e ∈ l /\ ps_auth e = SigV4Auth akid secret reg.
Proof.
  intros Hin Hp (credential & akid0 & region & aws & Ho). revert w l. induction ss as [|s0 ss IH]; intros w l; [set_solver|].
  cbn [provision_services]. apply elem_of_cons in Hin as [<-|Hin].
  - rewrite Hp. unfold mint_service_auth. rewrite Ho. cbn [negb]. eff_run. unfold on_tokens, fresh_uuid.
    cbn -[provision_services dummy_access_key_id].
    destruct (provision_services ss _ _ _ _ _) as [[l0|] w0]; [|done]. intros [= <- _].
    do 4 eexists. split; [by left|reflexivity].
  - destruct (negb (provisioned policy s0)); [by apply IH|]. rewrite eff_bind_unfold.
    destruct (mint_service_auth s0 token policy now ttl w) as [[ma|] w1]; [|done]. rewrite eff_bind_unfold.
    destruct (provision_services ss _ _ _ _ w1) as [[l0|] w2] eqn:E; [|done]. intros [= <- Ew]. subst w2.
    destruct (IH Hin w1 l0 E) as (e & akid & secret & reg & He & Ha). exists e, akid, secret, reg. split; [by right|done].
Qed.

(** One millisecond before a key expires, a document fetched with it holds a
    key of the same policy that lives 999 ms longer. *)
Lemma renew_once g policy s key secret t (w : World C A) :
  sigv4_service g policy s -> world_tokens w !! key = Some (mkEntry policy t secret) ->
  (0 < t)%Z -> (t + 999 <= U64_MAX)%Z ->
  exists w' key' secret', fetches g key (t - 1) w w' /\
    world_tokens w' !! key' = Some (mkEntry policy (t + 999) secret').
Proof.
  intros (Hs & Hp & Ho) Hk Ht Hmax.
  destruct (provision_services_spec (services (router g)) key policy (t - 1) (ttl_remaining (t - 1) t) w)
    as (l & w' & E & _ & Hl & _).
  destruct (provision_services_dummy _ _ _ _ _ _ _ _ _ Hs Hp Ho E) as (e & akid & sec & reg & He & Ha).
  rewrite Forall_forall in Hl. specialize (Hl e He). unfold entry_ok in Hl. rewrite Ha in Hl. destruct Hl as [sec' Hl].
  exists w', akid, (Some sec'). split.
  - unfold fetches, provision, provisionable_services. eff_run. cbn [get_control].
    change (cp_tokens (w_control w)) with (world_tokens w). unfold tokens_resolve_full. rewrite Hk.
    cbn [mbind option_bind e_expires_at_ms e_policy].
    replace (t <=? t - 1)%Z with false by (symmetry; apply Z.leb_gt; lia). rewrite E. by eexists.
  - rewrite Hl. do 2 f_equal. unfold expiry, ttl_remaining, u64_saturating_add, u64_saturating_mul, u64_saturating_sub.
    replace (Z.max (t - (t - 1)) 0 / 1000)%Z with 0%Z; [unfold U64_MAX in *; lia|].
    replace (Z.max (t - (t - 1)) 0)%Z with 1%Z by lia. reflexivity.
Qed.

(** A run of fetches at rising times, each with a key that is alive then. *)
Inductive renewals (g : Gateway) : nat -> Z -> World C A -> World C A -> Prop :=
| renewals_nil t w : renewals g 0 t w w
| renewals_cons n t w w1 w2 key :
    fetches g key (t - 1) w w1 -> renewals g n (t + 999) w1 w2 -> renewals g (S n) t w w2.

(** C19: expiry does not end a capability. Since a dummy access key id is
    accepted as a bearer token, and a document fetched with any key mints
    keys that live at least a second, the holder of one live token whose
    policy reaches a SigV4 service can, by fetching a document about once a
    second and with nothing else, hold a key for the same policy at any
    later time, without any further mint. *)
Theorem capability_renewal g policy s n key secret t (w : World C A) :
  sigv4_service g policy s -> world_tokens w !! key = Some (mkEntry policy t secret) ->
  (0 < t)%Z -> (t + 999 * Z.of_nat n <= U64_MAX)%Z ->
  exists w' key', renewals g n t w w' /\
    tokens_resolve key' (t + 999 * Z.of_nat n - 1) (world_tokens w') = Some policy.
Proof.
  intros Hs. revert key secret t w. induction n as [|n IH]; intros key secret t w Hk Ht Hmax.
  - exists w, key. split; [constructor|]. unfold tokens_resolve, tokens_resolve_full. rewrite Hk.
    cbn [mbind option_bind e_expires_at_ms e_policy].
    by replace (t <=? t + 999 * Z.of_nat 0 - 1)%Z with false by (symmetry; apply Z.leb_gt; lia).
  - destruct (renew_once g policy s key secret t w Hs Hk Ht ltac:(lia)) as (w1 & key1 & secret1 & Hf & Hk1).
    destruct (IH key1 secret1 (t + 999)%Z w1 Hk1 ltac:(lia) ltac:(lia)) as (w2 & key2 & Hr & Hres).
    exists w2, key2. split; [by econstructor|]. rewrite <- Hres. f_equal. lia.
Qed.

(** Revoking a token leaves every dummy key minted for it alive. *)
Lemma revoke_leaves_dummies g k now (w w1 w2 : World C A) doc akid secret reg e `{!UuidLaws U} :
  provision g (token_of k) now w = (Done (Some doc), w1) -> revoke (token_of k) w1 = (Done true, w2) ->
  e ∈ pd_services doc -> ps_auth e = SigV4Auth akid secret reg ->
  (exists u, akid = dummy_access_key_id u) ->
  exists policy secret', world_tokens w2 !! akid =
    Some (mkEntry policy (expiry (ttl_remaining now (pd_expires_at_ms doc)) now) (Some secret')).
Proof.
  intros Hp Hr He Ha [u ->]. unfold provision in Hp. eff_run in Hp. cbn [get_control] in Hp.
  destruct (tokens_resolve_full _ now _) as [[policy t]|]; [|done]. unfold provisionable_services in Hp.
  destruct (provision_services_spec (services (router g)) (token_of k) policy now (ttl_remaining now t) w)
    as (l & w' & E & _ & Hl & _). rewrite E in Hp. injection Hp as <- <-. cbn [pd_services pd_expires_at_ms] in *.
  rewrite Forall_forall in Hl. specialize (Hl e He). unfold entry_ok in Hl. rewrite Ha in Hl. destruct Hl as [secret' Hl].
  exists policy, secret'. injection Hr as _ <-. cbn. rewrite lookup_delete_ne; [exact Hl|].
  intros E'. by apply (dummy_is_no_token u k).
Qed.

(** Revoking a key that expired but is not swept yet reports a removal. *)
Lemma revoke_reports_expired key now e (ts : Tokens) :
  ts !! key = Some e -> (e_expires_at_ms e <= now)%Z ->
  tokens_resolve key now ts = None /\ (tokens_revoke key ts).1 = true.
Proof.
  intros Hk Hle. unfold tokens_resolve, tokens_resolve_full, tokens_revoke. rewrite Hk. cbn [mbind option_bind fst].
  replace (_ <=? now)%Z with true by (symmetry; by apply Z.leb_le). split; [done|].
  by apply bool_decide_eq_true.
Qed.
End Renewal.

(** ** Witnesses *)

#[local] Existing Instance ref_json.
#[local] Existing Instance ref_http.
#[local] Existing Instance ref_ring.
#[local] Existing Instance ref_uuid.

Definition ex_ec2 : Service :=
  with_outbound (Service_new "ec2" "*.amazonaws.com" "https://ec2.amazonaws.com")
    (SigV4 "aws" "AKIDEXAMPLE" "us-east-1" "ec2").

Definition ex_leased : World InMemoryCredentials InMemoryAudit :=
  (minted ex_ec2_policy 3600 ex_t0 (mkWorld (ControlPlane_new (mkInMemoryCredentials ∅) (mkInMemoryAudit [])) 0)).2.

Lemma ex_leased_token : world_tokens ex_leased !! token_of 0 = Some (mkEntry ex_ec2_policy (ex_t0 + 3600000) None).
Proof. hk_vm. Qed.

Lemma ex_ec2_service : sigv4_service ex_gateway ex_ec2_policy ex_ec2.
Proof.
  split; [|split].
  - unfold ex_gateway. cbn [router services Gateway_new]. right. left.
  - vm_compute. reflexivity.
  - do 4 eexists. reflexivity.
Qed.

Lemma capability_renewal_witness :
  exists w' key', renewals ex_gateway 1000 (ex_t0 + 3600000) ex_leased w' /\
    tokens_resolve key' (ex_t0 + 3600000 + 999 * Z.of_nat 1000 - 1) (world_tokens w') = Some ex_ec2_policy.
Proof.
  apply (capability_renewal ex_gateway ex_ec2_policy ex_ec2 1000 (token_of 0) None);
    [exact ex_ec2_service|exact ex_leased_token| |]; vm_compute; intuition congruence.
Defined.
