(* ===== verification/Rotation.v ===== *)
(** The refresher of [Providers] behind the gateway of [Gateway]: what the
    requests to a service with a rotated credential are given. *)

From S2P Require Import Prelude RustStr Codec Canonicalize Datetime External Reference Models Policy SigV4 Service Normalize Control Gateway.
From S2P Require Import Providers System.

Section Rotation.
Context {J : JsonLib} {H : HttpLib} {HL : HttpLaws H} {R : RingLib} {U : UuidLib} {B : Base64Lib} {BL : Base64Laws B}.
Context {A : Type} `{!AuditSink A}.

(** The server as [main.rs] starts it: a store [c0] with an EKS provider under
    [id], primed at [primed_at] or not, and then the refresher's task, now in
    state [s], past its first call. The calls fit in the skew, or, with ticks
    that divide the lifetime of a token, in the interval. *)
Record rotating (primed_at t0 interval delay : Z) (c0 : CachingCredentials) (id : string) (p : EksGetTokenProvider)
    (s : Task) : Prop := {
  rt_ids : NoDup (providers c0).*1;
  rt_provider : (id, eks_provider p) ∈ providers c0;
  rt_static : static_secrets c0 !! id = None;
  rt_primed : forall m, cache c0 !! id = Some m -> provider_mint (eks_provider p) primed_at = Ok m;
  rt_start : (0 <= primed_at <= t0)%Z;
  rt_interval : (0 < interval <= default_refresh_skew_ms)%Z;
  rt_delay : (0 <= delay <= interval)%Z;
  rt_pace : (interval + delay <= default_refresh_skew_ms)%Z \/
    (interval | EKS_TOKEN_TTL_MS)%Z /\ (t0 - primed_at + delay < interval)%Z;
  rt_task : task_reaches t0 interval delay c0 s;
  rt_served : (1 <= tk_done s)%nat;
  rt_time : (t0 <= tk_time s)%Z /\ (tk_time s + EKS_TOKEN_TTL_MS <= U64_MAX)%Z;
}.

(** A presigned token can be a header value. *)
Lemma eks_token_header_safe p tick : hv_from_str ("Bearer " +:+ eks_token p tick) <> None.
Proof.
  apply hv_from_str_visible. unfold eks_token. rewrite !sforall_app. apply andb_true_iff. split; [done|].
  apply andb_true_iff. split; [done|].
  eapply sforall_impl; [|apply b64url_encode_alphabet]. intros a. each_byte a; done.
Qed.

(** A token minted at a tick, or when the store was primed, is replaced in
    time. *)
Lemma eks_no_gap primed_at t0 interval delay c0 id p s tick m :
  rotating primed_at t0 interval delay c0 id p s ->
  tick = primed_at \/ (exists k, tick = due t0 interval k) -> (tick <= tk_time s)%Z ->
  provider_mint (eks_provider p) tick = Ok m ->
  no_gap t0 interval delay default_refresh_skew_ms (ms_expires_at_ms m).
Proof.
  intros Hrot Htick Ht [= <-]. pose proof (rt_time _ _ _ _ _ _ _ _ Hrot). pose proof (rt_start _ _ _ _ _ _ _ _ Hrot).
  pose proof (rt_interval _ _ _ _ _ _ _ _ Hrot). cbn [ms_expires_at_ms].
  destruct (rt_pace _ _ _ _ _ _ _ _ Hrot) as [Hp|[[q Hq] Hp]]; [by apply no_gap_skew|].
  unfold u64_saturating_add. rewrite Z.min_l by lia. destruct Htick as [->|[k ->]].
  - replace (primed_at + EKS_TOKEN_TTL_MS)%Z with (t0 + q * interval - (t0 - primed_at))%Z by lia. apply no_gap_aligned; lia.
  - replace (due t0 interval k + EKS_TOKEN_TTL_MS)%Z with (t0 + (Z.of_nat k + q) * interval - 0)%Z by (unfold due; lia).
    apply no_gap_aligned; [lia|lia|lia|unfold due in *; lia].
Qed.

(** The store serves a token minted at a tick, or when it was primed, that is
    still valid. *)
Lemma rotating_serves primed_at t0 interval delay c0 id p s :
  rotating primed_at t0 interval delay c0 id p s ->
  exists tick, (primed_at <= tick <= tk_time s)%Z /\ (tk_time s < tick + EKS_TOKEN_TTL_MS)%Z /\
    cred_resolve (tk_creds s) id = Some (mkSecret (eks_token p tick)).
Proof.
  intros Hrot. pose proof Hrot as [Hnd Hin Hst Hpr Hs0 Hi Hd _ Htask Hk [Ht0 Hmax]].
  destruct (task_live t0 interval delay c0 id (eks_provider p) (tk_time s)) with (s := s)
    as (m & _ & Hr & Hexp & Hsrc); try done; try lia.
  - unfold EKS_TOKEN_TTL_MS in Hmax. lia.
  - intros m Hm. eapply eks_no_gap; [exact Hrot|by left|lia|by apply Hpr].
  - intros k Hk'. eexists. split; [reflexivity|]. split; [|eapply eks_no_gap; [exact Hrot|right; by exists k|done|reflexivity]].
    assert (0 <= due t0 interval k)%Z by (unfold due; nia). revert Hmax. cbn.
    unfold u64_saturating_add, default_refresh_skew_ms, EKS_TOKEN_TTL_MS, U64_MAX. lia.
  - assert (exists tick, (primed_at <= tick <= tk_time s)%Z /\ provider_mint (eks_provider p) tick = Ok m) as (tick & Htick & [= <-]).
    { destruct Hsrc as [Hc|(j & Hj & Hm)]; [exists primed_at; split; [lia|by apply Hpr]|].
      exists (due t0 interval j). split; [|done]. split; [unfold due; nia|done]. }
    exists tick. split; [done|]. split; [|by rewrite Hr]. cbn in Hexp. unfold u64_saturating_add in Hexp. lia.
Qed.

(** C9: a rotated credential is always there and always fresh. Behind the
    server's refresher, a request to a service with a rotated EKS credential
    is never refused for want of it, at any moment after the refresher's
    first call: between the ticks, and while a later call awaits this mint or
    another; and when it is forwarded, the one authorization header it
    carries is a presigned token of one of the ticks, or of the priming at
    start-up, less than fifteen minutes old. This takes ticks at most the
    skew apart, and calls that fit into the skew after an interval, or, as
    with the server's sixty seconds of both, into an interval that divides
    the fifteen minutes. *)
Theorem rotated_credential_fresh g primed_at t0 interval delay c0 id p s req (w w' : World CachingCredentials A) service o :
  rotating primed_at t0 interval delay c0 id p s ->
  cp_credentials (w_control w) = tk_creds s ->
  route (router g) (default "" (extract_host (rq_headers req))) = Some service -> svc_outbound service = Bearer id ->
  handle g req (tk_time s) w = (Done o, w') ->
  match o with
  | Forward plan => exists tick v, (primed_at <= tick <= tk_time s)%Z /\ (tk_time s < tick + EKS_TOKEN_TTL_MS)%Z /\
      hm_get_all (fp_headers plan) "authorization" = [v] /\ hv_to_str v = Some ("Bearer " +:+ eks_token p tick)
  | Reject rj => rj_status rj <> BAD_GATEWAY
  end.
Proof.
  intros Hrot Hcr Hro Hout (es & Hh & _)%handle_handled.
  destruct (rotating_serves _ _ _ _ _ _ _ _ Hrot) as (tick & Htick & Hfresh & Hres). rewrite <- Hcr in Hres.
  destruct (hv_from_str ("Bearer " +:+ eks_token p tick)) as [v|] eqn:Ev; [|by apply eks_token_header_safe in Ev].
  inversion Hh as [| | | |q src srv c a m d Ha Hr Hc Hn Hd Hno|q src srv c a l d Ha Hr Hc Hn Hd Hinj]; subst; try done.
  - rewrite Hro in Hr. injection Hr as <-. exfalso. eapply Hno. eapply injects_bearer; [exact Hout|exact Hres|exact Ev].
  - rewrite Hro in Hr. injection Hr as <-. exists tick, v. split; [lia|]. split; [lia|].
    inversion Hinj as [E|cr secret v' E Hs Hv|nm cr n secret v' E|cr ak rg aw secret sg E]; subst; rewrite Hout in E; try done.
    injection E as <-. rewrite Hres in Hs. injection Hs as <-. cbn [expose] in Hv. rewrite Ev in Hv. injection Hv as <-.
    split; [|by apply hv_to_from_str]. cbn [fp_headers]. by rewrite insert_all_get_all.
Qed.

(** The deployed pace: sixty seconds of interval and of skew. *)
Lemma main_pace primed_at t0 delay :
  (0 <= primed_at <= t0)%Z -> (t0 - primed_at + delay < 60000)%Z ->
  (60000 + delay <= default_refresh_skew_ms)%Z \/ (60000 | EKS_TOKEN_TTL_MS)%Z /\ (t0 - primed_at + delay < 60000)%Z.
Proof. intros _ Hd. right. split; [by exists 15%Z|done]. Qed.
End Rotation.

(** ** Witness: ten and a half minutes after the server's start *)

#[local] Existing Instance ref_json.
#[local] Existing Instance ref_http.
#[local] Existing Instance ref_http_laws.
#[local] Existing Instance ref_ring.
#[local] Existing Instance ref_uuid.
#[local] Existing Instance ref_base64.
#[local] Existing Instance ref_base64_laws.

Definition ex_cluster : Service :=
  with_outbound (with_flavor (Service_new "eks-prod" "*" "https://cluster.example") K8s) (Bearer "eks").
Definition ex_cluster_gateway : Gateway := Gateway_new (mkRouter [ex_cluster]).

Definition ex_later : Z := ex_t0 + 630000.

(** Primed a second before the task starts. *)
Definition ex_primed : CachingCredentials := (refresh_due (ex_t0 - 1000) ex_caching).2.

Definition ex_rotated : CachingCredentials := refresher (ticks_until ex_t0 60000 ex_later) ex_primed.
Definition ex_rotating_task : Task :=
  mkTask ex_rotated Waiting (Z.to_nat ((ex_later - ex_t0) / 60000) + 1) ex_later.

Definition ex_cluster_world : World CachingCredentials InMemoryAudit :=
  (mint (mkPolicy [mkRule Allow (mkMatch [] [Verb_crud Read] [] [])]) 3600 ex_t0
     (mkWorld (ControlPlane_new ex_rotated (mkInMemoryAudit [])) 0)).2.

Definition ex_pods : ProxyRequest :=
  mkProxyRequest _ "GET" "/api/v1/namespaces/dev/pods" "" [("authorization", "Bearer " +:+ token_of 0)] "".

Definition ex_listed : comp Outcome * World CachingCredentials InMemoryAudit :=
  handle ex_cluster_gateway ex_pods ex_later ex_cluster_world.
Definition ex_list_plan : ForwardPlan :=
  match done_or unauth ex_listed.1 with Forward p => p | Reject _ => mkForwardPlan "" "" hm_empty "" end.

Lemma ex_listed_forward : ex_listed.1 = Done (Forward ex_list_plan).
Proof. hk_vm. Qed.

(** A mint leaves the vault alone. *)
Lemma mint_vault {C A : Type} `{!CredentialStore C} `{!AuditSink A} policy ttl now (w : World C A) :
  cp_credentials (w_control (mint policy ttl now w).2) = cp_credentials (w_control w).
Proof. reflexivity. Qed.

Lemma ex_cluster_vault :
  cp_credentials (w_control ex_cluster_world) = tk_creds ex_rotating_task.
Proof. unfold ex_cluster_world, ex_rotating_task. rewrite mint_vault. cbn [w_control ControlPlane_new cp_credentials tk_creds]. reflexivity. Qed.

(** What priming leaves in the store. *)
Lemma ex_primed_spec :
  providers ex_primed = providers ex_caching /\ static_secrets ex_primed = ∅ /\
  forall m, cache ex_primed !! "eks" = Some m -> provider_mint (eks_provider ex_eks) (ex_t0 - 1000) = Ok m.
Proof.
  pose proof (refresh_due_spec (ex_t0 - 1000) ex_caching ex_caching_ids) as Hspec. unfold ex_primed.
  destruct (refresh_due (ex_t0 - 1000) ex_caching) as [ids c]. destruct Hspec as (Hs & Hp & He & _).
  split; [exact Hp|]. split; [exact Hs|]. intros m Hm. cbn [snd] in Hm.
  assert (Hin : ("eks", eks_provider ex_eks) ∈ providers ex_caching) by (apply elem_of_cons; right; by apply list_elem_of_singleton).
  destruct (He _ _ Hin) as [Hc _]. rewrite Hc in Hm. unfold refreshed_entry in Hm.
  destruct (needs_refresh _ _ _ _); [|discriminate Hm].
  destruct (provider_mint (eks_provider ex_eks) (ex_t0 - 1000)) as [m'|e]; [by injection Hm as <-|].
  discriminate Hm.
Qed.

Lemma ex_rotating : rotating (ex_t0 - 1000) ex_t0 60000 30000 ex_primed "eks" ex_eks ex_rotating_task.
Proof.
  destruct ex_primed_spec as (Hp & Hs & Hm). split; [rewrite Hp; exact ex_caching_ids| |by rewrite Hs|exact Hm|..].
  - rewrite Hp. apply elem_of_cons. right. by apply list_elem_of_singleton.
  - unfold ex_t0. lia.
  - unfold default_refresh_skew_ms. lia.
  - lia.
  - apply main_pace; unfold ex_t0; lia.
  - apply task_refresher; unfold ex_later, ex_t0; lia.
  - cbn [ex_rotating_task tk_done]. lia.
  - cbn [ex_rotating_task tk_time]. unfold ex_later, ex_t0, EKS_TOKEN_TTL_MS, U64_MAX. lia.
Qed.

Lemma rotated_credential_fresh_witness :
  exists tick v, (ex_t0 - 1000 <= tick <= ex_later)%Z /\ (ex_later < tick + EKS_TOKEN_TTL_MS)%Z /\
    hm_get_all (fp_headers ex_list_plan) "authorization" = [v] /\ hv_to_str v = Some ("Bearer " +:+ eks_token ex_eks tick).
Proof.
  apply (rotated_credential_fresh ex_cluster_gateway (ex_t0 - 1000) ex_t0 60000 30000 ex_primed "eks" ex_eks ex_rotating_task ex_pods
    ex_cluster_world ex_listed.2 ex_cluster (Forward ex_list_plan)).
  - exact ex_rotating.
  - exact ex_cluster_vault.
  - exact eq_refl.
  - exact eq_refl.
  - fold ex_listed. rewrite <- ex_listed_forward. apply surjective_pairing.
Defined.
