(* ===== verification/Conformance.v ===== *)
(** The unit tests of the repository, run on the model: each test module of
    [policy], [canonicalize], [service], [normalize], [sigv4] and [models] is
    a Module here and each test a boolean, with the test's own inputs and
    assertions; a lemma per module evaluates them on the reference instances
    of [Reference]. They tie the model to the behaviour the authors wrote
    down, including AWS's published signature vectors. *)

From S2P Require Import Prelude RustStr Codec Canonicalize Datetime External Reference Models Policy.
From S2P Require Import SigV4 Service Normalize.

#[local] Existing Instance ref_json.
#[local] Existing Instance ref_json_text.
#[local] Existing Instance ref_http.
#[local] Existing Instance ref_ring.

(** ** The harness *)

(** An assertion on a value that may fail to exist ([unwrap], a panic). *)
Definition on_done {T} (c : comp T) (p : T -> bool) : bool := match c with Done a => p a | Panic => false end.
Definition on_some {T} (o : option T) (p : T -> bool) : bool := match o with Some a => p a | None => false end.
Definition on_ok {T E} (r : result T E) (p : T -> bool) : bool := match r with Ok a => p a | Err _ => false end.
Definition is_none {T} (o : option T) : bool := match o with None => true | Some _ => false end.

(** [assert_eq!]. *)
Notation "a ≟ b" := (bool_decide (a = b)) (at level 70) : hk_scope.

(** [json!] of an object. *)
Definition obj (l : list (string * value)) : value := VObject (list_to_map l).
Definition str (s : string) : value := VString s.
Definition json_eq (o : option value) (v : value) : bool := on_some o (fun w => value_eqb w v).

(** [s.contains(t)]. *)
Definition contains (t s : string) : bool := negb (is_none (split_once_str t s)).

(** ** [policy/src/lib.rs] *)

Module PolicyTests.

Definition empty_match : Match := mkMatch [] [] [] [].
Definition allow (m : Match) : Rule := mkRule Allow m.
Definition deny (m : Match) : Rule := mkRule Deny m.

Definition pr_create : Action :=
  Action_of "github" (Verb_crud Create) (Resource_of "repos/octocat/hello/pulls" "pull_request").

Definition empty_policy_denies_default : bool := decide pr_create (mkPolicy []) ≟ VDeny NotAllowed.

Definition matching_allow_rule_yields_bare_allow : bool :=
  let policy := mkPolicy [allow (mkMatch [] [Verb_crud Create] ["repos/octocat/*/pulls"] [])] in
  match decide pr_create policy with
  | VAllow obligations => obligations ≟ []
  | VDeny _ => false
  end.

Definition named_verb_matches_named_rule : bool :=
  let describe := Action_of "aws-acct-a" (Verb_action "ec2:DescribeInstances") (Resource_of "" "root") in
  let policy := mkPolicy [allow (mkMatch [] [Verb_action "ec2:DescribeInstances"] [] [])] in
  let terminate := Action_of "aws-acct-a" (Verb_action "ec2:TerminateInstances") (Resource_of "" "root") in
  is_allow (decide describe policy) && negb (is_allow (decide terminate policy)).

Definition first_match_wins_deny_before_allow : bool :=
  let policy := mkPolicy [deny (mkMatch [] [Verb_crud Create] [] []); allow empty_match] in
  decide pr_create policy ≟ VDeny ExplicitDeny.

Definition read_only_agent_denied_create : bool :=
  let policy := mkPolicy [allow (mkMatch [] [Verb_crud Read] [] [])] in
  let read := Action_of "github" (Verb_crud Read) (Resource_of "repos/octocat/hello" "repo") in
  is_allow (decide read policy) && negb (is_allow (decide pr_create policy)).

Definition condition_gates_on_field_value : bool :=
  let policy := mkPolicy [allow (mkMatch [] [Verb_crud Create] ["repos/*/*/pulls"] [Equals "base" (str "develop")])] in
  let to_develop := with_fields pr_create (obj [("base", str "develop")]) in
  let to_main := with_fields pr_create (obj [("base", str "main")]) in
  is_allow (decide to_develop policy) && negb (is_allow (decide to_main policy)).

Definition one_of_and_exists_conditions : bool :=
  let policy := mkPolicy [allow (mkMatch [] [] []
    [OneOf "base" [str "develop"; str "staging"]; Exists_ "title"])] in
  let ok := with_fields pr_create (obj [("base", str "staging"); ("title", str "x")]) in
  let no_title := with_fields pr_create (obj [("base", str "staging")]) in
  let bad_base := with_fields pr_create (obj [("base", str "main"); ("title", str "x")]) in
  is_allow (decide ok policy) && negb (is_allow (decide no_title policy))
  && negb (is_allow (decide bad_base policy)).

Definition glob_double_star_matches_remainder : bool :=
  glob_matches "repos/octocat/**" "repos/octocat/hello/pulls/1"
  && glob_matches "repos/*/*/pulls" "repos/a/b/pulls"
  && negb (glob_matches "repos/*/*/pulls" "repos/a/b/issues")
  && negb (glob_matches "repos/*/pulls" "repos/a/b/pulls")
  && glob_matches "repos/octocat/**" "repos/octocat".

Definition dotted_field_lookup : bool :=
  let fields := obj [("head", obj [("ref", str "feature")])] in
  json_eq (lookup fields "head.ref") (str "feature")
  && is_none (lookup fields "head.sha") && is_none (lookup fields "missing").

Definition tests : list bool :=
  [empty_policy_denies_default; matching_allow_rule_yields_bare_allow; named_verb_matches_named_rule;
   first_match_wins_deny_before_allow; read_only_agent_denied_create; condition_gates_on_field_value;
   one_of_and_exists_conditions; glob_double_star_matches_remainder; dotted_field_lookup].

Lemma policy_tests_pass : forallb id tests = true.
Proof. hk_vm. Qed.
End PolicyTests.

(** ** [gateway/src/canonicalize.rs] *)

Module CanonicalizeTests.

(** [path(raw).unwrap()]. *)
Definition path_ok (raw : string) (p : CanonicalPath -> bool) : bool :=
  on_done (Canonicalize.path raw) (fun r => on_ok r p).
Definition decoded_is (raw expected : string) : bool := path_ok raw (fun c => decoded c =s expected).
Definition escapes (raw : string) : bool :=
  on_done (Canonicalize.path raw) (fun r => match r with Err Escape => true | Ok _ => false end).

Definition resolves_dot_segments : bool :=
  decoded_is "/repos/octocat/../evil" "/repos/evil" && decoded_is "/repos/./octocat" "/repos/octocat".

Definition collapses_empty_and_trailing_slashes : bool :=
  decoded_is "/repos//octocat" "/repos/octocat" && decoded_is "/repos/octocat/" "/repos/octocat"
  && decoded_is "/" "/" && decoded_is "" "/".

Definition decodes_percent_escapes_so_they_cannot_disguise_a_segment : bool :=
  decoded_is "/repos/octocat/%2e%2e/evil" "/repos/evil" && decoded_is "/repos/%65vil" "/repos/evil".

Definition root_escape_is_rejected : bool := escapes "/.." && escapes "/repos/../../etc".

Definition encoded_slash_decodes_for_matching_but_re_encodes_for_the_wire : bool :=
  path_ok "/repos/a%2Fb" (fun c => (decoded c =s "/repos/a/b") && (encoded c =s "/repos/a%2Fb")).

Definition plain_paths_are_unchanged : bool :=
  path_ok "/api/v1/namespaces/dev/pods" (fun c =>
    (decoded c =s "/api/v1/namespaces/dev/pods") && (encoded c =s "/api/v1/namespaces/dev/pods")).

Definition tests : list bool :=
  [resolves_dot_segments; collapses_empty_and_trailing_slashes;
   decodes_percent_escapes_so_they_cannot_disguise_a_segment; root_escape_is_rejected;
   encoded_slash_decodes_for_matching_but_re_encodes_for_the_wire; plain_paths_are_unchanged].

Lemma canonicalize_tests_pass : forallb id tests = true.
Proof. hk_vm. Qed.
End CanonicalizeTests.

(** ** [gateway/src/service.rs] *)

Module ServiceTests.

Definition svc (name host : string) : Service := Service_new name host ("https://" +:+ name +:+ ".example").
Definition routes_to (r : ServiceRouter) (host name : string) : bool := (svc_name <$> route r host) ≟ Some name.

Definition routes_by_exact_host_and_strips_port : bool :=
  let r := mkRouter [svc "github" "api.github.com"] in
  routes_to r "api.github.com" "github" && routes_to r "api.github.com:443" "github"
  && is_none (route r "api.openai.com").

Definition wildcard_suffix_and_catch_all : bool :=
  let r := mkRouter [svc "oai" "*.openai.com"; svc "any" "*"] in
  routes_to r "api.openai.com" "oai" && routes_to r "openai.com" "oai" && routes_to r "example.org" "any".

Definition first_match_wins : bool :=
  let r := mkRouter [svc "specific" "api.github.com"; svc "catch" "*"] in
  routes_to r "api.github.com" "specific".

Definition openapi_ingester_collects_operation_ids_with_fallback : bool :=
  let spec := obj [("openapi", str "3.0.0");
    ("paths", obj [("/pets", obj [("get", obj [("operationId", str "listPets")]);
                                  ("post", obj [("operationId", str "createPet")])]);
                   ("/pets/{id}", obj [("get", obj [])])])] in
  let catalog := from_openapi spec in
  negb (Catalog_is_empty catalog) && Catalog_knows catalog "listPets" && Catalog_knows catalog "createPet"
  && Catalog_knows catalog "GET /pets/{id}" && negb (Catalog_knows catalog "deletePet")
  && Catalog_is_empty (from_openapi (obj [])).

Definition flavor_parse_defaults_generic : bool :=
  (Flavor_parse (Some "github") ≟ Github) && (Flavor_parse (Some "GitHub") ≟ Github)
  && (Flavor_parse (Some "rest") ≟ Generic) && (Flavor_parse None ≟ Generic).

Definition tests : list bool :=
  [routes_by_exact_host_and_strips_port; wildcard_suffix_and_catch_all; first_match_wins;
   openapi_ingester_collects_operation_ids_with_fallback; flavor_parse_defaults_generic].

Lemma service_tests_pass : forallb id tests = true.
Proof. hk_vm. Qed.
End ServiceTests.

(** ** [gateway/src/normalize.rs] *)

Module NormalizeTests.

Definition service (name : string) (flavor : Flavor) : Service :=
  with_flavor (Service_new name "*" "https://upstream.example") flavor.

Definition req (method path query body : string) : ProxyRequest :=
  mkProxyRequest _ method path query hm_empty body.

(** Normalize the way the data plane does: canonicalize the path first. *)
Definition norm (s : Service) (r : ProxyRequest) : comp Action :=
  c ← Canonicalize.path (rq_path r);
  match c with Ok canonical => normalize s r (decoded canonical) | Err _ => Panic end.

Definition protocol (s : Service) (p : Protocol) : Service := with_extract s (mkExtract p None).
Definition fields_are (a : Action) (l : list (string * value)) : bool := value_eqb (fields a) (obj l).

Definition github_flavor_parses_pull_request : bool :=
  let r := req "POST" "/repos/octocat/hello/pulls" ""
    (json_to_string (obj [("base", str "main"); ("title", str "x")])) in
  on_done (norm (service "github" Github) r) (fun a =>
    (target a =s "github") && (verb a ≟ Verb_crud Create)
    && (res_path (resource a) =s "repos/octocat/hello/pulls") && (res_kind (resource a) =s "pull_request")
    && fields_are a [("base", str "main"); ("title", str "x")]).

Definition generic_flavor_uses_first_segment_kind : bool :=
  on_done (norm (service "openai" Generic)
             (req "POST" "/v1/chat/completions" "" (json_to_string (obj [("model", str "gpt")])))) (fun a =>
    (target a =s "openai") && (verb a ≟ Verb_crud Create)
    && (res_path (resource a) =s "v1/chat/completions") && (res_kind (resource a) =s "v1")
    && fields_are a [("model", str "gpt")]).

Definition verbs_map_from_methods : bool :=
  (verb_for "DELETE" ≟ Verb_crud Delete) && (verb_for "PATCH" ≟ Verb_crud Update)
  && (verb_for "HEAD" ≟ Verb_crud Read).

Definition body_overrides_query_fields : bool :=
  on_done (norm (service "svc" Generic)
             (req "POST" "/x" "base=main" (json_to_string (obj [("base", str "develop")]))))
    (fun a => fields_are a [("base", str "develop")]).

Definition non_json_body_is_ignored_for_fields : bool :=
  on_done (norm (service "svc" Generic) (req "POST" "/x" "" "not json")) (fun a => fields_are a []).

Definition aws_query_protocol_sets_named_verb_and_form_fields : bool :=
  let svc := protocol (service "aws" Generic) AwsQuery in
  on_done (norm svc (req "POST" "/" "" "Action=DescribeInstances&InstanceId=i-123")) (fun a =>
    (verb a ≟ Verb_action "DescribeInstances")
    && fields_are a [("Action", str "DescribeInstances"); ("InstanceId", str "i-123")]).

Definition aws_query_missing_action_fails_closed : bool :=
  let svc := protocol (service "aws" Generic) AwsQuery in
  on_done (norm svc (req "POST" "/" "" "Version=2016-11-15")) (fun a => verb a ≟ Verb_action "__unparsed__").

Definition aws_json_protocol_reads_target_header : bool :=
  let svc := protocol (service "ddb" Generic) AwsJson in
  let body := json_to_string (obj [("TableName", str "dev")]) in
  on_some (hv_from_str "DynamoDB_20120810.PutItem") (fun v =>
    let r := mkProxyRequest _ "POST" "/" "" (hm_insert hm_empty "x-amz-target" v) body in
    on_done (norm svc r) (fun a => (verb a ≟ Verb_action "PutItem") && fields_are a [("TableName", str "dev")])).

Definition path_template_captures_named_segments : bool :=
  let svc := with_extract (service "s3" Generic) (mkExtract Rest (Some "/{bucket}/{key+}")) in
  on_done (norm svc (req "PUT" "/my-data/reports/q1.csv" "" "")) (fun a =>
    json_eq (value_get (fields a) "bucket") (str "my-data")
    && json_eq (value_get (fields a) "key") (str "reports/q1.csv")).

Definition tests : list bool :=
  [github_flavor_parses_pull_request; generic_flavor_uses_first_segment_kind; verbs_map_from_methods;
   body_overrides_query_fields; non_json_body_is_ignored_for_fields;
   aws_query_protocol_sets_named_verb_and_form_fields; aws_query_missing_action_fails_closed;
   aws_json_protocol_reads_target_header; path_template_captures_named_segments].

Lemma normalize_tests_pass : forallb id tests = true.
Proof. hk_vm. Qed.
End NormalizeTests.

(** ** [gateway/src/sigv4.rs] *)

Module SigV4Tests.

(** The names and values are valid, as the test's [unwrap] demands. *)
Definition headers (pairs : list (string * string)) : HeaderMap :=
  fold_left (fun h kv =>
    match hn_from_bytes kv.1, hv_from_str kv.2 with
    | Some n, Some v => hm_insert h n v
    | _, _ => h
    end) pairs hm_empty.

Definition verifies (c : comp (result unit VerifyError)) : bool := on_done c (fun r => on_ok r (fun _ => true)).
Definition fails_with (c : comp (result unit VerifyError)) (e : VerifyError) : bool :=
  on_done c (fun r => match r with Err e' => e' ≟ e | Ok _ => false end).

Definition datetime_round_trips_known_epoch : bool :=
  let '(amz, date) := format_amz_datetime 1329264000000 in
  (amz =s "20120215T000000Z") && (date =s "20120215")
  && (parse_amz_datetime amz ≟ Some 1329264000000%Z)
  && is_none (parse_amz_datetime "nope") && is_none (parse_amz_datetime "20120215T000000X").

Definition signing_key_matches_aws_documented_vector : bool :=
  let key := derive_signing_key "wJalrXUtnFEMI/K7MDENG+bPxRfiCYEXAMPLEKEY" "20120215" "us-east-1" "iam" in
  to_hex key =s "f4780e2d9f65fa895f9c67b32ce1baf0b0d8a43505a000a1a9e090d414db404d".

Definition matches_aws_sig_v4_test_suite_get_vanilla : bool :=
  let parsed := mkParsed "AKIDEXAMPLE" "20150830" "us-east-1" "service" ["host"; "x-amz-date"]
    "5fa00fa31553b73ebf1942676e86291e8372ff2a2260956d9b8aae1d763fbf31" in
  let h := headers [("host", "example.amazonaws.com"); ("x-amz-date", "20150830T123600Z")] in
  on_some (parse_amz_datetime "20150830T123600Z") (fun now =>
    verifies (verify "wJalrXUtnFEMI/K7MDENG+bPxRfiCYEXAMPLEKEY" parsed "GET" "/" "" h "" now)).

Definition parses_authorization_with_signed_headers : bool :=
  let h := "AWS4-HMAC-SHA256 Credential=AKIDEXAMPLE/20231114/us-east-1/ec2/aws4_request, "
    +:+ "SignedHeaders=host;x-amz-content-sha256;x-amz-date, Signature=abcd1234" in
  on_some (parse_authorization h) (fun p =>
    (p_access_key_id p =s "AKIDEXAMPLE") && (datestamp p =s "20231114") && (region p =s "us-east-1")
    && (SigV4.service p =s "ec2") && (signed_headers p ≟ ["host"; "x-amz-content-sha256"; "x-amz-date"])
    && (signature p =s "abcd1234"))
  && is_none (parse_authorization "AWS4-HMAC-SHA256 Credential=A/d/r/s/aws4_request, Signature=x")
  && is_none (parse_authorization "Bearer xyz").

Definition sign_then_verify_round_trips_and_detects_tampering : bool :=
  let creds := mkCreds "AKIDEXAMPLE" "secret-key" in
  let now := 1700000000000%Z in
  let body := "Action=DescribeInstances&Version=2016-11-15" in
  on_done (sign creds "us-east-1" "ec2" "POST" "ec2.us-east-1.amazonaws.com" "/" "" body now) (fun signed =>
    let h := headers [("host", "ec2.us-east-1.amazonaws.com"); ("x-amz-date", amz_date signed);
      ("x-amz-content-sha256", content_sha256 signed); ("authorization", authorization signed)] in
    on_some (parse_authorization (authorization signed)) (fun parsed =>
      verifies (verify "secret-key" parsed "POST" "/" "" h body now)
      && fails_with (verify "WRONG" parsed "POST" "/" "" h body now) Mismatch
      && fails_with (verify "secret-key" parsed "POST" "/" "" h body (now + MAX_SKEW_MS + 1)) Stale)).

Definition verify_honors_larger_signed_header_set : bool :=
  let creds := mkCreds "AKID" "sk" in
  let now := 1700000000000%Z in
  let '(amz_date, datestamp) := format_amz_datetime now in
  let content := sha256_hex "" in
  let signed_headers := "x-amz-date;x-custom" in
  let hdrs := [("x-amz-date", amz_date); ("x-custom", "Value")] in
  on_done (canonical_request "GET" "/" "" hdrs signed_headers content true) (fun canonical =>
    let sig := signature_for (secret_access_key creds) "us-east-1" "ec2" amz_date datestamp canonical in
    let auth := "AWS4-HMAC-SHA256 Credential=AKID/" +:+ datestamp +:+ "/us-east-1/ec2/aws4_request, "
      +:+ "SignedHeaders=" +:+ signed_headers +:+ ", Signature=" +:+ sig in
    on_some (parse_authorization auth) (fun parsed =>
      let h := headers [("x-amz-date", amz_date); ("x-custom", "Value")] in
      let h_missing := headers [("x-amz-date", amz_date)] in
      verifies (verify "sk" parsed "GET" "/" "" h "" now)
      && fails_with (verify "sk" parsed "GET" "/" "" h_missing "" now) (MissingSignedHeader "x-custom"))).

Definition uri_and_query_canonicalization : bool :=
  (uri_encode "/foo bar/x" false =s "/foo%20bar/x") && (uri_encode "a/b" true =s "a%2Fb")
  && on_done (canonical_query "b=2&a=hello world") (fun q => q =s "a=hello%20world&b=2")
  && on_done (canonical_query "k=a%2Bb") (fun q => q =s "k=a%2Bb").

Definition header_value_whitespace_is_collapsed : bool := trim_header_value "  a   b  " =s "a b".

Definition tests : list bool :=
  [datetime_round_trips_known_epoch; signing_key_matches_aws_documented_vector;
   matches_aws_sig_v4_test_suite_get_vanilla; parses_authorization_with_signed_headers;
   sign_then_verify_round_trips_and_detects_tampering; verify_honors_larger_signed_header_set;
   uri_and_query_canonicalization; header_value_whitespace_is_collapsed].

Lemma sigv4_tests_pass : forallb id tests = true.
Proof. hk_vm. Qed.
End SigV4Tests.

(** ** [models/src/lib.rs]

    Without the tests of the JSON codecs, which are generated. *)

Module ModelsTests.

Definition verb_parse_shorthand_maps_crud_words_and_named_actions : bool :=
  (Verb_parse "read" ≟ Verb_crud Read) && (Verb_parse "DELETE" ≟ Verb_crud Delete)
  && (Verb_parse "ec2:DescribeInstances" ≟ Verb_action "ec2:DescribeInstances").

Definition verdict_helpers_build_expected_variants : bool :=
  is_allow (Verdict_allow [Verdict_inject "gh"]) && is_allow (Verdict_allow [Verdict_passthrough])
  && negb (is_allow (Verdict_deny NotAllowed)).

Definition tests : list bool :=
  [verb_parse_shorthand_maps_crud_words_and_named_actions; verdict_helpers_build_expected_variants].

Lemma models_tests_pass : forallb id tests = true.
Proof. hk_vm. Qed.
End ModelsTests.
