(* ===== verification/ConformanceGateway.v ===== *)
(** The unit tests of [gateway/src/core.rs], run on the model: each test is a
    computation over the shared state, with the requests, clock readings and
    assertions of the code's test; the lemma at the end runs them all. *)

From S2P Require Import Prelude RustStr Codec External Reference Models Policy SigV4 Service Normalize Control.
From S2P Require Import Gateway System Conformance.

#[local] Existing Instance ref_json.
#[local] Existing Instance ref_http.
#[local] Existing Instance ref_ring.
#[local] Existing Instance ref_uuid.

Notation Plane := (World InMemoryCredentials InMemoryAudit).

(** ** Fixtures *)

(** A control plane with an in-memory audit sink and a seeded credential. *)
Definition test_control : Plane :=
  mkWorld (ControlPlane_new (creds_insert "github-app" (mkSecret "real-secret-token") (mkInMemoryCredentials ∅))
             (mkInMemoryAudit [])) 0.

(** [creds.insert] on the plane's store. *)
Definition seeded (id secret : string) (w : Plane) : Plane :=
  set_credentials (creds_insert id (mkSecret secret) (cp_credentials (w_control w))) w.

Definition github_router : ServiceRouter :=
  mkRouter [with_outbound (with_flavor (Service_new "github" "*" "https://api.github.com") Github) (Bearer "github-app")].

Definition router_passthrough : ServiceRouter := mkRouter [Service_new "svc" "*" "https://up.example"].

Definition router_header : ServiceRouter :=
  mkRouter [with_outbound (Service_new "keyed" "*" "https://api.keyed.com") (Header "X-API-Key" "keyed-key")].

Definition allow_all : Policy := mkPolicy [mkRule Allow (mkMatch [] [] [] [])].
Definition read_only : Policy := mkPolicy [mkRule Allow (mkMatch [] [Verb_crud Read] [] [])].

Definition bearer (token : string) : HeaderMap := set_header hm_empty "authorization" ("Bearer " +:+ token).

Definition hackamore_header_with_own_cred (token own_cred : string) : HeaderMap :=
  set_header (set_header hm_empty HACKAMORE_TOKEN_HEADER token) "authorization" own_cred.

Definition get (headers : HeaderMap) (path : string) : ProxyRequest := mkProxyRequest _ "GET" path "" headers "".

Definition two_service_router : ServiceRouter :=
  mkRouter [with_address (with_outbound (with_flavor (Service_new "github" "api.github.com" "https://api.github.com") Github)
              (Bearer "github-app")) "https://gh.hackamore.local";
            Service_new "openai" "api.openai.com" "https://api.openai.com"].

Definition target_policy (t : string) : Policy := mkPolicy [mkRule Allow (mkMatch [t] [] [] [])].

Definition aws_router : ServiceRouter :=
  mkRouter [with_extract (with_outbound
    (Service_new "ec2" "ec2.amazonaws.com" "https://ec2.us-east-1.amazonaws.com")
    (SigV4 "aws-secret" "REALAKID" "us-east-1" "ec2")) (mkExtract AwsQuery None)].

(** A SigV4-signed request the way the AWS CLI would build it. *)
Definition signed_aws_request (akid secret host body : string) (now : Z) : comp ProxyRequest :=
  signed ← sign (mkCreds akid secret) "us-east-1" "ec2" "POST" host "/" "" body now;
  let headers := set_header hm_empty "host" host in
  let headers := set_header headers "authorization" (authorization signed) in
  let headers := set_header headers "x-amz-date" (amz_date signed) in
  let headers := set_header headers "x-amz-content-sha256" (content_sha256 signed) in
  Done (mkProxyRequest _ "POST" "/" "" headers body).

(** ** The harness *)

Notation Test := (eff Plane bool).

Definition passes (t : Test) (w : Plane) : bool := on_done (t w).1 id.
Definition audit_log : eff Plane (list AuditEvent) := fun w => (Done (events (cp_audit (w_control w))), w).
Definition forwarded (o : Outcome) (p : ForwardPlan -> bool) : bool := match o with Forward plan => p plan | Reject _ => false end.
Definition rejected (o : Outcome) (p : Rejection -> bool) : bool := match o with Forward _ => false | Reject r => p r end.
Definition unauthenticated (o : Outcome) : bool := rejected o (fun r => rj_reason r ≟ Unauthenticated).
Definition header_of (plan : ForwardPlan) (name : string) : option string := header_str (fp_headers plan) name.
Definition no_header (plan : ForwardPlan) (name : string) : bool := is_none (hm_get (fp_headers plan) name).
Definition is_ok {V E} (r : result V E) : bool := on_ok r (fun _ => true).

(** ** The request path *)

Definition missing_token_is_unauthorized : bool :=
  let gw := Gateway_new github_router in
  passes (o ← handle gw (get hm_empty "/repos/o/r") 1700000000000;
          mret (rejected o (fun r => (rj_status r =? UNAUTHORIZED)%Z && (rj_reason r ≟ Unauthenticated)))) test_control.

Definition unknown_token_is_unauthorized : bool :=
  let gw := Gateway_new github_router in
  passes (o ← handle gw (get (bearer "not-a-real-token") "/repos/o/r") 1700000000000;
          mret (unauthenticated o)) test_control.

Definition allowed_request_injects_targets_credential : bool :=
  let gw := Gateway_new github_router in
  passes (minted ← mint allow_all 60 1000;
          o ← handle gw (get (bearer (mr_token minted)) "/repos/octocat/hello") 1000;
          log ← audit_log;
          mret (forwarded o (fun plan =>
                  (fp_url plan =s "https://api.github.com/repos/octocat/hello")
                  && on_some (header_of plan "authorization") (fun auth =>
                       (auth =s "Bearer real-secret-token") && negb (contains (mr_token minted) auth)))
                && (map ev_decision log ≟ [DecisionAllow]))) test_control.

Definition passthrough_with_token_in_authorization_forwards_no_credential : bool :=
  let gw := Gateway_new router_passthrough in
  passes (minted ← mint allow_all 60 1000;
          o ← handle gw (get (bearer (mr_token minted)) "/x") 1000;
          mret (forwarded o (fun plan => no_header plan "authorization"))) test_control.

Definition passthrough_preserves_consumers_own_credential : bool :=
  let gw := Gateway_new router_passthrough in
  passes (minted ← mint allow_all 60 1000;
          let headers := hackamore_header_with_own_cred (mr_token minted) "Bearer consumer-own-key" in
          o ← handle gw (mkProxyRequest _ "GET" "/x" "" headers "") 1000;
          mret (forwarded o (fun plan =>
            (header_of plan "authorization" ≟ Some "Bearer consumer-own-key")
            && no_header plan HACKAMORE_TOKEN_HEADER))) test_control.

Definition inject_overrides_consumers_own_credential : bool :=
  let gw := Gateway_new github_router in
  passes (minted ← mint allow_all 60 1000;
          let headers := hackamore_header_with_own_cred (mr_token minted) "Bearer consumer-own-key" in
          o ← handle gw (mkProxyRequest _ "GET" "/repos/o/r" "" headers "") 1000;
          mret (forwarded o (fun plan => header_of plan "authorization" ≟ Some "Bearer real-secret-token")))
    test_control.

Definition header_mechanism_injects_custom_header : bool :=
  let gw := Gateway_new router_header in
  passes (minted ← mint allow_all 60 1000;
          o ← handle gw (get (bearer (mr_token minted)) "/v1/x") 1000;
          mret (forwarded o (fun plan =>
            (header_of plan "x-api-key" ≟ Some "sk-keyed") && no_header plan "authorization")))
    (seeded "keyed-key" "sk-keyed" test_control).

Definition sigv4_mechanism_signs_outbound_request : bool :=
  let router := mkRouter [with_outbound (Service_new "ec2" "*" "https://ec2.us-east-1.amazonaws.com")
    (SigV4 "aws-secret" "AKID" "us-east-1" "ec2")] in
  let gw := Gateway_new router in
  passes (minted ← mint allow_all 60 1700000000000;
          o ← handle gw (get (bearer (mr_token minted)) "/") 1700000000000;
          mret (forwarded o (fun plan =>
            on_some (header_of plan "authorization") (fun auth =>
              starts_with "AWS4-HMAC-SHA256 Credential=AKID/" auth && contains "/us-east-1/ec2/aws4_request" auth
              && contains "Signature=" auth && negb (contains "secret-key" auth))
            && negb (no_header plan "x-amz-date") && negb (no_header plan "x-amz-content-sha256"))))
    (seeded "aws-secret" "secret-key" test_control).

(** [control.tokens.mint_sigv4]. *)
Definition mint_sigv4 (policy : Policy) (ttl_seconds now : Z) : eff Plane SigV4Mint :=
  u0 ← fresh_uuid; u1 ← fresh_uuid; u2 ← fresh_uuid; on_tokens (tokens_mint_sigv4 u0 u1 u2 policy ttl_seconds now).

Definition sigv4_inbound_authenticates_then_resigns_with_real_credential : bool :=
  let now := 1700000000000%Z in
  let gw := Gateway_new aws_router in
  passes (dummy ← mint_sigv4 allow_all 60 now;
          req ← eff_lift (signed_aws_request (sm_access_key_id dummy) (sm_secret_access_key dummy)
                            "ec2.amazonaws.com" "Action=DescribeInstances&Version=2016-11-15" now);
          o ← handle gw req now;
          mret (forwarded o (fun plan => on_some (header_of plan "authorization") (fun auth =>
            contains "Credential=REALAKID/" auth && negb (contains (sm_access_key_id dummy) auth)
            && negb (contains "real-secret" auth)))))
    (seeded "aws-secret" "real-secret" test_control).

Definition sigv4_inbound_bad_signature_is_unauthorized : bool :=
  let now := 1700000000000%Z in
  let gw := Gateway_new aws_router in
  passes (dummy ← mint_sigv4 allow_all 60 now;
          req ← eff_lift (signed_aws_request (sm_access_key_id dummy) "WRONG-SECRET"
                            "ec2.amazonaws.com" "Action=DescribeInstances&Version=2016-11-15" now);
          o ← handle gw req now;
          mret (unauthenticated o))
    (seeded "aws-secret" "real-secret" test_control).

Definition expired_token_is_unauthorized : bool :=
  let gw := Gateway_new github_router in
  passes (minted ← mint allow_all 60 1000;
          o ← handle gw (get (bearer (mr_token minted)) "/repos/o/r") 61000;
          mret (unauthenticated o)) test_control.

Definition denied_request_is_forbidden_and_audited : bool :=
  let gw := Gateway_new github_router in
  passes (minted ← mint read_only 60 1000;
          o ← handle gw (mkProxyRequest _ "DELETE" "/repos/o/r" "" (bearer (mr_token minted)) "") 1000;
          log ← audit_log;
          mret (rejected o (fun r => (rj_status r =? FORBIDDEN)%Z && (rj_reason r ≟ NotAllowed))
                && ((ev_decision <$> head log) ≟ Some DecisionDeny))) test_control.

(** ** Provisioning and minting *)

Definition provision_lists_only_granted_services : bool :=
  let gw := Gateway_new two_service_router in
  passes (minted ← mint (target_policy "github") 60 1000;
          doc ← provision gw (mr_token minted) 1000;
          bogus ← provision gw "bogus" 1000;
          mret (on_some doc (fun doc =>
                  (hackamore_token doc =s mr_token minted)
                  && match pd_services doc with
                     | [s] => (ps_target s =s "github") && (ps_flavor s =s "github")
                              && (ps_address s =s "https://gh.hackamore.local")
                              && match ps_mode s with Inject => true | Models.Passthrough => false end
                     | _ => false
                     end)
                && is_none bogus)) test_control.

Definition action_policy (ts : list string) (action : string) : Policy :=
  mkPolicy [mkRule Allow (mkMatch ts [Verb_action action] [] [])].

Definition catalog_validates_named_actions_at_mint : bool :=
  let gw := with_catalogs (Gateway_new two_service_router)
    {["github" := Catalog_of ["repo:read"; "repo:write"]]} in
  passes (ok ← mint_checked gw (action_policy ["github"] "repo:read") 60 None 1000;
          bad ← mint_checked gw (action_policy ["github"] "repo:delete-universe") 60 None 1000;
          raw ← mint_checked gw (action_policy ["openai"] "anything:goes") 60 None 1000;
          mret (is_ok ok && negb (is_ok bad) && is_ok raw)) test_control.

Definition catalog_validates_empty_target_named_actions : bool :=
  let gw := with_catalogs (Gateway_new two_service_router) {["github" := Catalog_of ["repo:read"]]} in
  passes (known ← mint_checked gw (action_policy [] "repo:read") 60 None 1000;
          typo ← mint_checked gw (action_policy [] "repo:typo") 60 None 1000;
          mret (is_ok known && negb (is_ok typo))) test_control.

Definition mint_is_open_when_no_tenants_configured : bool :=
  let gw := Gateway_new github_router in
  passes (r ← mint_checked gw allow_all 60 None 1000; mret (is_ok r)) test_control.

(** [control.tenants.insert]. *)
Definition with_tenant (key : string) (ts : list string) (w : Plane) : Plane :=
  let cp := w_control w in
  mkWorld (mkControlPlane (cp_tokens cp) (tenants_insert key ts (cp_tenants cp)) (cp_credentials cp) (cp_audit cp))
    (w_uuids w).

Definition tenant_may_only_mint_owned_targets : bool :=
  let gw := Gateway_new two_service_router in
  passes (missing ← mint_checked gw (target_policy "github") 60 None 1000;
          owned ← mint_checked gw (target_policy "github") 60 (Some "t-a") 1000;
          unowned ← mint_checked gw (target_policy "openai") 60 (Some "t-a") 1000;
          wildcard ← mint_checked gw allow_all 60 (Some "t-a") 1000;
          unknown ← mint_checked gw (target_policy "github") 60 (Some "ghost") 1000;
          mret (negb (is_ok missing) && is_ok owned && negb (is_ok unowned) && negb (is_ok wildcard)
                && negb (is_ok unknown)))
    (with_tenant "t-a" ["github"] test_control).

Definition provision_empty_targets_lists_all_services : bool :=
  let gw := Gateway_new two_service_router in
  passes (minted ← mint allow_all 60 1000;
          doc ← provision gw (mr_token minted) 1000;
          mret (on_some doc (fun doc =>
            (length (pd_services doc) =? 2)%nat
            && on_some (List.find (fun s => ps_target s =s "openai") (pd_services doc)) (fun s =>
                 match ps_mode s with Models.Passthrough => true | Inject => false end)))) test_control.

Definition extract_auth_prefers_hackamore_header_then_authorization : bool :=
  let h := set_header hm_empty "authorization" "token abc" in
  let h2 := set_header h "authorization" "Bearer xyz" in
  let h3 := set_header h2 HACKAMORE_TOKEN_HEADER "tok-123" in
  (extract_auth h ≟ Some ("abc", Authorization)) && (extract_auth h2 ≟ Some ("xyz", Authorization))
  && (extract_auth h3 ≟ Some ("tok-123", HackamoreHeader)).

Definition core_tests : list bool :=
  [missing_token_is_unauthorized; unknown_token_is_unauthorized; allowed_request_injects_targets_credential;
   passthrough_with_token_in_authorization_forwards_no_credential; passthrough_preserves_consumers_own_credential;
   inject_overrides_consumers_own_credential; header_mechanism_injects_custom_header;
   sigv4_mechanism_signs_outbound_request; sigv4_inbound_authenticates_then_resigns_with_real_credential;
   sigv4_inbound_bad_signature_is_unauthorized; expired_token_is_unauthorized;
   denied_request_is_forbidden_and_audited; provision_lists_only_granted_services;
   catalog_validates_named_actions_at_mint; catalog_validates_empty_target_named_actions;
   mint_is_open_when_no_tenants_configured; tenant_may_only_mint_owned_targets;
   provision_empty_targets_lists_all_services; extract_auth_prefers_hackamore_header_then_authorization].

Lemma core_tests_pass : forallb id core_tests = true.
Proof. hk_vm. Qed.
