(* ===== verification/Concurrency.v ===== *)
(** The gateway's handlers at the grain of their critical sections. Here every
    acquisition of a lock of the control plane, every UUID drawn and every
    audit record is one instruction, a handler is a program of such
    instructions, and the server is a pool of programs whose instructions
    interleave in any order with each other and with the refreshes of the
    credential store. [run_code] shows that a program run alone is the
    handler of [Gateway]; the other theorems say what survives interleaving. *)

From stdpp Require Import relations.
From S2P Require Import Prelude RustStr Canonicalize Datetime External Reference Models Policy SigV4 Service Normalize Control Gateway.
From S2P Require Import Upgrade Server System.

(** ** Programs *)

Section Programs.
Context {J : JsonLib} {H : HttpLib} {R : RingLib} {U : UuidLib}.
Context {C A : Type} `{!CredentialStore C} `{!AuditSink A}.

(** One access to the shared state, with the type of its answer. *)
Inductive instr : Type -> Type :=
| IUuid : instr string
| IMint (u1 u2 : string) (policy : Policy) (ttl_seconds now : Z) : instr MintResponse
| IMintSigV4 (u0 u1 u2 : string) (policy : Policy) (ttl_seconds now : Z) : instr SigV4Mint
| IResolve (token : string) (now : Z) : instr (option (Policy * Z))
| IResolveSigV4 (access_key_id : string) (now : Z) : instr (option (Policy * string))
| IRevoke (token : string) : instr bool
| ISweep (now : Z) : instr nat
| ITenantsEmpty : instr bool
| ITenantsOwned (key : string) : instr (option (gset string))
| ICred (id : string) : instr (option Secret)
| IRecord (e : AuditEvent) : instr unit.

(** An access to the token table, under its lock. *)
Definition with_tokens {T} (f : Tokens -> T * Tokens) (w : World C A) : T * World C A :=
  let '(r, ts) := f (world_tokens w) in (r, mkWorld (set_tokens ts (w_control w)) (w_uuids w)).

Definition exec {T} (i : instr T) : World C A -> T * World C A :=
  match i with
  | IUuid => fun w => (uuid_simple (w_uuids w), mkWorld (w_control w) (S (w_uuids w)))
  | IMint u1 u2 policy ttl now => with_tokens (tokens_mint u1 u2 policy ttl now)
  | IMintSigV4 u0 u1 u2 policy ttl now => with_tokens (tokens_mint_sigv4 u0 u1 u2 policy ttl now)
  | IResolve token now => fun w => (tokens_resolve_full token now (world_tokens w), w)
  | IResolveSigV4 akid now => fun w => (tokens_resolve_sigv4 akid now (world_tokens w), w)
  | IRevoke token => with_tokens (tokens_revoke token)
  | ISweep now => with_tokens (tokens_sweep now)
  | ITenantsEmpty => fun w => (tenants_is_empty (cp_tenants (w_control w)), w)
  | ITenantsOwned key => fun w => (tenants_owned key (cp_tenants (w_control w)), w)
  | ICred id => fun w => (cred_resolve (cp_credentials (w_control w)) id, w)
  | IRecord e => fun w =>
      (tt, mkWorld (set_audit (audit_record e (cp_audit (w_control w))) (w_control w)) (w_uuids w))
  end.

Inductive prog (X : Type) : Type :=
| Ret (x : X)
| Crash
| Vis {T : Type} (i : instr T) (k : T -> prog X).
#[global] Arguments Ret {X} x.
#[global] Arguments Crash {X}.
#[global] Arguments Vis {X T} i k.

Fixpoint prog_bind_go {X Y} (f : X -> prog Y) (m : prog X) : prog Y :=
  match m with
  | Ret x => f x
  | Crash => Crash
  | Vis i k => Vis i (fun t => prog_bind_go f (k t))
  end.

#[export] Instance prog_ret : MRet prog := fun X x => Ret x.
#[export] Instance prog_bind : MBind prog := fun X Y f m => prog_bind_go f m.

Definition call {T} (i : instr T) : prog T := Vis i Ret.
Definition prog_lift {X} (c : comp X) : prog X := match c with Done x => Ret x | Panic => Crash end.

(** A program run alone. *)
Fixpoint run {X} (p : prog X) : eff (World C A) X := fun w =>
  match p with
  | Ret x => (Done x, w)
  | Crash => (Panic, w)
  | Vis i k => let '(t, w') := exec i w in run (k t) w'
  end.

Lemma run_bind {X Y} (m : prog X) (f : X -> prog Y) w : run (m ≫= f) w = (run m ≫= (fun x => run (f x))) w.
Proof.
  revert w. induction m as [x| |T i k IH]; intros w; [done..|].
  change (run (Vis i k ≫= f) w) with (let '(t, w') := exec i w in run (k t ≫= f) w').
  rewrite eff_bind_unfold. cbn [run]. destruct (exec i w) as [t w']. apply IH.
Qed.

(** ** The handlers as programs

    Line for line the definitions of [Gateway], with each access to the
    shared state an instruction of its own. *)

Definition mint_code (policy : Policy) (ttl_seconds now : Z) : prog MintResponse :=
  u1 ← call IUuid; u2 ← call IUuid; call (IMint u1 u2 policy ttl_seconds now).

(** [is_empty] and [owned] take the lock of the tenants one after the other. *)
Definition authorize_mint_code (policy : Policy) (tenant : option string) : prog (result unit MintError) :=
  e ← call ITenantsEmpty;
  if (e : bool) then mret (Ok tt)
  else match tenant with
       | None => mret (Err MissingTenant)
       | Some key =>
           o ← call (ITenantsOwned key);
           match o with
           | None => mret (Err UnknownTenant)
           | Some owned => mret (validate_tenant_policy policy owned)
           end
       end.

Definition mint_checked_code (g : Gateway) (policy : Policy) (ttl_seconds : Z) (tenant : option string) (now : Z)
    : prog (result MintResponse MintError) :=
  a ← authorize_mint_code policy tenant;
  match a with
  | Err e => mret (Err e)
  | Ok _ =>
      match validate_catalog g policy with
      | Err e => mret (Err e)
      | Ok _ => r ← mint_code policy ttl_seconds now; mret (Ok r)
      end
  end.

Definition mint_service_auth_code (service : Service) (token : string) (policy : Policy) (now ttl_remaining : Z)
    : prog (ProvisionMode * ProvisionAuth) :=
  match svc_outbound service with
  | SigV4 _ _ region _ =>
      u0 ← call IUuid; u1 ← call IUuid; u2 ← call IUuid;
      dummy ← call (IMintSigV4 u0 u1 u2 policy ttl_remaining now);
      mret (Inject, SigV4Auth (sm_access_key_id dummy) (sm_secret_access_key dummy) region)
  | Service.Passthrough => mret (Models.Passthrough, BearerAuth token)
  | Bearer _ | Header _ _ => mret (Inject, BearerAuth token)
  end.

Fixpoint provision_services_code (services : list Service) (token : string) (policy : Policy)
    (now ttl_remaining : Z) : prog (list ProvisionService) :=
  match services with
  | [] => mret []
  | s :: ss =>
      if negb (provisioned policy s) then provision_services_code ss token policy now ttl_remaining
      else
        ma ← mint_service_auth_code s token policy now ttl_remaining;
        rest ← provision_services_code ss token policy now ttl_remaining;
        mret (mkProvisionService (svc_name s) (Flavor_name (svc_flavor s)) (svc_address s) ma.1 ma.2 :: rest)
  end.

Definition provision_code (g : Gateway) (token : string) (now : Z) : prog (option ProvisionDoc) :=
  r ← call (IResolve token now);
  match r with
  | None => mret None
  | Some (policy, expires_at_ms) =>
      svcs ← provision_services_code (services (router g)) token policy now (ttl_remaining now expires_at_ms);
      mret (Some (mkProvisionDoc token (hackamore_ca_pem g) expires_at_ms svcs))
  end.

Definition authenticate_sigv4_code (req : ProxyRequest) (auth : string) (now : Z)
    : prog (result (Policy * AuthSource) Outcome) :=
  match parse_authorization auth with
  | None => mret (Err unauth)
  | Some parsed =>
      r ← call (IResolveSigV4 (p_access_key_id parsed) now);
      match r with
      | None => mret (Err unauth)
      | Some (policy, secret) =>
          v ← prog_lift (verify secret parsed (rq_method req) (rq_path req) (rq_query req)
                           (rq_headers req) (rq_body req) now);
          match v with
          | Ok _ => mret (Ok (policy, SigV4Source))
          | Err _ => mret (Err unauth)
          end
      end
  end.

Definition authenticate_bearer_code (req : ProxyRequest) (now : Z)
    : prog (result (Policy * AuthSource) Outcome) :=
  match extract_auth (rq_headers req) with
  | None => mret (Err (reject UNAUTHORIZED Unauthenticated "missing hackamore token"))
  | Some (token, source) =>
      r ← call (IResolve token now);
      match r with
      | Some (policy, _) => mret (Ok (policy, source))
      | None => mret (Err (reject UNAUTHORIZED Unauthenticated "unknown or expired hackamore token"))
      end
  end.

Definition authenticate_code (req : ProxyRequest) (now : Z) : prog (result (Policy * AuthSource) Outcome) :=
  match header_str (rq_headers req) "authorization" with
  | Some auth => if starts_with "AWS4-HMAC-SHA256" auth then authenticate_sigv4_code req auth now
                 else authenticate_bearer_code req now
  | None => authenticate_bearer_code req now
  end.

Definition audit_code (action : Action) (decision : Decision) (detail : string) (now : Z) : prog unit :=
  call (IRecord (mkAuditEvent now action decision detail)).

Definition resolve_header_value_code (action : Action) (credential prefix : string) (now : Z)
    : prog (result HeaderValue Outcome) :=
  c ← call (ICred credential);
  match c with
  | None =>
      audit_code action DecisionDeny (not_configured credential) now;;
      mret (Err (reject BAD_GATEWAY NotAllowed "required credential is not configured"))
  | Some secret =>
      match hv_from_str (prefix +:+ expose secret) with
      | Some v => mret (Ok v)
      | None =>
          audit_code action DecisionDeny "credential not header-safe" now;;
          mret (Err (reject BAD_GATEWAY NotAllowed "credential is not header-safe"))
      end
  end.

Definition apply_outbound_code (service : Service) (action : Action) (req : ProxyRequest)
    (headers : HeaderMap) (now : Z) : prog (result (HeaderMap * string) Outcome) :=
  match svc_outbound service with
  | Service.Passthrough => mret (Ok (headers, "allowed (passthrough)"))
  | Bearer credential =>
      r ← resolve_header_value_code action credential "Bearer " now;
      match r with
      | Err outcome => mret (Err outcome)
      | Ok v => mret (Ok (hm_insert headers "authorization" v,
                          "allowed; injected bearer [" +:+ credential +:+ "]"))
      end
  | Header name credential =>
      match hn_from_bytes name with
      | None =>
          audit_code action DecisionDeny "invalid header name" now;;
          mret (Err (reject BAD_GATEWAY NotAllowed "configured header name is invalid"))
      | Some header_name =>
          r ← resolve_header_value_code action credential "" now;
          match r with
          | Err outcome => mret (Err outcome)
          | Ok v => mret (Ok (hm_insert headers header_name v,
                              "allowed; injected header " +:+ name +:+ " [" +:+ credential +:+ "]"))
          end
      end
  | SigV4 credential access_key_id region aws_service =>
      c ← call (ICred credential);
      match c with
      | None =>
          audit_code action DecisionDeny (not_configured credential) now;;
          mret (Err (reject BAD_GATEWAY NotAllowed "required credential is not configured"))
      | Some secret =>
          let host := host_of (svc_upstream_base service) in
          signed ← prog_lift (sign (mkCreds access_key_id (expose secret)) region aws_service
                                (rq_method req) host (rq_path req) (rq_query req) (rq_body req) now);
          let headers := set_header headers "authorization" (authorization signed) in
          let headers := set_header headers "x-amz-date" (amz_date signed) in
          let headers := set_header headers "x-amz-content-sha256" (content_sha256 signed) in
          mret (Ok (headers, "allowed; sigv4 re-signed [" +:+ credential +:+ "]"))
      end
  end.

Definition plan_forward_code (service : Service) (action : Action) (req : ProxyRequest) (source : AuthSource)
    (now : Z) : prog Outcome :=
  r ← apply_outbound_code service action req (sanitize_headers (rq_headers req) source) now;
  match r with
  | Err outcome => mret outcome
  | Ok (headers, detail) =>
      audit_code action DecisionAllow detail now;;
      mret (Forward (mkForwardPlan
        (upstream_url (svc_upstream_base service) (rq_path req) (rq_query req))
        (rq_method req) headers (rq_body req)))
  end.

Definition authorize_code (g : Gateway) (req : ProxyRequest) (policy : Policy) (source : AuthSource) (now : Z)
    : prog Outcome :=
  let host := match extract_host (rq_headers req) with Some h => h | None => "" end in
  match route (router g) host with
  | None =>
      audit_code (unrouted host) DecisionDeny "no service for host" now;;
      mret (reject NOT_FOUND UnknownTarget "no service configured for this host")
  | Some service =>
      c ← prog_lift (Canonicalize.path (rq_path req));
      match c with
      | Err _ =>
          audit_code (unrouted host) DecisionDeny "non-canonical path" now;;
          mret (reject BAD_REQUEST NotAllowed "non-canonical request path")
      | Ok canonical =>
          action ← prog_lift (normalize service req (decoded canonical));
          match decide action policy with
          | VDeny reason =>
              audit_code action DecisionDeny (show_DenyReason reason) now;;
              mret (reject FORBIDDEN reason "denied by policy")
          | VAllow _ => plan_forward_code service action (set_path req (encoded canonical)) source now
          end
      end
  end.

Definition handle_code (g : Gateway) (req : ProxyRequest) (now : Z) : prog Outcome :=
  a ← authenticate_code req now;
  match a with
  | Err outcome => mret outcome
  | Ok (policy, source) => authorize_code g req policy source now
  end.

(** ** The calls a server makes *)

Inductive request :=
| Handle (req : ProxyRequest) (now : Z)
| Mint (policy : Policy) (ttl_seconds : Z) (tenant : option string) (now : Z)
| Revoke (token : string)
| Sweep (now : Z)
| Provision (token : string) (now : Z).

Inductive reply :=
| Handled (o : Outcome)
| Minted (r : result MintResponse MintError)
| Revoked (b : bool)
| Swept (n : nat)
| Provisioned (d : option ProvisionDoc).

(** The clock and the lifetime are [u64] in the code. *)
Definition typed (c : request) : Prop :=
  match c with
  | Handle _ now | Sweep now | Provision _ now => is_u64 now
  | Mint _ ttl_seconds _ now => is_u64 ttl_seconds /\ is_u64 now
  | Revoke _ => True
  end.

#[export] Instance typed_dec c : base.Decision (typed c).
Proof. destruct c; cbn; unfold is_u64; apply _. Defined.

Definition code (g : Gateway) (c : request) : prog reply :=
  match c with
  | Handle req now => o ← handle_code g req now; mret (Handled o)
  | Mint policy ttl tenant now => r ← mint_checked_code g policy ttl tenant now; mret (Minted r)
  | Revoke token => b ← call (IRevoke token); mret (Revoked b)
  | Sweep now => n ← call (ISweep now); mret (Swept n)
  | Provision token now => d ← provision_code g token now; mret (Provisioned d)
  end.

(** The same calls, each handler of [Gateway] in one step. *)
Definition sequential (g : Gateway) (c : request) : eff (World C A) reply :=
  match c with
  | Handle req now => o ← handle g req now; mret (Handled o)
  | Mint policy ttl tenant now => r ← mint_checked g policy ttl tenant now; mret (Minted r)
  | Revoke token => b ← revoke token; mret (Revoked b)
  | Sweep now => n ← sweep_expired now; mret (Swept n)
  | Provision token now => d ← provision g token now; mret (Provisioned d)
  end.

(** ** A program run alone is its handler *)

Lemma run_ret {X} (x : X) (w : World C A) : run (Ret x) w = (Done x, w).
Proof. done. Qed.

Lemma run_lift {X} (c : comp X) (w : World C A) : run (prog_lift c) w = eff_lift c w.
Proof. by destruct c. Qed.

(** One bind on each side, the same program in front of both. *)
Lemma run_bind_cong {X Y} (m : prog X) (f : X -> prog Y) (m' : eff (World C A) X) (f' : X -> eff (World C A) Y) w :
  run m w = m' w -> (forall x v, run (f x) v = f' x v) -> run (m ≫= f) w = (m' ≫= f') w.
Proof. intros Hm Hf. rewrite run_bind, !eff_bind_unfold, Hm. by destruct (m' w) as [[x|] v]. Qed.

Ltac run_cong :=
  intros;
  repeat first
    [ done
    | apply run_lift
    | apply run_bind_cong; [|intros]
    | match goal with
      | |- context [match ?x with _ => _ end] => is_var x; destruct x
      | |- run (match ?x with _ => _ end) _ = _ => destruct x eqn:?
      end ].

Lemma run_mint_checked g policy ttl tenant now (w : World C A) :
  run (mint_checked_code g policy ttl tenant now) w = mint_checked g policy ttl tenant now w.
Proof.
  unfold mint_checked_code, mint_checked. rewrite run_bind, !eff_bind_unfold. cbn [get_control].
  replace (run (authorize_mint_code policy tenant) w)
    with (Done (authorize_mint (cp_tenants (w_control w)) policy tenant), w).
  - run_cong.
  - unfold authorize_mint_code, authorize_mint. cbn. destruct (tenants_is_empty _); [done|].
    destruct tenant as [key|]; [|done]. cbn. by destruct (tenants_owned _ _).
Qed.

Lemma run_provision_services ss token policy now ttl (w : World C A) :
  run (provision_services_code ss token policy now ttl) w = provision_services ss token policy now ttl w.
Proof.
  revert w. induction ss as [|s ss IH]; intros w; [done|]. cbn [provision_services_code provision_services].
  destruct (negb (provisioned policy s)); [apply IH|]. apply run_bind_cong.
  - unfold mint_service_auth_code, mint_service_auth. destruct (svc_outbound s); done.
  - intros ma v. apply run_bind_cong; [apply IH|done].
Qed.

Lemma run_provision g token now (w : World C A) :
  run (provision_code g token now) w = provision g token now w.
Proof.
  unfold provision_code, provision. rewrite run_bind, !eff_bind_unfold. cbn [get_control].
  cbn [run call exec]. unfold world_tokens.
  destruct (tokens_resolve_full token now (cp_tokens (w_control w))) as [[policy t]|]; [|done].
  apply run_bind_cong; [apply run_provision_services|done].
Qed.

Lemma run_authenticate req now (w : World C A) : run (authenticate_code req now) w = authenticate req now w.
Proof.
  assert (Hb : run (authenticate_bearer_code req now) w = authenticate_bearer req now w).
  { unfold authenticate_bearer_code, authenticate_bearer. destruct (extract_auth _) as [[token source]|]; [|done].
    rewrite run_bind, !eff_bind_unfold. cbn [get_control run call exec]. unfold tokens_resolve, world_tokens.
    by destruct (tokens_resolve_full token now (cp_tokens (w_control w))) as [[policy t]|]. }
  unfold authenticate_code, authenticate. destruct (header_str _ _) as [auth|]; [|done].
  destruct (starts_with _ auth); [|done]. unfold authenticate_sigv4_code, authenticate_sigv4.
  destruct (parse_authorization auth) as [parsed|]; [|done].
  rewrite run_bind, !eff_bind_unfold. cbn [get_control run call exec]. unfold world_tokens.
  destruct (tokens_resolve_sigv4 _ _ _) as [[policy secret]|]; [|done]. run_cong.
Qed.

Lemma run_resolve_header_value a c prefix now (w : World C A) :
  run (resolve_header_value_code a c prefix now) w = resolve_header_value a c prefix now w.
Proof.
  unfold resolve_header_value_code, resolve_header_value. rewrite run_bind, !eff_bind_unfold.
  cbn [get_control run call exec]. destruct (cred_resolve _ c) as [secret|]; [|done].
  by destruct (hv_from_str _).
Qed.

Lemma run_apply_outbound s a req hs now (w : World C A) :
  run (apply_outbound_code s a req hs now) w = apply_outbound s a req hs now w.
Proof.
  unfold apply_outbound_code, apply_outbound. destruct (svc_outbound s) as [|c|name c|c akid region aws].
  - done.
  - apply run_bind_cong; [apply run_resolve_header_value|]. by intros [].
  - destruct (hn_from_bytes name); [|done]. apply run_bind_cong; [apply run_resolve_header_value|]. by intros [].
  - rewrite run_bind, !eff_bind_unfold. cbn [get_control run call exec].
    destruct (cred_resolve _ c) as [secret|]; [|done]. apply run_bind_cong; [apply run_lift|done].
Qed.

Lemma run_handle g req now (w : World C A) : run (handle_code g req now) w = handle g req now w.
Proof.
  apply run_bind_cong; [apply run_authenticate|]. intros [[policy source]|o] v; [|done].
  unfold authorize_code, authorize. cbn zeta. destruct (route _ _) as [s|]; [|done].
  apply run_bind_cong; [apply run_lift|]. intros [c|e] v1; [|done].
  apply run_bind_cong; [apply run_lift|]. intros a v2. destruct (decide a policy); [|done].
  apply run_bind_cong; [apply run_apply_outbound|]. by intros [[hs d]|o] v3.
Qed.

Lemma run_code g c (w : World C A) : run (code g c) w = sequential g c w.
Proof.
  destruct c; apply run_bind_cong; try done.
  - apply run_handle.
  - apply run_mint_checked.
  - apply run_provision.
Qed.
End Programs.

(** ** The pool *)

Section Pool.
Context {J : JsonLib} {H : HttpLib} {R : RingLib} {U : UuidLib}.
Context {C A : Type} `{!CredentialStore C} `{!AuditSink A}.

(** The audit events an instruction records. *)
Definition emits {T} (i : instr T) : list AuditEvent :=
  match i with IRecord e => [e] | _ => [] end.

(** A request in progress: what is left of its program, and (ghost) the
    events it has recorded. *)
Record thread := mkThread {
  th_request : request;
  th_code : prog reply;
  th_events : list AuditEvent;
}.

(** The next instruction of a thread; [None] when it has answered or
    panicked. *)
Definition thread_step (t : thread) (w : World C A) : option (thread * World C A) :=
  match th_code t with
  | Ret _ | Crash => None
  | Vis i k => let '(x, w') := exec i w in
               Some (mkThread (th_request t) (k x) (th_events t ++ emits i), w')
  end.

Record pool := mkPool {
  po_world : World C A;
  po_threads : list thread;
}.

(** A request arrives, with the reading of the clock its handler takes; a
    thread takes its next instruction; a refresh replaces the secrets. *)
Inductive pool_step (g : Gateway) : pool -> pool -> Prop :=
| pool_arrive w ts c : typed c -> pool_step g (mkPool w ts) (mkPool w (ts ++ [mkThread c (code g c) []]))
| pool_thread w ts i t t' w' :
    ts !! i = Some t -> thread_step t w = Some (t', w') -> pool_step g (mkPool w ts) (mkPool w' (<[i := t']> ts))
| pool_rotate w ts c : pool_step g (mkPool w ts) (mkPool (set_credentials c w) ts).

(** The same steps as a function of what the scheduler picks; a pick that is
    not possible leaves the pool as it is. *)
Inductive pick : Type :=
| Arrive (c : request)
| Advance (i : nat)
| Refresh (c : C).

Definition act (g : Gateway) (s : pool) (a : pick) : pool :=
  match a with
  | Arrive c => if base.decide (typed c) then mkPool (po_world s) (po_threads s ++ [mkThread c (code g c) []]) else s
  | Advance i =>
      match po_threads s !! i ≫= (fun t => thread_step t (po_world s)) with
      | Some (t', w') => mkPool w' (<[i := t']> (po_threads s))
      | None => s
      end
  | Refresh c => mkPool (set_credentials c (po_world s)) (po_threads s)
  end.

Definition schedule (g : Gateway) (s : pool) (picks : list pick) : pool := fold_left (act g) picks s.

Lemma act_step g s a : act g s a = s \/ pool_step g s (act g s a).
Proof.
  destruct s as [w ts], a as [c|i|c]; cbn [act po_world po_threads]; [| |right; constructor].
  { destruct (base.decide (typed c)); [right; by constructor|by left]. }
  destruct (ts !! i) as [t|] eqn:Et; [|by left]. cbn [mbind option_bind].
  destruct (thread_step t w) as [[t' w']|] eqn:Es; [|by left]. right. by econstructor.
Qed.

Lemma step_act g s s' : pool_step g s s' -> exists a, act g s a = s'.
Proof.
  intros Hst. destruct Hst as [w ts c Hty|w ts i t t' w' Hi Hs|w ts c].
  - exists (Arrive c). cbn. by rewrite decide_True.
  - exists (Advance i). cbn [act po_world po_threads]. rewrite Hi. cbn [mbind option_bind]. by rewrite Hs.
  - by exists (Refresh c).
Qed.

(** The runs are exactly the schedules. *)
Lemma schedule_runs g s s' : rtc (pool_step g) s s' <-> exists picks, schedule g s picks = s'.
Proof.
  split.
  - induction 1 as [s|s1 s2 s3 H1 _ [picks <-]]; [by exists []|].
    apply step_act in H1 as [a <-]. by exists (a :: picks).
  - intros [picks <-]. revert s. induction picks as [|a picks IH]; intros s; cbn; [done|].
    destruct (act_step g s a) as [->|Hs]; [apply IH|]. eapply rtc_l; [exact Hs|apply IH].
Qed.

(** Nothing has arrived yet. *)
Definition pool_initial (s : pool) : Prop := po_threads s = [].

(** Thread [i] of the pool serves [c]. *)
Definition serves (i : nat) (c : request) (s : pool) : Prop :=
  exists t, po_threads s !! i = Some t /\ th_request t = c.

Lemma pool_step_serves g i c s s' : pool_step g s s' -> serves i c s -> serves i c s'.
Proof.
  intros Hst (t & Ht & <-). unfold serves. destruct Hst as [w ts c' _|w ts j t0 t' w' Hj Hs|w ts c']; cbn in *.
  - exists t. by rewrite lookup_app_l by (by eapply lookup_lt_Some).
  - destruct (Nat.eq_dec i j) as [->|Hne].
    + rewrite Ht in Hj. injection Hj as <-. exists t'. rewrite list_lookup_insert_eq by (by eapply lookup_lt_Some).
      split; [done|]. unfold thread_step in Hs. destruct (th_code t); [done|done|].
      destruct (exec i w) as [x w1]. by injection Hs as <- _.
    + exists t. by rewrite list_lookup_insert_ne.
  - by exists t.
Qed.

(** ** A thread's own history *)

(** A program taken through instructions at the given worlds: what is left,
    and the events recorded. *)
Fixpoint along {X} (p : prog X) (ws : list (World C A)) {struct ws} : option (prog X * list AuditEvent) :=
  match ws with
  | [] => Some (p, [])
  | w :: ws' =>
      match p with
      | Ret _ | Crash => None
      | Vis i k => x ← along (k (exec i w).1) ws'; Some (x.1, emits i ++ x.2)
      end
  end.

Lemma along_app {X} (p : prog X) ws1 ws2 :
  along p (ws1 ++ ws2) =
  (x ← along p ws1; y ← along x.1 ws2; Some (y.1, x.2 ++ y.2)).
Proof.
  revert p. induction ws1 as [|w ws1 IH]; intros p; cbn.
  { by destruct (along p ws2) as [[]|]. }
  destruct p as [x| |T i k]; [done..|]. rewrite IH. destruct (along _ ws1) as [[q es1]|]; [|done]. cbn.
  destruct (along q ws2) as [[r es2]|]; [|done]. cbn. by rewrite app_assoc.
Qed.

(** The pools a run goes through at some moments, in order. *)
Fixpoint passes (g : Gateway) (s0 : pool) (ss : list pool) (s : pool) : Prop :=
  match ss with
  | [] => rtc (pool_step g) s0 s
  | x :: ss' => rtc (pool_step g) s0 x /\ passes g x ss' s
  end.

Lemma passes_r g s0 ss s s' : passes g s0 ss s -> rtc (pool_step g) s s' -> passes g s0 ss s'.
Proof.
  revert s0. induction ss as [|x ss IH]; intros s0; cbn.
  - intros H1 H2. by etransitivity.
  - intros [H1 H2] H3. eauto.
Qed.

Lemma passes_here g s0 ss s : passes g s0 ss s -> passes g s0 (ss ++ [s]) s.
Proof.
  revert s0. induction ss as [|x ss IH]; intros s0; cbn; [by split|]. intros [H1 H2]. eauto.
Qed.

(** Whatever the other threads did, a thread is its request's program taken
    through the worlds of some moments since the request arrived. *)
Definition history (g : Gateway) (s0 s : pool) (i : nat) (t : thread) (ss : list pool) : Prop :=
  passes g s0 ss s /\ Forall (serves i (th_request t)) ss /\
  along (code g (th_request t)) (map po_world ss) = Some (th_code t, th_events t).

Lemma thread_history g s0 s i t :
  po_threads s0 !! i = None -> rtc (pool_step g) s0 s -> po_threads s !! i = Some t ->
  exists ss, history g s0 s i t ss.
Proof.
  intros H0 Hr. revert t.
  refine (rtc_ind_r (fun s => forall t, po_threads s !! i = Some t -> exists ss, history g s0 s i t ss) s0 _ _ s Hr).
  { intros t Ht. by rewrite H0 in Ht. }
  clear s Hr. intros s s' Hr Hst IH t Ht.
  assert (Hkeep : forall t0, po_threads s !! i = Some t0 -> exists ss, history g s0 s' i t0 ss).
  { intros t0 [ss (Hp & Hs & Ha)]%IH. exists ss. split; [|done]. eapply passes_r; [done|by apply rtc_once]. }
  destruct Hst as [w ts c Hty|w ts j t0 t' w' Hj Hs|w ts c]; cbn [po_threads] in *.
  - apply lookup_app_Some in Ht as [Ht|[Hle Ht]]; [by apply Hkeep|].
    apply list_lookup_singleton_Some in Ht as [_ <-]. exists []. split; [|done].
    eapply passes_r with (ss := []); [exact Hr|]. apply rtc_once. by constructor.
  - destruct (Nat.eq_dec i j) as [->|Hne].
    2:{ rewrite list_lookup_insert_ne in Ht by done. by apply Hkeep. }
    rewrite list_lookup_insert_eq in Ht by (by eapply lookup_lt_Some). injection Ht as ->.
    destruct (IH t0 Hj) as (ss & Hp & Hf & Ha). exists (ss ++ [mkPool w ts]).
    unfold thread_step in Hs. destruct (th_code t0) as [x| |T i k] eqn:Ec; [done..|].
    destruct (exec i w) as [x w1] eqn:Ex. injection Hs as <- <-. split_and!; cbn [th_request th_code th_events].
    + eapply passes_r; [by apply passes_here|]. apply rtc_once. econstructor; [done|].
      unfold thread_step. by rewrite Ec, Ex.
    + apply Forall_app. split; [done|]. repeat constructor. by exists t0.
    + rewrite map_app, along_app, Ha. cbn. rewrite Ex. cbn. by rewrite app_nil_r.
  - by apply Hkeep.
Qed.
End Pool.

(** ** The request path under interleaving *)

Section Linearise.
Context {J : JsonLib} {H : HttpLib} {R : RingLib} {U : UuidLib}.
Context {C A : Type} `{!CredentialStore C} `{!AuditSink A}.

(** The protocol of the request path: at level 2 a program may still resolve
    a token, at level 1 it may still read the vault, at level 0 only record. *)
Definition allowed {T} (n : nat) (i : instr T) : Prop :=
  match i with
  | IResolve _ _ | IResolveSigV4 _ _ => n = 2%nat
  | ICred _ => (1 <= n)%nat
  | IRecord _ => True
  | _ => False
  end.

Definition level_after {T} (i : instr T) : nat :=
  match i with IResolve _ _ | IResolveSigV4 _ _ => 1 | _ => 0 end.

Fixpoint follows {X} (n : nat) (p : prog X) : Prop :=
  match p with
  | Ret _ | Crash => True
  | Vis i k => allowed n i /\ forall x, follows (level_after i) (k x)
  end.

Lemma follows_lift {X Y} n (c : comp X) (f : X -> prog Y) :
  (forall x, follows n (f x)) -> follows n (prog_lift c ≫= f).
Proof. intros Hf. destruct c; [apply Hf|done]. Qed.

Lemma follows_authorize g req policy src now : follows 1 (authorize_code g req policy src now).
Proof.
  unfold authorize_code. cbn zeta. destruct (route _ _) as [s|]; [|done].
  apply follows_lift. intros [c|e]; [|done]. apply follows_lift. intros a. destruct (decide a policy); [|done].
  unfold plan_forward_code, apply_outbound_code. destruct (svc_outbound s) as [|c1|name c1|c1 akid region aws].
  - done.
  - unfold mbind at 1. cbn. split; [lia|]. intros [secret|]; [|done]. cbn.
    by destruct (hv_from_str ("Bearer " +:+ expose secret)).
  - destruct (hn_from_bytes name); [|done]. cbn. split; [lia|]. intros [secret|]; [|done]. cbn.
    by destruct (hv_from_str _).
  - cbn. split; [lia|]. intros [secret|]; [|done]. match goal with |- context [prog_lift ?c] => by destruct c end.
Qed.

Lemma follows_handle g req now : follows 2 (code g (Handle req now)).
Proof.
  assert (Hk : forall r, follows 1 (match r with Err o => mret o | Ok (p, src) => authorize_code g req p src now end
    ≫= fun o => mret (Handled o))).
  { intros [[policy src]|o]; [|done]. pose proof (follows_authorize g req policy src now) as Hf. revert Hf.
    generalize 1%nat (authorize_code g req policy src now). intros n p. revert n.
    induction p as [x| |T i k IH]; intros n; [done..|]. intros [Hi Hf]. split; [done|]. intros x. apply IH, Hf. }
  unfold code, handle_code, authenticate_code, authenticate_bearer_code, authenticate_sigv4_code.
  assert (Hb : follows 2 (o ← (a ← authenticate_bearer_code req now;
      match a with Err o => mret o | Ok (p, src) => authorize_code g req p src now end); mret (Handled o))).
  { unfold authenticate_bearer_code. destruct (extract_auth (rq_headers req)) as [[token source]|]; [|done].
    split; [done|]. intros [[policy t]|]; [exact (Hk (Ok (policy, source)))|done]. }
  destruct (header_str (rq_headers req) "authorization") as [auth|]; [|exact Hb].
  destruct (starts_with _ auth); [|exact Hb]. destruct (parse_authorization auth) as [parsed|]; [|done].
  split; [done|]. intros [[policy secret]|]; [|done]. cbn -[verify].
  match goal with |- context [prog_lift ?c] => destruct c as [[[]|e]|] end; [|done..].
  exact (Hk (Ok (policy, SigV4Source))).
Qed.

(** The instruction answers at [w] as it does at [wm]. *)
Definition answers {T} (wm w : World C A) (i : instr T) : Prop :=
  match i with
  | IResolve _ _ | IResolveSigV4 _ _ => world_tokens w = world_tokens wm
  | ICred _ => cp_credentials (w_control w) = cp_credentials (w_control wm)
  | IRecord _ => True
  | _ => False
  end.

Fixpoint consistent {X} (wm : World C A) (p : prog X) (ws : list (World C A)) {struct ws} : Prop :=
  match ws, p with
  | w :: ws', Vis i k => answers wm w i /\ consistent wm (k (exec i w).1) ws'
  | _, _ => True
  end.

Lemma answers_exec {T} (wm w : World C A) es (i : instr T) :
  answers wm w i -> exec i (recorded es wm) = ((exec i w).1, recorded (es ++ emits i) wm).
Proof.
  destruct i; cbn; try done; try rewrite app_nil_r; intros E.
  - unfold world_tokens in *. cbn. by rewrite E.
  - unfold world_tokens in *. cbn. by rewrite E.
  - by rewrite E.
  - unfold recorded. cbn. by rewrite fold_left_app.
Qed.

Lemma consistent_run {X} wm ws (p : prog X) x es es0 :
  consistent wm p ws -> along p ws = Some (Ret x, es) ->
  run p (recorded es0 wm) = (Done x, recorded (es0 ++ es) wm).
Proof.
  revert p es es0. induction ws as [|w ws IH]; intros p es es0; cbn [along consistent].
  { intros _ [= -> <-]. by rewrite app_nil_r. }
  destruct p as [y| |T i k]; [done..|]. intros [Hi Hc].
  destruct (along (k (exec i w).1) ws) as [[q es1]|] eqn:E; [|done]. intros [= -> <-].
  cbn [run]. rewrite (answers_exec _ _ _ _ Hi), app_assoc. by eapply IH.
Qed.

Lemma follows_consistent_0 {X} wm ws (p : prog X) : follows 0 p -> consistent wm p ws.
Proof.
  revert p. induction ws as [|w ws IH]; intros [x| |T i k]; try done.
  intros [Hi Hf]. split; [destruct i; cbn in *; done || lia|]. apply IH. destruct i; apply Hf || (cbn in *; lia).
Qed.

Lemma follows_consistent_1 {X} wm ws (p : prog X) :
  follows 1 p -> cp_credentials (w_control (hd wm ws)) = cp_credentials (w_control wm) -> consistent wm p ws.
Proof.
  destruct ws as [|w ws], p as [x| |T i k]; try done. cbn [hd]. intros [Hi Hf] E. split.
  - destruct i; cbn in *; done || lia.
  - apply follows_consistent_0. destruct i; apply Hf || (cbn in *; done || lia).
Qed.

(** The tokens of one world and the credentials of another. *)
Definition mixed (wa wc : World C A) : World C A := set_credentials (cp_credentials (w_control wc)) wa.

Lemma follows_linear {X} d ws (p : prog X) x es :
  follows 2 p -> along p ws = Some (Ret x, es) ->
  let wa := hd d ws in
  exists wc, (wc = wa \/ exists ws', ws = wa :: wc :: ws') /\ run p (mixed wa wc) = (Done x, recorded es (mixed wa wc)).
Proof.
  intros Hf Ha. cbn zeta.
  assert (Hrun : forall wm, consistent wm p ws -> run p wm = (Done x, recorded es wm)).
  { intros wm Hc. pose proof (consistent_run wm ws p x es [] Hc Ha) as E. by rewrite recorded_nil in E. }
  destruct ws as [|w ws]; [exists d; split; [by left|by apply Hrun]|].
  destruct p as [y| |T i k]; [done..|]. destruct Hf as [Hi Hf]. cbn [hd].
  destruct (Nat.eq_dec (level_after i) 1) as [E|E].
  - exists (hd w ws). split; [destruct ws as [|w2 ws]; [by left|right; by eexists]|].
    apply Hrun. split; [destruct i; cbn in *; done|]. rewrite E in Hf.
    apply follows_consistent_1; [done|]. by destruct ws.
  - exists w. split; [by left|]. apply Hrun. split; [destruct i; cbn in *; done|].
    apply follows_consistent_0. replace 0%nat with (level_after i); [apply Hf|]. by destruct i.
Qed.

Lemma passes_rtc g s0 ss s : passes g s0 ss s -> rtc (pool_step g) s0 s.
Proof.
  revert s0. induction ss as [|x ss IH]; intros s0; cbn; [done|]. intros [Ha Hb]. etransitivity; eauto.
Qed.

Lemma pool_moments g s0 s i t ss :
  history g s0 s i t ss -> serves i (th_request t) s ->
  forall d wc, d = po_world s -> (wc = hd d (map po_world ss) \/ exists ws', map po_world ss = hd d (map po_world ss) :: wc :: ws') ->
  exists sa sc, rtc (pool_step g) s0 sa /\ rtc (pool_step g) sa sc /\ rtc (pool_step g) sc s /\
    serves i (th_request t) sa /\ po_world sa = hd d (map po_world ss) /\ po_world sc = wc.
Proof.
  intros (Hp & Hs & _) Hi d wc -> Hwc. destruct ss as [|sa ss]; cbn [map hd] in *.
  { exists s, s. split_and!; [done..| |done|]; [exact Hi|]. destruct Hwc as [->|[? [=]]]. done. }
  apply Forall_cons in Hs as [Hs _]. destruct Hp as [H1 H2].
  destruct Hwc as [->|[ws' E]]; [exists sa, sa; split_and!; try done; by eapply passes_rtc|].
  destruct ss as [|sc ss]; [done|]. injection E as Ewc _. destruct H2 as [H2 H3].
  exists sa, sc. split_and!; try done. by eapply passes_rtc.
Qed.

Lemma handle_linearises g (s0 s : pool) i req now o es :
  po_threads s0 !! i = None -> rtc (pool_step g) s0 s ->
  po_threads s !! i = Some (mkThread (Handle req now) (Ret (Handled o)) es) ->
  exists sa sc, rtc (pool_step g) s0 sa /\ rtc (pool_step g) sa sc /\ rtc (pool_step g) sc s /\
    serves i (Handle req now) sa /\
    handle g req now (mixed (po_world sa) (po_world sc)) =
      (Done o, recorded es (mixed (po_world sa) (po_world sc))).
Proof.
  intros H0 Hr Hi. destruct (thread_history g s0 s i _ H0 Hr Hi) as [ss Hh].
  pose proof Hh as (_ & _ & Ha). cbn [th_request th_code th_events] in Ha.
  destruct (follows_linear (po_world s) _ _ _ _ (follows_handle g req now) Ha) as (wc & Hwc & Hrun).
  destruct (pool_moments g s0 s i _ ss Hh) with (d := po_world s) (wc := wc)
    as (sa & sc & H1 & H2 & H3 & Hs & Ea & Ec); [by eexists|done|done|].
  exists sa, sc. split_and!; [done..|]. rewrite Ea, Ec. rewrite run_code in Hrun. cbn [sequential] in Hrun.
  rewrite eff_bind_unfold in Hrun. destruct (handle g req now _) as [[o'|] w']; [|done].
  by injection Hrun as -> ->.
Qed.

(** C4: the request path is linearisable. However its instructions interleave
    with those of other requests, of mints, revocations, sweeps and
    provisioning, and with credential refreshes, an answered request was
    answered as [handle] answers in one step, on the token table of one
    moment since it arrived and the vault of one later moment; and it
    recorded exactly the audit events [handle] records there. The start [s0]
    is any moment before the arrival. *)
Theorem concurrent_handle_linearises g (s0 s : pool) i req now o es :
  po_threads s0 !! i = None -> rtc (pool_step g) s0 s ->
  po_threads s !! i = Some (mkThread (Handle req now) (Ret (Handled o)) es) ->
  exists sa sc, rtc (pool_step g) s0 sa /\ rtc (pool_step g) sa sc /\ rtc (pool_step g) sc s /\
    serves i (Handle req now) sa /\
    handle g req now (mixed (po_world sa) (po_world sc)) =
      (Done o, recorded es (mixed (po_world sa) (po_world sc))).
Proof. apply handle_linearises. Qed.
End Linearise.

(** ** Witness: a revocation in the middle of a request *)

#[local] Existing Instance ref_json.
#[local] Existing Instance ref_http.
#[local] Existing Instance ref_ring.
#[local] Existing Instance ref_uuid.

Definition ex_pool0 : pool (C := InMemoryCredentials) (A := InMemoryAudit) := mkPool ex_world0 [].

(** A tenant mints; a request arrives and resolves the token; the token is
    revoked; the request reads the vault, is audited and forwarded. *)
Definition ex_picks : list (pick (C := InMemoryCredentials)) :=
  [Arrive (Mint ex_policy 60 (Some "tenant-a") 1000); Advance 0; Advance 0; Advance 0; Advance 0; Advance 0;
   Arrive (Handle ex_request 2000); Advance 1; Arrive (Revoke ex_token); Advance 2; Advance 1; Advance 1].

Definition ex_pool : pool := schedule ex_gateway ex_pool0 ex_picks.

Definition ex_event : AuditEvent :=
  mkAuditEvent 2000 (mkAction "gh" (Crud Read) (mkResource "repos/o/r" "repos") (JObj [("per_page", JStr "1")])) DecisionAllow
    "allowed; injected bearer [gh-app]".

Lemma ex_pool_run : rtc (pool_step ex_gateway) ex_pool0 ex_pool.
Proof. apply schedule_runs. exists ex_picks. exact eq_refl. Qed.

Lemma ex_pool_forwards :
  po_threads ex_pool !! 1%nat =
    Some (mkThread (Handle ex_request 2000) (Ret (Handled (Forward ex_plan))) [ex_event]).
Proof. hk_vm. Qed.

Lemma concurrent_handle_linearises_witness :
  exists sa sc, rtc (pool_step ex_gateway) ex_pool0 sa /\ rtc (pool_step ex_gateway) sa sc /\
    rtc (pool_step ex_gateway) sc ex_pool /\ serves 1 (Handle ex_request 2000) sa /\
    handle ex_gateway ex_request 2000 (mixed (po_world sa) (po_world sc)) =
      (Done (Forward ex_plan), recorded [ex_event] (mixed (po_world sa) (po_world sc))).
Proof. apply concurrent_handle_linearises; [exact eq_refl|exact ex_pool_run|exact ex_pool_forwards]. Defined.

(** The token is gone by then. *)
Lemma ex_pool_revoked : world_tokens (po_world ex_pool) !! ex_token = None.
Proof. hk_vm. Qed.
