(* ===== verification/Interleaving.v ===== *)
(** What holds under every interleaving of the programs of [Concurrency]:
    the invariant of the token table, the authorisation of every forward, the
    completeness of the audit log, and the finality of revocation. *)

From stdpp Require Import relations.
From S2P Require Import Prelude RustStr Canonicalize Datetime External Reference Models Policy SigV4 Service Normalize Control Gateway.
From S2P Require Import Upgrade Server System Concurrency.

(** ** What holds under every interleaving *)

Section Safety.
Context {J : JsonLib} {H : HttpLib} {R : RingLib} {U : UuidLib}.
Context {C A : Type} `{!CredentialStore C} `{!AuditSink A}.

(** ** What a key and its entry always are *)

(** The token of a mint that drew its UUIDs [a]-th and [b]-th: under
    concurrency they need not be consecutive. *)
Definition bearer (a b : nat) : string := uuid_simple a +:+ uuid_simple b.

(** A bearer token has no secret and a dummy access key id has one, each
    made of UUIDs. *)
Inductive shaped : string -> option string -> Prop :=
| shaped_bearer a b : shaped (bearer a b) None
| shaped_dummy a b c : shaped (dummy_access_key_id (uuid_simple a)) (Some (bearer b c)).

(** A well-formed entry: accepted by a mint, with an expiry that fits the
    machine's word, under a key of the kind its secret says. *)
Record entry_wf (g : Gateway) (tn : Tenants) (key : string) (e : Entry) : Prop := mkEntryWf {
  ew_accepted : accepted g tn (e_policy e);
  ew_expiry : is_u64 (e_expires_at_ms e);
  ew_shape : shaped key (e_secret e);
}.

Definition table_wf (g : Gateway) (tn : Tenants) (ts : Tokens) : Prop :=
  map_Forall (entry_wf g tn) ts.

(** The instruction inserts a well-formed entry, if any. *)
Definition inserts_wf (g : Gateway) (tn : Tenants) {T} (i : instr T) : Prop :=
  match i with
  | IMint u1 u2 p ttl now => entry_wf g tn (u1 +:+ u2) (mkEntry p (expiry ttl now) None)
  | IMintSigV4 u0 u1 u2 p ttl now =>
      entry_wf g tn (dummy_access_key_id u0) (mkEntry p (expiry ttl now) (Some (u1 +:+ u2)))
  | _ => True
  end.

(** What an answer says, when the table is well formed and the tenants are
    [tn]. *)
Definition trusted (g : Gateway) (tn : Tenants) {T} (i : instr T) : T -> Prop :=
  match i with
  | IUuid => fun x => exists n, x = uuid_simple n
  | IResolve _ _ => fun r => forall p t, r = Some (p, t) -> accepted g tn p /\ is_u64 t
  | ITenantsEmpty => fun b => b = tenants_is_empty tn
  | ITenantsOwned key => fun r => r = tenants_owned key tn
  | _ => fun _ => True
  end.

Fixpoint safe (g : Gateway) (tn : Tenants) {X} (p : prog X) : Prop :=
  match p with
  | Ret _ | Crash => True
  | Vis i k => inserts_wf g tn i /\ forall x, trusted g tn i x -> safe g tn (k x)
  end.

Lemma resolve_full_some token now ts p t :
  tokens_resolve_full token now ts = Some (p, t) ->
  exists e, ts !! token = Some e /\ e_policy e = p /\ e_expires_at_ms e = t.
Proof.
  unfold tokens_resolve_full. destruct (ts !! token) as [e|]; [|done]. cbn [mbind option_bind].
  destruct (_ <=? _)%Z; [done|]. intros [= <- <-]. eauto.
Qed.

Lemma exec_trusted g tn {T} (i : instr T) (w : World C A) :
  table_wf g tn (world_tokens w) -> tenants_of w = tn -> trusted g tn i (exec i w).1.
Proof.
  intros Ht Hn. destruct i; cbn; try done; try (by rewrite <- Hn); [by eexists|].
  intros p t Hr. apply resolve_full_some in Hr as (e & He & <- & <-). by destruct (Ht _ _ He).
Qed.

Lemma exec_keeps g tn {T} (i : instr T) (w : World C A) :
  table_wf g tn (world_tokens w) -> inserts_wf g tn i ->
  table_wf g tn (world_tokens (exec i w).2) /\ tenants_of (exec i w).2 = tenants_of w.
Proof.
  intros Ht Hm. destruct i; cbn in *; (split; [|done]); try exact Ht.
  - by apply map_Forall_insert_2.
  - by apply map_Forall_insert_2.
  - by apply map_Forall_delete.
  - intros k e Hk. apply map_lookup_filter_Some in Hk as [Hk _]. by eapply Ht.
Qed.

Lemma safe_bind g tn {X Y} (m : prog X) (f : X -> prog Y) :
  safe g tn m -> (forall x, safe g tn (f x)) -> safe g tn (m ≫= f).
Proof.
  induction m as [x| |T i k IH]; [intros _ Hf; apply Hf|done|]. intros [Hm Hk] Hf. split; [done|].
  intros x Hx. apply IH; [by apply Hk|done].
Qed.

(** The request path writes no token at all. *)
Lemma follows_safe g tn {X} n (p : prog X) : follows n p -> safe g tn p.
Proof.
  revert n. induction p as [x| |T i k IH]; intros n; [done..|]. intros [Hi Hf]. split.
  - by destruct i.
  - intros x _. by eapply IH.
Qed.

Lemma expiry_u64 ttl now : is_u64 ttl -> is_u64 now -> is_u64 (expiry ttl now).
Proof. unfold is_u64, expiry, u64_saturating_add, u64_saturating_mul, U64_MAX. lia. Qed.

Lemma ttl_remaining_u64 now t : is_u64 now -> is_u64 t -> is_u64 (ttl_remaining now t).
Proof.
  unfold is_u64, ttl_remaining, u64_saturating_sub, U64_MAX. intros Hn Ht.
  pose proof (Z.div_le_upper_bound (Z.max (t - now) 0) 1000 18446744073709551615 ltac:(lia) ltac:(lia)).
  pose proof (Z.div_pos (Z.max (t - now) 0) 1000 ltac:(lia) ltac:(lia)). lia.
Qed.

Lemma safe_provision_services g tn ss token policy now ttl :
  accepted g tn policy -> is_u64 now -> is_u64 ttl -> safe g tn (provision_services_code ss token policy now ttl).
Proof.
  intros Hp Hn Ht. induction ss as [|s ss IH]; [done|]. cbn [provision_services_code].
  destruct (negb (provisioned policy s)); [done|]. apply safe_bind; [|intros ma; by apply safe_bind].
  unfold mint_service_auth_code. destruct (svc_outbound s); [done..|].
  split; [done|]. intros u0 [n0 ->]. split; [done|]. intros u1 [n1 ->]. split; [done|]. intros u2 [n2 ->].
  split; [|done]. split; [done|by apply expiry_u64|constructor].
Qed.

Lemma safe_mint_checked g tn policy ttl tenant now :
  is_u64 ttl -> is_u64 now -> safe g tn (mint_checked_code g policy ttl tenant now).
Proof.
  intros Ht Hn.
  assert (Hk : forall r, (r = Ok tt -> exists t, authorize_mint tn policy t = Ok tt) ->
    safe g tn (match r with Err e => mret (Err e) | Ok _ =>
      match validate_catalog g policy with Err e => mret (Err e)
      | Ok _ => r ← mint_code policy ttl now; mret (Ok r) end end : prog (result MintResponse MintError))).
  { intros [[]|e] Hr; [|done]. destruct (validate_catalog g policy) as [[]|e] eqn:Ev; [|done].
    cbn. split; [done|]. intros u1 [n1 ->]. split; [done|]. intros u2 [n2 ->]. split; [|done].
    split; [split; [by apply Hr|done]|by apply expiry_u64|constructor]. }
  unfold mint_checked_code, authorize_mint_code. split; [done|]. intros e ->.
  destruct (tenants_is_empty tn) eqn:Et.
  { apply (Hk (Ok tt)). intros _. exists tenant. unfold authorize_mint. by rewrite Et. }
  destruct tenant as [key|]; [|done]. split; [done|]. intros o ->.
  destruct (tenants_owned key tn) as [owned|] eqn:Eo; [|done].
  apply (Hk (validate_tenant_policy policy owned)). intros Hv. exists (Some key).
  unfold authorize_mint. by rewrite Et, Eo.
Qed.

Lemma safe_code g tn c : typed c -> safe g tn (code g c).
Proof.
  destruct c as [req now|policy ttl tenant now|token|now|token now]; cbn [typed].
  - intros _. eapply follows_safe, follows_handle.
  - intros [Ht Hn]. apply safe_bind; [by apply safe_mint_checked|done].
  - done.
  - done.
  - intros Hn. apply safe_bind; [|done]. split; [done|]. intros [[policy t]|] Hr; [|done].
    destruct (Hr policy t eq_refl) as [Hp Ht]. apply safe_bind; [|done].
    apply safe_provision_services; [done|done|by apply ttl_remaining_u64].
Qed.

(** The server as it starts: no request served, no token minted. *)
Definition starts (s : pool (C := C) (A := A)) : Prop :=
  pool_initial s /\ world_tokens (po_world s) = ∅.

(** The tenants never change, the table is well formed, and every thread,
    whatever it is told, inserts well-formed entries only. *)
Record pool_inv (g : Gateway) (tn : Tenants) (s : pool (C := C) (A := A)) : Prop := {
  pi_table : table_wf g tn (world_tokens (po_world s));
  pi_tenants : tenants_of (po_world s) = tn;
  pi_threads : Forall (fun t => safe g tn (th_code t)) (po_threads s);
}.

Lemma pool_inv_step g tn s s' : pool_inv g tn s -> pool_step g s s' -> pool_inv g tn s'.
Proof.
  intros HI Hp. destruct Hp as [w ts c Hty|w ts i t t' w' Hi Hst|w ts c], HI as [Ht Hn Hs]; cbn in *.
  - split; [done..|]. apply Forall_app. split; [done|]. repeat constructor. by apply safe_code.
  - pose proof (Forall_lookup_1 _ _ _ _ Hs Hi) as Hsafe. cbn in Hsafe. unfold thread_step in Hst.
    destruct (th_code t) as [x| |T j k]; [done..|]. destruct Hsafe as [Hm Hk].
    pose proof (exec_trusted g tn j w Ht Hn) as Hx.
    destruct (exec_keeps g tn j w Ht Hm) as [Ht' Hn'].
    destruct (exec j w) as [x w1]. injection Hst as <- <-. cbn in *. split; cbn; [done|by rewrite Hn'|].
    apply Forall_insert; [done|]. by apply Hk.
  - by split.
Qed.

Lemma pool_inv_reachable g s0 s :
  starts s0 -> rtc (pool_step g) s0 s ->
  pool_inv g (tenants_of (po_world s0)) s.
Proof.
  intros [Hi Ht] Hr. assert (H0 : pool_inv g (tenants_of (po_world s0)) s0).
  { split; [|done|by rewrite Hi]. rewrite Ht. apply map_Forall_empty. }
  clear Hi Ht. remember (tenants_of (po_world s0)) as tn eqn:E. clear E.
  induction Hr as [|x y z Hxy _ IH]; [done|]. apply IH. by eapply pool_inv_step.
Qed.

Lemma pool_initial_none (s0 : pool (C := C) (A := A)) i : pool_initial s0 -> po_threads s0 !! i = None.
Proof. by intros ->. Qed.

(** ** The audit log *)

Lemma exec_audit `{!AuditLog A} {T} (i : instr T) (w : World C A) :
  audit_events (cp_audit (w_control (exec i w).2)) = audit_events (cp_audit (w_control w)) ++ emits i.
Proof. destruct i; cbn; rewrite ?app_nil_r; try done. apply audit_events_record. Qed.

Definition pool_events (s : pool (C := C) (A := A)) : list AuditEvent := List.concat (map th_events (po_threads s)).

Lemma concat_insert_app {X Y} (f : X -> list Y) l i x x' y :
  l !! i = Some x -> f x' = f x ++ y -> List.concat (map f (<[i := x']> l)) ≡ₚ List.concat (map f l) ++ y.
Proof.
  intros Hi Hx. pose proof (take_drop_middle l i x Hi) as El.
  rewrite insert_take_drop by (by eapply lookup_lt_Some). rewrite <- El at 3.
  rewrite !map_app, !List.concat_app. cbn. rewrite Hx. rewrite <- !app_assoc. do 2 apply Permutation_app_head. apply Permutation_app_comm.
Qed.

Lemma pool_events_step `{!AuditLog A} g s s' ev :
  pool_step g s s' ->
  audit_events (cp_audit (w_control (po_world s))) ≡ₚ ev ++ pool_events s ->
  audit_events (cp_audit (w_control (po_world s'))) ≡ₚ ev ++ pool_events s'.
Proof.
  unfold pool_events. intros Hp. destruct Hp as [w ts c|w ts i t t' w' Hi Hst|w ts c]; cbn.
  - rewrite map_app, List.concat_app. cbn. by rewrite app_nil_r.
  - unfold thread_step in Hst. destruct (th_code t) as [x| |T j k]; [done..|].
    pose proof (exec_audit j w) as Ea. destruct (exec j w) as [x w1]. injection Hst as <- <-. cbn in Ea.
    rewrite (concat_insert_app th_events ts i t _ (emits j) Hi) by done. rewrite Ea. intros ->. by rewrite app_assoc.
  - done.
Qed.

Lemma pool_events_reachable `{!AuditLog A} g (s0 s : pool (C := C) (A := A)) :
  pool_initial s0 -> rtc (pool_step g) s0 s ->
  audit_events (cp_audit (w_control (po_world s))) ≡ₚ
    audit_events (cp_audit (w_control (po_world s0))) ++ pool_events s.
Proof.
  intros H0 Hr. set (ev := audit_events (cp_audit (w_control (po_world s0)))).
  assert (Hs : audit_events (cp_audit (w_control (po_world s0))) ≡ₚ ev ++ pool_events s0).
  { unfold pool_events. rewrite H0. cbn. by rewrite app_nil_r. }
  clearbody ev. clear H0. induction Hr as [|x y z Hxy _ IH]; [done|]. apply IH. by eapply pool_events_step.
Qed.

(** A program that records nothing and does not panic. *)
Fixpoint silent {X} (p : prog X) : Prop :=
  match p with
  | Ret _ => True
  | Crash => False
  | Vis i k => emits i = [] /\ forall x, silent (k x)
  end.

(** A program that records at most once, if it still may, and does not panic
    afterwards. *)
Fixpoint audits (may : bool) {X} (p : prog X) : Prop :=
  match p with
  | Ret _ => True
  | Crash => may = true
  | Vis i k => (emits i = [] /\ forall x, audits may (k x)) \/
               (may = true /\ (exists e, emits i = [e]) /\ forall x, audits false (k x))
  end.

Lemma silent_bind {X Y} (p : prog X) (f : X -> prog Y) : silent p -> (forall x, silent (f x)) -> silent (p ≫= f).
Proof.
  intros Hp Hf. induction p as [x| |T i k IH]; [apply Hf|done|]. destruct Hp as [Hi Hk].
  split; [done|]. intros x. apply IH, Hk.
Qed.

(** One instruction that records nothing, then more. *)
Lemma audits_quiet {X Y} may (p : prog X) (f : X -> prog Y) :
  silent p -> (forall x, audits may (f x)) -> audits may (p ≫= f).
Proof.
  intros Hp Hf. induction p as [x| |T i k IH]; [apply Hf|done|]. destruct Hp as [Hi Hk].
  left. split; [done|]. intros x. apply IH, Hk.
Qed.

Lemma audits_lift {X Y} (c : comp X) (f : X -> prog Y) :
  (forall x, audits true (f x)) -> audits true (prog_lift c ≫= f).
Proof. intros Hf. destruct c as [x|]; [apply Hf|exact eq_refl]. Qed.

Lemma audits_map {X Y} may (p : prog X) (f : X -> Y) : audits may p -> audits may (x ← p; mret (f x)).
Proof.
  revert may. induction p as [x| |T i k IH]; intros may; [done..|].
  intros [[Hi Hk]|(Hm & He & Hk)]; [left|right]; split_and!; try done; intros x; by apply IH.
Qed.

Lemma audits_record {X} a d detail now (p : prog X) : (forall m, audits m p) -> audits true (audit_code a d detail now;; p).
Proof. intros Hp. right. split_and!; [done|by eexists|]. intros x. apply Hp. Qed.

Lemma audits_authorize g req policy src now : audits true (authorize_code g req policy src now).
Proof.
  unfold authorize_code. cbn zeta. destruct (route _ _) as [s|]; [|exact (audits_record _ _ _ _ (mret _) (fun _ => I))].
  apply audits_lift. intros [c|e]; [|exact (audits_record _ _ _ _ (mret _) (fun _ => I))]. apply audits_lift. intros a.
  destruct (decide a policy); [|exact (audits_record _ _ _ _ (mret _) (fun _ => I))].
  unfold plan_forward_code, apply_outbound_code. destruct (svc_outbound s) as [|c1|name c1|c1 akid region aws].
  - exact (audits_record _ _ _ _ (mret _) (fun _ => I)).
  - left. split; [done|]. intros [secret|]; [|right; split_and!; [done|by eexists|done]]. cbn.
    destruct (hv_from_str ("Bearer " +:+ expose secret)); right; (split_and!; [done|by eexists|done]).
  - destruct (hn_from_bytes name); [|right; split_and!; [done|by eexists|done]].
    left. split; [done|]. intros [secret|]; [|right; split_and!; [done|by eexists|done]]. cbn.
    destruct (hv_from_str _); right; (split_and!; [done|by eexists|done]).
  - left. split; [done|]. intros [secret|]; [|right; split_and!; [done|by eexists|done]]. cbn.
    match goal with |- context [prog_lift ?c] => destruct c end; [|done]. right. split_and!; [done|by eexists|done].
Qed.

Lemma audits_handle g req now : audits true (code g (Handle req now)).
Proof.
  apply audits_map. unfold handle_code, authenticate_code, authenticate_bearer_code, authenticate_sigv4_code.
  assert (Hb : audits true (a ← authenticate_bearer_code req now;
      match a with Err o => mret o | Ok (p, src) => authorize_code g req p src now end)).
  { unfold authenticate_bearer_code. destruct (extract_auth (rq_headers req)) as [[token source]|]; [|done].
    left. split; [done|]. intros [[policy t]|]; [exact (audits_authorize g req policy source now)|done]. }
  destruct (header_str (rq_headers req) "authorization") as [auth|]; [|exact Hb].
  destruct (starts_with _ auth); [|exact Hb]. destruct (parse_authorization auth) as [parsed|]; [|done].
  left. split; [done|]. intros [[policy secret]|]; [|done]. cbn -[verify authorize_code].
  match goal with |- context [prog_lift ?c] => destruct c as [[[]|e]|] end; [|done..].
  exact (audits_authorize g req policy SigV4Source now).
Qed.

Lemma silent_provision_services ss token policy now ttl : silent (provision_services_code ss token policy now ttl).
Proof.
  induction ss as [|s ss IH]; [done|]. cbn [provision_services_code]. destruct (negb (provisioned policy s)); [done|].
  apply silent_bind; [unfold mint_service_auth_code; by destruct (svc_outbound s)|]. intros ma. by apply silent_bind.
Qed.

Definition is_handle (c : request) : bool := match c with Handle _ _ => true | _ => false end.

Lemma silent_code g c : is_handle c = false -> silent (code g c).
Proof.
  destruct c as [req now|policy ttl tenant now|token|now|token now]; intros Hc; [done| |by split..|].
  - apply silent_bind; [|done]. unfold mint_checked_code, authorize_mint_code. split; [done|].
    intros []; cbn; [by destruct (validate_catalog g policy)|].
    destruct tenant as [key|]; [|done]. split; [done|]. intros [owned|]; [|done]. cbn.
    destruct (validate_tenant_policy policy owned); [|done]. by destruct (validate_catalog g policy).
  - apply silent_bind; [|done]. split; [done|]. intros [[policy t]|]; [|done].
    apply silent_bind; [apply silent_provision_services|done].
Qed.

(** The events of a thread so far, and what its program may still record. *)
Definition on_record (t : thread) : Prop :=
  if is_handle (th_request t)
  then (th_events t = [] /\ audits true (th_code t)) \/ ((exists e, th_events t = [e]) /\ audits false (th_code t))
  else th_events t = [] /\ silent (th_code t).

Lemma on_record_step (t t' : thread) (w w' : World C A) :
  on_record t -> thread_step t w = Some (t', w') -> on_record t'.
Proof.
  destruct t as [c p es]. unfold on_record, thread_step. cbn [th_request th_code th_events].
  destruct p as [x| |T i k]; [done..|]. destruct (exec i w) as [x w1]. intros Hr [= <- <-].
  cbn [th_request th_code th_events]. destruct (is_handle c).
  - destruct Hr as [[-> [[-> Hk]|(_ & [e ->] & Hk)]]|[[e ->] [[-> Hk]|[? _]]]]; [left|right|right|done]; cbn; eauto.
  - destruct Hr as [-> [-> Hk]]. by split.
Qed.

Lemma on_record_reachable g (s0 s : pool (C := C) (A := A)) :
  pool_initial s0 -> rtc (pool_step g) s0 s -> Forall on_record (po_threads s).
Proof.
  intros H0 Hr. assert (Hf : Forall on_record (po_threads s0)) by (rewrite H0; constructor). clear H0.
  induction Hr as [|x y z Hxy _ IH]; [done|]. apply IH. clear IH.
  destruct Hxy as [w ts c _|w ts i t t' w' Hi Hst|w ts c]; cbn [po_threads] in *; [| |done].
  - apply Forall_app. split; [done|]. constructor; [|done]. unfold on_record. cbn.
    destruct (is_handle c) eqn:Ec; [|split; [done|by apply silent_code]].
    left. split; [done|]. destruct c; try done. apply audits_handle.
  - apply Forall_insert; [done|]. eapply on_record_step; [|exact Hst]. by eapply Forall_lookup_1.
Qed.

(** What the log owes an answered request. *)
Inductive decided (g : Gateway) (req : ProxyRequest) (now : Z) : Outcome -> list AuditEvent -> Prop :=
| decided_unauthenticated rj es :
    rj_status rj = 401%Z -> (length es <= 1)%nat -> decided g req now (Reject rj) es
| decided_unrouted rj detail :
    rj_status rj = 404%Z \/ rj_status rj = 400%Z ->
    decided g req now (Reject rj)
      [mkAuditEvent now (unrouted (default "" (extract_host (rq_headers req)))) DecisionDeny detail]
| decided_denied s c action rj detail :
    route (router g) (default "" (extract_host (rq_headers req))) = Some s ->
    Canonicalize.path (rq_path req) = Done (Ok c) -> normalize s req (decoded c) = Done action ->
    decided g req now (Reject rj) [mkAuditEvent now action DecisionDeny detail]
| decided_allowed s c action plan detail :
    route (router g) (default "" (extract_host (rq_headers req))) = Some s ->
    Canonicalize.path (rq_path req) = Done (Ok c) -> normalize s req (decoded c) = Done action ->
    decided g req now (Forward plan) [mkAuditEvent now action DecisionAllow detail].

Definition audited (g : Gateway) (t : thread) : Prop :=
  match th_request t with
  | Handle req now =>
      match th_code t with
      | Ret r => forall o, r = Handled o -> decided g req now o (th_events t)
      | Crash => th_events t = []
      | Vis _ _ => (length (th_events t) <= 1)%nat
      end
  | _ => th_events t = []
  end.

Lemma threads_audited `{!AuditLog A} g (s0 s : pool (C := C) (A := A)) :
  pool_initial s0 -> rtc (pool_step g) s0 s -> forall i t, po_threads s !! i = Some t -> audited g t.
Proof.
  intros H0 Hr i t Ht. pose proof (Forall_lookup_1 _ _ _ _ (on_record_reachable g s0 s H0 Hr) Ht) as Hrec.
  destruct t as [c p es]. unfold on_record, audited in *. cbn [th_request th_code th_events] in *.
  destruct c as [req now|policy ttl tenant now|token|now|token now]; cbn [is_handle] in Hrec;
    [|by destruct Hrec as [-> _]..].
  destruct p as [r| |T j k].
  - intros o ->. destruct (handle_linearises g s0 s i req now o es (pool_initial_none s0 i H0) Hr Ht)
      as (sa & sc & _ & _ & _ & _ & Hh).
    apply handle_handled in Hh as (es' & Hh & Ees).
    apply (f_equal (fun w => audit_events (cp_audit (w_control w)))) in Ees.
    rewrite !audit_events_recorded in Ees. apply app_inv_head in Ees as ->.
    inversion Hh; subst; [apply decided_unauthenticated; [done|by destruct Hrec as [[-> _]|[[e ->] _]]; cbn; lia]|apply decided_unrouted; by left|apply decided_unrouted; by right|..];
      by econstructor.
  - destruct Hrec as [[-> _]|[_ [=]]]. done.
  - destruct Hrec as [[-> _]|[[e ->] _]]; cbn; lia.
Qed.

(** ** Properties *)

(** [sa] is a moment of the run from [s0] to [s] at which the request served
    by thread [i] had arrived. *)
Definition moment (g : Gateway) (s0 s : pool (C := C) (A := A)) (i : nat) (c : request) (sa : pool (C := C) (A := A)) : Prop :=
  rtc (pool_step g) s0 sa /\ rtc (pool_step g) sa s /\ serves i c sa.

(** A forward was decided at one moment after the request arrived: it was
    permitted then, by a policy accepted by a mint, and one allow event of its
    action was recorded. *)
Lemma forward_moment `{!AuditLog A} g (s0 s : pool (C := C) (A := A)) i req now plan es :
  starts s0 -> rtc (pool_step g) s0 s ->
  po_threads s !! i = Some (mkThread (Handle req now) (Ret (Handled (Forward plan))) es) ->
  exists sa policy service c action detail hs,
    moment g s0 s i (Handle req now) sa /\
    permitted g (world_tokens (po_world sa)) req now policy service c action /\
    accepted g (tenants_of (po_world s0)) policy /\
    plan = mkForwardPlan (upstream_url (svc_upstream_base service) (encoded c) (rq_query req)) (rq_method req) hs (rq_body req) /\
    es = [mkAuditEvent now action DecisionAllow detail].
Proof.
  intros H0 Hr Hi. destruct (handle_linearises g s0 s i req now _ es (pool_initial_none s0 i (proj1 H0)) Hr Hi) as (sa & sc & H1 & H2 & H3 & Hs & Hh).
  destruct (pool_inv_reachable g s0 sa H0 H1) as [Htab _ _].
  apply handle_handled in Hh as (es' & Hh & Ees).
  apply (f_equal (fun w => audit_events (cp_audit (w_control w)))) in Ees.
  rewrite !audit_events_recorded in Ees. apply app_inv_head in Ees as ->.
  inversion Hh as [| | | | |p src srv c a l detail Ha Hro Hc Hn Hd Hinj]; subst.
  exists sa, p, srv, c, a, detail. eexists. destruct (authentic_entry _ _ _ _ _ Ha) as (key & e & He & <-).
  split; [|split; [split; eauto|split; [by destruct (Htab _ _ He)|by split]]].
  split_and!; [done|by etransitivity|done].
Qed.

(** C3: mediation under concurrency, up to the wire. However the instructions
    of a server interleave from its start, whatever a finished request makes
    the proxy do on the network (a plain request, a connection, an upgrade
    request, a relay) is that request's own traffic to the upstream of the
    service its host routes to, and it was permitted: at a moment of the run
    after the request arrived, the credential it presented was live for a
    policy accepted by a mint of this server, which allows the action that
    the service's normalisation gives this request; and exactly one event was
    recorded, an allow of that action. A refused request sends nothing. *)
Theorem concurrent_traffic_authorised {JT : JsonText} {Q : RequestLib} {Bd : BodyLib} `{!AuditLog A} g net (s0 s : pool (C := C) (A := A)) i hreq body now o es :
  starts s0 -> rtc (pool_step g) s0 s ->
  po_threads s !! i = Some (mkThread (Handle (proxy_request hreq body) now) (Ret (Handled o)) es) ->
  (respond net hreq o).2 = [] \/
  exists sa policy service c action detail,
    moment g s0 s i (Handle (proxy_request hreq body) now) sa /\
    permitted g (world_tokens (po_world sa)) (proxy_request hreq body) now policy service c action /\
    accepted g (tenants_of (po_world s0)) policy /\
    traffic service (proxy_request hreq body) c (respond net hreq o).2 /\
    es = [mkAuditEvent now action DecisionAllow detail].
Proof.
  intros H0 Hr Hi. destruct o as [plan|rj]; [right|by left].
  destruct (forward_moment g s0 s i _ now plan es H0 Hr Hi) as (sa & p & srv & c & a & detail & hs & Hm & Hp & Hac & -> & He).
  exists sa, p, srv, c, a, detail. split_and!; [apply Hm..|done|done| |done].
  destruct (respond net hreq _) as [r evs] eqn:Er. eapply respond_traffic; [apply (pm_path _ _ _ _ _ _ _ _ Hp)|exact Er].
Qed.

(** C13: the token table is well typed, always. From the start, after any
    interleaving of any requests, every entry has a policy that passed the
    checks of a mint, an expiry within 64 bits, and the shape of its kind: a
    key of two UUIDs and no secret, or a dummy access key id and a secret of
    two UUIDs. *)
Theorem token_table_well_typed g (s0 s : pool (C := C) (A := A)) :
  starts s0 -> rtc (pool_step g) s0 s ->
  table_wf g (tenants_of (po_world s0)) (world_tokens (po_world s)).
Proof. intros Hi Hr. by destruct (pool_inv_reachable g s0 s Hi Hr). Qed.

(** C17: the audit log is complete under concurrency. At every moment of a run
    it holds what it held at the start and the events of the requests so far,
    each as often as it was recorded; and those are the events the requests
    owe ([audited]): an answered request other than a 401 has recorded exactly
    one, stamped with its time, an allow of the action of this request if it
    was forwarded, and otherwise a deny of it, or of the unrouted host; a 401
    and a request in progress at most one, one that panicked none, and no
    other call records anything. *)
Theorem concurrent_audit_complete `{!AuditLog A} g (s0 s : pool (C := C) (A := A)) :
  pool_initial s0 -> rtc (pool_step g) s0 s ->
  audit_events (cp_audit (w_control (po_world s))) ≡ₚ
    audit_events (cp_audit (w_control (po_world s0))) ++ pool_events s /\
  forall i t, po_threads s !! i = Some t -> audited g t.
Proof.
  intros H0 Hr. split; [by eapply pool_events_reachable|]. intros i t Ht.
  by apply (threads_audited g s0 s H0 Hr i t).
Qed.
End Safety.

(** ** Revocation is final, under concurrency too *)

Section Revocation.
Context {J : JsonLib} {H : HttpLib} {R : RingLib} {U : UuidLib} {UL : UuidLaws U}.
Context {C A : Type} `{!CredentialStore C} `{!AuditSink A}.
Notation pool := (pool (C := C) (A := A)).

(** A key of the table that the [a]-th UUID begins. *)
Definition owns (a : nat) (key : string) : Prop := exists u, key = uuid_simple a +:+ u.

Definition has (a : nat) (ts : Tokens) : Prop := exists key, owns a key /\ is_Some (ts !! key).

Definition is_mint {T} (i : instr T) : bool := match i with IMint _ _ _ _ _ => true | _ => false end.

(** At most one bearer token, or none, is minted from here on. *)
Fixpoint one_mint {X} (m : bool) (p : prog X) : Prop :=
  match p with
  | Ret _ | Crash => True
  | Vis i k => (is_mint i = true -> m = true) /\ forall x, one_mint (if is_mint i then false else m) (k x)
  end.

(** No key of the [a]-th UUID is inserted, unless it is drawn. *)
Definition avoids (a : nat) {T} (i : instr T) : Prop :=
  match i with IMint u1 u2 _ _ _ => ~ owns a (u1 +:+ u2) | _ => True end.

Definition other_uuid (a : nat) {T} (i : instr T) : T -> Prop :=
  match i with IUuid => fun x => exists m, x = uuid_simple m /\ x <> uuid_simple a | _ => fun _ => True end.

Fixpoint never (a : nat) {X} (p : prog X) : Prop :=
  match p with
  | Ret _ | Crash => True
  | Vis i k => avoids a i /\ forall x, other_uuid a i x -> never a (k x)
  end.

Lemma one_mint_weaken {X} (p : prog X) : one_mint false p -> one_mint true p.
Proof.
  induction p as [x| |T i k IH]; [done..|]. intros [Hm Hk]. split; [done|]. intros x.
  specialize (Hk x). destruct (is_mint i); [done|by apply IH].
Qed.

Lemma one_mint_never a {X} (p : prog X) : one_mint false p -> never a p.
Proof.
  induction p as [x| |T i k IH]; [done..|]. intros [Hm Hk]. split.
  - destruct i; try done. by discriminate Hm.
  - intros x _. apply IH. specialize (Hk x). by destruct (is_mint i).
Qed.

Lemma one_mint_bind m {X Y} (p : prog X) (f : X -> prog Y) :
  one_mint m p -> (forall x, one_mint false (f x)) -> one_mint m (p ≫= f).
Proof.
  intros Hp Hf. revert m Hp. induction p as [x| |T i k IH]; intros m; [|done|].
  - intros _. destruct m; [apply one_mint_weaken, Hf|apply Hf].
  - intros [Hm Hk]. split; [done|]. intros x. apply IH, Hk.
Qed.

Lemma follows_one_mint n {X} (p : prog X) : follows n p -> one_mint false p.
Proof.
  revert n. induction p as [x| |T i k IH]; intros n; [done..|]. intros [Hi Hf]. split; [by destruct i|].
  intros x. destruct i; cbn in *; try done; by eapply IH, Hf.
Qed.

Lemma one_mint_provision g token now : one_mint false (provision_code g token now).
Proof.
  split; [done|]. intros [[policy t]|]; [|done]. apply one_mint_bind; [|done].
  induction (services (router g)) as [|s ss IH]; [done|]. cbn [provision_services_code].
  destruct (negb (provisioned policy s)); [done|]. apply one_mint_bind.
  - unfold mint_service_auth_code. by destruct (svc_outbound s).
  - intros ma. by apply one_mint_bind.
Qed.

Lemma owns_uuid a m u : owns a (uuid_simple m +:+ u) -> uuid_simple m = uuid_simple a.
Proof. intros [v E]. eapply sapp_inv_length; [|exact E]. by rewrite !uuid_simple_length. Qed.

Lemma code_fresh g c : one_mint true (code g c) /\ forall a, never a (code g c).
Proof.
  assert (Hno : one_mint false (code g c) -> one_mint true (code g c) /\ forall a, never a (code g c)).
  { intros Hc. split; [by apply one_mint_weaken|]. intros a. by apply one_mint_never. }
  destruct c as [req now|policy ttl tenant now|token|now|token now].
  - by eapply Hno, follows_one_mint, follows_handle.
  - clear Hno. unfold code, mint_checked_code, authorize_mint_code. split.
    + split; [done|]. intros []; cbn; [by destruct (validate_catalog g policy)|].
      destruct tenant as [key|]; [|done]. split; [done|]. intros [owned|]; [|done]. cbn.
      destruct (validate_tenant_policy policy owned); [|done]. by destruct (validate_catalog g policy).
    + intros a.
      assert (Hm : never a (r ← (r ← mint_code policy ttl now; mret (Ok r)); mret (Minted r))).
      { split; [done|]. intros x1 (m & -> & Hx). split; [done|]. intros x2 _. split; [|done].
        intros Ho. by apply owns_uuid in Ho. }
      split; [done|]. intros []; cbn -[mint_code].
      { intros _. by destruct (validate_catalog g policy). }
      intros _. destruct tenant as [key|]; [|done]. split; [done|]. intros [owned|] _; [|done]. cbn -[mint_code].
      destruct (validate_tenant_policy policy owned); [|done]. by destruct (validate_catalog g policy).
  - by apply Hno.
  - by apply Hno.
  - apply Hno, one_mint_bind; [apply one_mint_provision|done].
Qed.

Lemma dummy_not_owned a u : ~ owns a (dummy_access_key_id u).
Proof.
  intros [v E]. apply (f_equal String.length) in E. revert E. unfold dummy_access_key_id, to_ascii_uppercase.
  rewrite smap_length, !slength_app, uuid_simple_length. pose proof (substring_length_le 0 10 u). cbn [String.length]. lia.
Qed.

(** One instruction adds a key of the [a]-th UUID only by minting it. *)
Lemma exec_key a key {T} (i : instr T) (w : World C A) :
  owns a key -> is_Some (world_tokens (exec i w).2 !! key) ->
  is_Some (world_tokens w !! key) \/ (is_mint i = true /\ ~ avoids a i).
Proof.
  intros Ho. destruct i as [|u1 u2 p ttl now|u0 u1 u2 p ttl now| | |token|now| | | |]; cbn; try (by left).
  - intros [e [[E _]|[_ Hl]]%lookup_insert_Some]; [|by left]. right. split; [done|]. intros Hn. apply Hn. by rewrite E.
  - intros [e [[E _]|[_ Hl]]%lookup_insert_Some]; [|by left]. rewrite <- E in Ho. by apply dummy_not_owned in Ho.
  - intros [e [_ Hl]%lookup_delete_Some]. by left.
  - intros [e [Hl _]%map_lookup_filter_Some]. by left.
Qed.

Lemma exec_has a {T} (i : instr T) (w : World C A) :
  has a (world_tokens (exec i w).2) -> has a (world_tokens w) \/ (is_mint i = true /\ ~ avoids a i).
Proof. intros (k & Hk & Hl). destruct (exec_key a k i w Hk Hl); [left|by right]. by exists k. Qed.

Lemma exec_uuids {T} (i : instr T) (w : World C A) : (w_uuids w <= w_uuids (exec i w).2)%nat.
Proof. destruct i; cbn; lia. Qed.

Lemma step_uuids g (s s' : pool) : pool_step g s s' -> (w_uuids (po_world s) <= w_uuids (po_world s'))%nat.
Proof.
  intros Hst. destruct Hst as [w ts c|w ts i t t' w' Hi Hs|w ts c]; cbn; [done| |done].
  unfold thread_step in Hs. destruct (th_code t) as [x| |T j k]; [done..|].
  pose proof (exec_uuids j w). destruct (exec j w). by injection Hs as <- <-.
Qed.

Lemma run_uuids g (s s' : pool) : rtc (pool_step g) s s' -> (w_uuids (po_world s) <= w_uuids (po_world s'))%nat.
Proof. induction 1 as [|x y z Hxy _ IH]; [done|]. apply step_uuids in Hxy. lia. Qed.

Definition nevers (a : nat) (ts : list thread) : Prop := Forall (fun t => never a (th_code t)) ts.

(** No thread holds a UUID not drawn yet; no thread can mint a key that a
    UUID of the table begins; a UUID drawn is one thread's. *)
Record uuid_inv (n : nat) (s : pool) : Prop := {
  ui_mints : Forall (fun t => one_mint true (th_code t)) (po_threads s);
  ui_fresh a : (a < n)%nat -> (w_uuids (po_world s) <= a)%nat ->
    nevers a (po_threads s) /\ ~ has a (world_tokens (po_world s));
  ui_used a : (a < n)%nat -> has a (world_tokens (po_world s)) -> nevers a (po_threads s);
  ui_owner a : (a < n)%nat -> exists j, forall i t, po_threads s !! i = Some t -> i <> j -> never a (th_code t);
}.

Lemma nevers_insert a ts i t' : nevers a ts -> never a (th_code t') -> nevers a (<[i := t']> ts).
Proof. intros Hn Ht. by apply Forall_insert. Qed.

(** A UUID just drawn is the counter's, so it is another than the [a]-th
    unless [a] is the counter. *)
Lemma exec_other n a {T} (i : instr T) (w : World C A) :
  distinct_uuids n -> (a < n)%nat -> (w_uuids (exec i w).2 <= n)%nat ->
  a <> w_uuids w \/ w_uuids (exec i w).2 = w_uuids w -> other_uuid a i (exec i w).1.
Proof.
  intros Hd Ha Hn Hne. destruct i; cbn in *; try done. eexists. split; [done|].
  intros E. apply (Hd (w_uuids w) a) in E; lia.
Qed.

Lemma uuid_inv_arrive n g w ts c :
  uuid_inv n (mkPool w ts) -> uuid_inv n (mkPool w (ts ++ [mkThread c (code g c) []])).
Proof.
  intros [Hm Hf Hu Ho]; cbn in *.
  destruct (code_fresh g c) as [Hc1 Hc2].
  assert (Hadd : forall a, nevers a ts -> nevers a (ts ++ [mkThread c (code g c) []])).
  { intros a Ha. apply Forall_app. split; [done|]. repeat constructor. apply Hc2. }
  split; cbn.
  + apply Forall_app. split; [done|]. repeat constructor. exact Hc1.
  + intros a Ha Hw. destruct (Hf a Ha Hw). by split; [apply Hadd|].
  + intros a Ha Hh. by apply Hadd, Hu.
  + intros a Ha. destruct (Ho a Ha) as [j Hj]. exists j. intros i t Ht Hne.
    apply lookup_app_Some in Ht as [Ht|[_ Ht]]; [by eapply Hj|].
    apply list_lookup_singleton_Some in Ht as [_ <-]. apply Hc2.
Qed.

Lemma uuid_inv_advance n w ts j t t' w' :
  distinct_uuids n -> ts !! j = Some t -> thread_step t w = Some (t', w') -> (w_uuids w' <= n)%nat ->
  uuid_inv n (mkPool w ts) -> uuid_inv n (mkPool w' (<[j := t']> ts)).
Proof.
  intros Hd Hj Hs Hle [Hm Hf Hu Ho]; cbn in *.
  unfold thread_step in Hs. destruct (th_code t) as [x| |T i k] eqn:Ec; [done..|].
  pose proof (fun a => exec_other n a i w Hd) as Hother. pose proof (fun a => exec_has a i w) as Hhas.
  pose proof (exec_uuids i w) as Hmono.
  destruct (exec i w) as [x w1] eqn:Ex. injection Hs as <- <-. cbn [fst snd] in *.
  pose proof (Forall_lookup_1 _ _ _ _ Hm Hj) as Hone. cbn in Hone. rewrite Ec in Hone. destruct Hone as [_ Hone].
  specialize (Hone x).
  (* the thread that stepped keeps clear of [a] if it did and did not draw it *)
  assert (Hstay : forall a, (a < n)%nat -> a <> w_uuids w \/ w_uuids w1 = w_uuids w ->
    never a (th_code t) -> avoids a i /\ never a (k x)).
  { intros a Ha Hne Hn. rewrite Ec in Hn. destruct Hn as [Hav Hn]. split; [done|]. by apply Hn, Hother. }
  assert (Hat : forall a, nevers a ts -> never a (th_code t)).
  { intros a Hn. exact (Forall_lookup_1 _ _ _ _ Hn Hj). }
  split; cbn.
  + apply Forall_insert; [done|]. destruct (is_mint i); [by apply one_mint_weaken|done].
  + intros a Ha Hw. destruct (Hf a Ha ltac:(lia)) as [Hn Hh].
    destruct (Hstay a Ha ltac:(lia) (Hat a Hn)) as [Hav Hk]. split; [by apply nevers_insert|].
    intros [Hh'|[_ Hna]]%Hhas; [by apply Hh|by apply Hna].
  + intros a Ha [Hh|[Hmint Hna]]%Hhas.
    * assert (Hlt : (a < w_uuids w)%nat).
      { destruct (Nat.lt_ge_cases a (w_uuids w)) as [|Hge]; [done|]. by destruct (Hf a Ha Hge) as [_ []]. }
      apply nevers_insert; [by apply Hu|]. apply (Hstay a Ha ltac:(lia)), Hat. by apply Hu.
    * destruct (Ho a Ha) as [j0 Hj0]. apply Forall_lookup. intros i0 t0 Ht0.
      destruct (Nat.eq_dec i0 j) as [->|Hne].
      { rewrite list_lookup_insert_eq in Ht0 by (by eapply lookup_lt_Some). injection Ht0 as <-. cbn.
        apply one_mint_never. by rewrite Hmint in Hone. }
      rewrite list_lookup_insert_ne in Ht0 by done. apply (Hj0 i0 t0 Ht0). intros ->.
      assert (Hn : never a (th_code t)) by (by apply (Hj0 j t Hj)). rewrite Ec in Hn. by destruct Hn as [? _].
  + intros a Ha.
    destruct (Nat.eq_dec a (w_uuids w)) as [->|Hne].
    * exists j. intros i0 t0 Ht0 Hne. rewrite list_lookup_insert_ne in Ht0 by done.
      destruct (Hf (w_uuids w) Ha ltac:(lia)) as [Hn _]. exact (Forall_lookup_1 _ _ _ _ Hn Ht0).
    * destruct (Ho a Ha) as [j0 Hj0]. exists j0. intros i0 t0 Ht0 Hne0.
      destruct (Nat.eq_dec i0 j) as [->|Hnj].
      { rewrite list_lookup_insert_eq in Ht0 by (by eapply lookup_lt_Some). injection Ht0 as <-. cbn.
        apply (Hstay a Ha ltac:(by left)). by apply (Hj0 j t Hj). }
      rewrite list_lookup_insert_ne in Ht0 by done. by apply (Hj0 i0 t0 Ht0).
Qed.

Lemma uuid_inv_step n g s s' :
  distinct_uuids n -> pool_step g s s' -> (w_uuids (po_world s') <= n)%nat -> uuid_inv n s -> uuid_inv n s'.
Proof.
  intros Hd Hst Hle HI. destruct Hst as [w ts c|w ts j t t' w' Hj Hs|w ts c].
  - by apply uuid_inv_arrive.
  - by eapply uuid_inv_advance.
  - destruct HI. by split.
Qed.

Lemma uuid_inv_initial n (s : pool) : starts s -> uuid_inv n s.
Proof.
  intros [Hi Ht]. assert (Hno : forall a, ~ has a (world_tokens (po_world s))).
  { intros a (k & _ & [e He]). by rewrite Ht, lookup_empty in He. }
  unfold pool_initial in Hi. split; rewrite ?Hi; [done| | |].
  - intros a _ _. split; [constructor|done].
  - intros a _ _. constructor.
  - intros a _. exists 0%nat. intros i t Hl. by rewrite lookup_nil in Hl.
Qed.

Lemma uuid_inv_run n g (s s' : pool) :
  distinct_uuids n -> rtc (pool_step g) s s' -> (w_uuids (po_world s') <= n)%nat -> uuid_inv n s -> uuid_inv n s'.
Proof.
  intros Hd Hr. induction Hr as [|x y z Hxy Hyz IH]; [done|]. intros Hn Hi. apply IH; [done|].
  eapply uuid_inv_step; [done|exact Hxy| |done]. apply run_uuids in Hyz. lia.
Qed.

(** Once no thread can mint it, an absent key stays absent. *)
Lemma nevers_step n g a (s s' : pool) :
  distinct_uuids n -> pool_step g s s' -> (w_uuids (po_world s') <= n)%nat ->
  (a < w_uuids (po_world s))%nat -> nevers a (po_threads s) -> nevers a (po_threads s').
Proof.
  intros Hd Hst Hle Ha Hn. destruct Hst as [w ts c|w ts j t t' w' Hj Hs|w ts c]; cbn in *; [| |done].
  - apply Forall_app. split; [done|]. repeat constructor. apply code_fresh.
  - pose proof (Forall_lookup_1 _ _ _ _ Hn Hj) as Ht. cbn in Ht. unfold thread_step in Hs.
    destruct (th_code t) as [x| |T i k] eqn:Ec; [done..|].
    pose proof (exec_other n a i w Hd) as Hother. pose proof (exec_uuids i w) as Hmono.
    destruct (exec i w) as [x w1]. injection Hs as <- <-. cbn [fst snd] in *.
    destruct Ht as [_ Hnx]. apply nevers_insert; [done|]. apply Hnx, Hother; lia.
Qed.

Lemma absent_step g a key (s s' : pool) :
  pool_step g s s' -> owns a key -> nevers a (po_threads s) -> world_tokens (po_world s) !! key = None ->
  world_tokens (po_world s') !! key = None.
Proof.
  intros Hst Ho Hn Hk. destruct Hst as [w ts c|w ts j t t' w' Hj Hs|w ts c]; cbn in *; [done| |done].
  pose proof (Forall_lookup_1 _ _ _ _ Hn Hj) as Ht. cbn in Ht. unfold thread_step in Hs.
  destruct (th_code t) as [x| |T i k]; [done..|]. pose proof (exec_key a key i w Ho) as Hkey.
  destruct (exec i w) as [x w1]. injection Hs as <- <-. destruct Ht as [Hav _].
  apply eq_None_not_Some. intros [Hl|[_ Hna]]%Hkey; [by rewrite Hk in Hl; destruct Hl|by apply Hna].
Qed.

Lemma absent_run n g a key (s s' : pool) :
  distinct_uuids n -> rtc (pool_step g) s s' -> (w_uuids (po_world s') <= n)%nat -> owns a key ->
  (a < w_uuids (po_world s))%nat -> nevers a (po_threads s) -> world_tokens (po_world s) !! key = None ->
  world_tokens (po_world s') !! key = None.
Proof.
  intros Hd Hr Hle Ho. induction Hr as [|x y z Hxy Hyz IH]; [done|]. intros Ha Hn Hk.
  pose proof (run_uuids _ _ _ Hyz) as Hyz'. pose proof (step_uuids _ _ _ Hxy) as Hxy'.
  apply IH; [done|lia| |by eapply absent_step]. eapply nevers_step; [done|exact Hxy|lia|lia|done].
Qed.

(** C12: under concurrency too, a token that has left the table is gone for
    good: once a token in the table is revoked (or swept), no interleaving
    of what was in flight then and of what comes later brings it back, and
    every request that arrives afterwards presenting it is answered 401. *)
Theorem concurrent_revocation_final n g (s0 s1 s2 s : pool) a b :
  starts s0 -> rtc (pool_step g) s0 s1 ->
  (a < w_uuids (po_world s1))%nat -> is_Some (world_tokens (po_world s1) !! bearer a b) ->
  pool_step g s1 s2 -> world_tokens (po_world s2) !! bearer a b = None ->
  rtc (pool_step g) s2 s -> (w_uuids (po_world s) <= n)%nat -> distinct_uuids n ->
  world_tokens (po_world s) !! bearer a b = None /\
  forall i req now source o es,
    po_threads s2 !! i = None -> po_threads s !! i = Some (mkThread (Handle req now) (Ret (Handled o)) es) ->
    sigv4_header (rq_headers req) = None -> extract_auth (rq_headers req) = Some (bearer a b, source) ->
    exists m, o = reject UNAUTHORIZED Unauthenticated m.
Proof.
  intros H0 H01 Ha Hin H12 Hout H2s Hn Hd.
  assert (Ho : owns a (bearer a b)) by (by eexists).
  pose proof (step_uuids _ _ _ H12) as U12. pose proof (run_uuids _ _ _ H2s) as U2s.
  assert (Hnv : nevers a (po_threads s2)).
  { assert (Hi1 : uuid_inv n s1) by (eapply uuid_inv_run; [done|exact H01|lia|by apply uuid_inv_initial]).
    assert (Hn1 : nevers a (po_threads s1)) by (apply (ui_used n s1 Hi1); [lia|by eexists]).
    eapply nevers_step; [done|exact H12|lia|lia|done]. }
  assert (Hgone : forall s', rtc (pool_step g) s2 s' -> (w_uuids (po_world s') <= n)%nat ->
    world_tokens (po_world s') !! bearer a b = None).
  { intros s' Hr Hle. eapply (absent_run n g a); [done|exact Hr|done|done|lia|done|done]. }
  split; [by apply Hgone|]. intros i req now source o es Hnone Hi Hsig Hx.
  destruct (handle_linearises g s2 s i req now o es Hnone H2s Hi) as (sa & sc & Ha1 & Ha2 & Ha3 & _ & Hh).
  assert (Hsa : world_tokens (po_world sa) !! bearer a b = None).
  { apply Hgone; [done|]. apply run_uuids in Ha2, Ha3. lia. }
  destruct (handle_unknown_token g req now (bearer a b) source (mixed (po_world sa) (po_world sc)) Hsig Hx Hsa)
    as [m E]. rewrite Hh in E. exists m. by injection E as ->.
Qed.
End Revocation.

(** ** Every request is answered *)

Section Termination.
Context {J : JsonLib} {H : HttpLib} {R : RingLib} {U : UuidLib}.
Context {C A : Type} `{!CredentialStore C} `{!AuditSink A}.
Notation pool := (pool (C := C) (A := A)).

(** The program takes at most [n] instructions, whatever it is told; with
    [panics] it may end in a panic. *)
Fixpoint within (panics : bool) (n : nat) {X} (p : prog X) {struct p} : Prop :=
  match p, n with
  | Ret _, _ => True
  | Crash, _ => panics = true
  | Vis _ _, O => False
  | Vis i k, S n' => forall x, within panics n' (k x)
  end.

Lemma within_weaken b n m {X} (p : prog X) : (n <= m)%nat -> within b n p -> within b m p.
Proof.
  revert n m. induction p as [x| |T i k IH]; intros [|n] [|m] Hle; cbn; try done; try lia.
  intros Hk x. apply (IH x n); [lia|done].
Qed.

Lemma within_prog_bind b n m {X Y} (p : prog X) (f : X -> prog Y) :
  within b n p -> (forall x, within b m (f x)) -> within b (n + m) (p ≫= f).
Proof.
  intros Hp Hf. revert n Hp. induction p as [x| |T i k IH]; intros n; [|done|].
  - intros _. eapply within_weaken; [|apply Hf]. lia.
  - destruct n as [|n]; [done|]. intros Hk x. apply IH, Hk.
Qed.

(** The instructions a request takes at most. *)
Definition cost (g : Gateway) (c : request) : nat :=
  match c with
  | Handle _ _ => 3
  | Mint _ _ _ _ => 5
  | Revoke _ | Sweep _ => 1
  | Provision _ _ => 1 + 4 * length (services (router g))
  end.

(** Only the request path can panic. *)
Definition may_panic (c : request) : bool := match c with Handle _ _ => true | _ => false end.

Lemma within_provision_services ss token policy now ttl :
  within false (4 * length ss) (provision_services_code ss token policy now ttl).
Proof.
  induction ss as [|s ss IH]; [done|]. cbn [provision_services_code length].
  replace (4 * S (length ss))%nat with (4 + (4 * length ss + 0))%nat by lia.
  destruct (negb (provisioned policy s)); [eapply within_weaken; [|exact IH]; lia|].
  apply within_prog_bind; [|intros ma; by apply within_prog_bind].
  unfold mint_service_auth_code. by destruct (svc_outbound s).
Qed.

Lemma within_mint_checked g policy ttl tenant now : within false 5 (mint_checked_code g policy ttl tenant now).
Proof.
  intros []; cbn; [by destruct (validate_catalog g policy)|].
  destruct tenant as [key|]; [|done]. intros [owned|]; [|done]. cbn.
  destruct (validate_tenant_policy policy owned); [|done]. by destruct (validate_catalog g policy).
Qed.

Lemma within_lift n {X Y} (c : comp X) (f : X -> prog Y) :
  (forall x, within true n (f x)) -> within true n (prog_lift c ≫= f).
Proof. intros Hf. destruct c; [apply Hf|done]. Qed.

Lemma within_authorize g req policy src now : within true 2 (authorize_code g req policy src now).
Proof.
  unfold authorize_code. cbn zeta. destruct (route _ _) as [s|]; [|done].
  apply within_lift. intros [c|e]; [|done]. apply within_lift. intros a. destruct (decide a policy); [|done].
  unfold plan_forward_code, apply_outbound_code. destruct (svc_outbound s) as [|c1|name c1|c1 akid region aws].
  - done.
  - cbn. intros [secret|]; [|done]. cbn. by destruct (hv_from_str ("Bearer " +:+ expose secret)).
  - destruct (hn_from_bytes name); [|done]. cbn. intros [secret|]; [|done]. cbn. by destruct (hv_from_str _).
  - cbn. intros [secret|]; [|done]. match goal with |- context [prog_lift ?c] => by destruct c end.
Qed.

Lemma within_handle g req now : within true 3 (handle_code g req now).
Proof.
  apply (within_prog_bind _ 1 2).
  - unfold authenticate_code, authenticate_bearer_code, authenticate_sigv4_code.
    destruct (header_str _ _) as [auth|]; [destruct (starts_with _ auth); [destruct (parse_authorization auth)|]|].
    2: done.
    2,3: destruct (extract_auth _) as [[token source]|]; [|done]; by intros [[]|].
    intros [[policy secret]|]; [|done]. cbn -[verify].
    match goal with |- context [prog_lift ?c] => by destruct c as [[]|] end.
  - intros [[policy source]|o]; [apply within_authorize|done].
Qed.

Lemma within_code g c : within (may_panic c) (cost g c) (code g c).
Proof.
  destruct c as [req now|policy ttl tenant now|token|now|token now].
  - by apply (within_prog_bind _ 3 0); [apply within_handle|].
  - by apply (within_prog_bind _ 5 0); [apply within_mint_checked|].
  - by intros [].
  - by intros [].
  - cbn [cost]. replace (1 + 4 * length (services (router g)))%nat with (S (4 * length (services (router g)) + 0) + 0)%nat by lia.
    apply within_prog_bind; [|done]. intros [[policy t]|]; [|done].
    apply within_prog_bind; [apply within_provision_services|done].
Qed.

(** How often the scheduler picks thread [i]. *)
Definition is_advance (i : nat) (a : pick (C := C)) : bool :=
  match a with Advance j => Nat.eqb j i | _ => false end.
Definition turns (i : nat) (picks : list (pick (C := C))) : nat := length (List.filter (is_advance i) picks).

Lemma act_other g (s : pool) a i t :
  is_advance i a = false -> po_threads s !! i = Some t -> po_threads (act g s a) !! i = Some t.
Proof.
  destruct s as [w ts], a as [c|j|c]; cbn [act po_threads po_world is_advance]; [| |done].
  - intros _ Ht. destruct (base.decide (typed c)); [|done]. cbn. rewrite lookup_app_l; [done|by eapply lookup_lt_Some].
  - intros Hne Ht. apply Nat.eqb_neq in Hne. destruct (ts !! j ≫= _) as [[t' w']|]; [|done]. cbn.
    by rewrite list_lookup_insert_ne.
Qed.

Lemma act_advance b n g (s : pool) i t :
  po_threads s !! i = Some t -> within b n (th_code t) ->
  exists t', po_threads (act g s (Advance i)) !! i = Some t' /\ th_request t' = th_request t /\
    within b (pred n) (th_code t').
Proof.
  destruct s as [w ts]. cbn [act po_threads po_world]. intros Ht Hw. rewrite Ht. cbn [mbind option_bind].
  unfold thread_step. destruct (th_code t) as [x| |T j k] eqn:Ec.
  - exists t. by rewrite Ec.
  - exists t. by rewrite Ec.
  - destruct n as [|n]; [done|]. destruct (exec j w) as [x w1]. eexists. cbn.
    rewrite list_lookup_insert_eq by (by eapply lookup_lt_Some). split; [done|]. split; [done|]. apply Hw.
Qed.

Lemma schedule_within b n g picks (s : pool) i t :
  po_threads s !! i = Some t -> within b n (th_code t) ->
  exists t', po_threads (schedule g s picks) !! i = Some t' /\ th_request t' = th_request t /\
    within b (n - turns i picks) (th_code t').
Proof.
  unfold schedule, turns. revert n s t. induction picks as [|a picks IH]; intros n s t Ht Hw; cbn.
  { exists t. rewrite Nat.sub_0_r. by split_and!. }
  destruct (is_advance i a) eqn:Ea.
  - destruct a as [c|j|c]; [done| |done]. apply Nat.eqb_eq in Ea as ->.
    destruct (act_advance b n g s i t Ht Hw) as (t1 & Ht1 & <- & Hw1).
    destruct (IH _ _ _ Ht1 Hw1) as (t2 & Ht2 & E & Hw2). exists t2. split_and!; [done..|].
    eapply within_weaken; [|exact Hw2]. cbn. lia.
  - destruct (IH n _ t (act_other g s a i t Ea Ht) Hw) as (t' & Ht' & E & Hw'). by exists t'.
Qed.

(** C18: every request is answered. Whatever the scheduler interleaves with it,
    a request is finished after a number of its own instructions known when
    it arrives: 3 for the request path, 5 for a mint, 1 for a revocation or
    a sweep, and 1 and 4 more per configured service for provisioning. None
    of them waits for another, and only the request path can end in a panic
    instead of an answer. *)
Theorem requests_terminate g (s : pool) c picks :
  typed c -> (cost g c <= turns (length (po_threads s)) picks)%nat ->
  exists t, po_threads (schedule g s (Arrive c :: picks)) !! length (po_threads s) = Some t /\
    th_request t = c /\
    ((exists r, th_code t = Ret r) \/ (th_code t = Crash /\ exists req now, c = Handle req now)).
Proof.
  intros Hty Hcost. cbn [schedule fold_left act]. rewrite decide_True by done.
  destruct (schedule_within (may_panic c) (cost g c) g picks
    (mkPool (po_world s) (po_threads s ++ [mkThread c (code g c) []])) (length (po_threads s)) (mkThread c (code g c) []))
    as (t & Ht & E & Hw).
  - cbn. rewrite lookup_app_r by done. by rewrite Nat.sub_diag.
  - apply within_code.
  - exists t. split; [exact Ht|]. split; [exact E|]. replace (_ - _)%nat with 0%nat in Hw by lia.
    destruct (th_code t) as [r| |T i k]; [left; by eexists| |done]. right. split; [done|].
    destruct c; try discriminate Hw. by do 2 eexists.
Qed.
End Termination.

(** ** Witnesses *)

#[local] Existing Instance ref_json.
#[local] Existing Instance ref_http.
#[local] Existing Instance ref_ring.
#[local] Existing Instance ref_uuid.
#[local] Existing Instance ref_uuid_laws.
#[local] Existing Instance ref_request.
#[local] Existing Instance ref_body.
#[local] Existing Instance ref_json_text.

Lemma concurrent_traffic_authorised_witness :
  (respond ex_net ex_http_request (Forward ex_plan)).2 = [] \/
  exists sa policy service c action detail,
    moment ex_gateway ex_pool0 ex_pool 1 (Handle (proxy_request ex_http_request "") 2000) sa /\
    permitted ex_gateway (world_tokens (po_world sa)) (proxy_request ex_http_request "") 2000 policy service c action /\
    accepted ex_gateway (tenants_of ex_world0) policy /\
    traffic service (proxy_request ex_http_request "") c (respond ex_net ex_http_request (Forward ex_plan)).2 /\
    [ex_event] = [mkAuditEvent 2000 action DecisionAllow detail].
Proof.
  apply (concurrent_traffic_authorised ex_gateway ex_net ex_pool0 ex_pool 1);
    [split; exact eq_refl|exact ex_pool_run|exact ex_pool_forwards].
Defined.

Lemma token_table_well_typed_witness :
  table_wf ex_gateway (tenants_of ex_world0) (world_tokens (po_world ex_pool)).
Proof. apply (token_table_well_typed ex_gateway ex_pool0 ex_pool); [split; exact eq_refl|exact ex_pool_run]. Defined.

Lemma concurrent_audit_complete_witness :
  audit_events (cp_audit (w_control (po_world ex_pool))) ≡ₚ
    audit_events (cp_audit (w_control (po_world ex_pool0))) ++ pool_events ex_pool /\
  forall i t, po_threads ex_pool !! i = Some t -> audited ex_gateway t.
Proof. apply (concurrent_audit_complete ex_gateway ex_pool0 ex_pool); [exact eq_refl|exact ex_pool_run]. Defined.

(** Mint, then revoke, then a late request with the token. *)
Definition ex_picks1 : list (pick (C := InMemoryCredentials)) :=
  [Arrive (Mint ex_policy 60 (Some "tenant-a") 1000); Advance 0; Advance 0; Advance 0; Advance 0; Advance 0;
   Arrive (Revoke ex_token)].
Definition ex_pool1 : pool := schedule ex_gateway ex_pool0 ex_picks1.
Definition ex_pool2 : pool := act ex_gateway ex_pool1 (Advance 1).
Definition ex_pool3 : pool := schedule ex_gateway ex_pool2 [Arrive (Handle ex_late_request 3000); Advance 2].

Definition ex_late_outcome : Outcome :=
  reject UNAUTHORIZED Unauthenticated "unknown or expired hackamore token".

Lemma ex_pool1_drawn : w_uuids (po_world ex_pool1) = 2%nat.
Proof. hk_vm. Qed.

Lemma ex_pool3_drawn : w_uuids (po_world ex_pool3) = 2%nat.
Proof. hk_vm. Qed.

Lemma ex_pool1_live :
  world_tokens (po_world ex_pool1) !! bearer 0 1 = Some (mkEntry ex_policy 61000 None).
Proof. hk_vm. Qed.

Lemma ex_pool2_gone : world_tokens (po_world ex_pool2) !! bearer 0 1 = None.
Proof. hk_vm. Qed.

Lemma ex_pool2_fewer : po_threads ex_pool2 !! 2%nat = None.
Proof. hk_vm. Qed.

Lemma ex_pool3_late :
  po_threads ex_pool3 !! 2%nat = Some (mkThread (Handle ex_late_request 3000) (Ret (Handled ex_late_outcome)) []).
Proof. hk_vm. Qed.

Lemma ex_pool_step2 : pool_step ex_gateway ex_pool1 ex_pool2.
Proof.
  destruct (act_step ex_gateway ex_pool1 (Advance 1)) as [E|E]; [|exact E]. exfalso.
  pose proof ex_pool1_live as H1. pose proof ex_pool2_gone as H2. unfold ex_pool2 in H2.
  rewrite E, H1 in H2. discriminate H2.
Qed.

Lemma concurrent_revocation_final_witness :
  exists m, ex_late_outcome = reject UNAUTHORIZED Unauthenticated m.
Proof.
  destruct (concurrent_revocation_final 2 ex_gateway ex_pool0 ex_pool1 ex_pool2 ex_pool3 0 1) as [_ Hf].
  - split; exact eq_refl.
  - apply schedule_runs. exists ex_picks1. exact eq_refl.
  - rewrite ex_pool1_drawn. lia.
  - rewrite ex_pool1_live. by eexists.
  - exact ex_pool_step2.
  - exact ex_pool2_gone.
  - apply schedule_runs. eexists. exact eq_refl.
  - rewrite ex_pool3_drawn. lia.
  - exact ex_distinct.
  - exact (Hf 2%nat ex_late_request 3000%Z HackamoreHeader _ [] ex_pool2_fewer ex_pool3_late (proj1 ex_presents) (proj2 ex_presents)).
Defined.

Lemma requests_terminate_witness :
  exists t, po_threads (schedule ex_gateway ex_pool2 [Arrive (Provision ex_token 3000); Advance 2; Advance 2; Advance 2;
      Advance 2; Advance 2; Advance 2; Advance 2; Advance 2; Advance 2]) !! length (po_threads ex_pool2) = Some t /\
    th_request t = Provision ex_token 3000 /\
    ((exists r, th_code t = Ret r) \/ (th_code t = Crash /\ exists req now, Provision ex_token 3000 = Handle req now)).
Proof. apply requests_terminate; [unfold typed, is_u64, U64_MAX; lia|]. apply Nat.leb_le. hk_vm. Defined.
