(* ===== verification/Liveness.v ===== *)
(** What the server owes a consumer under concurrency: a request that a live
    token's policy allows is forwarded, whatever is interleaved with it, as
    long as nobody revokes the token. Programs are reasoned about by their
    weakest preconditions, over the answers the shared state may give. *)

From stdpp Require Import relations.
From S2P Require Import Prelude RustStr Canonicalize Datetime External Reference Models Policy SigV4 Service Normalize Control Gateway.
From S2P Require Import Upgrade Server System Concurrency Interleaving.

(** ** Weakest preconditions *)

Section Wp.
Context {J : JsonLib} {H : HttpLib} {R : RingLib} {U : UuidLib}.
Context {C A : Type} `{!CredentialStore C} `{!AuditSink A}.

(** Told only what [told] allows, the program answers, without a panic, and
    its answer satisfies [Q]. *)
Fixpoint wp (told : forall T, instr T -> T -> Prop) {X} (Q : X -> Prop) (p : prog X) : Prop :=
  match p with
  | Ret x => Q x
  | Crash => False
  | Vis i k => forall x, told _ i x -> wp told Q (k x)
  end.

Lemma wp_bind told {X Y} (Q : Y -> Prop) (p : prog X) (f : X -> prog Y) :
  wp told (fun x => wp told Q (f x)) p -> wp told Q (p ≫= f).
Proof. induction p as [x| |T i k IH]; [done..|]. intros Hp x Hx. by apply IH, Hp. Qed.

Lemma wp_mono told {X} (Q Q' : X -> Prop) (p : prog X) :
  (forall x, Q x -> Q' x) -> wp told Q p -> wp told Q' p.
Proof. intros HQ. induction p as [x| |T i k IH]; [apply HQ|done|]. intros Hp x Hx. by apply IH, Hp. Qed.

Lemma wp_lift told {X} (Q : X -> Prop) (c : comp X) x : c = Done x -> Q x -> wp told Q (prog_lift c).
Proof. by intros ->. Qed.
End Wp.

(** ** The request of a live token *)

Section Live.
Context {J : JsonLib} {H : HttpLib} {R : RingLib} {U : UuidLib}.
Context {C A : Type} `{!CredentialStore C} `{!AuditSink A}.

(** The answers of a server in which [key] holds [policy] until [t] and the
    vault is always one of [ok]. *)
Definition told (key : string) (policy : Policy) (t : Z) (ok : C -> Prop) T (i : instr T) : T -> Prop :=
  match i with
  | IResolve k now => fun x => k = key -> (now < t)%Z -> x = Some (policy, t)
  | ICred id => fun x => exists cr, ok cr /\ x = cred_resolve cr id
  | _ => fun _ => True
  end.

(** The request is for this service, at this canonical path, for an action
    the policy allows. *)
Definition asks (g : Gateway) (policy : Policy) (req : ProxyRequest) (service : Service) (c : CanonicalPath) : Prop :=
  route (router g) (default "" (extract_host (rq_headers req))) = Some service /\
  Canonicalize.path (rq_path req) = Done (Ok c) /\
  exists action, normalize service req (decoded c) = Done action /\ is_allow (decide action policy) = true.

(** The vault has what the service's stance needs. *)
Definition injectable (service : Service) (req : ProxyRequest) (now : Z) (cr : C) : Prop :=
  exists l detail, injects cr service req now l detail.

(** The answer forwards the request, with the secret of a vault of [ok]. *)
Definition forwards (ok : C -> Prop) (service : Service) (c : CanonicalPath) (req : ProxyRequest)
    (source : AuthSource) (now : Z) (o : Outcome) : Prop :=
  exists cr l detail, ok cr /\ injects cr service (set_path req (encoded c)) now l detail /\
    o = Forward (mkForwardPlan (upstream_url (svc_upstream_base service) (encoded c) (rq_query req))
          (rq_method req) (insert_all l (sanitize_headers (rq_headers req) source)) (rq_body req)).

Variables (key : string) (policy : Policy) (t : Z) (ok : C -> Prop).
Hypothesis some_vault : exists cr, ok cr.
Notation wp := (wp (told key policy t ok)).

(** What the vault holds, from what the stance injects. *)
Ltac vault_facts Hin cr :=
  let l := fresh "l" in let d := fresh "d" in let Hi := fresh "Hi" in
  destruct (Hin cr ltac:(assumption)) as (l & d & Hi); inversion Hi; hk_same; cbn -[sign];
  repeat match goal with
  | E : cred_resolve _ _ = Some _ |- _ => rewrite E; clear E; cbn -[sign]; rewrite ?sapp_nil_l
  | E : hv_from_str _ = Some _ |- _ => rewrite E; clear E; cbn -[sign]
  | E : sign _ _ _ _ _ _ _ _ _ = Done _ |- _ => rewrite E; clear E; cbn -[sign]
  end.

Lemma wp_apply_outbound service action req hs now :
  (forall cr, ok cr -> injectable service req now cr) ->
  wp (fun r => exists cr l d, ok cr /\ injects cr service req now l d /\ r = Ok (insert_all l hs, d))
    (apply_outbound_code service action req hs now).
Proof.
  intros Hin. unfold apply_outbound_code, resolve_header_value_code.
  destruct (svc_outbound service) as [|c|name c|c akid region aws] eqn:Eo.
  - destruct some_vault as [cr Hcr]. exists cr, [], "allowed (passthrough)". split_and!; [done|by constructor|done].
  - intros x (cr & Hcr & ->). vault_facts Hin cr. exists cr; do 2 eexists; split_and!; [done|eassumption|done].
  - destruct (hn_from_bytes name) as [n|] eqn:En.
    + intros x (cr & Hcr & ->). vault_facts Hin cr. exists cr; do 2 eexists; split_and!; [done|eassumption|done].
    + destruct some_vault as [cr Hcr]. destruct (Hin cr Hcr) as (l & d & Hi). inversion Hi; congruence.
  - intros x (cr & Hcr & ->). vault_facts Hin cr. exists cr. do 2 eexists. split; [done|]. split; [exact Hi|].
    unfold set_header. cbn [omap list_omap fst snd].
    by destruct (hv_from_str (authorization sg)), (hv_from_str (amz_date sg)), (hv_from_str (content_sha256 sg)).
Qed.

Lemma wp_authorize g req service c source now :
  asks g policy req service c ->
  (forall cr, ok cr -> injectable service (set_path req (encoded c)) now cr) ->
  wp (forwards ok service c req source now) (authorize_code g req policy source now).
Proof.
  intros (Hr & Hc & action & Hn & Hd) Hin. unfold authorize_code. cbn zeta.
  change (match extract_host (rq_headers req) with Some h => h | None => "" end)
    with (default "" (extract_host (rq_headers req))). rewrite Hr.
  apply wp_bind, (wp_lift _ _ _ _ Hc). apply wp_bind, (wp_lift _ _ _ _ Hn).
  destruct (decide action policy) as [obs|]; [|done]. apply wp_bind.
  eapply wp_mono; [|by apply wp_apply_outbound]. intros r (cr & l & d & Hcr & Hi & ->).
  intros [] _. by exists cr, l, d.
Qed.

Lemma wp_handle g req service c source now :
  sigv4_header (rq_headers req) = None -> extract_auth (rq_headers req) = Some (key, source) -> (now < t)%Z ->
  asks g policy req service c ->
  (forall cr, ok cr -> injectable service (set_path req (encoded c)) now cr) ->
  wp (forwards ok service c req source now) (handle_code g req now).
Proof.
  intros Hs Hx Ht Hask Hin. apply wp_bind.
  assert (Hb : wp (fun r => r = Ok (policy, source)) (authenticate_bearer_code req now)).
  { unfold authenticate_bearer_code. rewrite Hx. intros x Hk. by rewrite (Hk eq_refl Ht). }
  unfold authenticate_code. unfold sigv4_header in Hs.
  destruct (header_str (rq_headers req) "authorization") as [auth|]; [destruct (starts_with _ auth); [done|]|];
    (eapply wp_mono; [|exact Hb]); intros r ->; by apply wp_authorize.
Qed.
End Live.

(** ** What keeps a token alive *)

Section Attended.
Context {J : JsonLib} {H : HttpLib} {R : RingLib} {U : UuidLib} {UL : UuidLaws U}.
Context {C A : Type} `{!CredentialStore C} `{!AuditSink A}.
Notation pool := (pool (C := C) (A := A)).
Notation pick := (pick (C := C)).

(** The instruction does not take [key], which expires at [t], away. *)
Definition spares_instr (key : string) (t : Z) {T} (i : instr T) : Prop :=
  match i with IRevoke k => k <> key | ISweep now => (now < t)%Z | _ => True end.

Fixpoint spares (key : string) (t : Z) {X} (p : prog X) : Prop :=
  match p with
  | Ret _ | Crash => True
  | Vis i k => spares_instr key t i /\ forall x, spares key t (k x)
  end.

(** The request neither revokes [key] nor sweeps once it has expired. *)
Definition spares_request (key : string) (t : Z) (c : request) : Prop :=
  match c with Revoke k => k <> key | Sweep now => (now < t)%Z | _ => True end.

Lemma spares_bind key t {X Y} (p : prog X) (f : X -> prog Y) :
  spares key t p -> (forall x, spares key t (f x)) -> spares key t (p ≫= f).
Proof.
  intros Hp Hf. induction p as [x| |T i k IH]; [apply Hf|done|]. destruct Hp as [Hi Hk].
  split; [done|]. intros x. apply IH, Hk.
Qed.

Lemma follows_spares key t n {X} (p : prog X) : follows n p -> spares key t p.
Proof.
  revert n. induction p as [x| |T i k IH]; intros n; [done..|]. intros [Hi Hf]. split; [by destruct i|].
  intros x. by eapply IH, Hf.
Qed.

Lemma spares_provision_services key t ss token policy now ttl :
  spares key t (provision_services_code ss token policy now ttl).
Proof.
  induction ss as [|s ss IH]; [done|]. cbn [provision_services_code].
  destruct (negb (provisioned policy s)); [done|]. apply spares_bind.
  - unfold mint_service_auth_code. by destruct (svc_outbound s).
  - intros ma. by apply spares_bind.
Qed.

Lemma spares_code key t g c : spares_request key t c -> spares key t (code g c).
Proof.
  destruct c as [req now|policy ttl tenant now|token|now|token now]; cbn [spares_request]; intros Hc.
  - by eapply follows_spares, follows_handle.
  - apply spares_bind; [|done]. unfold mint_checked_code, authorize_mint_code. split; [done|].
    intros []; cbn; [by destruct (validate_catalog g policy)|].
    destruct tenant as [k|]; [|done]. split; [done|]. intros [owned|]; [|done]. cbn.
    destruct (validate_tenant_policy policy owned); [|done]. by destruct (validate_catalog g policy).
  - by split.
  - by split.
  - apply spares_bind; [|done]. split; [done|]. intros [[policy e]|]; [|done].
    apply spares_bind; [apply spares_provision_services|done].
Qed.

(** One instruction that avoids and spares a key keeps its entry. *)
Lemma exec_entry a key t {T} (i : instr T) (w : World C A) policy secret :
  owns a key -> avoids a i -> spares_instr key t i ->
  world_tokens w !! key = Some (mkEntry policy t secret) ->
  world_tokens (exec i w).2 !! key = Some (mkEntry policy t secret).
Proof.
  intros Ho Hav Hsp Hk. destruct i as [|u1 u2 p ttl now|u0 u1 u2 p ttl now| | |token|now| | | |]; cbn in *; try done.
  - rewrite lookup_insert_ne; [done|]. intros E. apply Hav. by rewrite E.
  - rewrite lookup_insert_ne; [done|]. intros E. rewrite <- E in Ho. by apply dummy_not_owned in Ho.
  - by rewrite lookup_delete_ne.
  - apply map_lookup_filter_Some. by split.
Qed.

Lemma exec_vault {T} (i : instr T) (w : World C A) :
  cp_credentials (w_control (exec i w).2) = cp_credentials (w_control w).
Proof. by destruct i. Qed.

Lemma exec_told key policy t secret (ok : C -> Prop) {T} (i : instr T) (w : World C A) :
  world_tokens w !! key = Some (mkEntry policy t secret) -> ok (cp_credentials (w_control w)) ->
  told key policy t ok T i (exec i w).1.
Proof.
  intros Hk Hok. destruct i; cbn; try done; [|by eexists].
  intros -> Hn. unfold tokens_resolve_full. rewrite Hk. cbn [mbind option_bind e_expires_at_ms e_policy].
  by replace (t <=? now)%Z with false by (symmetry; apply Z.leb_gt; lia).
Qed.

(** ** A pool in which a token stays alive *)

Definition pick_spares (key : string) (t : Z) (ok : C -> Prop) (a : pick) : Prop :=
  match a with Arrive c => spares_request key t c | Advance _ => True | Refresh c => ok c end.

Record attended (a : nat) (key : string) (policy : Policy) (t : Z) (secret : option string) (ok : C -> Prop)
    (s : pool) : Prop := mkAttended {
  at_drawn : (a < w_uuids (po_world s))%nat;
  at_entry : world_tokens (po_world s) !! key = Some (mkEntry policy t secret);
  at_vault : ok (cp_credentials (w_control (po_world s)));
  at_nevers : nevers a (po_threads s);
  at_spares : Forall (fun th => spares key t (th_code th)) (po_threads s);
}.

Lemma attended_act n g a key policy t secret ok (s : pool) pk :
  distinct_uuids n -> owns a key -> pick_spares key t ok pk -> (w_uuids (po_world (act g s pk)) <= n)%nat ->
  attended a key policy t secret ok s -> attended a key policy t secret ok (act g s pk).
Proof.
  intros Hd Ho Hpk Hle HA. destruct (act_step g s pk) as [->|Hst]; [done|].
  pose proof (step_uuids _ _ _ Hst) as Hmono. destruct HA as [Hdr He Hv Hn Hs].
  assert (Hn' : nevers a (po_threads (act g s pk))) by (eapply nevers_step; [done|exact Hst|done..]).
  destruct s as [w ts], pk as [c|i|c]; cbn [act po_world po_threads pick_spares] in *.
  - destruct (base.decide (typed c)); [|by split]. split; cbn in *; [done..|].
    apply Forall_app. split; [done|]. repeat constructor. by apply spares_code.
  - destruct (ts !! i) as [th|] eqn:Ei; [|by split]. cbn [mbind option_bind] in *. unfold thread_step in *.
    pose proof (Forall_lookup_1 _ _ _ _ Hn Ei) as Hth. pose proof (Forall_lookup_1 _ _ _ _ Hs Ei) as Hsp.
    cbn in Hth, Hsp. destruct (th_code th) as [x| |T j k]; [by split..|].
    destruct Hth as [Hav _], Hsp as [Hsi Hsk]. pose proof (exec_entry a key t j w policy secret Ho Hav Hsi He) as He'.
    pose proof (exec_vault j w) as Hv'. destruct (exec j w) as [x w1]. cbn in *.
    split; cbn; [lia|done|by rewrite Hv'|done|]. apply Forall_insert; [done|]. apply Hsk.
  - by split.
Qed.

(** A thread goes on being able to answer only as promised. *)
Lemma attended_thread g a key policy t secret ok (s : pool) pk i th (Q : reply -> Prop) :
  attended a key policy t secret ok s -> po_threads s !! i = Some th -> wp (told key policy t ok) Q (th_code th) ->
  exists th', po_threads (act g s pk) !! i = Some th' /\ wp (told key policy t ok) Q (th_code th').
Proof.
  intros HA Hi Hwp. destruct (is_advance i pk) eqn:Ea; [|exists th; split; [by apply act_other|done]].
  destruct pk as [c|j|c]; [done| |done]. apply Nat.eqb_eq in Ea as ->.
  destruct s as [w ts], HA as [_ He Hv _ _]. cbn [act po_world po_threads] in *. rewrite Hi. cbn [mbind option_bind].
  unfold thread_step. destruct (th_code th) as [x| |T j k] eqn:Ec; [exists th; by rewrite Ec|done|].
  pose proof (exec_told key policy t secret ok j w He Hv) as Htold. destruct (exec j w) as [x w1]. eexists. cbn.
  rewrite list_lookup_insert_eq by (by eapply lookup_lt_Some). split; [done|]. by apply Hwp.
Qed.

Lemma act_uuids g (s : pool) pk : (w_uuids (po_world s) <= w_uuids (po_world (act g s pk)))%nat.
Proof. destruct (act_step g s pk) as [->|Hst]; [done|]. by apply step_uuids in Hst. Qed.

Lemma schedule_uuids g (s : pool) picks : (w_uuids (po_world s) <= w_uuids (po_world (schedule g s picks)))%nat.
Proof.
  revert s. induction picks as [|pk picks IH]; intros s; [done|]. etransitivity; [apply (act_uuids g s pk)|apply IH].
Qed.

Lemma attended_schedule n g a key policy t secret ok (s : pool) picks i th (Q : reply -> Prop) :
  distinct_uuids n -> owns a key -> Forall (pick_spares key t ok) picks ->
  (w_uuids (po_world (schedule g s picks)) <= n)%nat -> attended a key policy t secret ok s ->
  po_threads s !! i = Some th -> wp (told key policy t ok) Q (th_code th) ->
  exists th', po_threads (schedule g s picks) !! i = Some th' /\ wp (told key policy t ok) Q (th_code th').
Proof.
  intros Hd Ho Hpks. revert s th. induction Hpks as [|pk picks Hpk Hpks IH]; intros s th Hle HA Hi Hwp; [by eexists|].
  destruct (attended_thread g a key policy t secret ok s pk i th Q HA Hi Hwp) as (th1 & Hi1 & Hwp1).
  apply (IH (act g s pk) th1); [done| |done..]. eapply attended_act; [done..| |done].
  etransitivity; [|exact Hle]. apply (schedule_uuids g (act g s pk) picks).
Qed.
(** A thread spares what its request spares, at every moment. *)
Lemma pool_spares key t g (s0 s : pool) :
  pool_initial s0 -> rtc (pool_step g) s0 s ->
  Forall (fun th => spares_request key t (th_request th) -> spares key t (th_code th)) (po_threads s).
Proof.
  intros H0 Hr. assert (Hs0 : Forall (fun th => spares_request key t (th_request th) -> spares key t (th_code th)) (po_threads s0))
    by (rewrite H0; constructor).
  clear H0. induction Hr as [|x y z Hxy _ IH]; [done|]. apply IH. clear IH.
  destruct Hxy as [w ts c Hty|w ts i th th' w' Hi Hst|w ts c]; cbn in *; [| |done].
  - apply Forall_app. split; [done|]. repeat constructor. apply spares_code.
  - apply Forall_insert; [done|]. pose proof (Forall_lookup_1 _ _ _ _ Hs0 Hi) as Hth. cbn in Hth.
    unfold thread_step in Hst. destruct (th_code th) as [x| |T j k]; [done..|].
    destruct (exec j w) as [x w1]. injection Hst as <- <-. cbn. intros Hc. apply (Hth Hc).
Qed.

(** A live token no pending request takes away is attended. *)
Lemma attended_start n g a b policy t secret ok (s0 s1 : pool) :
  starts s0 -> rtc (pool_step g) s0 s1 -> distinct_uuids n -> (w_uuids (po_world s1) <= n)%nat ->
  (a < w_uuids (po_world s1))%nat -> world_tokens (po_world s1) !! bearer a b = Some (mkEntry policy t secret) ->
  Forall (fun th => spares_request (bearer a b) t (th_request th)) (po_threads s1) ->
  ok (cp_credentials (w_control (po_world s1))) -> attended a (bearer a b) policy t secret ok s1.
Proof.
  intros H0 Hr Hd Hn Ha He Hsp Hok. split; [done..| |].
  - assert (Hi : uuid_inv n s1) by (eapply uuid_inv_run; [done|exact Hr|done|by apply uuid_inv_initial]).
    apply (ui_used n s1 Hi); [lia|]. exists (bearer a b). split; [by eexists|by rewrite He].
  - pose proof (pool_spares (bearer a b) t g s0 s1 (proj1 H0) Hr) as Hall.
    rewrite Forall_forall in *. intros th Hth. by apply Hall, Hsp.
Qed.

(** C7: a live token is served. Take a server at any moment, and a token in
    its table that expires at [t] and that no pending or later request
    revokes, nor sweeps at [t] or later. A request with that token that
    arrives before [t], for an action its policy allows on a service whose
    credential the vault keeps holding, is forwarded to that service with
    that credential once it has had three turns, whatever else the scheduler
    interleaves with it. *)
Theorem live_token_served n g a b policy t secret (ok : C -> Prop) (s0 s1 : pool) picks req now source service c :
  starts s0 -> rtc (pool_step g) s0 s1 -> (a < w_uuids (po_world s1))%nat ->
  world_tokens (po_world s1) !! bearer a b = Some (mkEntry policy t secret) ->
  Forall (fun th => spares_request (bearer a b) t (th_request th)) (po_threads s1) ->
  ok (cp_credentials (w_control (po_world s1))) ->
  Forall (pick_spares (bearer a b) t ok) picks -> (3 <= turns (length (po_threads s1)) picks)%nat ->
  is_u64 now -> (now < t)%Z ->
  sigv4_header (rq_headers req) = None -> extract_auth (rq_headers req) = Some (bearer a b, source) ->
  asks g policy req service c ->
  (forall cr, ok cr -> injectable service (set_path req (encoded c)) now cr) ->
  distinct_uuids n -> (w_uuids (po_world (schedule g s1 (Arrive (Handle req now) :: picks))) <= n)%nat ->
  exists o es,
    po_threads (schedule g s1 (Arrive (Handle req now) :: picks)) !! length (po_threads s1) =
      Some (mkThread (Handle req now) (Ret (Handled o)) es) /\
    forwards ok service c req source now o.
Proof.
  intros H0 Hr Ha He Hsp Hok Hpks Hturns Hu Ht Hs Hx Hask Hin Hd Hn.
  change (schedule g s1 (Arrive (Handle req now) :: picks)) with (schedule g (act g s1 (Arrive (Handle req now))) picks) in *.
  pose proof (act_uuids g s1 (Arrive (Handle req now))) as Hm1.
  pose proof (schedule_uuids g (act g s1 (Arrive (Handle req now))) picks) as Hm2.
  assert (HA : attended a (bearer a b) policy t secret ok (act g s1 (Arrive (Handle req now)))).
  { apply (attended_act n); [done|by eexists|done|lia|]. apply (attended_start n g a b policy t secret ok s0 s1); done || lia. }
  assert (Hi : po_threads (act g s1 (Arrive (Handle req now))) !! length (po_threads s1) =
    Some (mkThread (Handle req now) (code g (Handle req now)) [])).
  { cbn. rewrite decide_True by done. cbn. rewrite lookup_app_r by done. by rewrite Nat.sub_diag. }
  destruct (attended_schedule n g a (bearer a b) policy t secret ok _ picks _ _
    (fun r => exists o, r = Handled o /\ forwards ok service c req source now o) Hd ltac:(by eexists) Hpks Hn HA Hi)
    as (th & Hth & Hwp).
  { apply wp_bind. eapply wp_mono; [|apply wp_handle with (service := service) (c := c) (source := source); try done].
    - intros o Ho. by exists o.
    - by eexists. }
  destruct (schedule_within true 3 g picks _ _ _ Hi (within_code g (Handle req now))) as (th' & Hth' & Eq & Hw).
  rewrite Hth in Hth'. injection Hth' as <-. replace (3 - _)%nat with 0%nat in Hw by lia.
  destruct th as [rq [r| |T j k] es]; cbn [th_code th_request] in *; [|done..].
  destruct Hwp as (o & -> & Ho). exists o, es. by subst rq.
Qed.
End Attended.

(** ** Witness: a sweep, a rotation and a revocation of another token in
    between *)

#[local] Existing Instance ref_json.
#[local] Existing Instance ref_http.
#[local] Existing Instance ref_ring.
#[local] Existing Instance ref_uuid.
#[local] Existing Instance ref_uuid_laws.

Definition ex_minted_pool : pool (C := InMemoryCredentials) (A := InMemoryAudit) :=
  schedule ex_gateway ex_pool0
    [Arrive (Mint ex_policy 60 (Some "tenant-a") 1000); Advance 0; Advance 0; Advance 0; Advance 0; Advance 0].

Definition ex_rotated : InMemoryCredentials :=
  mkInMemoryCredentials {["gh-app" := mkSecret "ghs_rotated"; "aws" := mkSecret "k"]}.

Definition ex_busy : list (pick (C := InMemoryCredentials)) :=
  [Advance 1; Arrive (Sweep 2500); Advance 2; Refresh ex_rotated; Arrive (Revoke "another"); Advance 3; Advance 1; Advance 1].

(** The vault always has a header-safe secret for the service. *)
Definition ex_stocked (cr : InMemoryCredentials) : Prop :=
  exists secret v, cred_resolve cr "gh-app" = Some secret /\ hv_from_str ("Bearer " +:+ expose secret) = Some v.

Definition ex_gh : Service := with_outbound (Service_new "gh" "api.github.com" "https://api.github.com/") (Bearer "gh-app").
Definition ex_canonical : CanonicalPath :=
  match Canonicalize.path (rq_path ex_request) with Done (Ok c) => c | _ => mkCanonicalPath "" "" end.

Lemma ex_minted_drawn : w_uuids (po_world ex_minted_pool) = 2%nat.
Proof. hk_vm. Qed.

Lemma ex_minted_live : world_tokens (po_world ex_minted_pool) !! bearer 0 1 = Some (mkEntry ex_policy 61000 None).
Proof. hk_vm. Qed.

Lemma ex_minted_threads : map th_request (po_threads ex_minted_pool) = [Mint ex_policy 60 (Some "tenant-a") 1000].
Proof. hk_vm. Qed.

Lemma ex_busy_drawn :
  w_uuids (po_world (schedule ex_gateway ex_minted_pool (Arrive (Handle ex_request 2000) :: ex_busy))) = 2%nat.
Proof. hk_vm. Qed.

Lemma ex_stocked_minted : ex_stocked (cp_credentials (w_control (po_world ex_minted_pool))).
Proof. exists (mkSecret "ghs_real"), "Bearer ghs_real". split; hk_vm. Qed.

Lemma ex_stocked_rotated : ex_stocked ex_rotated.
Proof. exists (mkSecret "ghs_rotated"), "Bearer ghs_rotated". split; hk_vm. Qed.

Lemma ex_asks : asks ex_gateway ex_policy ex_request ex_gh ex_canonical.
Proof.
  split; [hk_vm|]. split; [hk_vm|].
  exists (done_or (unrouted "") (normalize ex_gh ex_request (decoded ex_canonical))). split; hk_vm.
Qed.

Lemma ex_authentic_headers :
  sigv4_header (rq_headers ex_request) = None /\
  extract_auth (rq_headers ex_request) = Some (bearer 0 1, HackamoreHeader).
Proof. split; hk_vm. Qed.

Lemma live_token_served_witness :
  exists o es,
    po_threads (schedule ex_gateway ex_minted_pool (Arrive (Handle ex_request 2000) :: ex_busy))
      !! length (po_threads ex_minted_pool) = Some (mkThread (Handle ex_request 2000) (Ret (Handled o)) es) /\
    forwards ex_stocked ex_gh ex_canonical ex_request HackamoreHeader 2000 o.
Proof.
  assert (Hl : length (po_threads ex_minted_pool) = 1%nat).
  { rewrite <- (length_map th_request), ex_minted_threads. reflexivity. }
  apply (live_token_served 2 ex_gateway 0 1 ex_policy 61000 None ex_stocked ex_pool0 ex_minted_pool).
  - split; exact eq_refl.
  - apply schedule_runs. eexists. exact eq_refl.
  - rewrite ex_minted_drawn. lia.
  - exact ex_minted_live.
  - apply (proj1 (List.Forall_map th_request (spares_request (bearer 0 1) 61000) _)). rewrite ex_minted_threads.
    repeat constructor.
  - exact ex_stocked_minted.
  - repeat constructor; cbn; [exact ex_stocked_rotated|discriminate].
  - rewrite Hl. apply Nat.leb_le. exact eq_refl.
  - unfold is_u64, U64_MAX. lia.
  - lia.
  - exact (proj1 ex_authentic_headers).
  - exact (proj2 ex_authentic_headers).
  - exact ex_asks.
  - intros cr (secret & v & Hc & Hv). do 2 eexists. by eapply injects_bearer.
  - exact ex_distinct.
  - rewrite ex_busy_drawn. lia.
Defined.
