(* ===== verification/Isolation.v ===== *)
(** What a consumer is told depends on its own key only: non-interference
    between the holders of different tokens. A history of requests may be
    purged of everything the other holders and the operators did, and the
    answers through one's own token are the same. *)

From stdpp Require Import relations.
From S2P Require Import Prelude RustStr Canonicalize Datetime External Reference Models Policy SigV4 Service Normalize Control Gateway.
From S2P Require Import Upgrade Server System Concurrency Interleaving.

Section Isolation.
Context {J : JsonLib} {H : HttpLib} {R : RingLib} {U : UuidLib} {UL : UuidLaws U}.
Context {C A : Type} `{!CredentialStore C} `{!AuditSink A}.
Notation World := (World C A).

(** The key a request on the proxy listener presents. *)
Definition presented (req : ProxyRequest) : option string :=
  match sigv4_header (rq_headers req) with
  | Some auth => p_access_key_id <$> parse_authorization auth
  | None => fst <$> extract_auth (rq_headers req)
  end.

(** The holder of [key] observes the answers to the requests that present it,
    on the proxy and on the provision endpoint, and to its own revocation. *)
Definition observed (key : string) (c : request) : bool :=
  match c with
  | Handle req _ => bool_decide (presented req = Some key)
  | Revoke token | Provision token _ => bool_decide (token = key)
  | Mint _ _ _ _ | Sweep _ => false
  end.

Definition is_sweep (c : request) : bool := match c with Sweep _ => true | _ => false end.

(** A request served: its answer, and how many UUIDs had been drawn before. *)
Record Served := mkServed {
  sv_request : request;
  sv_reply : comp reply;
  sv_drawn : nat;
}.

(** A history served. *)
Fixpoint serve_all (g : Gateway) (cs : list request) (w : World) : list Served * World :=
  match cs with
  | [] => ([], w)
  | c :: cs =>
      let rw := sequential g c w in let lw := serve_all g cs rw.2 in (mkServed c rw.1 (w_uuids w) :: lw.1, lw.2)
  end.

(** What the holder of [key] saw. *)
Definition view (key : string) (l : list Served) : list Served :=
  List.filter (fun x => observed key (sv_request x)) l.

(** The entries of a provision document, as a function of the policy and of
    the number of UUIDs drawn before: a dummy credential takes the next
    three. *)
Fixpoint services_at (ss : list Service) (token : string) (policy : Policy) (k : nat) : list ProvisionService :=
  match ss with
  | [] => []
  | s :: ss =>
      if provisioned policy s then
        let entry := mkProvisionService (svc_name s) (Flavor_name (svc_flavor s)) (svc_address s) in
        match svc_outbound s with
        | Service.Passthrough => entry Models.Passthrough (BearerAuth token) :: services_at ss token policy k
        | Bearer _ | Header _ _ => entry Inject (BearerAuth token) :: services_at ss token policy k
        | SigV4 _ _ region _ =>
            entry Inject (SigV4Auth (dummy_access_key_id (uuid_simple k)) (uuid_simple (S k) +:+ uuid_simple (S (S k))) region)
              :: services_at ss token policy (S (S (S k)))
        end
      else services_at ss token policy k
  end.

Definition doc_at (g : Gateway) (token : string) (policy : Policy) (t : Z) (k : nat) : ProvisionDoc :=
  mkProvisionDoc token (hackamore_ca_pem g) t (services_at (services (router g)) token policy k).

(** Two servers told a holder the same: the same answer, or, of a provision
    request, the same document with dummy credentials made of the UUIDs each
    server drew for it, and of nothing else. *)
Definition told (g : Gateway) (x y : Served) : Prop :=
  sv_request x = sv_request y /\
  (sv_reply x = sv_reply y \/
   exists token now policy t, sv_request x = Provision token now /\
     sv_reply x = Done (Provisioned (Some (doc_at g token policy t (sv_drawn x)))) /\
     sv_reply y = Done (Provisioned (Some (doc_at g token policy t (sv_drawn y))))).

(** Nothing but the sweeper's ticks and what the holder observes. *)
Definition purge (key : string) (cs : list request) : list request :=
  List.filter (fun c => is_sweep c || observed key c) cs.

(** Two servers that differ only in the keys others hold, in their logs and
    in the UUIDs they drew. *)
Record agree (key : string) (w1 w2 : World) : Prop := mkAgree {
  ag_entry : world_tokens w1 !! key = world_tokens w2 !! key;
  ag_vault : cp_credentials (w_control w1) = cp_credentials (w_control w2);
  ag_tenants : tenants_of w1 = tenants_of w2;
}.

#[global] Instance agree_equivalence key : Equivalence (agree key).
Proof.
  split; [by intros w|intros x y [H1 H2 H3]; by split|].
  intros x y z [H1 H2 H3] [H4 H5 H6]. split; by etransitivity.
Qed.

(** ** The holder's own requests see one entry only *)

(** The instruction reads and writes no entry but [key]'s, and draws nothing. *)
Definition concerns (key : string) {T} (i : instr T) : Prop :=
  match i with
  | IResolve k _ | IResolveSigV4 k _ | IRevoke k => k = key
  | IUuid | IMint _ _ _ _ _ | IMintSigV4 _ _ _ _ _ _ | ISweep _ => False
  | _ => True
  end.

Fixpoint about (key : string) {X} (p : prog X) : Prop :=
  match p with
  | Ret _ | Crash => True
  | Vis i k => concerns key i /\ forall x, about key (k x)
  end.

Lemma exec_agree key {T} (i : instr T) (w1 w2 : World) :
  concerns key i -> agree key w1 w2 ->
  (exec i w1).1 = (exec i w2).1 /\ agree key (exec i w1).2 (exec i w2).2.
Proof.
  intros Hc HA. pose proof HA as [He Hv Ht]. unfold world_tokens, tenants_of in *.
  destruct i as [|u1 u2 p ttl now|u0 u1 u2 p ttl now|k now|k now|k|now| |k|id|e]; cbn in *; try done; subst.
  - split; [|done]. unfold tokens_resolve_full, world_tokens. by rewrite He.
  - split; [|done]. unfold tokens_resolve_sigv4, world_tokens. by rewrite He.
  - split; [unfold world_tokens; by rewrite He|]. split; cbn; [|done..]. unfold world_tokens. cbn. by rewrite !lookup_delete_eq.
  - by rewrite Ht.
  - by rewrite Ht.
  - by rewrite Hv.
Qed.

Lemma run_agree key {X} (p : prog X) (w1 w2 : World) :
  about key p -> agree key w1 w2 -> (run p w1).1 = (run p w2).1 /\ agree key (run p w1).2 (run p w2).2.
Proof.
  revert w1 w2. induction p as [x| |T i k IH]; intros w1 w2; [done..|]. intros [Hi Hk] HA.
  cbn [run]. destruct (exec_agree key i w1 w2 Hi HA) as [Hx HA'].
  destruct (exec i w1) as [x w1'], (exec i w2) as [y w2']. cbn in Hx, HA'. subst y. by apply IH.
Qed.

Lemma about_bind key {X Y} (p : prog X) (f : X -> prog Y) :
  about key p -> (forall x, about key (f x)) -> about key (p ≫= f).
Proof.
  intros Hp Hf. induction p as [x| |T i k IH]; [apply Hf|done|]. destruct Hp as [Hi Hk].
  split; [done|]. intros x. apply IH, Hk.
Qed.

Lemma about_lift key {X} (c : comp X) : about key (prog_lift c).
Proof. by destruct c. Qed.

(** Past authentication the request path concerns no key at all. *)
Lemma follows_about key n {X} (p : prog X) : (n < 2)%nat -> follows n p -> about key p.
Proof.
  revert n. induction p as [x| |T i k IH]; intros n Hn; [done..|]. intros [Hi Hf]. split.
  - destruct i; cbn in *; done || lia.
  - intros x. eapply IH; [|apply Hf]. destruct i; cbn in *; done || lia.
Qed.

Lemma about_authenticate key req now : presented req = Some key -> about key (authenticate_code req now).
Proof.
  unfold presented, sigv4_header, authenticate_code, authenticate_bearer_code, authenticate_sigv4_code.
  assert (Hb : fst <$> extract_auth (rq_headers req) = Some key -> about key (authenticate_bearer_code req now)).
  { unfold authenticate_bearer_code. destruct (extract_auth (rq_headers req)) as [[token source]|]; [|done].
    intros [= <-]. split; [done|]. by intros [[]|]. }
  destruct (header_str (rq_headers req) "authorization") as [auth|]; [|exact Hb].
  destruct (starts_with "AWS4-HMAC-SHA256" auth); [|exact Hb].
  destruct (parse_authorization auth) as [parsed|]; [|done]. intros [= <-]. split; [done|].
  intros [[policy secret]|]; [|done]. apply about_bind; [apply about_lift|]. by intros [].
Qed.

Definition is_provision (c : request) : bool := match c with Provision _ _ => true | _ => false end.

Lemma about_observed g key c : is_provision c = false -> observed key c = true -> about key (code g c).
Proof.
  destruct c as [req now|policy ttl tenant now|token|now|token now]; cbn [observed code]; intros Hp Hc; try done;
    apply bool_decide_eq_true_1 in Hc; (apply about_bind; [|done]).
  - apply about_bind; [by apply about_authenticate|]. intros [[policy source]|o]; [|done].
    eapply follows_about; [|apply follows_authorize]. lia.
  - by split.
Qed.

Lemma agree_sweep g key now (w1 w2 : World) :
  agree key w1 w2 -> agree key (sequential g (Sweep now) w1).2 (sequential g (Sweep now) w2).2.
Proof.
  intros [He Hv Ht]. rewrite <- !run_code. split; [|done..].
  change ((tokens_sweep now (world_tokens w1)).2 !! key = (tokens_sweep now (world_tokens w2)).2 !! key).
  by rewrite !sweep_lookup, He.
Qed.

(** ** The others' requests leave that entry alone *)

Definition spares_key (key : string) {T} (i : instr T) : Prop :=
  match i with IRevoke k => k <> key | ISweep _ => False | _ => True end.

Fixpoint sparing (key : string) {X} (p : prog X) : Prop :=
  match p with
  | Ret _ | Crash => True
  | Vis i k => spares_key key i /\ forall x, sparing key (k x)
  end.

Lemma sparing_bind key {X Y} (p : prog X) (f : X -> prog Y) :
  sparing key p -> (forall x, sparing key (f x)) -> sparing key (p ≫= f).
Proof.
  intros Hp Hf. induction p as [x| |T i k IH]; [apply Hf|done|]. destruct Hp as [Hi Hk].
  split; [done|]. intros x. apply IH, Hk.
Qed.

Lemma follows_sparing key n {X} (p : prog X) : follows n p -> sparing key p.
Proof.
  revert n. induction p as [x| |T i k IH]; intros n; [done..|]. intros [Hi Hf].
  split; [by destruct i|]. intros x. eapply IH, Hf.
Qed.

Lemma sparing_provision_services key ss token policy now ttl :
  sparing key (provision_services_code ss token policy now ttl).
Proof.
  induction ss as [|s ss IH]; [done|]. cbn [provision_services_code].
  destruct (negb (provisioned policy s)); [done|]. apply sparing_bind.
  - unfold mint_service_auth_code. by destruct (svc_outbound s).
  - intros ma. by apply sparing_bind.
Qed.

Lemma sparing_provision g key token now : sparing key (provision_code g token now).
Proof.
  split; [done|]. intros [[policy e]|]; [|done]. apply sparing_bind; [apply sparing_provision_services|done].
Qed.

Lemma sparing_code g key c : is_sweep c = false -> observed key c = false -> sparing key (code g c).
Proof.
  destruct c as [req now|policy ttl tenant now|token|now|token now]; cbn [observed code]; intros Hs Ho; [| | |done|].
  - eapply follows_sparing, follows_handle.
  - apply sparing_bind; [|done]. unfold mint_checked_code, authorize_mint_code. split; [done|].
    intros []; cbn; [by destruct (validate_catalog g policy)|].
    destruct tenant as [k|]; [|done]. split; [done|]. intros [owned|]; [|done]. cbn.
    destruct (validate_tenant_policy policy owned); [|done]. by destruct (validate_catalog g policy).
  - by apply bool_decide_eq_false_1 in Ho.
  - by apply sparing_bind; [apply sparing_provision|].
Qed.

Lemma exec_spares key a {T} (i : instr T) (w : World) :
  owns a key -> avoids a i -> spares_key key i -> agree key (exec i w).2 w.
Proof.
  intros Ho Ha Hs. destruct i as [|u1 u2 p ttl now|u0 u1 u2 p ttl now| | |token|now| | | |]; cbn in *; try done;
    split; cbn; try done; unfold world_tokens; cbn.
  - apply lookup_insert_ne. intros E. apply Ha. by rewrite E.
  - apply lookup_insert_ne. intros E. eapply dummy_not_owned. by rewrite E.
  - by apply lookup_delete_ne.
Qed.

Lemma run_uuids_le {X} (p : prog X) (w : World) : (w_uuids w <= w_uuids (run p w).2)%nat.
Proof.
  revert w. induction p as [x| |T i k IH]; intros w; [done..|]. cbn [run].
  pose proof (exec_uuids i w). destruct (exec i w) as [x w']. cbn in *. specialize (IH x w'). lia.
Qed.

Lemma run_spares n key a {X} (p : prog X) (w : World) :
  distinct_uuids n -> owns a key -> (a < w_uuids w)%nat -> (w_uuids (run p w).2 <= n)%nat ->
  never a p -> sparing key p -> agree key (run p w).2 w.
Proof.
  intros Hd Ho. revert w. induction p as [x| |T i k IH]; intros w Ha Hn; [done..|]. intros [Hav Hnk] [Hs Hsk].
  cbn [run] in *. pose proof (exec_uuids i w) as Hu. pose proof (exec_spares key a i w Ho Hav Hs) as HA.
  pose proof (exec_other n a i w Hd) as Hx. destruct (exec i w) as [x w'] eqn:E. cbn [fst snd] in *.
  pose proof (run_uuids_le (k x) w'). transitivity w'; [|done]. apply IH; [lia|lia| |done]. apply Hnk, Hx; lia.
Qed.

Lemma sequential_uuids g c (w : World) : (w_uuids w <= w_uuids (sequential g c w).2)%nat.
Proof. rewrite <- run_code. apply run_uuids_le. Qed.

Lemma serve_all_uuids g cs (w : World) : (w_uuids w <= w_uuids (serve_all g cs w).2)%nat.
Proof.
  revert w. induction cs as [|c cs IH]; intros w; [done|]. cbn.
  pose proof (sequential_uuids g c w). specialize (IH (sequential g c w).2). lia.
Qed.

Lemma agree_others n g key a c (w : World) :
  distinct_uuids n -> owns a key -> (a < w_uuids w)%nat -> (w_uuids (sequential g c w).2 <= n)%nat ->
  is_sweep c = false -> observed key c = false -> agree key (sequential g c w).2 w.
Proof.
  rewrite <- run_code. intros Hd Ho Ha Hn Hs Hv. eapply run_spares; try done; [by apply code_fresh|by apply sparing_code].
Qed.

(** *** The holder's own provision requests *)

(** A program that mints no bearer token leaves the entry alone, whatever
    UUIDs it draws. *)
Lemma run_spares_mintless key a {X} (p : prog X) (w : World) :
  owns a key -> one_mint false p -> sparing key p -> agree key (run p w).2 w.
Proof.
  intros Ho. revert w. induction p as [x| |T i k IH]; intros w; [done..|]. intros [Hm Hmk] [Hs Hsk].
  assert (Hi : is_mint i = false) by (destruct (is_mint i); [by discriminate Hm|done]). rewrite Hi in Hmk.
  assert (Ha : avoids a i) by (by destruct i).
  cbn [run]. pose proof (exec_spares key a i w Ho Ha Hs) as HA. destruct (exec i w) as [x w']. cbn in HA.
  transitivity w'; [|done]. by apply IH.
Qed.

Lemma run_services_at ss token policy now ttl (w : World) :
  (run (provision_services_code ss token policy now ttl) w).1 = Done (services_at ss token policy (w_uuids w)).
Proof.
  revert w. induction ss as [|s ss IH]; intros w; [done|]. cbn [provision_services_code services_at].
  destruct (provisioned policy s); cbn [negb]; [|apply IH].
  assert (Ht : forall e w', (run (rest ← provision_services_code ss token policy now ttl; mret (e :: rest)) w').1 =
    Done (e :: services_at ss token policy (w_uuids w'))).
  { intros e w'. rewrite run_bind, eff_bind_unfold. specialize (IH w').
    destruct (run _ w') as [r w2]. cbn in IH. by subst r. }
  rewrite run_bind, eff_bind_unfold. unfold mint_service_auth_code. destruct (svc_outbound s); exact (Ht _ _).
Qed.

Lemma provision_told g key now (w : World) :
  (sequential g (Provision key now) w).1 =
    Done (Provisioned ('(policy, t) ← tokens_resolve_full key now (world_tokens w); Some (doc_at g key policy t (w_uuids w)))).
Proof.
  rewrite <- run_code. cbn [code]. rewrite run_bind, eff_bind_unfold. unfold provision_code.
  cbn [call mbind prog_bind prog_bind_go run exec]. destruct (tokens_resolve_full key now (world_tokens w)) as [[policy t]|]; [|done].
  rewrite run_bind, eff_bind_unfold. pose proof (run_services_at (services (router g)) key policy now (ttl_remaining now t) w) as E.
  destruct (run _ w) as [r w']. cbn in E. by subst r.
Qed.

Lemma agree_provision g key a now (w : World) :
  owns a key -> agree key (sequential g (Provision key now) w).2 w.
Proof.
  intros Ho. rewrite <- run_code. apply (run_spares_mintless key a); [done| |].
  - apply one_mint_bind; [apply one_mint_provision|done].
  - by apply sparing_bind; [apply sparing_provision|].
Qed.

Lemma agree_observed g key a c (w1 w2 : World) :
  owns a key -> observed key c = true -> agree key w1 w2 ->
  told g (mkServed c (sequential g c w1).1 (w_uuids w1)) (mkServed c (sequential g c w2).1 (w_uuids w2)) /\
  agree key (sequential g c w1).2 (sequential g c w2).2.
Proof.
  intros Ho Hc HA. destruct (is_provision c) eqn:Ep.
  - destruct c as [| | | |token now]; try done. apply bool_decide_eq_true_1 in Hc as ->. split.
    + split; [done|]. cbn [sv_request sv_reply sv_drawn]. rewrite !provision_told. unfold tokens_resolve_full.
      rewrite (ag_entry _ _ _ HA). destruct (world_tokens w2 !! key) as [e|]; [|by left]. cbn [mbind option_bind].
      destruct (e_expires_at_ms e <=? now)%Z; [by left|]. right. by do 4 eexists.
    + transitivity w1; [by eapply agree_provision|]. transitivity w2; [done|]. symmetry. by eapply agree_provision.
  - rewrite <- !run_code. destruct (run_agree key (code g c) w1 w2) as [E HA']; [by apply about_observed|done|].
    split; [|done]. split; [done|]. by left.
Qed.

(** Serving a history and serving its purge keep two servers in agreement. *)
Lemma view_purge n key a g cs (w1 w2 : World) :
  distinct_uuids n -> owns a key -> (a < w_uuids w1)%nat -> (w_uuids (serve_all g cs w1).2 <= n)%nat ->
  agree key w1 w2 ->
  Forall2 (told g) (view key (serve_all g cs w1).1) (view key (serve_all g (purge key cs) w2).1) /\
  agree key (serve_all g cs w1).2 (serve_all g (purge key cs) w2).2.
Proof.
  intros Hd Ho. revert w1 w2. induction cs as [|c cs IH]; intros w1 w2 Ha Hn HA; [by split; [constructor|]|].
  unfold purge, view in *. cbn in Hn |- *.
  pose proof (sequential_uuids g c w1) as Hu. pose proof (serve_all_uuids g cs (sequential g c w1).2) as Hu'.
  assert (Ha' : (a < w_uuids (sequential g c w1).2)%nat) by lia.
  destruct (is_sweep c) eqn:Es; [|destruct (observed key c) eqn:Eo]; cbn [orb List.filter serve_all fst snd sv_request].
  - destruct c; try done. cbn [observed]. apply IH; [exact Ha'|exact Hn|]. by apply agree_sweep.
  - rewrite Eo. destruct (agree_observed g key a c w1 w2 Ho Eo HA) as [Ht HA'].
    destruct (IH _ _ Ha' Hn HA') as [E Hf]. split; [by constructor|done].
  - apply IH; [exact Ha'|exact Hn|]. transitivity w1; [|done]. eapply agree_others; try done. lia.
Qed.

(** C6: one consumer's token is no channel from another. Take any bearer
    token minted so far, and any history. Whatever is done between the
    requests that present it (mints, provisioned credentials, requests and
    revocations of other keys, refusals, panics), its holder is told, on the
    proxy, by the provision endpoint and of its own revocation, exactly what
    it would be told had none of that happened, panics included, except that
    a dummy credential provisioned for it is made of the next three UUIDs
    drawn; and what the token grants afterwards is the same. Only the token's
    own revocation and the sweeper's ticks are kept. *)
Theorem keys_isolated n g key a cs (w : World) :
  distinct_uuids n -> owns a key -> (a < w_uuids w)%nat -> (w_uuids (serve_all g cs w).2 <= n)%nat ->
  Forall2 (told g) (view key (serve_all g cs w).1) (view key (serve_all g (purge key cs) w).1) /\
  world_tokens (serve_all g cs w).2 !! key = world_tokens (serve_all g (purge key cs) w).2 !! key.
Proof. intros Hd Ho Ha Hn. by destruct (view_purge n key a g cs w w Hd Ho Ha Hn (reflexivity w)) as [Hv []]. Qed.
End Isolation.

(** ** Witness: other holders mint, sign on and are revoked in between *)

#[local] Existing Instance ref_json.
#[local] Existing Instance ref_http.
#[local] Existing Instance ref_ring.
#[local] Existing Instance ref_uuid.
#[local] Existing Instance ref_uuid_laws.

(** The holder of the example token sees its request forwarded, a provision
    document, its token revoked and a refusal. *)
Definition ex_history : list request :=
  [Mint ex_policy 60 (Some "tenant-a") 1500; Handle ex_request 2000; Revoke "another"; Sweep 2500;
   Provision "another" 2600; Provision ex_token 2700; Revoke ex_token; Handle ex_request 3000].

Definition ex_history_end : World InMemoryCredentials InMemoryAudit := (serve_all ex_gateway ex_history ex_world).2.

Lemma ex_distinct_more : distinct_uuids 8.
Proof.
  intros i j Hi Hj E. unfold uuid_simple, ref_uuid in E. rewrite !Z.mod_small in E by lia.
  do 8 (destruct i as [|i]; [do 8 (destruct j as [|j]; [first [reflexivity|vm_compute in E; discriminate E]|]); lia|]). lia.
Qed.

Lemma ex_history_drawn : (w_uuids ex_history_end <= 8)%nat.
Proof. vm_compute. lia. Qed.

Lemma keys_isolated_witness :
  Forall2 (told ex_gateway) (view ex_token (serve_all ex_gateway ex_history ex_world).1)
    (view ex_token (serve_all ex_gateway (purge ex_token ex_history) ex_world).1) /\
  world_tokens (serve_all ex_gateway ex_history ex_world).2 !! ex_token =
    world_tokens (serve_all ex_gateway (purge ex_token ex_history) ex_world).2 !! ex_token.
Proof.
  apply (keys_isolated 8 ex_gateway ex_token 0); [exact ex_distinct_more|eexists; exact eq_refl|rewrite ex_drawn; lia|exact ex_history_drawn].
Defined.

(** What that view is: the history purged has four requests of eight left
    to the holder, and a sweep. *)
Example ex_purged : map (observed ex_token) (purge ex_token ex_history) = [true; false; true; true; true].
Proof. vm_compute. reflexivity. Qed.
