(* ===== verification/Provenance.v ===== *)
(** Where capabilities come from, under every interleaving of the programs of
    [Concurrency]: a postcondition for one thread over the instructions it
    really executed, what the mint and provision endpoints then answer, and
    the derivation of every token in the table from the requests served. *)

From stdpp Require Import relations.
From S2P Require Import Prelude RustStr Canonicalize Datetime External Reference Models Policy SigV4 Service Normalize Control Gateway.
From S2P Require Import Upgrade Server System Concurrency Interleaving.

(** ** What one thread is told *)

Section Thread.
Context {J : JsonLib} {H : HttpLib} {R : RingLib} {U : UuidLib}.
Context {C A : Type} `{!CredentialStore C} `{!AuditSink A}.
Notation pool := (pool (C := C) (A := A)).
Variables (g : Gateway) (s0 s : pool).

(** In the run from [s0] to [s], the request of thread [i] took the
    instruction [j] and was told [x], between two moments. *)
Definition answered (i : nat) (c : request) {T} (j : instr T) (x : T) : Prop :=
  exists sa sb, moment g s0 s i c sa /\ moment g s0 s i c sb /\ pool_step g sa sb /\
    exec j (po_world sa) = (x, po_world sb).

(** Whatever the program is told in that run, it answers a [Q]. *)
Fixpoint leads (i : nat) (c : request) {X} (Q : X -> Prop) (p : prog X) : Prop :=
  match p with
  | Ret x => Q x
  | Crash => True
  | Vis j k => forall x, answered i c j x -> leads i c Q (k x)
  end.

Lemma leads_mono i c {X} (P Q : X -> Prop) (p : prog X) : (forall x, P x -> Q x) -> leads i c P p -> leads i c Q p.
Proof. intros HPQ. induction p as [x| |T j k IH]; cbn; [auto|done|]. intros Hp x Hx. by apply IH, Hp. Qed.

Lemma leads_bind i c {X Y} (Q : Y -> Prop) (p : prog X) (f : X -> prog Y) :
  leads i c (fun x => leads i c Q (f x)) p -> leads i c Q (p ≫= f).
Proof. induction p as [x| |T j k IH]; [done..|]. cbn. intros Hp x Hx. by apply IH, Hp. Qed.

(** A thread's postcondition holds of what it answers. *)
Lemma leads_sound (Q : request -> reply -> nat -> Prop) :
  pool_initial s0 -> rtc (pool_step g) s0 s ->
  (forall i c, leads i c (fun r => Q c r i) (code g c)) ->
  forall i c r es, po_threads s !! i = Some (mkThread c (Ret r) es) -> Q c r i.
Proof.
  intros H0 Hr Hq.
  assert (Hinv : forall x, rtc (pool_step g) s0 x -> rtc (pool_step g) x s -> forall i t,
    po_threads x !! i = Some t -> leads i (th_request t) (fun r => Q (th_request t) r i) (th_code t)).
  { intros x Hx. refine (rtc_ind_r (fun x => rtc (pool_step g) x s -> forall i t, po_threads x !! i = Some t ->
      leads i (th_request t) (fun r => Q (th_request t) r i) (th_code t)) s0 _ _ x Hx).
    { intros _ i t Ht. unfold pool_initial in H0. by rewrite H0, lookup_nil in Ht. }
    clear x Hx. intros x y Hx Hst IH Hy i t Ht.
    assert (Hxs : rtc (pool_step g) x s) by (eapply rtc_l; [exact Hst|exact Hy]). specialize (IH Hxs).
    assert (Hyr : rtc (pool_step g) s0 y) by (eapply rtc_r; [exact Hx|exact Hst]). pose proof Hst as Hst'.
    destruct Hst as [w ts c Hty|w ts j t0 t' w' Hj Hs|w ts c]; cbn [po_threads] in *; [| |by apply IH].
    - apply lookup_app_Some in Ht as [Ht|[_ Ht]]; [by apply IH|].
      apply list_lookup_singleton_Some in Ht as [_ <-]. apply Hq.
    - destruct (Nat.eq_dec i j) as [->|Hne]; [|rewrite list_lookup_insert_ne in Ht by done; by apply IH].
      rewrite list_lookup_insert_eq in Ht by (by eapply lookup_lt_Some). injection Ht as ->.
      specialize (IH j t0 Hj). unfold thread_step in Hs. destruct (th_code t0) as [x0| |T i k] eqn:Ec; [done..|].
      destruct (exec i w) as [x w1] eqn:Ex. injection Hs as <- <-. cbn [th_request th_code] in *. apply IH.
      exists (mkPool w ts), (mkPool w1 (<[j := mkThread (th_request t0) (k x) (th_events t0 ++ emits i)]> ts)).
      split; [by split_and!; [..|exists t0]|]. split; [|by split].
      split_and!; [done|done|]. eapply pool_step_serves; [exact Hst'|by exists t0]. }
  intros i c r es Hi. exact (Hinv s Hr (rtc_refl _ _) i _ Hi).
Qed.

(** *** What an answer says *)

Lemma answered_empty i c b : starts s0 -> answered i c ITenantsEmpty b -> b = tenants_is_empty (tenants_of (po_world s0)).
Proof.
  intros Hs (sa & sb & (H1 & _) & _ & _ & [= <- _]). by destruct (pool_inv_reachable g s0 sa Hs H1) as [_ <- _].
Qed.

Lemma answered_owned i c key o :
  starts s0 -> answered i c (ITenantsOwned key) o -> o = tenants_owned key (tenants_of (po_world s0)).
Proof.
  intros Hs (sa & sb & (H1 & _) & _ & _ & [= <- _]). by destruct (pool_inv_reachable g s0 sa Hs H1) as [_ <- _].
Qed.

Lemma answered_uuid i c x : answered i c IUuid x -> exists n, x = uuid_simple n.
Proof. intros (sa & sb & _ & _ & _ & [= <- _]). eauto. Qed.

Definition held (i : nat) (c : request) (key : string) (e : Entry) : Prop :=
  exists sa, moment g s0 s i c sa /\ world_tokens (po_world sa) !! key = Some e.

Lemma answered_mint i c u1 u2 policy ttl now r :
  answered i c (IMint u1 u2 policy ttl now) r ->
  r = mkMintResponse (u1 +:+ u2) (expiry ttl now) /\ held i c (u1 +:+ u2) (mkEntry policy (expiry ttl now) None).
Proof.
  intros (sa & sb & _ & Hb & _ & E). injection E as <- E. split; [done|]. exists sb. split; [done|]. rewrite <- E.
  apply lookup_insert_eq.
Qed.

Lemma answered_dummy i c u0 u1 u2 policy ttl now r :
  answered i c (IMintSigV4 u0 u1 u2 policy ttl now) r ->
  r = mkSigV4Mint (dummy_access_key_id u0) (u1 +:+ u2) (expiry ttl now) /\
  held i c (dummy_access_key_id u0) (mkEntry policy (expiry ttl now) (Some (u1 +:+ u2))).
Proof.
  intros (sa & sb & _ & Hb & _ & E). injection E as <- E. split; [done|]. exists sb. split; [done|]. rewrite <- E.
  apply lookup_insert_eq.
Qed.

Lemma answered_resolve i c token now r :
  answered i c (IResolve token now) r ->
  exists sa, moment g s0 s i c sa /\ r = tokens_resolve_full token now (world_tokens (po_world sa)).
Proof. intros (sa & sb & Ha & _ & _ & [= <- _]). eauto. Qed.
End Thread.

(** ** What the endpoints answer *)

Section Answers.
Context {J : JsonLib} {H : HttpLib} {R : RingLib} {U : UuidLib}.
Context {C A : Type} `{!CredentialStore C} `{!AuditSink A}.
Notation pool := (pool (C := C) (A := A)).
Variables (g : Gateway) (s0 s : pool).

(** The checks of a mint, in their order. *)
Definition gate (tn : Tenants) (policy : Policy) (tenant : option string) : result unit MintError :=
  try _ := authorize_mint tn policy tenant in validate_catalog g policy.

(** An entry of a provision document: a service the policy reaches, with the
    holder's own token, or a dummy credential that was put in the table. *)
Definition provisioned_at (i : nat) (c : request) (token : string) (policy : Policy) (t : Z)
    (srv : Service) (e : ProvisionService) : Prop :=
  ps_target e = svc_name srv /\ ps_flavor e = Flavor_name (svc_flavor srv) /\ ps_address e = svc_address srv /\
  match svc_outbound srv with
  | Service.Passthrough => ps_mode e = Models.Passthrough /\ ps_auth e = BearerAuth token
  | Bearer _ | Header _ _ => ps_mode e = Inject /\ ps_auth e = BearerAuth token
  | SigV4 _ _ region _ => exists n a b, ps_mode e = Inject /\
      ps_auth e = SigV4Auth (dummy_access_key_id (uuid_simple n)) (bearer a b) region /\
      held g s0 s i c (dummy_access_key_id (uuid_simple n)) (mkEntry policy t (Some (bearer a b)))
  end.

Definition mint_post (i : nat) (policy : Policy) (ttl : Z) (tenant : option string) (now : Z)
    (r : result MintResponse MintError) : Prop :=
  match gate (tenants_of (po_world s0)) policy tenant with
  | Err e => r = Err e
  | Ok _ => exists a b, r = Ok (mkMintResponse (bearer a b) (expiry ttl now)) /\
      held g s0 s i (Mint policy ttl tenant now) (bearer a b) (mkEntry policy (expiry ttl now) None)
  end.

Definition provision_post (i : nat) (token : string) (now : Z) (d : option ProvisionDoc) : Prop :=
  exists sa, moment g s0 s i (Provision token now) sa /\
  match tokens_resolve_full token now (world_tokens (po_world sa)) with
  | None => d = None
  | Some (policy, t) => exists svcs, d = Some (mkProvisionDoc token (hackamore_ca_pem g) t svcs) /\
      Forall2 (provisioned_at i (Provision token now) token policy (expiry (ttl_remaining now t) now))
        (List.filter (provisioned policy) (services (router g))) svcs
  end.

Definition revoke_post (i : nat) (token : string) (b : bool) : Prop :=
  exists sa sb, moment g s0 s i (Revoke token) sa /\ pool_step g sa sb /\ rtc (pool_step g) sb s /\
    b = bool_decide (is_Some (world_tokens (po_world sa) !! token)) /\
    world_tokens (po_world sb) = delete token (world_tokens (po_world sa)).

Definition post (c : request) (r : reply) (i : nat) : Prop :=
  match c, r with
  | Mint policy ttl tenant now, Minted r => mint_post i policy ttl tenant now r
  | Provision token now, Provisioned d => provision_post i token now d
  | Revoke token, Revoked b => revoke_post i token b
  | Handle _ _, Handled _ | Sweep _, Swept _ => True
  | _, _ => False
  end.

Lemma leads_mint i policy ttl tenant now :
  starts s0 ->
  leads g s0 s i (Mint policy ttl tenant now) (mint_post i policy ttl tenant now) (mint_checked_code g policy ttl tenant now).
Proof.
  intros Hs. unfold mint_checked_code. apply leads_bind. set (k := fun a : result unit MintError => _).
  assert (Hk : k (authorize_mint (tenants_of (po_world s0)) policy tenant)).
  { unfold k, mint_post, gate. destruct (authorize_mint _ policy tenant) as [[]|e]; [|done].
    destruct (validate_catalog g policy) as [[]|e]; [|done].
    intros u1 [a ->]%answered_uuid u2 [b ->]%answered_uuid r [-> Hh]%answered_mint. by exists a, b. }
  unfold authorize_mint_code, authorize_mint in *. intros e ->%answered_empty; [|done].
  destruct (tenants_is_empty _); [exact Hk|]. destruct tenant as [key|]; [|exact Hk].
  intros o ->%answered_owned; [|done]. by destruct (tenants_owned key _).
Qed.

Lemma leads_provision_services i c ss token policy now ttl :
  leads g s0 s i c (Forall2 (provisioned_at i c token policy (expiry ttl now)) (List.filter (provisioned policy) ss))
    (provision_services_code ss token policy now ttl).
Proof.
  induction ss as [|srv ss IH]; [constructor|]. cbn [provision_services_code List.filter].
  destruct (provisioned policy srv); cbn [negb]; [|exact IH]. apply leads_bind.
  assert (Hrest : forall ma, provisioned_at i c token policy (expiry ttl now) srv
      (mkProvisionService (svc_name srv) (Flavor_name (svc_flavor srv)) (svc_address srv) ma.1 ma.2) ->
    leads g s0 s i c (Forall2 (provisioned_at i c token policy (expiry ttl now)) (srv :: List.filter (provisioned policy) ss))
      (rest ← provision_services_code ss token policy now ttl;
       mret (mkProvisionService (svc_name srv) (Flavor_name (svc_flavor srv)) (svc_address srv) ma.1 ma.2 :: rest))).
  { intros ma Hma. apply leads_bind. eapply leads_mono; [|exact IH]. intros l Hl. by constructor. }
  unfold provisioned_at in Hrest at 1. unfold mint_service_auth_code.
  destruct (svc_outbound srv) as [| | |cr ak region aws]; [by apply Hrest..|].
  intros u0 [n ->]%answered_uuid u1 [a ->]%answered_uuid u2 [b ->]%answered_uuid r [-> Hh]%answered_dummy.
  apply Hrest. split_and!; [done..|]. by exists n, a, b.
Qed.

Lemma leads_code i c : starts s0 -> leads g s0 s i c (fun r => post c r i) (code g c).
Proof.
  intros Hs. destruct c as [req now|policy ttl tenant now|token|now|token now]; cbn [code].
  - apply leads_bind. generalize (handle_code g req now). intros p. induction p as [x| |T j k IH]; [done..|]. intros x _. apply IH.
  - apply leads_bind. eapply leads_mono; [|by apply leads_mint]. by intros r.
  - intros b (sa & sb & Ha & (_ & Hb & _) & Hst & E). injection E as <- E. exists sa, sb. split_and!; try done. by rewrite <- E.
  - by intros n.
  - apply leads_bind. intros r (sa & Ha & ->)%answered_resolve.
    destruct (tokens_resolve_full token now (world_tokens (po_world sa))) as [[policy t]|] eqn:E.
    + apply leads_bind. eapply leads_mono; [|apply leads_provision_services]. intros svcs Hsv. exists sa. split; [done|].
      rewrite E. by exists svcs.
    + exists sa. by rewrite E.
Qed.

Lemma answers_post i c r es :
  starts s0 -> rtc (pool_step g) s0 s -> po_threads s !! i = Some (mkThread c (Ret r) es) -> post c r i.
Proof.
  intros Hs Hr. apply (leads_sound g s0 s post (proj1 Hs) Hr). intros j c'. by apply leads_code.
Qed.
End Answers.

(** ** Where a capability comes from *)

Section Derivation.
Context {J : JsonLib} {H : HttpLib} {R : RingLib} {U : UuidLib}.
Context {C A : Type} `{!CredentialStore C} `{!AuditSink A}.
Notation pool := (pool (C := C) (A := A)).

Section Granted.
Variables (g : Gateway) (tn : Tenants) (asked : request -> Prop).

(** [granted key policy t secret]: the requests asked for account for a key
    with this policy, expiry and secret. A bearer token was asked for by a
    mint that passed the checks; a dummy credential by a provisioning with a
    key that is itself accounted for and had not expired, whose policy
    reaches a service signed with SigV4. *)
Inductive granted : string -> Policy -> Z -> option string -> Prop :=
| granted_mint policy ttl tenant now a b :
    asked (Mint policy ttl tenant now) -> gate g tn policy tenant = Ok tt ->
    granted (bearer a b) policy (expiry ttl now) None
| granted_dummy token now policy t secret srv cr akid region aws n a b :
    asked (Provision token now) -> granted token policy t secret -> (now < t)%Z ->
    srv ∈ services (router g) -> svc_outbound srv = SigV4 cr akid region aws -> provisioned policy srv = true ->
    granted (dummy_access_key_id (uuid_simple n)) policy (expiry (ttl_remaining now t) now) (Some (bearer a b)).

(** Whoever holds a key, some mint that passed the checks asked for its policy. *)
Lemma granted_asked key policy t secret :
  granted key policy t secret ->
  exists ttl tenant now, asked (Mint policy ttl tenant now) /\ gate g tn policy tenant = Ok tt.
Proof. induction 1; eauto. Qed.

Definition grants (key : string) (e : Entry) : Prop := granted key (e_policy e) (e_expires_at_ms e) (e_secret e).

(** A program that inserts accounted entries only, in a server whose table
    is accounted for. *)
Definition inserts {T} (i : instr T) : Prop :=
  match i with
  | IMint u1 u2 p ttl now => grants (u1 +:+ u2) (mkEntry p (expiry ttl now) None)
  | IMintSigV4 u0 u1 u2 p ttl now => grants (dummy_access_key_id u0) (mkEntry p (expiry ttl now) (Some (u1 +:+ u2)))
  | _ => True
  end.

Definition tells {T} (i : instr T) : T -> Prop :=
  match i with
  | IUuid => fun x => exists n, x = uuid_simple n
  | IResolve token now => fun r => forall p t, r = Some (p, t) -> (now < t)%Z /\ exists secret, granted token p t secret
  | ITenantsEmpty => fun b => b = tenants_is_empty tn
  | ITenantsOwned key => fun r => r = tenants_owned key tn
  | _ => fun _ => True
  end.

Fixpoint accounted {X} (p : prog X) : Prop :=
  match p with
  | Ret _ | Crash => True
  | Vis i k => inserts i /\ forall x, tells i x -> accounted (k x)
  end.

Lemma accounted_bind {X Y} (m : prog X) (f : X -> prog Y) : accounted m -> (forall x, accounted (f x)) -> accounted (m ≫= f).
Proof.
  induction m as [x| |T i k IH]; [intros _ Hf; apply Hf|done|]. intros [Hm Hk] Hf. split; [done|].
  intros x Hx. apply IH; [by apply Hk|done].
Qed.

Lemma follows_accounted {X} n (p : prog X) : follows n p -> accounted p.
Proof.
  revert n. induction p as [x| |T i k IH]; intros n; [done..|]. intros [Hi Hf].
  split; [by destruct i|]. intros x _. by eapply IH.
Qed.

Lemma accounted_mint policy ttl tenant now :
  asked (Mint policy ttl tenant now) -> accounted (mint_checked_code g policy ttl tenant now).
Proof.
  intros Hask. set (k := fun a : result unit MintError => match a with
    | Err e => mret (Err e)
    | Ok _ => match validate_catalog g policy with Err e => mret (Err e) | Ok _ => r ← mint_code policy ttl now; mret (Ok r) end
    end : prog (result MintResponse MintError)).
  assert (Hk : accounted (k (authorize_mint tn policy tenant))).
  { unfold k. destruct (authorize_mint tn policy tenant) as [[]|e] eqn:Ea; [|done].
    destruct (validate_catalog g policy) as [[]|e] eqn:Ev; [|done].
    split; [done|]. intros u1 [a ->]. split; [done|]. intros u2 [b ->]. split; [|done].
    eapply granted_mint; [exact Hask|]. unfold gate. cbn [e_policy]. by rewrite Ea. }
  unfold mint_checked_code, authorize_mint_code, authorize_mint in *. split; [done|]. intros e ->.
  destruct (tenants_is_empty tn); [exact Hk|]. destruct tenant as [key|]; [|exact Hk].
  split; [done|]. intros o ->. by destruct (tenants_owned key tn).
Qed.

Lemma accounted_provision_services ss token now policy t secret :
  asked (Provision token now) -> granted token policy t secret -> (now < t)%Z ->
  (forall srv, srv ∈ ss -> srv ∈ services (router g)) ->
  accounted (provision_services_code ss token policy now (ttl_remaining now t)).
Proof.
  intros Hask Hgr Hlt. induction ss as [|srv ss IH]; intros Hin; [done|]. cbn [provision_services_code].
  assert (Hss : accounted (provision_services_code ss token policy now (ttl_remaining now t))).
  { apply IH. intros x Hx. apply Hin. by right. }
  destruct (provisioned policy srv) eqn:Ep; cbn [negb]; [|done]. apply accounted_bind; [|intros ma; by apply accounted_bind].
  unfold mint_service_auth_code. destruct (svc_outbound srv) as [| | |cr ak region aws] eqn:Eo; [done..|].
  split; [done|]. intros u0 [n ->]. split; [done|]. intros u1 [a ->]. split; [done|]. intros u2 [b ->].
  split; [|done]. eapply granted_dummy; [exact Hask|exact Hgr|done|apply Hin; left|exact Eo|exact Ep].
Qed.

Lemma accounted_code c : asked c -> accounted (code g c).
Proof.
  destruct c as [req now|policy ttl tenant now|token|now|token now]; cbn [code]; intros Hask.
  - eapply follows_accounted, follows_handle.
  - apply accounted_bind; [by apply accounted_mint|done].
  - done.
  - done.
  - apply accounted_bind; [|done]. split; [done|]. intros [[policy t]|] Hr; [|done].
    destruct (Hr policy t eq_refl) as [Hlt [secret Hg]]. apply accounted_bind; [|done].
    by eapply accounted_provision_services.
Qed.

Lemma exec_tells {T} (i : instr T) (w : World C A) :
  map_Forall grants (world_tokens w) -> tenants_of w = tn -> tells i (exec i w).1.
Proof.
  intros Ht Hn. destruct i as [| | |token now| | | | | | |]; cbn; try done; try (by rewrite <- Hn); [by eexists|].
  unfold tokens_resolve_full. intros p t. destruct (world_tokens w !! token) as [e|] eqn:E; [|done].
  cbn [mbind option_bind]. destruct (Z.leb_spec (e_expires_at_ms e) now); [done|]. intros [= <- <-].
  split; [done|]. exists (e_secret e). exact (Ht _ _ E).
Qed.

Lemma exec_grants {T} (i : instr T) (w : World C A) :
  map_Forall grants (world_tokens w) -> inserts i -> map_Forall grants (world_tokens (exec i w).2).
Proof.
  intros Ht Hi. destruct i as [|u1 u2 p ttl now|u0 u1 u2 p ttl now| | |token|now| | | |]; try done.
  - by apply map_Forall_insert_2.
  - by apply map_Forall_insert_2.
  - by apply map_Forall_delete.
  - intros k e [Hk _]%map_lookup_filter_Some. by apply Ht.
Qed.
End Granted.

(** The requests of a pool, so far. *)
Definition asked_of (s : pool) (c : request) : Prop := exists i, serves i c s.

Lemma run_serves g i c (s s' : pool) : rtc (pool_step g) s s' -> serves i c s -> serves i c s'.
Proof. induction 1 as [|x y z Hxy _ IH]; [done|]. intros Hs. by eapply IH, pool_step_serves. Qed.

Lemma table_granted g (s0 s : pool) :
  starts s0 -> rtc (pool_step g) s0 s ->
  map_Forall (grants g (tenants_of (po_world s0)) (asked_of s)) (world_tokens (po_world s)).
Proof.
  intros Hs0 Hr. set (tn := tenants_of (po_world s0)).
  assert (Hinv : forall x, rtc (pool_step g) s0 x -> rtc (pool_step g) x s ->
    map_Forall (grants g tn (asked_of s)) (world_tokens (po_world x)) /\
    Forall (fun t => accounted g tn (asked_of s) (th_code t)) (po_threads x)).
  { intros x Hx. refine (rtc_ind_r (fun x => rtc (pool_step g) x s -> _ /\ _) s0 _ _ x Hx).
    { intros _. destruct Hs0 as [Hi Ht]. rewrite Ht, Hi. split; [apply map_Forall_empty|constructor]. }
    clear x Hx. intros x y Hx Hst IH Hy. destruct IH as [Ht Hth]; [by eapply rtc_l|].
    destruct (pool_inv_reachable g s0 x Hs0 Hx) as [_ Hn _].
    destruct Hst as [w ts c Hty|w ts j t t' w' Hj Hs|w ts c]; cbn [po_world po_threads] in *; [| |done].
    - split; [done|]. apply Forall_app. split; [done|]. constructor; [|constructor]. apply accounted_code.
      exists (length ts). eapply run_serves; [exact Hy|]. eexists. split; [by apply list_lookup_middle|done].
    - pose proof (Forall_lookup_1 _ _ _ _ Hth Hj) as Ha. cbn in Ha. unfold thread_step in Hs.
      destruct (th_code t) as [r| |T i k]; [done..|]. destruct Ha as [Hi Hk].
      pose proof (exec_tells g tn (asked_of s) i w Ht Hn) as Hx'. pose proof (exec_grants g tn (asked_of s) i w Ht Hi) as Hg.
      destruct (exec i w) as [r w1]. injection Hs as <- <-. split; [exact Hg|]. apply Forall_insert; [done|]. by apply Hk. }
  by apply Hinv.
Qed.
End Derivation.

(** ** Properties *)

Section Properties.
Context {J : JsonLib} {H : HttpLib} {R : RingLib} {U : UuidLib}.
Context {C A : Type} `{!CredentialStore C} `{!AuditSink A}.
Notation pool := (pool (C := C) (A := A)).

(** C8: every capability can be traced. However the instructions of a server
    interleave from its start, each entry of its token table has a
    derivation from the requests that arrived: a bearer token from a mint
    that passed the tenant gate and the catalogs, with the policy and the
    expiry that mint asked for; a dummy credential from a provisioning with a
    key that has a derivation itself, unexpired at the time, with the same
    policy, for a configured SigV4 service the policy reaches, and a lifetime
    of what that key had left. Nothing else puts a key in the table or
    changes what one grants. *)
Theorem capability_provenance g (s0 s : pool) key e :
  starts s0 -> rtc (pool_step g) s0 s -> world_tokens (po_world s) !! key = Some e ->
  granted g (tenants_of (po_world s0)) (asked_of s) key (e_policy e) (e_expires_at_ms e) (e_secret e).
Proof. intros Hs Hr Hk. exact (table_granted g s0 s Hs Hr key e Hk). Qed.

(** C25: minting under concurrency, on every branch. Whatever is interleaved
    with it, a finished mint answered by the tenant gate and the catalogs
    alone: a refusal with the first failing check's error, or a token of two
    UUIDs and the expiry asked for, which was in the table with the policy at
    a moment of the run after the request arrived. *)
Theorem concurrent_mint_spec g (s0 s : pool) i policy ttl tenant now r es :
  starts s0 -> rtc (pool_step g) s0 s ->
  po_threads s !! i = Some (mkThread (Mint policy ttl tenant now) (Ret r) es) ->
  match gate g (tenants_of (po_world s0)) policy tenant with
  | Err e => r = Minted (Err e)
  | Ok _ => exists a b, r = Minted (Ok (mkMintResponse (bearer a b) (expiry ttl now))) /\
      held g s0 s i (Mint policy ttl tenant now) (bearer a b) (mkEntry policy (expiry ttl now) None)
  end.
Proof.
  intros Hs Hr Hi. pose proof (answers_post g s0 s i _ _ _ Hs Hr Hi) as Hp. destruct r as [|r| | |]; try done.
  cbn in Hp. unfold mint_post in Hp. destruct (gate _ _ _ _); [|by rewrite Hp].
  destruct Hp as (a & b & -> & Hh). by exists a, b.
Qed.

(** C26: provisioning under concurrency, on every branch. A finished fetch was
    decided at one moment after it arrived: if the key was not live then, it
    answered nothing; otherwise the document carries that key and its expiry,
    and one entry for each configured service the key's policy reached, in
    order, with the key itself or, for a SigV4 service, a dummy credential
    that was in the table for that policy. Revocations and sweeps that come
    later do not change it, and no other holder's document does. *)
Theorem concurrent_provision_spec g (s0 s : pool) i token now r es :
  starts s0 -> rtc (pool_step g) s0 s ->
  po_threads s !! i = Some (mkThread (Provision token now) (Ret r) es) ->
  exists sa, moment g s0 s i (Provision token now) sa /\
  match tokens_resolve_full token now (world_tokens (po_world sa)) with
  | None => r = Provisioned None
  | Some (policy, t) => exists svcs, r = Provisioned (Some (mkProvisionDoc token (hackamore_ca_pem g) t svcs)) /\
      Forall2 (provisioned_at g s0 s i (Provision token now) token policy (expiry (ttl_remaining now t) now))
        (List.filter (provisioned policy) (services (router g))) svcs
  end.
Proof.
  intros Hs Hr Hi. pose proof (answers_post g s0 s i _ _ _ Hs Hr Hi) as Hp. destruct r as [| | | |d]; try done.
  cbn in Hp. destruct Hp as (sa & Ha & Hp). exists sa. split; [done|].
  destruct (tokens_resolve_full _ _ _) as [[policy t]|]; [|by rewrite Hp]. destruct Hp as (svcs & -> & Hv). by exists svcs.
Qed.

(** A finished revocation took effect at one step of the run, and reports
    whether the key was in the table then. *)
Lemma concurrent_revoke_spec g (s0 s : pool) i token r es :
  starts s0 -> rtc (pool_step g) s0 s ->
  po_threads s !! i = Some (mkThread (Revoke token) (Ret r) es) ->
  exists b, r = Revoked b /\ revoke_post g s0 s i token b.
Proof.
  intros Hs Hr Hi. pose proof (answers_post g s0 s i _ _ _ Hs Hr Hi) as Hp. destruct r as [| |b| |]; try done. by exists b.
Qed.
End Properties.

(** ** Witnesses: a mint and a fetch, interleaved *)

#[local] Existing Instance ref_json.
#[local] Existing Instance ref_http.
#[local] Existing Instance ref_ring.
#[local] Existing Instance ref_uuid.

Definition ex_open : pool (C := InMemoryCredentials) (A := InMemoryAudit) :=
  mkPool (mkWorld (ControlPlane_new (mkInMemoryCredentials ∅) (mkInMemoryAudit [])) 0) [].

Definition ex_mint : request := Mint ex_ec2_policy 3600 None ex_t0.
Definition ex_fetch : request := Provision (bearer 0 1) (ex_t0 + 1000).

(** A mint of an EC2 token, then a fetch with it while a second mint runs. *)
Definition ex_traced_picks : list (pick (C := InMemoryCredentials)) :=
  [Arrive ex_mint; Advance 0; Advance 0; Advance 0; Advance 0;
   Arrive ex_fetch; Arrive ex_mint; Advance 1; Advance 2; Advance 1; Advance 2; Advance 1; Advance 1; Advance 2; Advance 1].

Definition ex_traced : pool := schedule ex_gateway ex_open ex_traced_picks.

Lemma ex_traced_run : rtc (pool_step ex_gateway) ex_open ex_traced.
Proof. apply schedule_runs. exists ex_traced_picks. exact eq_refl. Qed.

Lemma ex_open_starts : starts ex_open.
Proof. split; exact eq_refl. Qed.

Definition ex_traced_expiry : Z := ex_t0 + 3600000.

Lemma ex_traced_mint :
  po_threads ex_traced !! 0%nat =
    Some (mkThread ex_mint (Ret (Minted (Ok (mkMintResponse (bearer 0 1) ex_traced_expiry)))) []).
Proof. hk_vm. Qed.

Definition ex_traced_doc : ProvisionDoc :=
  mkProvisionDoc (bearer 0 1) "" ex_traced_expiry
    [mkProvisionService "ec2" "generic" "" Inject
       (SigV4Auth (dummy_access_key_id (uuid_simple 2)) (bearer 4 5) "us-east-1")].

Lemma ex_traced_fetch :
  po_threads ex_traced !! 1%nat = Some (mkThread ex_fetch (Ret (Provisioned (Some ex_traced_doc))) []).
Proof. hk_vm. Qed.

Definition ex_traced_entry : Entry := mkEntry ex_ec2_policy ex_traced_expiry (Some (bearer 4 5)).

Lemma ex_traced_dummy :
  world_tokens (po_world ex_traced) !! dummy_access_key_id (uuid_simple 2) = Some (mkEntry ex_ec2_policy (ex_t0 + 3600000) (Some (bearer 4 5))).
Proof. hk_vm. Qed.

Lemma capability_provenance_witness :
  granted ex_gateway (tenants_of (po_world ex_open)) (asked_of ex_traced) (dummy_access_key_id (uuid_simple 2))
    ex_ec2_policy ex_traced_expiry (Some (bearer 4 5)).
Proof.
  apply (capability_provenance ex_gateway ex_open ex_traced _ ex_traced_entry);
    [exact ex_open_starts|exact ex_traced_run|exact ex_traced_dummy].
Defined.

Lemma concurrent_mint_spec_witness :
  match gate ex_gateway (tenants_of (po_world ex_open)) ex_ec2_policy None with
  | Err e => Minted (Ok (mkMintResponse (bearer 0 1) ex_traced_expiry)) = Minted (Err e)
  | Ok _ => exists a b, Minted (Ok (mkMintResponse (bearer 0 1) ex_traced_expiry)) =
        Minted (Ok (mkMintResponse (bearer a b) (expiry 3600 ex_t0))) /\
      held ex_gateway ex_open ex_traced 0 ex_mint (bearer a b) (mkEntry ex_ec2_policy (expiry 3600 ex_t0) None)
  end.
Proof.
  apply (concurrent_mint_spec ex_gateway ex_open ex_traced 0 ex_ec2_policy 3600 None ex_t0 _ []);
    [exact ex_open_starts|exact ex_traced_run|exact ex_traced_mint].
Defined.

Lemma concurrent_provision_spec_witness :
  exists sa, moment ex_gateway ex_open ex_traced 1 ex_fetch sa /\
  match tokens_resolve_full (bearer 0 1) (ex_t0 + 1000) (world_tokens (po_world sa)) with
  | None => Provisioned (Some ex_traced_doc) = Provisioned None
  | Some (policy, t) => exists svcs,
      Provisioned (Some ex_traced_doc) = Provisioned (Some (mkProvisionDoc (bearer 0 1) (hackamore_ca_pem ex_gateway) t svcs)) /\
      Forall2 (provisioned_at ex_gateway ex_open ex_traced 1 ex_fetch (bearer 0 1) policy
          (expiry (ttl_remaining (ex_t0 + 1000) t) (ex_t0 + 1000)))
        (List.filter (provisioned policy) (services (router ex_gateway))) svcs
  end.
Proof.
  apply (concurrent_provision_spec ex_gateway ex_open ex_traced 1 (bearer 0 1) (ex_t0 + 1000) _ []);
    [exact ex_open_starts|exact ex_traced_run|exact ex_traced_fetch].
Defined.
