(* ===== verification/Harness.v ===== *)
(** The end-to-end test harness of [tests/src/lib.rs]: a mock upstream that
    records what it receives, a hackamore server wired to it, and what a
    client sees of the two together. The port the upstream is bound to is an
    argument; bytes echoed over an upgraded connection are not modelled. *)

From S2P Require Import Prelude RustStr Codec Canonicalize External Reference Models Policy SigV4 Service Normalize Control Gateway.
From S2P Require Import Upgrade Server System Tls Conformance.

(** ** The mock upstream *)

Section MockUpstream.
Context {J : JsonLib} {JT : JsonText} {H : HttpLib}.

(** One request the mock upstream received. *)
Record Received := mkReceived {
  rc_method : string;
  rc_path : string;
  rc_authorization : option string;
  rc_body : string;
}.

Record MockUpstream := mkMockUpstream {
  base_url : string;
  requests : list Received;
}.

Definition was_called (m : MockUpstream) : bool := match requests m with [] => false | _ => true end.

Definition start_mock_upstream (port : Z) : MockUpstream := mkMockUpstream ("http://127.0.0.1:" +:+ show_dec port) [].

(** The response builder's [header]. *)
Definition with_header (hs : HeaderMap) (name v : string) : HeaderMap :=
  match hv_from_str v with Some hv => hm_append hs name hv | None => hs end.

Definition is_upgrade_request (hs : HeaderMap) : bool :=
  match header_str hs "connection" with
  | Some v => existsb (fun t => eq_ignore_ascii_case (trim t) "upgrade") (split "," v)
  | None => false
  end && hm_contains_key hs "upgrade".

Definition stream_events : string :=
  "data: one" +:+ NL +:+ NL +:+ "data: two" +:+ NL +:+ NL +:+ "data: three" +:+ NL +:+ NL.

(** The answer, and the list of requests received. *)
Definition record_handler (requests : list Received) (method path : string) (headers : HeaderMap) (body : string)
    : UpstreamResponse * list Received :=
  if is_upgrade_request headers then
    (mkUpstreamResponse 101 (with_header (with_header hm_empty "upgrade" "websocket") "connection" "Upgrade") "",
     requests ++ [mkReceived method path (header_str headers "authorization") ""])
  else
    let body := if (Z.of_nat (String.length body) <=? 25 * 1024 * 1024)%Z then body else "" in
    let requests := requests ++ [mkReceived method path (header_str headers "authorization") body] in
    if contains "stream" path then
      (mkUpstreamResponse 200 (with_header hm_empty "content-type" "text/event-stream") stream_events, requests)
    else
      (mkUpstreamResponse 200 (with_header hm_empty "content-type" "application/json")
         (json_to_string (VObject (<["ok" := VBool true]> (<["path" := VString path]> ∅)))), requests).

(** [uri.path()]: what precedes the query. *)
Definition uri_path (uri : string) : string := match split_once "?" uri with Some (p, _) => p | None => uri end.

(** The network of a test: only the mock upstream answers on it, and never
    with a redirect. *)
Definition mock_net (m : MockUpstream) : Net :=
  mkNet
    (fun method url headers body =>
       match strip_prefix (base_url m) url with
       | Some uri => ([], Ok (record_handler (requests m) method (uri_path uri) headers (default "" body)).1)
       | None => ([], Err "error sending request")
       end)
    (fun _ _ => Ok tt) (fun _ => true) (fun _ => Err "no TLS") (Ok tt)
    (fun r => Ok (record_handler (requests m) (ur_method r) (uri_path (ur_uri r)) (ur_headers r) "").1).

(** A plain request to [url], which the upstream receives if it is its own. *)
Definition receive (m : MockUpstream) (method url : string) (headers : HeaderMap) (body : option string) : MockUpstream :=
  match strip_prefix (base_url m) url with
  | Some uri =>
      mkMockUpstream (base_url m) (record_handler (requests m) method (uri_path uri) headers (default "" body)).2
  | None => m
  end.

(** What the upstream has received once the proxy did [es] on the network. *)
Definition deliver1 (m : MockUpstream) (e : NetEvent) : MockUpstream :=
  match e with
  | SendHttp method url headers body => receive m method url headers body
  | FollowRedirect hop => receive m (hop_method hop) (hop_url hop) (hop_headers hop) (hop_body hop)
  | SendUpgrade r =>
      mkMockUpstream (base_url m) (record_handler (requests m) (ur_method r) (uri_path (ur_uri r)) (ur_headers r) "").2
  | Connect _ _ _ | Splice => m
  end.
Definition deliver (m : MockUpstream) (es : list NetEvent) : MockUpstream := fold_left deliver1 es m.
End MockUpstream.

(** ** The live server *)

Section Hackamore.
Context {J : JsonLib} {JT : JsonText} {H : HttpLib} {Q : RequestLib} {R : RingLib} {U : UuidLib} {Bd : BodyLib}.
Context {X : AxumLib}.

(** The gateway a test starts, and the control plane it can seed and inspect. *)
Record Harness := mkHarness {
  hn_gateway : Gateway;
  hn_world : World InMemoryCredentials InMemoryAudit;
  hn_upstream : MockUpstream;
}.

Definition fresh_world : World InMemoryCredentials InMemoryAudit :=
  mkWorld (ControlPlane_new (mkInMemoryCredentials ∅) (mkInMemoryAudit [])) 0.

Definition start_hackamore_services (m : MockUpstream) (services : list Service) : Harness :=
  mkHarness (Gateway_new (mkRouter services)) fresh_world m.

(** A single catch-all GitHub-flavored service pointing at the upstream. *)
Definition github_service (upstream_base : string) : Service :=
  with_outbound (with_flavor (Service_new "github" "*" upstream_base) Github) (Bearer "github-app").

Definition start_hackamore (m : MockUpstream) : Harness :=
  start_hackamore_services m [github_service (base_url m)].

(** With TLS on the proxy listener: [None] where [expect] panics on the
    material ([server_config] itself never runs out of fuel). *)
Definition start_hackamore_tls_services {B : Base64Lib} {T : TlsLib} (m : MockUpstream) (services : list Service)
    (tls : TlsMaterial) : option (ServerConfig * Harness) :=
  match server_config tls with
  | Some (Ok config) =>
      Some (config, mkHarness (with_ca (Gateway_new (mkRouter services)) (ca_pem tls)) fresh_world m)
  | _ => None
  end.

Definition set_world (h : Harness) (w : World InMemoryCredentials InMemoryAudit) : Harness :=
  mkHarness (hn_gateway h) w (hn_upstream h).

Definition add_credential (id secret : string) (h : Harness) : Harness :=
  set_world h (set_credentials (creds_insert id (mkSecret secret) (cp_credentials (w_control (hn_world h)))) (hn_world h)).

(** A computation on the server's state. *)
Definition on_world {T} (m : eff (World InMemoryCredentials InMemoryAudit) T) : eff Harness T := fun h =>
  let '(r, w) := m (hn_world h) in (r, set_world h w).

(** A request on the proxy listener, the upstream receiving what it may. *)
Definition client_send (req : HttpRequest) (now : Z) : eff Harness Response := fun h =>
  let '(r, w) := serve_proxy (hn_gateway h) (mock_net (hn_upstream h)) req now (hn_world h) in
  match r with
  | Done (Some (response, es)) => (Done response, mkHarness (hn_gateway h) w (deliver (hn_upstream h) es))
  | Done None => (Done (TextResponse 405 ""), set_world h w)
  | Panic => (Panic, set_world h w)
  end.

(** A request on the admin listener, its JSON body decoded. *)
Inductive AdminBody := MintBody (req : MintRequest) | RevokeBody (token : string) | NoBody.

Definition admin_send (method path : string) (headers : HeaderMap) (body : AdminBody) (now : Z) : eff Harness Response :=
  fun h =>
  match axum_dispatch admin_router method path, body with
  | Some MintEndpoint, MintBody req => on_world (mint_handler (hn_gateway h) headers req now) h
  | Some RevokeEndpoint, RevokeBody token => on_world (revoke_handler token) h
  | Some _, _ => (Done (TextResponse 422 ""), h)
  | None, _ => (Done (TextResponse 404 ""), h)
  end.

Definition mint_policy (policy : Policy) (ttl_seconds now : Z) : eff Harness Response :=
  admin_send "POST" "/mint" hm_empty (MintBody (mkMintRequest policy ttl_seconds)) now.

(** Mint and return just the token; panics unless the answer is a success. *)
Definition mint_token (policy : Policy) (ttl_seconds now : Z) : eff Harness string :=
  resp ← mint_policy policy ttl_seconds now;
  match resp with
  | MintedResponse m => mret (mr_token m)
  | _ => eff_lift Panic
  end.
End Hackamore.

(** ** Lemmas *)

Section Lemmas.
Context {J : JsonLib} {JT : JsonText} {H : HttpLib} {HL : HttpLaws H}.

Lemma lacks_join c sep l : lacks c sep -> Forall (lacks c) l -> lacks c (join sep l).
Proof.
  intros Hs. induction 1 as [|x [|y l] Hx _ IH]; [apply lacks_nil|done|].
  rewrite join_cons2. rewrite !lacks_app. done.
Qed.

(** A canonical path holds no question mark. *)
Lemma encoded_lacks_query raw c : Canonicalize.path raw = Done (Ok c) -> lacks "?" (encoded c).
Proof.
  intros (stack & _ & ->)%path_ok_inv. unfold view, encoded. apply lacks_cons. split; [done|].
  apply lacks_join; [done|]. apply List.Forall_map, Forall_true. intros s.
  by apply (lacks_sforall is_uri_byte), uri_encode_bytes.
Qed.

Lemma uri_path_of p query : lacks "?" p -> uri_path (if sempty query then p else p +:+ "?" +:+ query) = p.
Proof.
  intros Hp. unfold uri_path. destruct (sempty query).
  - by rewrite split_once_lacks.
  - change ("?" +:+ query) with (String "?" query). by rewrite split_once_app.
Qed.

(** A decimal number ends in a digit. *)
Lemma trim_show_dec pre n : (0 <= n)%Z -> trim_end_matches "/" (pre +:+ show_dec n) = pre +:+ show_dec n.
Proof.
  intros Hn. assert (Hne : show_dec n <> "").
  { unfold show_dec. destruct (dec_go_head 19 n "" Hn) as (d & t & _ & ->). done. }
  assert (Ht : trim_end_matches "/" (show_dec n) = show_dec n).
  { pose proof (trim_end_matches_lacks "/" (show_dec n) "" (show_dec_lacks "/" n eq_refl) Hne) as E.
    by rewrite !sapp_nil_r in E. }
  rewrite trim_end_matches_app; rewrite Ht; done.
Qed.

Lemma mock_url port p query :
  (0 <= port)%Z ->
  strip_prefix (base_url (start_mock_upstream port)) (upstream_url (base_url (start_mock_upstream port)) p query) =
  Some (if sempty query then p else p +:+ "?" +:+ query).
Proof.
  intros Hp. unfold upstream_url. cbn [start_mock_upstream base_url].
  rewrite trim_show_dec by done. destruct (sempty query); by rewrite ?sapp_assoc, <- ?(sapp_assoc "http://127.0.0.1:"), strip_prefix_app.
Qed.
End Lemmas.

Section EndToEnd.
Context {J : JsonLib} {JT : JsonText} {H : HttpLib} {HL : HttpLaws H} {Q : RequestLib} {R : RingLib} {U : UuidLib}.
Context {Bd : BodyLib} {BdL : BodyLaws Bd} {X : AxumLib} {XL : AxumLaws X}.

Lemma authenticate_live {C A : Type} `{!CredentialStore C} `{!AuditSink A} req now token source policy (w : World C A) :
  sigv4_header (rq_headers req) = None -> extract_auth (rq_headers req) = Some (token, source) ->
  tokens_resolve token now (world_tokens w) = Some policy ->
  authenticate req now w = (Done (Ok (policy, source)), w).
Proof.
  intros Hs He Ht.
  assert (Hb : authenticate_bearer req now w = (Done (Ok (policy, source)), w)).
  { unfold authenticate_bearer. rewrite He. eff_run. cbn [get_control]. unfold world_tokens in Ht. by rewrite Ht. }
  unfold authenticate. unfold sigv4_header in Hs.
  destruct (header_str (rq_headers req) "authorization") as [auth|]; [|done].
  by destruct (starts_with "AWS4-HMAC-SHA256" auth).
Qed.

(** A request with a live token for a service whose credential is a bearer
    token in the vault: what the policy says decides. *)
Lemma handle_bearer {C A : Type} `{!CredentialStore C} `{!AuditSink A} g req now (w : World C A) token source policy
    service credential secret v c a :
  sigv4_header (rq_headers req) = None -> extract_auth (rq_headers req) = Some (token, source) ->
  tokens_resolve token now (world_tokens w) = Some policy ->
  route (router g) (default "" (extract_host (rq_headers req))) = Some service ->
  svc_outbound service = Bearer credential ->
  cred_resolve (cp_credentials (w_control w)) credential = Some secret ->
  hv_from_str ("Bearer " +:+ expose secret) = Some v ->
  Canonicalize.path (rq_path req) = Done (Ok c) -> normalize service req (decoded c) = Done a ->
  exists w', handle g req now w =
    (Done (match decide a policy with
           | VDeny reason => reject FORBIDDEN reason "denied by policy"
           | VAllow _ => Forward (mkForwardPlan (upstream_url (svc_upstream_base service) (encoded c) (rq_query req))
               (rq_method req) (hm_insert (sanitize_headers (rq_headers req) source) "authorization" v) (rq_body req))
           end), w').
Proof.
  intros Hs He Ht Hr Ho Hc Hv Hp Hn. unfold handle. eff_run. rewrite (authenticate_live req now token source policy) by done.
  unfold authorize. cbn zeta. change (match extract_host (rq_headers req) with Some h => h | None => "" end)
    with (default "" (extract_host (rq_headers req))). rewrite Hr. eff_run. rewrite Hp, Hn.
  destruct (decide a policy) as [obs|reason]; [|by eexists]. unfold plan_forward, apply_outbound. rewrite Ho.
  unfold resolve_header_value. eff_run. cbn [get_control]. rewrite Hc, Hv. by eexists.
Qed.

(** The plan's headers never ask the upstream for an upgrade, and carry the
    injected credential alone. *)
Lemma injected_headers hs source v :
  is_upgrade_request (hm_insert (sanitize_headers hs source) "authorization" v) = false /\
  header_str (hm_insert (sanitize_headers hs source) "authorization" v) "authorization" = hv_to_str v.
Proof.
  unfold is_upgrade_request, header_str, hm_get. rewrite !hm_get_all_insert, sanitize_get_all. by destruct source.
Qed.

(** The mock answers a plain request for any path, and records it. *)
Lemma record_plain rs method path hs body :
  is_upgrade_request hs = false -> (Z.of_nat (String.length body) <= MAX_BODY)%Z ->
  record_handler rs method path hs body =
  ((record_handler [] "GET" path hm_empty "").1,
   rs ++ [mkReceived method path (header_str hs "authorization") body]).
Proof.
  intros Hu Hl. unfold record_handler. rewrite Hu.
  assert (He : is_upgrade_request hm_empty = false).
  { unfold is_upgrade_request, header_str, hm_get. by rewrite hm_get_all_empty. }
  rewrite He. cbn zeta. unfold MAX_BODY in Hl. rewrite (proj2 (Z.leb_le _ _) Hl). by destruct (contains "stream" path).
Qed.

(** What the mock answers under a path. *)
Definition mock_answer (path : string) : Response :=
  let r := (record_handler [] "GET" path hm_empty "").1 in
  Relayed (us_status r) (filter_response_headers (us_headers r)) (us_body r).

Lemma mock_forwarded port rs method p query hs body m :
  (0 <= port)%Z -> lacks "?" p -> is_upgrade_request hs = false -> (Z.of_nat (String.length body) <= MAX_BODY)%Z ->
  m = mkMockUpstream (base_url (start_mock_upstream port)) rs ->
  exists es, forward (mock_net m) (mkForwardPlan (upstream_url (base_url m) p query) method hs body) = (mock_answer p, es) /\
    deliver m es = mkMockUpstream (base_url m) (rs ++ [mkReceived method p (header_str hs "authorization") body]).
Proof.
  intros Hport Hp Hu Hl ->. set (m := mkMockUpstream _ rs).
  assert (Eb : default "" (if negb (sempty body) then Some body else None) = body) by (by destruct body).
  assert (Es : strip_prefix (base_url m) (upstream_url (base_url m) p query) =
    Some (if sempty query then p else p +:+ "?" +:+ query)) by (by apply mock_url).
  unfold forward. cbn [fp_url fp_method fp_headers fp_body]. eexists. split.
  - cbn [mock_net net_http]. rewrite Es, uri_path_of, Eb, (record_plain _ method p hs body) by done. done.
  - unfold deliver. cbn [map fold_left deliver1]. unfold receive. rewrite Es, uri_path_of, Eb, (record_plain _ method p hs body) by done. done.
Qed.

(** C30: from the client to the upstream. Against the harness's server and its
    mock upstream, a plain request with a live bearer token, whose path is
    canonical and whose action is known, is answered, and the policy alone
    decides: on an allow the client has the upstream's answer, and the
    upstream has received exactly one request more, under the client's method
    and body, the canonical path and the vault's credential instead of the
    client's token; on a deny the client has a 403 that gives the reason, and
    the upstream has received nothing. *)
Theorem request_end_to_end port requests (h : Harness) hreq body now token source policy secret v c a :
  (0 <= port)%Z ->
  let upstream := start_mock_upstream port in
  let preq := proxy_request hreq body in
  hn_gateway h = hn_gateway (start_hackamore upstream) ->
  hn_upstream h = mkMockUpstream (base_url upstream) requests ->
  hq_path hreq <> "/.hackamore/provision" -> is_upgrade (hq_headers hreq) = false ->
  to_bytes (hq_body hreq) MAX_BODY = Some body ->
  sigv4_header (hq_headers hreq) = None -> extract_auth (hq_headers hreq) = Some (token, source) ->
  tokens_resolve token now (world_tokens (hn_world h)) = Some policy ->
  cred_resolve (cp_credentials (w_control (hn_world h))) "github-app" = Some secret ->
  hv_from_str ("Bearer " +:+ expose secret) = Some v ->
  Canonicalize.path (hq_path hreq) = Done (Ok c) ->
  normalize (github_service (base_url upstream)) preq (decoded c) = Done a ->
  exists h', client_send hreq now h =
    (Done (match decide a policy with
           | VAllow _ => mock_answer (encoded c)
           | VDeny reason => rejection_response (mkRejection FORBIDDEN reason "denied by policy")
           end), h') /\
    Harness.requests (hn_upstream h') =
      match decide a policy with
      | VAllow _ => requests ++ [mkReceived (hq_method hreq) (encoded c) (Some ("Bearer " +:+ expose secret)) body]
      | VDeny _ => requests
      end.
Proof.
  intros Hport upstream preq Hg Hup Hne Hu Hb Hs He Ht Hc Hv Hp Hn. unfold client_send, serve_proxy.
  rewrite axum_fallback by (repeat constructor; cbn; congruence). cbn [rt_fallback proxy_router].
  unfold proxy_handler. rewrite Hb. pose proof (to_bytes_limit _ _ _ Hb) as Hlen.
  destruct (handle_bearer (hn_gateway h) preq now (hn_world h) token source policy (github_service (base_url upstream))
    "github-app" secret v c a) as [w' Hh]; try done.
  { by rewrite Hg. }
  eff_run. fold preq. rewrite Hh. destruct (decide a policy) as [obs|reason].
  2:{ eexists. split; [done|]. cbn. by rewrite Hup. }
  unfold respond, on_upgrade. rewrite Hu. cbn [andb].
  destruct (injected_headers (rq_headers preq) source v) as [Hup' Hauth]. apply encoded_lacks_query in Hp.
  destruct (mock_forwarded port requests (rq_method preq) (encoded c) (rq_query preq) _ body (hn_upstream h)
    Hport Hp Hup' Hlen Hup) as (es & Ef & Ed).
  assert (Eu : svc_upstream_base (github_service (base_url upstream)) = base_url (hn_upstream h)) by by rewrite Hup.
  rewrite Eu. change (rq_body preq) with body. rewrite Ef. eexists. split; [reflexivity|].
  cbn [hn_upstream]. rewrite Ed. cbn [Harness.requests]. by rewrite Hauth, (hv_to_from_str _ _ Hv).
Qed.
End EndToEnd.

(** ** Witness: a read through the harness *)

#[local] Existing Instance ref_json.
#[local] Existing Instance ref_json_text.
#[local] Existing Instance ref_http.
#[local] Existing Instance ref_http_laws.
#[local] Existing Instance ref_request.
#[local] Existing Instance ref_ring.
#[local] Existing Instance ref_uuid.
#[local] Existing Instance ref_body.
#[local] Existing Instance ref_body_laws.
#[local] Existing Instance ref_axum.
#[local] Existing Instance ref_axum_laws.

Definition ex_started : Harness := add_credential "github-app" "real-secret-token" (start_hackamore (start_mock_upstream 9000)).
Definition ex_reads : Policy := mkPolicy [mkRule Allow (mkMatch [] [Verb_crud Read] ["repos/octocat/**"] [])].
Definition ex_issued : comp string * Harness := mint_token ex_reads 3600 1000 ex_started.
Definition ex_issued_token : string := done_or "" ex_issued.1.
Definition ex_read : HttpRequest :=
  mkHttpRequest "GET" "/repos/x/../octocat//hello" None [("authorization", "Bearer " +:+ ex_issued_token)] false "".
Definition ex_read_path : CanonicalPath :=
  match done_or (Err Escape) (Canonicalize.path (hq_path ex_read)) with Ok c => c | Err _ => view [] end.
Definition ex_read_action : Action :=
  done_or (Action_of "" (Verb_crud Read) (mkResource "" "")) (normalize (github_service "") (proxy_request ex_read "") (decoded ex_read_path)).

Lemma request_end_to_end_witness :
  exists h', client_send ex_read 2000 ex_issued.2 =
    (Done (match decide ex_read_action ex_reads with
           | VAllow _ => mock_answer (encoded ex_read_path)
           | VDeny reason => rejection_response (mkRejection FORBIDDEN reason "denied by policy")
           end), h') /\
    Harness.requests (hn_upstream h') =
      match decide ex_read_action ex_reads with
      | VAllow _ => [] ++ [mkReceived "GET" (encoded ex_read_path) (Some ("Bearer " +:+ expose (mkSecret "real-secret-token"))) ""]
      | VDeny _ => []
      end.
Proof.
  apply (request_end_to_end 9000 [] ex_issued.2 ex_read "" 2000 ex_issued_token Authorization ex_reads
    (mkSecret "real-secret-token") "Bearer real-secret-token" ex_read_path ex_read_action);
    [lia|hk_vm|hk_vm|vm_compute; discriminate|hk_vm..].
Defined.

(** That request is the read of the canonical path, and it is allowed. *)
Lemma ex_read_allowed :
  encoded ex_read_path = "/repos/octocat/hello" /\ decide ex_read_action ex_reads = VAllow [].
Proof. split; hk_vm. Qed.
