(* ===== verification/EndToEnd.v ===== *)
(** The end-to-end tests of the repository ([tests/tests/]), run on the model:
    each scenario drives the server of [Harness] through its proxy and admin
    listeners with the mock upstream behind it, and the agent's writers where
    the test uses them, with the test's own inputs and assertions. The paths
    are sent as the tests spell them, before any normalisation by the HTTP
    client; the TLS handshake and the bytes of an upgraded connection are
    not modelled. *)

From S2P Require Import Prelude RustStr Codec External Reference Models Policy SigV4 Service Normalize Control Gateway.
From S2P Require Import Upgrade Server System Providers Tls Agent Commands Conformance ConformanceControl Harness.

#[local] Existing Instance ref_json.
#[local] Existing Instance ref_json_text.
#[local] Existing Instance ref_http.
#[local] Existing Instance ref_http_laws.
#[local] Existing Instance ref_request.
#[local] Existing Instance ref_ring.
#[local] Existing Instance ref_uuid.
#[local] Existing Instance ref_body.
#[local] Existing Instance ref_axum.
#[local] Existing Instance ref_base64.
#[local] Existing Instance ref_tls.

(** ** The client *)

Notation Scenario := (eff Harness bool).

Definition upstream : MockUpstream := start_mock_upstream 9000.
(** Where the proxy listens, and the wall clock. *)
Definition proxy_addr : string := "127.0.0.1:9001".
Definition wall : Z := 1700000000000.

(** A request of the HTTP client, which adds its [Host]. *)
Definition http (method path : string) (headers : list (string * string)) (body : string) : HttpRequest :=
  mkHttpRequest method path None (("host", proxy_addr) :: headers) false body.

Definition fetch_at (method path : string) (headers : list (string * string)) (body : string) : eff Harness Response :=
  client_send (http method path headers body) wall.

Definition bearer_auth (token : string) : list (string * string) := [("authorization", "Bearer " +:+ token)].
Definition hackamore_token (token : string) : list (string * string) := [(HACKAMORE_TOKEN_HEADER, token)].

Definition status_of (r : Response) : Z :=
  match r with
  | TextResponse status _ | JsonResponse status _ | Relayed status _ _ => status
  | MintedResponse _ | RevokedResponse _ | ProvisionResponse _ => 200
  end.
Definition status_is (r : Response) (n : Z) : bool := (status_of r =? n)%Z.

Definition seen : eff Harness (list Received) := fun h => (Done (Harness.requests (hn_upstream h)), h).
Definition contacted : eff Harness bool := fun h => (Done (was_called (hn_upstream h)), h).
Definition audited : eff Harness (list AuditEvent) := fun h => (Done (events (cp_audit (w_control (hn_world h)))), h).

(** A scenario passes when none of its [unwrap]s panics and its assertions
    hold. *)
Definition passes (s : Scenario) (h : Harness) : bool := on_done (s h).1 id.

Definition one (m : Match) : Policy := mkPolicy [mkRule Allow m].

Definition sees (l : list Received) (i : nat) (path auth : string) : bool :=
  on_some (l !! i) (fun r => (rc_path r =s path) && (rc_authorization r ≟ Some auth)).

(** ** [tests/tests/e2e.rs] *)

Module E2E.

Definition READ_ONLY : Policy := one (mkMatch [] [Verb_crud Read] [] []).
Definition PR_TO_DEVELOP_ONLY : Policy :=
  one (mkMatch [] [Verb_crud Create] ["repos/*/*/pulls"] [Equals "base" (str "develop")]).
Definition OCTOCAT_READS : Policy := one (mkMatch [] [Verb_crud Read] ["repos/octocat/**"] []).

Definition started : Harness := start_hackamore upstream.
Definition seeded : Harness := add_credential "github-app" "real-secret-token" started.

Definition pull (base title : string) : string := json_to_string (obj [("base", str base); ("title", str title)]).

Definition pr_create_gated_by_base_branch : bool :=
  passes (token ← mint_token PR_TO_DEVELOP_ONLY 3600 wall;
          ok ← fetch_at "POST" "/repos/octocat/hello/pulls" (bearer_auth token) (pull "develop" "feature");
          denied ← fetch_at "POST" "/repos/octocat/hello/pulls" (bearer_auth token) (pull "main" "sneaky");
          got ← seen;
          mret (status_is ok 200 && status_is denied 403 && (length got =? 1)%nat
                && on_some (head got) (fun r =>
                     (rc_method r =s "POST") && (rc_path r =s "/repos/octocat/hello/pulls")))) seeded.

Definition path_traversal_cannot_escape_resource_scope : bool :=
  passes (token ← mint_token OCTOCAT_READS 3600 wall;
          ok ← fetch_at "GET" "/repos/octocat/hello" (bearer_auth token) "";
          traversal ← fetch_at "GET" "/repos/octocat/../evil/secret" (bearer_auth token) "";
          encoded ← fetch_at "GET" "/repos/octocat/%2e%2e/evil/secret" (bearer_auth token) "";
          got ← seen;
          mret (status_is ok 200 && status_is traversal 403 && status_is encoded 403 && (length got =? 1)%nat)) seeded.

Definition missing_or_invalid_token_is_unauthorized : bool :=
  passes (no_auth ← fetch_at "GET" "/repos/octocat/hello" [] "";
          bad_auth ← fetch_at "GET" "/repos/octocat/hello" (bearer_auth "not-a-real-token") "";
          called ← contacted;
          mret (status_is no_auth 401 && status_is bad_auth 401 && negb called)) seeded.

Definition revoked (r : Response) (b : bool) : bool :=
  match r with RevokedResponse b' => Bool.eqb b b' | _ => false end.

Definition revoked_token_is_rejected : bool :=
  passes (token ← mint_token READ_ONLY 3600 wall;
          ok ← fetch_at "GET" "/repos/octocat/hello" (bearer_auth token) "";
          revoke ← admin_send "POST" "/revoke" hm_empty (RevokeBody token) wall;
          after ← fetch_at "GET" "/repos/octocat/hello" (bearer_auth token) "";
          again ← admin_send "POST" "/revoke" hm_empty (RevokeBody "never-existed") wall;
          got ← seen;
          mret (status_is ok 200 && revoked revoke true && status_is after 401 && revoked again false
                && (length got =? 1)%nat)) seeded.

(** [control.tenants.insert]. *)
Definition with_tenant (key : string) (owned : list string) (h : Harness) : Harness :=
  let w := hn_world h in let cp := w_control w in
  set_world h (mkWorld (mkControlPlane (cp_tokens cp) (tenants_insert key owned (cp_tenants cp)) (cp_credentials cp)
    (cp_audit cp)) (w_uuids w)).

Definition mint_as (tenant : option string) (target : string) : eff Harness Response :=
  admin_send "POST" "/mint" (match tenant with Some t => [("x-hackamore-tenant", t)] | None => [] end)
    (MintBody (mkMintRequest (one (mkMatch [target] [] [] [])) 60)) wall.

Definition tenant_mint_is_scoped_to_owned_targets : bool :=
  passes (owned ← mint_as (Some "tenant-a") "github";
          unowned ← mint_as (Some "tenant-a") "openai";
          missing ← mint_as None "github";
          ghost ← mint_as (Some "ghost") "github";
          mret (status_is owned 200 && status_is unowned 403 && status_is missing 403 && status_is ghost 403))
    (with_tenant "tenant-a" ["github"] started).

(** No text of the document contains the needle. *)
Definition auth_contains (a : ProvisionAuth) (needle : string) : bool :=
  match a with
  | BearerAuth t => contains needle t
  | SigV4Auth akid secret region => contains needle akid || contains needle secret || contains needle region
  end.
Definition resp_text_contains (doc : ProvisionDoc) (needle : string) : bool :=
  contains needle (Models.hackamore_token doc) || contains needle (hackamore_ca doc)
  || existsb (fun s => contains needle (ps_target s) || contains needle (ps_flavor s) || contains needle (ps_address s)
                       || auth_contains (ps_auth s) needle) (pd_services doc).

Definition provision_is_served_from_the_proxy_listener : bool :=
  passes (token ← mint_token READ_ONLY 3600 wall;
          via_proxy ← fetch_at "GET" "/.hackamore/provision" (hackamore_token token) "";
          via_admin ← admin_send "GET" "/provision" [(HACKAMORE_TOKEN_HEADER, token)] NoBody wall;
          no_token ← fetch_at "GET" "/.hackamore/provision" [] "";
          bad_token ← fetch_at "GET" "/.hackamore/provision" (hackamore_token "never-existed") "";
          called ← contacted;
          mret (match via_proxy with
                | ProvisionResponse doc =>
                    (Models.hackamore_token doc =s token)
                    && existsb (fun s => ps_target s =s "github") (pd_services doc)
                    && negb (resp_text_contains doc "real-secret-token")
                | _ => false
                end
                && status_is via_admin 404 && status_is no_token 401 && status_is bad_token 401
                && negb called)) seeded.

Definition admin_mint_accepts_any_valid_policy : bool :=
  passes (resp ← mint_policy READ_ONLY 3600 wall; mret (status_is resp 200)) started.

Definition decisions_are_audited : bool :=
  passes (token ← mint_token READ_ONLY 3600 wall;
          _ ← fetch_at "GET" "/repos/octocat/hello" (bearer_auth token) "";
          _ ← fetch_at "DELETE" "/repos/octocat/hello" (bearer_auth token) "";
          log ← audited;
          mret (map ev_decision log ≟ [DecisionAllow; DecisionDeny])) seeded.

Definition tests : list bool :=
  [pr_create_gated_by_base_branch; path_traversal_cannot_escape_resource_scope;
   missing_or_invalid_token_is_unauthorized; revoked_token_is_rejected; tenant_mint_is_scoped_to_owned_targets;
   provision_is_served_from_the_proxy_listener; admin_mint_accepts_any_valid_policy; decisions_are_audited].

Lemma e2e_tests_pass : forallb id tests = true.
Proof. hk_vm. Qed.
End E2E.

(** ** [tests/tests/transports.rs] *)

Module Transports.

Definition allow_all : Policy := one (mkMatch [] [] [] []).

Definition hosted_service (name host : string) (flavor : Flavor) (credential : string) : Service :=
  with_outbound (with_flavor (Service_new name host (base_url upstream)) flavor) (Bearer credential).

Definition started (s : Service) (credential secret : string) : Harness :=
  add_credential credential secret (start_hackamore_services upstream [s]).

Definition sse_stream_is_relayed : bool :=
  passes (token ← mint_token allow_all 3600 wall;
          resp ← fetch_at "GET" "/v1/stream" (bearer_auth token) "";
          mret (match resp with
                | Relayed status headers body =>
                    (status =? 200)%Z && (header_str headers "content-type" ≟ Some "text/event-stream")
                    && contains "data: one" body && contains "data: three" body
                | _ => false
                end)) (started (hosted_service "events" "*" Generic "svc-key") "svc-key" "real").

(** The requests over the TLS listener are the plain listener's. *)
Definition tls_terminated_proxy_serves_https_and_publishes_ca : bool :=
  let tls := mkTlsMaterial TlsTests.TEST_CERT TlsTests.TEST_KEY TlsTests.TEST_CA in
  match start_hackamore_tls_services upstream [hosted_service "svc" "*" Generic "svc-key"] tls with
  | Some (_, h) =>
      passes (token ← mint_token allow_all 3600 wall;
              resp ← fetch_at "GET" "/v1/x" (bearer_auth token) "";
              doc ← fetch_at "GET" "/.hackamore/provision" (hackamore_token token) "";
              mret (status_is resp 200
                    && match doc with
                       | ProvisionResponse doc => contains "BEGIN CERTIFICATE" (hackamore_ca doc)
                       | _ => false
                       end)) (add_credential "svc-key" "real" h)
  | None => false
  end.

Definition upgrade_request (token : string) : HttpRequest :=
  mkHttpRequest "GET" "/exec" None
    [("host", proxy_addr); ("connection", "Upgrade"); ("upgrade", "websocket");
     ("sec-websocket-key", "dGhlIHNhbXBsZSBub25jZQ=="); ("sec-websocket-version", "13");
     ("authorization", "Bearer " +:+ token)] true "".

Definition allowed_upgrade_is_tunneled_to_upstream : bool :=
  passes (token ← mint_token allow_all 3600 wall;
          resp ← client_send (upgrade_request token) wall;
          got ← seen;
          mret (status_is resp 101 && sees got 0 "/exec" "Bearer real"))
    (started (hosted_service "svc" "*" Generic "svc-key") "svc-key" "real").

Definition unrouted_host_is_denied : bool :=
  passes (token ← mint_token allow_all 3600 wall;
          resp ← fetch_at "GET" "/repos/o/r" (bearer_auth token) "";
          called ← contacted;
          mret (status_is resp 404 && negb called))
    (started (hosted_service "github" "api.github.com" Github "github-app") "github-app" "real").

Definition tests : list bool :=
  [sse_stream_is_relayed; tls_terminated_proxy_serves_https_and_publishes_ca;
   allowed_upgrade_is_tunneled_to_upstream; unrouted_host_is_denied].

Lemma transports_tests_pass : forallb id tests = true.
Proof. hk_vm. Qed.
End Transports.

(** ** [tests/tests/use_cases.rs] *)

Module UseCases.

Definition service (name : string) (flavor : Flavor) (outbound : Outbound) : Service :=
  with_outbound (with_flavor (Service_new name "*" (base_url upstream)) flavor) outbound.

Definition started (s : Service) (credential secret : string) : Harness :=
  add_credential credential secret (start_hackamore_services upstream [s]).

(** The home of the consumer, empty at first. *)
Definition home : string := "/home/agent".

(** Mint a token, fetch the provision document on the proxy listener as the
    agent does, and run the agent's writers: the token, the document and the
    files. *)
Definition provision_agent (pol : Policy) : eff Harness (string * ProvisionDoc * Files) :=
  token ← mint_token pol 3600 wall;
  resp ← client_send (mkHttpRequest "GET" "/.hackamore/provision" None (agent_headers token) false "") wall;
  match resp with
  | ProvisionResponse doc =>
      match write_configs no_faults home doc ∅ with
      | (Ok _, files) => mret (token, doc, files)
      | (Err _, _) => eff_lift Panic
      end
  | _ => eff_lift Panic
  end.

Definition written (files : Files) (rel : string) (p : string -> bool) : bool := on_some (files !! join_path home rel) p.

Definition github_use_case : bool :=
  passes ('(token, _, files) ← provision_agent (one (mkMatch [] [Verb_crud Read] ["repos/octocat/**"] []));
          ok ← fetch_at "GET" "/repos/octocat/hello" (hackamore_token token) "";
          denied ← fetch_at "DELETE" "/repos/octocat/hello" (hackamore_token token) "";
          got ← seen;
          mret (written files ".git-credentials" (contains token)
                && status_is ok 200 && sees got 0 "/repos/octocat/hello" "Bearer ghs-real-token"
                && status_is denied 403 && (length got =? 1)%nat))
    (started (service "github" Github (Bearer "github-app")) "github-app" "ghs-real-token").

Definition generic_use_case : bool :=
  passes ('(token, _, files) ← provision_agent (one (mkMatch [] [] [] []));
          resp ← fetch_at "POST" "/v1/chat/completions" (hackamore_token token) (json_to_string (obj [("model", str "gpt")]));
          got ← seen;
          mret (written files "hackamore.env" (contains token)
                && status_is resp 200 && sees got 0 "/v1/chat/completions" "Bearer sk-real-key"))
    (started (service "openai" Generic (Bearer "openai-key")) "openai-key" "sk-real-key").

Definition k8s_use_case : bool :=
  passes ('(token, _, files) ← provision_agent (one (mkMatch [] [Verb_crud Read] ["api/v1/namespaces/dev/**"] []));
          ok ← fetch_at "GET" "/api/v1/namespaces/dev/pods" (hackamore_token token) "";
          denied ← fetch_at "GET" "/api/v1/namespaces/prod/pods" (hackamore_token token) "";
          got ← seen;
          mret (written files ".kube/config" (fun kube => contains "kind: Config" kube && contains ("token: " +:+ token) kube)
                && status_is ok 200 && sees got 0 "/api/v1/namespaces/dev/pods" "Bearer k8s-aws-v1.real"
                && status_is denied 403 && (length got =? 1)%nat))
    (started (service "eks-prod" K8s (Bearer "eks-token")) "eks-token" "k8s-aws-v1.real").

(** Sign a body with the dummy credential, as the aws CLI does, and send it. *)
Definition send_signed (akid secret body : string) : eff Harness Response :=
  signed ← eff_lift (sign (mkCreds akid secret) "us-east-1" "ec2" "POST" proxy_addr "/" "" body wall);
  fetch_at "POST" "/" [("authorization", authorization signed); ("x-amz-date", amz_date signed);
                       ("x-amz-content-sha256", content_sha256 signed)] body.

Definition ec2 : Service :=
  with_extract (with_outbound (Service_new "ec2" "*" (base_url upstream))
    (SigV4 "aws-secret" "REALAKID" "us-east-1" "ec2")) (mkExtract AwsQuery None).

Definition aws_use_case : bool :=
  passes ('(_, doc, files) ← provision_agent (one (mkMatch [] [Verb_action "DescribeInstances"] [] []));
          match List.find (fun s => ps_target s =s "ec2") (pd_services doc) with
          | Some (mkProvisionService _ _ _ _ (SigV4Auth akid secret _)) =>
              ok ← send_signed akid secret "Action=DescribeInstances&Version=2016-11-15";
              denied ← send_signed akid secret "Action=TerminateInstances&InstanceId=i-123";
              got ← seen;
              mret (written files ".aws/credentials" (fun creds =>
                      contains "aws_access_key_id = AKIAHACKAMORE" creds && negb (contains "real-secret-key" creds))
                    && status_is ok 200
                    && on_some (head got ≫= rc_authorization) (fun auth =>
                         starts_with "AWS4-HMAC-SHA256 Credential=REALAKID/" auth && negb (contains akid auth))
                    && status_is denied 403 && (length got =? 1)%nat)
          | _ => eff_lift Panic
          end) (started ec2 "aws-secret" "real-secret-key").

Definition tests : list bool := [github_use_case; generic_use_case; k8s_use_case; aws_use_case].

Lemma use_cases_tests_pass : forallb id tests = true.
Proof. hk_vm. Qed.
End UseCases.

(** ** [tests/tests/providers.rs]

    The mock [access_tokens] endpoint; keys and RSA signatures are the
    reference instance's. *)

Module ProviderExchange.

Definition api_base : string := "http://127.0.0.1:9002".

(** The endpoint answers under its route only, and only a bearer of three
    dot-separated parts. *)
#[local] Instance access_tokens : ExchangeLib := {|
  http_post url bearer :=
    match strip_prefix (api_base +:+ "/app/installations/") url ≫= split_once "/" with
    | Some (installation_id, "access_tokens") =>
        if (length (split "." bearer) =? 3)%nat
        then Ok (200%Z, Ok ("ghs_installation_token_for_" +:+ installation_id))
        else Ok (401%Z, Err "missing field")
    | _ => Ok (404%Z, Err "EOF while parsing")
    end;
  show_status := show_dec;
|}.

#[local] Existing Instance ref_rsa.

Definition github_app_provider_mints_installation_token : bool :=
  match pkcs8_from_pem ProvidersTests.GITHUB_APP_KEY with
  | Ok der =>
      match github_mint (mkGitHubApp "123456" "789" der api_base) wall with
      | Ok minted =>
          (expose (ms_secret minted) =s "ghs_installation_token_for_789") && (wall <? ms_expires_at_ms minted)%Z
      | Err _ => false
      end
  | Err _ => false
  end.

Lemma provider_exchange_test_passes : github_app_provider_mints_installation_token = true.
Proof. hk_vm. Qed.
End ProviderExchange.
